(** * Outlier-aware Lion optimizers (examples/common/optim/outlier_lion.py)

    A shallow embedding of the five optimizers of [outlier_lion.py]
    (SkipLion, AdaBetaLion, AdaLRLion, ClipLion, FullyAdaptiveLion), of
    their shared update rule [lionw] and of the metric reduction protocol,
    followed by the properties the specification states about them.

    Numbers.  Tensor elements and Python floats are modelled as real
    numbers: the development is about the arithmetic the code writes
    down, not about its rounding.  Python integers (step counters,
    timeouts) are [Z]; lengths are [nat].

    Tensors.  PyTorch tensors are mutable objects that the code updates
    in place and shares between the optimizer state, the parameter and
    the metric map.  They are modelled as cells of a store addressed by
    references, so that "in place", "on a clone" and "not mutated" are
    statements about cells.

    Exceptions.  A call that raises ([math.sqrt] of a negative number, a
    missing key, a failed unpacking, a division of Python floats by zero,
    a failed [assert]) has no result: [None].

    Collaborators.  [OutlierDetector], [composer.utils.dist] and
    [cosine_similarity] are imported by the source; they are interfaces
    here, and every property holds for all their implementations. *)

From Stdlib Require Import String Ascii.
From Stdlib Require Import Reals Lra Lia List ZArith Bool Arith.
From Stdlib Require Import Permutation Sorting.Sorted.
Import ListNotations.

Open Scope R_scope.

(* ================================================================== *)
(** * Tensors and the store *)
(* ================================================================== *)

(** A tensor is the flat list of its elements. *)
Definition tensor := list R.

(** A reference to a tensor object. *)
Definition ref := nat.

(** The machine state seen by one worker: the tensor store ([next_ref] is
    the first unallocated reference) and the number of collective calls
    made so far. *)
Record machine := {
  next_ref : ref;
  cell : ref -> tensor;
  calls : nat
}.

Definition write (r : ref) (t : tensor) (s : machine) : machine :=
  {| next_ref := next_ref s;
     cell := fun r' => if Nat.eqb r' r then t else cell s r';
     calls := calls s |}.

Definition alloc (t : tensor) (s : machine) : ref * machine :=
  (next_ref s,
   {| next_ref := S (next_ref s);
      cell := fun r' => if Nat.eqb r' (next_ref s) then t else cell s r';
      calls := calls s |}).

(** Elementwise combination of two tensors of the same shape.  Every call
    the optimizers make passes tensors of one shape (a parameter, its
    gradient and [zeros_like] of it); the properties below assume equal
    lengths, so the truncation on unequal lengths is never relied on. *)
Fixpoint zip_with (f : R -> R -> R) (a b : tensor) : tensor :=
  match a, b with
  | x :: a', y :: b' => f x y :: zip_with f a' b'
  | _, _ => []
  end.

(** [torch.lerp]: [start + weight * (end - start)]. *)
Definition lerp_val (start end_ weight : R) : R :=
  start + weight * (end_ - start).

(** [torch.sign]: -1 for negative, 0 for zero, +1 for positive. *)
Definition sign_val (x : R) : R :=
  if Rlt_dec x 0 then -1 else if Rlt_dec 0 x then 1 else 0.

Definition sum_squares (t : tensor) : R :=
  fold_right (fun x acc => x * x + acc) 0 t.

(** The tensor operations the source uses.  A name ending in [_] is the
    in-place operation: it overwrites the cell of its first argument.
    The others allocate a fresh tensor and return its reference. *)
Module torch.

Definition lerp (a b : ref) (weight : R) (s : machine) : ref * machine :=
  alloc (zip_with (fun x y => lerp_val x y weight) (cell s a) (cell s b)) s.

Definition lerp_ (a b : ref) (weight : R) (s : machine) : machine :=
  write a (zip_with (fun x y => lerp_val x y weight) (cell s a) (cell s b)) s.

Definition sign_ (a : ref) (s : machine) : machine :=
  write a (map sign_val (cell s a)) s.

Definition mul_ (a : ref) (c : R) (s : machine) : machine :=
  write a (map (fun x => x * c) (cell s a)) s.

(** [a.add_(b, alpha=alpha)]: [a += alpha * b]. *)
Definition add_ (a b : ref) (alpha : R) (s : machine) : machine :=
  write a (zip_with (fun x y => x + alpha * y) (cell s a) (cell s b)) s.

(** [a += c] for a Python float [c]. *)
Definition add_scalar_ (a : ref) (c : R) (s : machine) : machine :=
  write a (map (fun x => x + c) (cell s a)) s.

Definition div (a : ref) (c : R) (s : machine) : ref * machine :=
  alloc (map (fun x => x / c) (cell s a)) s.

Definition clone (a : ref) (s : machine) : ref * machine :=
  alloc (cell s a) s.

Definition zeros_like (a : ref) (s : machine) : ref * machine :=
  alloc (repeat 0 (length (cell s a))) s.

(** [torch.tensor(x)] for a Python float [x]: a fresh 0-dim tensor. *)
Definition scalar_tensor (x : R) (s : machine) : ref * machine :=
  alloc [x] s.

(** [torch.linalg.vector_norm]: the L2 norm. *)
Definition vector_norm (t : tensor) : R := sqrt (sum_squares t).

End torch.

(** The value of a 0-dim tensor ([float(t)], [t.item()]). *)
Definition item (t : tensor) : R := nth 0 t 0.

(** [math.sqrt]: raises [ValueError] on a negative argument. *)
Definition math_sqrt (x : R) : option R :=
  if Rlt_dec x 0 then None else Some (sqrt x).

(* ================================================================== *)
(** * The shared update rule *)
(* ================================================================== *)

(** [lionw] (outlier_lion.py, lines 59-71; the same static method is
    repeated verbatim in all five classes).  [p.data] shares its storage
    with [p], so both are the reference [p].  Python's truth test
    [if initial_lr] on a float is [initial_lr != 0]. *)
Definition lionw (p grad exp_avg : ref) (lr initial_lr wd beta1 beta2 : R)
    (s : machine) : machine :=
  (* stepweight decay *)
  let s :=
    if Req_dec_T wd 0 then s
    else
      let decay_factor :=
        if Req_dec_T initial_lr 0 then 1 else lr / initial_lr in
      torch.mul_ p (1 - decay_factor * wd) s in
  (* update is interpolation between gradient and momentum *)
  let '(update, s) := torch.lerp exp_avg grad (1 - beta1) s in
  let s := torch.sign_ update s in
  let s := torch.add_ p update (- lr) s in
  (* momentum is interp b/w gradient and itself *)
  torch.lerp_ exp_avg grad (1 - beta2) s.

(** The update rule in the words of the specification (section 4.2,
    SignMomentumUpdate), as pure functions of the three tensors. *)
Module SignMomentumUpdate.

(** Step 1: the factor the parameter is scaled by. *)
Definition decay_scale (lr initial_lr weight_decay : R) : R :=
  if Req_dec_T weight_decay 0 then 1
  else if Req_dec_T initial_lr 0 then 1 - weight_decay * 1
  else 1 - weight_decay * (lr / initial_lr).

(** Step 2: [update = sign(lerp(momentum, gradient, 1 - beta1))]. *)
Definition update (momentum gradient : tensor) (beta1 : R) : tensor :=
  zip_with (fun m g => sign_val (lerp_val m g (1 - beta1))) momentum gradient.

(** Steps 1 and 2: the new parameter, [scale * parameter - lr * update]. *)
Definition new_parameter (parameter gradient momentum : tensor)
    (lr initial_lr weight_decay beta1 : R) : tensor :=
  zip_with (fun x u => decay_scale lr initial_lr weight_decay * x - lr * u)
    parameter (update momentum gradient beta1).

(** Step 3: [momentum = lerp(momentum, gradient, 1 - beta2)]. *)
Definition new_momentum (momentum gradient : tensor) (beta2 : R) : tensor :=
  zip_with (fun m g => lerp_val m g (1 - beta2)) momentum gradient.

End SignMomentumUpdate.

(* ================================================================== *)
(** * Python values used by the optimizers *)
(* ================================================================== *)

(** A call that raises is modelled by [None]; [for_each] is a [for] loop
    whose body may raise. *)
Fixpoint for_each {A X : Type} (body : A -> X -> option X) (l : list A) (x : X)
    : option X :=
  match l with
  | [] => Some x
  | a :: l' =>
      match body a x with
      | Some x' => for_each body l' x'
      | None => None
      end
  end.

(** An insertion-ordered [dict]: assigning to a key that is present keeps
    its position, assigning to a new key appends it. *)
Section Dict.
Context {K V : Type} (eqb : K -> K -> bool).

Definition dict := list (K * V).

Definition keys (d : dict) : list K := map fst d.

Fixpoint dict_get (k : K) (d : dict) : option V :=
  match d with
  | [] => None
  | (k', v) :: d' => if eqb k k' then Some v else dict_get k d'
  end.

Fixpoint dict_set (k : K) (v : V) (d : dict) : dict :=
  match d with
  | [] => [(k, v)]
  | (k', v') :: d' =>
      if eqb k k' then (k', v) :: d' else (k', v') :: dict_set k v d'
  end.
End Dict.

(** A dictionary keyed by object identity that is never iterated. *)
Definition id_map (V : Type) := ref -> option V.

Definition id_set {V : Type} (k : ref) (v : V) (m : id_map V) : id_map V :=
  fun k' => if Nat.eqb k' k then Some v else m k'.

(** [list.remove(x)]: removes the first occurrence.  (It raises when
    there is none; the eviction loop only removes values it has just read
    from the list.) *)
Fixpoint remove_first (x : Z) (l : list Z) : list Z :=
  match l with
  | [] => []
  | y :: l' => if Z.eqb x y then l' else y :: remove_first x l'
  end.

(** [sorted(l, key=key)]: a stable sort, here by insertion from the
    right, which keeps the original order among equal keys. *)
Fixpoint insert_by {A : Type} (key : A -> nat) (x : A) (l : list A) : list A :=
  match l with
  | [] => [x]
  | y :: l' => if (key x <=? key y)%nat then x :: l else y :: insert_by key x l'
  end.

Fixpoint sorted {A : Type} (key : A -> nat) (l : list A) : list A :=
  match l with
  | [] => []
  | x :: l' => insert_by key x (sorted key l')
  end.

(** Strings. *)
Definition startswith (s prefix : string) : bool := String.prefix prefix s.

(** [sub in s]. *)
Fixpoint contains (sub s : string) : bool :=
  String.prefix sub s ||
  match s with
  | EmptyString => false
  | String _ s' => contains sub s'
  end.

(** [s.split(sep)] for a one-character separator. *)
Fixpoint split (sep : ascii) (s : string) : list string :=
  match s with
  | EmptyString => [EmptyString]
  | String c s' =>
      if Ascii.eqb c sep then EmptyString :: split sep s'
      else match split sep s' with
           | piece :: rest => String c piece :: rest
           | [] => [String c EmptyString]
           end
  end.

(** The metric map: metric name to scalar value.  The values are 0-dim
    tensors or Python floats; each key is taken to hold an object of its
    own, and the map records its value. *)
Definition metric_map := @dict string R.

Definition metric_get := @dict_get string R String.eqb.
Definition metric_set := @dict_set string R String.eqb.

(* ================================================================== *)
(** * The collaborators the source imports *)
(* ================================================================== *)

(** [examples.common.optim.outlier_detection.OutlierDetector] is imported
    by outlier_lion.py and not part of it.  The optimizers use three
    operations of it; a detector object is owned by one parameter state,
    so its mutation by [insert_observation] is the returned new value. *)
Class OutlierDetector (D : Type) := {
  new_detector : R -> D;
  insert_observation : D -> R -> bool * D;
  get_slow_mva : D -> R
}.

(** [composer.utils.dist]: the world size, and for the k-th collective
    call of this worker the sum of what the other workers contribute. *)
Class Dist := {
  get_world_size : Z;
  peers_sum : nat -> R
}.

(** [torch.nn.functional.cosine_similarity] on flattened tensors. *)
Class Functional := {
  cosine_similarity : tensor -> tensor -> R
}.

Section Collective.
Context `{Dist}.

(** [dist.all_reduce(x, reduce_operation='SUM')]. *)
Definition all_reduce (x : R) (s : machine) : R * machine :=
  (x + peers_sum (calls s),
   {| next_ref := next_ref s; cell := cell s; calls := S (calls s) |}).

(** The value the [k]-th collective call returns for the local value [x]
    when the world has more than one worker, and [x] otherwise. *)
Definition reduced_value (x : R) (k : nat) : R :=
  if (1 <? get_world_size)%Z then x + peers_sum k else x.

(** [if dist.get_world_size() > 1: dist.all_reduce(x, 'SUM')]. *)
Definition reduce_if_distributed (x : R) (s : machine) : R * machine :=
  if (1 <? get_world_size)%Z then all_reduce x s else (x, s).

(** The observation every variant feeds its detector: the squared norm,
    summed over the workers, square-rooted
    (lines 99-105, 295-301, 503-509, 699-705, 897-903). *)
Definition reduced_norm (t : tensor) (s : machine) : option (R * machine) :=
  let norm := torch.vector_norm t ^ 2 in
  let '(norm, s) := reduce_if_distributed norm s in
  match math_sqrt norm with
  | Some norm => Some (norm, s)
  | None => None
  end.

(** The collective cannot hand [math.sqrt] a negative sum: there is a
    single worker, or the other workers contribute a sum of squares. *)
Definition collective_ok (s : machine) : Prop :=
  (get_world_size <= 1)%Z \/ 0 <= peers_sum (calls s).

(** [vector_norm(exp_avg.lerp(grad, 1 - beta2)) ** 2], reduced. *)
Definition moment_norm (exp_avg grad : ref) (beta2 : R) (s : machine)
    : option (R * machine) :=
  let '(moment, s) := torch.lerp exp_avg grad (1 - beta2) s in
  reduced_norm (cell s moment) s.
End Collective.

(** A parameter: [p] and [p.data] are one tensor object; [p.grad] is
    [None] or a tensor. *)
Record param := {
  data : ref;
  grad : option ref;
  requires_grad : bool
}.

(** [filter(lambda p: p.grad is not None and p.requires_grad, ...)]. *)
Definition trainable (p : param) : bool :=
  match grad p with
  | Some _ => requires_grad p
  | None => false
  end.

(** A parameter group of the four variants that take [weight_decay]. *)
Record param_group := {
  params : list param;
  lr : R;
  betas : R * R;
  weight_decay : R;
  initial_lr : R
}.

(** [closure]: [None], or a callable that returns the loss. *)
Definition closure_t := option (machine -> R * machine).

Definition call_closure (closure : closure_t) (s : machine) : option R * machine :=
  match closure with
  | None => (None, s)
  | Some f => let '(loss, s) := f s in (Some loss, s)
  end.

(** What a constructor leaves behind: what it printed, the warnings it
    logged, and the instance, or [None] when an [assert] failed. *)
Inductive log_record :=
  | high_weight_decay_warning (weight_decay multiplier : R).

Record construction (X : Type) := {
  printed : list R;
  logged : list log_record;
  instance : option X
}.
Arguments printed {X}.
Arguments logged {X}.
Arguments instance {X}.

(** The validation all constructors start with (lines 40-45, 225-230,
    436-441, 640-645).  The literal [1e-3] is the real 1/1000. *)
Definition validate {X : Type} (lr : R) (betas : R * R) (weight_decay : R)
    (build : X) : construction X :=
  if Rlt_dec 0 lr then
    if (if Rle_dec 0 (fst betas) then if Rle_dec (fst betas) 1 then true else false else false)
       && (if Rle_dec 0 (snd betas) then if Rle_dec (snd betas) 1 then true else false else false)
    then
      if Rle_dec (1 / 1000) weight_decay then
        {| printed := [];
           logged := [high_weight_decay_warning weight_decay (1 - weight_decay)];
           instance := Some build |}
      else {| printed := []; logged := []; instance := Some build |}
    else {| printed := []; logged := []; instance := None |}
  else {| printed := []; logged := []; instance := None |}.

(** [Optimizer.__init__(params, defaults)] followed by
    [group['initial_lr'] = group['lr']]: one group holding the parameters
    and the defaults.  (The base class lives in PyTorch.) *)
Definition default_groups (params : list param) (lr : R) (betas : R * R)
    (weight_decay : R) : list param_group :=
  [ {| params := params; lr := lr; betas := betas;
       weight_decay := weight_decay; initial_lr := lr |} ].

(** The outlier window (lines 303-312, 511-520, 905-914): the step is
    appended when the detector flags it, then the entries older than
    [timeout] are collected and removed one by one. *)
Definition evict (step timeout : Z) (outlier_timestamp : list Z) : list Z :=
  let removed :=
    filter (fun ts => (timeout <? step - ts)%Z) outlier_timestamp in
  fold_left (fun l ts => remove_first ts l) removed outlier_timestamp.

Definition update_window (flagged : bool) (step timeout : Z)
    (outlier_timestamp : list Z) : list Z :=
  let outlier_timestamp :=
    if flagged then outlier_timestamp ++ [step] else outlier_timestamp in
  evict step timeout outlier_timestamp.

(** What one step does to the pair ([state['step']], window), and a run
    of steps with the given detector verdicts. *)
Definition window_step (timeout : Z) (flagged : bool) (x : Z * list Z)
    : Z * list Z :=
  (fst x + 1, update_window flagged (fst x) timeout (snd x))%Z.

Definition window_run (timeout : Z) (verdicts : list bool) (x : Z * list Z)
    : Z * list Z :=
  fold_left (fun x flagged => window_step timeout flagged x) verdicts x.

(* ================================================================== *)
(** * SkipLion (lines 14-194) *)
(* ================================================================== *)

Module SkipLion.
Section Defs.
Context {D : Type} `{OutlierDetector D} `{Dist} `{Functional}.

(** [self.state[p]], once initialised. *)
Record state_t := {
  exp_avg : ref;
  moment_tracker : D;
  skipped_batches : ref
}.

Record t := {
  param_groups : list param_group;
  state : id_map state_t;
  outlier_threshold : R
}.

Definition __init__ (params : list param) (lr : R) (betas : R * R)
    (weight_decay outlier_threshold : R) : construction t :=
  validate lr betas weight_decay
    {| param_groups := default_groups params lr betas weight_decay;
       state := fun _ => None;
       outlier_threshold := outlier_threshold |}.

(** Lines 91-96: the state of [p], created on first use. *)
Definition init_state (self : t) (p : param) (st : id_map state_t)
    (s : machine) : state_t * machine :=
  match st (data p) with
  | Some state => (state, s)
  | None =>
      let '(exp_avg, s) := torch.zeros_like (data p) s in
      let moment_tracker := new_detector (outlier_threshold self) in
      let '(skipped_batches, s) := torch.scalar_tensor 0 s in
      ({| exp_avg := exp_avg; moment_tracker := moment_tracker;
          skipped_batches := skipped_batches |}, s)
  end.

(** The body of the loop of [step] (lines 87-121) for one parameter
    that passed the filter. *)
Definition step_param (self : t) (group : param_group) (p : param)
    (x : id_map state_t * machine) : option (id_map state_t * machine) :=
  let '(st, s) := x in
  match grad p with
  | None => Some (st, s)
  | Some grad =>
      let lr := lr group in
      let initial_lr := initial_lr group in
      let wd := weight_decay group in
      let '(beta1, beta2) := betas group in
      let '(state, s) := init_state self p st s in
      let exp_avg := exp_avg state in
      (* determine if the new moment resulting from this grad would be
         an outlier *)
      match moment_norm exp_avg grad beta2 s with
      | None => None
      | Some (moment_norm, s) =>
          let '(flagged, tracker) :=
            insert_observation (moment_tracker state) moment_norm in
          let state :=
            {| exp_avg := exp_avg; moment_tracker := tracker;
               skipped_batches := skipped_batches state |} in
          if flagged then
            (* skip completely *)
            let s := torch.add_scalar_ (skipped_batches state) 1 s in
            Some (id_set (data p) state st, s)
          else
            let s := lionw (data p) grad exp_avg lr initial_lr wd beta1 beta2 s in
            Some (id_set (data p) state st, s)
      end
  end.

Definition step (self : t) (closure : closure_t) (s : machine)
    : option (option R * t * machine) :=
  let '(loss, s) := call_closure closure s in
  match
    for_each
      (fun group =>
         for_each (step_param self group) (filter trainable (params group)))
      (param_groups self) (state self, s)
  with
  | None => None
  | Some (st, s) =>
      Some (loss,
            {| param_groups := param_groups self; state := st;
               outlier_threshold := outlier_threshold self |},
            s)
  end.

(** [_, vectors, layer = tuple(metric.split('/'))] and
    [A, B = tuple(vectors.split('_'))]: unpacking raises unless there
    are exactly three, respectively two, pieces. *)
Definition split_cosine (metric : string) : option (string * string * string) :=
  match split "/" metric with
  | [_; vectors; layer] =>
      match split "_" vectors with
      | [A; B] => Some (A, B, layer)
      | _ => None
      end
  | _ => None
  end.

(** [f'l2_norm/{A}/{layer}']. *)
Definition l2_norm_key (A layer : string) : string :=
  ("l2_norm/" ++ A ++ "/" ++ layer)%string.

(** Lines 125-153.  Assigning to keys that are present does not change
    the key set, so the loop runs over the keys of the argument. *)
Definition dist_reduce_metric (metric : string) (x : metric_map * machine)
    : option (metric_map * machine) :=
  let '(optimizer_metrics, s) := x in
  if startswith metric "l2_norm" then
    match metric_get metric optimizer_metrics with
    | None => None
    | Some reduced =>
        let '(reduced, s) := reduce_if_distributed reduced s in
        match math_sqrt reduced with
        | None => None
        | Some root => Some (metric_set metric root optimizer_metrics, s)
        end
    end
  else if startswith metric "cosine" then
    match metric_get metric optimizer_metrics with
    | None => None
    | Some reduced =>
        let '(reduced, s) := reduce_if_distributed reduced s in
        match split_cosine metric with
        | None => None
        | Some (A, B, layer) =>
            match metric_get (l2_norm_key A layer) optimizer_metrics,
                  metric_get (l2_norm_key B layer) optimizer_metrics with
            | Some A_reduced_norm, Some B_reduced_norm =>
                Some (metric_set metric
                        (reduced / (A_reduced_norm * B_reduced_norm))
                        optimizer_metrics, s)
            | _, _ => None
            end
        end
    end
  else if startswith metric "skipped_batches" then Some (optimizer_metrics, s)
  else
    match metric_get metric optimizer_metrics with
    | None => None
    | Some reduced =>
        let '(reduced, s) := reduce_if_distributed reduced s in
        Some (metric_set metric (reduced / IZR get_world_size)
                optimizer_metrics, s)
    end.

Definition dist_reduce_metrics (optimizer_metrics : metric_map) (s : machine)
    : option (metric_map * machine) :=
  for_each dist_reduce_metric (keys optimizer_metrics) (optimizer_metrics, s).

(** Lines 155-175. *)
Definition pre_reduce_metric (metric : string) (optimizer_metrics : metric_map)
    : option metric_map :=
  if startswith metric "l2_norm" then
    (* L2 norms need to be squared, before they are reduced via summation *)
    match metric_get metric optimizer_metrics with
    | None => None
    | Some v => Some (metric_set metric (v ^ 2) optimizer_metrics)
    end
  else if startswith metric "cosine" then
    match split_cosine metric with
    | None => None
    | Some (A, B, layer) =>
        (* L2 norm would've been squared in previous branch *)
        match metric_get (l2_norm_key A layer) optimizer_metrics,
              metric_get (l2_norm_key B layer) optimizer_metrics with
        | Some A_sq, Some B_sq =>
            match math_sqrt A_sq, math_sqrt B_sq,
                  metric_get metric optimizer_metrics with
            | Some A_rank_subset_norm, Some B_rank_subset_norm, Some v =>
                Some (metric_set metric
                        (v * (A_rank_subset_norm * B_rank_subset_norm))
                        optimizer_metrics)
            | _, _, _ => None
            end
        | _, _ => None
        end
    end
  else Some optimizer_metrics.

Definition pre_reduce_metrics (optimizer_metrics : metric_map)
    : option metric_map :=
  let metrics := keys optimizer_metrics in
  let metrics :=
    sorted (fun metric => if contains "l2_norm" metric then 0 else 1)%nat
      metrics in
  for_each pre_reduce_metric metrics optimizer_metrics.

(** [metric_functions] (lines 15-30), in the order of the class
    dictionary.  A function that reads [param.grad] raises when it is
    [None]. *)
Definition metric_functions
    : list (string * (param -> state_t -> ref -> machine -> option R)) :=
  [ ("l2_norm/moment"%string,
     fun param optim_state step_tensor s =>
       Some (torch.vector_norm (cell s (exp_avg optim_state))));
    ("l2_norm/param"%string,
     fun param optim_state step_tensor s =>
       Some (torch.vector_norm (cell s (data param))));
    ("l2_norm/update"%string,
     fun param optim_state step_tensor s =>
       Some (torch.vector_norm (cell s step_tensor)));
    ("l2_norm/grad"%string,
     fun param optim_state step_tensor s =>
       match grad param with
       | Some g => Some (torch.vector_norm (cell s g))
       | None => None
       end);
    ("cosine/update_grad"%string,
     fun param optim_state step_tensor s =>
       match grad param with
       | Some g => Some (cosine_similarity (cell s g) (cell s step_tensor))
       | None => None
       end);
    ("cosine/moment_grad"%string,
     fun param optim_state step_tensor s =>
       match grad param with
       | Some g =>
           Some (cosine_similarity (cell s g) (cell s (exp_avg optim_state)))
       | None => None
       end) ].

(** Lines 177-194.  [self.param_groups[0]] raises on an optimizer
    without groups; [lerp_] raises when [param.grad] is [None].  The
    entry [skipped_batches/<name>] is the counter tensor of the state
    itself; the map records its value. *)
Definition report_per_parameter_metrics (self : t) (param : param)
    (name : string) (optimizer_metrics : metric_map) (s : machine)
    : option (metric_map * machine) :=
  match param_groups self with
  | [] => None
  | group0 :: _ =>
      let lr := lr group0 in
      let weight_decay := weight_decay group0 in
      let initial_lr := initial_lr group0 in
      let '(beta1, _) := betas group0 in
      match state self (data param) with
      | None => Some (optimizer_metrics, s)
      | Some param_optim_state =>
          match grad param with
          | None => None
          | Some g =>
              let '(step_tensor, s) :=
                torch.clone (exp_avg param_optim_state) s in
              let s := torch.lerp_ step_tensor g (1 - beta1) s in
              let s := torch.sign_ step_tensor s in
              let s := torch.mul_ step_tensor lr s in
              let decay_factor :=
                if Req_dec_T initial_lr 0 then 1 else lr / initial_lr in
              let s :=
                torch.add_ step_tensor (data param)
                  (- weight_decay * decay_factor) s in
              match
                for_each
                  (fun mf om =>
                     match snd mf param param_optim_state step_tensor s with
                     | Some v =>
                         Some (metric_set (fst mf ++ "/" ++ name)%string v om)
                     | None => None
                     end)
                  metric_functions optimizer_metrics
              with
              | None => None
              | Some optimizer_metrics =>
                  Some (metric_set ("skipped_batches/" ++ name)%string
                          (item (cell s (skipped_batches param_optim_state)))
                          optimizer_metrics, s)
              end
          end
      end
  end.

End Defs.
End SkipLion.

(* ================================================================== *)
(** * AdaBetaLion (lines 197-403) *)
(* ================================================================== *)

Module AdaBetaLion.
Section Defs.
Context {D : Type} `{OutlierDetector D} `{Dist}.

Record state_t := {
  exp_avg : ref;
  moment_tracker : D;
  outlier_timestamp : list Z;
  step_count : Z   (* state['step'] *)
}.

Record t := {
  param_groups : list param_group;
  state : id_map state_t;
  outlier_threshold : R;
  increase : bool;
  timeout : Z
}.

Definition __init__ (params : list param) (lr : R) (betas : R * R)
    (weight_decay outlier_threshold : R) (increase : bool) (timeout : Z)
    : construction t :=
  validate lr betas weight_decay
    {| param_groups := default_groups params lr betas weight_decay;
       state := fun _ => None;
       outlier_threshold := outlier_threshold;
       increase := increase;
       timeout := timeout |}.

(** Lines 260-266. *)
Definition adjust_betas (beta1 beta2 : R) (increase : bool) (num_times : nat)
    : R * R :=
  let scale := if increase then 5 / 10 else 15 / 10 in
  let beta1 := 1 - ((1 - beta1) * (scale ^ num_times)) in
  let beta2 := 1 - ((1 - beta2) * (scale ^ num_times)) in
  (beta1, beta2).

(** Lines 286-292. *)
Definition init_state (self : t) (p : param) (st : id_map state_t)
    (s : machine) : state_t * machine :=
  match st (data p) with
  | Some state => (state, s)
  | None =>
      let '(exp_avg, s) := torch.zeros_like (data p) s in
      ({| exp_avg := exp_avg;
          moment_tracker := new_detector (outlier_threshold self);
          outlier_timestamp := [];
          step_count := 0 |}, s)
  end.

(** Lines 282-326. *)
Definition step_param (self : t) (group : param_group) (p : param)
    (x : id_map state_t * machine) : option (id_map state_t * machine) :=
  let '(st, s) := x in
  match grad p with
  | None => Some (st, s)
  | Some grad =>
      let lr := lr group in
      let initial_lr := initial_lr group in
      let wd := weight_decay group in
      let '(beta1, beta2) := betas group in
      let '(state, s) := init_state self p st s in
      let exp_avg := exp_avg state in
      match moment_norm exp_avg grad beta2 s with
      | None => None
      | Some (moment_norm, s) =>
          let '(flagged, tracker) :=
            insert_observation (moment_tracker state) moment_norm in
          let outlier_timestamp :=
            update_window flagged (step_count state) (timeout self)
              (outlier_timestamp state) in
          let '(beta1, beta2) :=
            adjust_betas beta1 beta2 (increase self)
              (length outlier_timestamp) in
          let s := lionw (data p) grad exp_avg lr initial_lr wd beta1 beta2 s in
          Some (id_set (data p)
                  {| exp_avg := exp_avg; moment_tracker := tracker;
                     outlier_timestamp := outlier_timestamp;
                     step_count := step_count state + 1 |} st, s)
      end
  end.

Definition step (self : t) (closure : closure_t) (s : machine)
    : option (option R * t * machine) :=
  let '(loss, s) := call_closure closure s in
  match
    for_each
      (fun group =>
         for_each (step_param self group) (filter trainable (params group)))
      (param_groups self) (state self, s)
  with
  | None => None
  | Some (st, s) =>
      Some (loss,
            {| param_groups := param_groups self; state := st;
               outlier_threshold := outlier_threshold self;
               increase := increase self; timeout := timeout self |},
            s)
  end.

Context `{Functional}.

(** Lines 331-359: the loop of SkipLion, passing over the keys of the
    betas. *)
Definition dist_reduce_metric (metric : string) (x : metric_map * machine)
    : option (metric_map * machine) :=
  let '(optimizer_metrics, s) := x in
  if startswith metric "l2_norm" then
    match metric_get metric optimizer_metrics with
    | None => None
    | Some reduced =>
        let '(reduced, s) := reduce_if_distributed reduced s in
        match math_sqrt reduced with
        | None => None
        | Some root => Some (metric_set metric root optimizer_metrics, s)
        end
    end
  else if startswith metric "cosine" then
    match metric_get metric optimizer_metrics with
    | None => None
    | Some reduced =>
        let '(reduced, s) := reduce_if_distributed reduced s in
        match SkipLion.split_cosine metric with
        | None => None
        | Some (A, B, layer) =>
            match metric_get (SkipLion.l2_norm_key A layer) optimizer_metrics,
                  metric_get (SkipLion.l2_norm_key B layer) optimizer_metrics with
            | Some A_reduced_norm, Some B_reduced_norm =>
                Some (metric_set metric
                        (reduced / (A_reduced_norm * B_reduced_norm))
                        optimizer_metrics, s)
            | _, _ => None
            end
        end
    end
  else if startswith metric "beta" then Some (optimizer_metrics, s)
  else
    match metric_get metric optimizer_metrics with
    | None => None
    | Some reduced =>
        let '(reduced, s) := reduce_if_distributed reduced s in
        Some (metric_set metric (reduced / IZR get_world_size)
                optimizer_metrics, s)
    end.

Definition dist_reduce_metrics (optimizer_metrics : metric_map) (s : machine)
    : option (metric_map * machine) :=
  for_each dist_reduce_metric (keys optimizer_metrics) (optimizer_metrics, s).

(** Lines 361-381. *)
Definition pre_reduce_metric (metric : string) (optimizer_metrics : metric_map)
    : option metric_map :=
  if startswith metric "l2_norm" then
    (* L2 norms need to be squared, before they are reduced via summation *)
    match metric_get metric optimizer_metrics with
    | None => None
    | Some v => Some (metric_set metric (v ^ 2) optimizer_metrics)
    end
  else if startswith metric "cosine" then
    match SkipLion.split_cosine metric with
    | None => None
    | Some (A, B, layer) =>
        (* L2 norm would've been squared in previous branch *)
        match metric_get (SkipLion.l2_norm_key A layer) optimizer_metrics,
              metric_get (SkipLion.l2_norm_key B layer) optimizer_metrics with
        | Some A_sq, Some B_sq =>
            match math_sqrt A_sq, math_sqrt B_sq,
                  metric_get metric optimizer_metrics with
            | Some A_rank_subset_norm, Some B_rank_subset_norm, Some v =>
                Some (metric_set metric
                        (v * (A_rank_subset_norm * B_rank_subset_norm))
                        optimizer_metrics)
            | _, _, _ => None
            end
        | _, _ => None
        end
    end
  else Some optimizer_metrics.

Definition pre_reduce_metrics (optimizer_metrics : metric_map)
    : option metric_map :=
  let metrics := keys optimizer_metrics in
  let metrics :=
    sorted (fun metric => if contains "l2_norm" metric then 0 else 1)%nat
      metrics in
  for_each pre_reduce_metric metrics optimizer_metrics.

(** [metric_functions] (lines 198-213). *)
Definition metric_functions
    : list (string * (param -> state_t -> ref -> machine -> option R)) :=
  [ ("l2_norm/moment"%string,
     fun param optim_state step_tensor s =>
       Some (torch.vector_norm (cell s (exp_avg optim_state))));
    ("l2_norm/param"%string,
     fun param optim_state step_tensor s =>
       Some (torch.vector_norm (cell s (data param))));
    ("l2_norm/update"%string,
     fun param optim_state step_tensor s =>
       Some (torch.vector_norm (cell s step_tensor)));
    ("l2_norm/grad"%string,
     fun param optim_state step_tensor s =>
       match grad param with
       | Some g => Some (torch.vector_norm (cell s g))
       | None => None
       end);
    ("cosine/update_grad"%string,
     fun param optim_state step_tensor s =>
       match grad param with
       | Some g => Some (cosine_similarity (cell s g) (cell s step_tensor))
       | None => None
       end);
    ("cosine/moment_grad"%string,
     fun param optim_state step_tensor s =>
       match grad param with
       | Some g =>
           Some (cosine_similarity (cell s g) (cell s (exp_avg optim_state)))
       | None => None
       end) ].

(** Lines 383-403.  [torch.tensor(beta1)] makes a new 0-dim tensor; the
    map records its value. *)
Definition report_per_parameter_metrics (self : t) (param : param)
    (name : string) (optimizer_metrics : metric_map) (s : machine)
    : option (metric_map * machine) :=
  match param_groups self with
  | [] => None
  | group0 :: _ =>
      let lr := lr group0 in
      let weight_decay := weight_decay group0 in
      let initial_lr := initial_lr group0 in
      let '(beta1, beta2) := betas group0 in
      match state self (data param) with
      | None => Some (optimizer_metrics, s)
      | Some param_optim_state =>
          let '(beta1, beta2) :=
            adjust_betas beta1 beta2 (increase self)
              (length (outlier_timestamp param_optim_state)) in
          match grad param with
          | None => None
          | Some g =>
              let '(step_tensor, s) :=
                torch.clone (exp_avg param_optim_state) s in
              let s := torch.lerp_ step_tensor g (1 - beta1) s in
              let s := torch.sign_ step_tensor s in
              let s := torch.mul_ step_tensor lr s in
              let decay_factor :=
                if Req_dec_T initial_lr 0 then 1 else lr / initial_lr in
              let s :=
                torch.add_ step_tensor (data param)
                  (- weight_decay * decay_factor) s in
              match
                for_each
                  (fun mf om =>
                     match snd mf param param_optim_state step_tensor s with
                     | Some v =>
                         Some (metric_set (fst mf ++ "/" ++ name)%string v om)
                     | None => None
                     end)
                  metric_functions optimizer_metrics
              with
              | None => None
              | Some optimizer_metrics =>
                  let '(t1, s) := torch.scalar_tensor beta1 s in
                  let optimizer_metrics :=
                    metric_set ("betas/beta1/" ++ name)%string
                      (item (cell s t1)) optimizer_metrics in
                  let '(t2, s) := torch.scalar_tensor beta2 s in
                  let optimizer_metrics :=
                    metric_set ("betas/beta2/" ++ name)%string
                      (item (cell s t2)) optimizer_metrics in
                  Some (optimizer_metrics, s)
              end
          end
      end
  end.

End Defs.
End AdaBetaLion.

(* ================================================================== *)
(** * AdaLRLion (lines 407-609) *)
(* ================================================================== *)

Module AdaLRLion.
Section Defs.
Context {D : Type} `{OutlierDetector D} `{Dist}.

Record state_t := {
  exp_avg : ref;
  moment_tracker : D;
  outlier_timestamp : list Z;
  step_count : Z
}.

Record t := {
  param_groups : list param_group;
  state : id_map state_t;
  outlier_threshold : R;
  timeout : Z;
  lr_penalty : R;
  min_scale : R
}.

Definition __init__ (params : list param) (lr : R) (betas : R * R)
    (weight_decay outlier_threshold : R) (timeout : Z)
    (lr_penalty min_scale : R) : construction t :=
  validate lr betas weight_decay
    {| param_groups := default_groups params lr betas weight_decay;
       state := fun _ => None;
       outlier_threshold := outlier_threshold;
       timeout := timeout;
       lr_penalty := lr_penalty;
       min_scale := min_scale |}.

(** Lines 472-474. *)
Definition adjust_lr (lr lr_penalty : R) (num_times : nat) (min_scale : R) : R :=
  lr * Rmax min_scale (lr_penalty ^ num_times).

Definition init_state (self : t) (p : param) (st : id_map state_t)
    (s : machine) : state_t * machine :=
  match st (data p) with
  | Some state => (state, s)
  | None =>
      let '(exp_avg, s) := torch.zeros_like (data p) s in
      ({| exp_avg := exp_avg;
          moment_tracker := new_detector (outlier_threshold self);
          outlier_timestamp := [];
          step_count := 0 |}, s)
  end.

(** Lines 490-533. *)
Definition step_param (self : t) (group : param_group) (p : param)
    (x : id_map state_t * machine) : option (id_map state_t * machine) :=
  let '(st, s) := x in
  match grad p with
  | None => Some (st, s)
  | Some grad =>
      let lr := lr group in
      let initial_lr := initial_lr group in
      let wd := weight_decay group in
      let '(beta1, beta2) := betas group in
      let '(state, s) := init_state self p st s in
      let exp_avg := exp_avg state in
      match moment_norm exp_avg grad beta2 s with
      | None => None
      | Some (moment_norm, s) =>
          let '(flagged, tracker) :=
            insert_observation (moment_tracker state) moment_norm in
          let outlier_timestamp :=
            update_window flagged (step_count state) (timeout self)
              (outlier_timestamp state) in
          let lr :=
            adjust_lr lr (lr_penalty self) (length outlier_timestamp)
              (min_scale self) in
          let s := lionw (data p) grad exp_avg lr initial_lr wd beta1 beta2 s in
          Some (id_set (data p)
                  {| exp_avg := exp_avg; moment_tracker := tracker;
                     outlier_timestamp := outlier_timestamp;
                     step_count := step_count state + 1 |} st, s)
      end
  end.

Definition step (self : t) (closure : closure_t) (s : machine)
    : option (option R * t * machine) :=
  let '(loss, s) := call_closure closure s in
  match
    for_each
      (fun group =>
         for_each (step_param self group) (filter trainable (params group)))
      (param_groups self) (state self, s)
  with
  | None => None
  | Some (st, s) =>
      Some (loss,
            {| param_groups := param_groups self; state := st;
               outlier_threshold := outlier_threshold self;
               timeout := timeout self; lr_penalty := lr_penalty self;
               min_scale := min_scale self |},
            s)
  end.

Context `{Functional}.

(** Lines 538-566: the loop of SkipLion, passing over the keys of the
    layerwise learning rates. *)
Definition dist_reduce_metric (metric : string) (x : metric_map * machine)
    : option (metric_map * machine) :=
  let '(optimizer_metrics, s) := x in
  if startswith metric "l2_norm" then
    match metric_get metric optimizer_metrics with
    | None => None
    | Some reduced =>
        let '(reduced, s) := reduce_if_distributed reduced s in
        match math_sqrt reduced with
        | None => None
        | Some root => Some (metric_set metric root optimizer_metrics, s)
        end
    end
  else if startswith metric "cosine" then
    match metric_get metric optimizer_metrics with
    | None => None
    | Some reduced =>
        let '(reduced, s) := reduce_if_distributed reduced s in
        match SkipLion.split_cosine metric with
        | None => None
        | Some (A, B, layer) =>
            match metric_get (SkipLion.l2_norm_key A layer) optimizer_metrics,
                  metric_get (SkipLion.l2_norm_key B layer) optimizer_metrics with
            | Some A_reduced_norm, Some B_reduced_norm =>
                Some (metric_set metric
                        (reduced / (A_reduced_norm * B_reduced_norm))
                        optimizer_metrics, s)
            | _, _ => None
            end
        end
    end
  else if startswith metric "layerwise_lr" then Some (optimizer_metrics, s)
  else
    match metric_get metric optimizer_metrics with
    | None => None
    | Some reduced =>
        let '(reduced, s) := reduce_if_distributed reduced s in
        Some (metric_set metric (reduced / IZR get_world_size)
                optimizer_metrics, s)
    end.

Definition dist_reduce_metrics (optimizer_metrics : metric_map) (s : machine)
    : option (metric_map * machine) :=
  for_each dist_reduce_metric (keys optimizer_metrics) (optimizer_metrics, s).

(** Lines 568-588. *)
Definition pre_reduce_metric (metric : string) (optimizer_metrics : metric_map)
    : option metric_map :=
  if startswith metric "l2_norm" then
    (* L2 norms need to be squared, before they are reduced via summation *)
    match metric_get metric optimizer_metrics with
    | None => None
    | Some v => Some (metric_set metric (v ^ 2) optimizer_metrics)
    end
  else if startswith metric "cosine" then
    match SkipLion.split_cosine metric with
    | None => None
    | Some (A, B, layer) =>
        (* L2 norm would've been squared in previous branch *)
        match metric_get (SkipLion.l2_norm_key A layer) optimizer_metrics,
              metric_get (SkipLion.l2_norm_key B layer) optimizer_metrics with
        | Some A_sq, Some B_sq =>
            match math_sqrt A_sq, math_sqrt B_sq,
                  metric_get metric optimizer_metrics with
            | Some A_rank_subset_norm, Some B_rank_subset_norm, Some v =>
                Some (metric_set metric
                        (v * (A_rank_subset_norm * B_rank_subset_norm))
                        optimizer_metrics)
            | _, _, _ => None
            end
        | _, _ => None
        end
    end
  else Some optimizer_metrics.

Definition pre_reduce_metrics (optimizer_metrics : metric_map)
    : option metric_map :=
  let metrics := keys optimizer_metrics in
  let metrics :=
    sorted (fun metric => if contains "l2_norm" metric then 0 else 1)%nat
      metrics in
  for_each pre_reduce_metric metrics optimizer_metrics.

(** [metric_functions] (lines 408-423). *)
Definition metric_functions
    : list (string * (param -> state_t -> ref -> machine -> option R)) :=
  [ ("l2_norm/moment"%string,
     fun param optim_state step_tensor s =>
       Some (torch.vector_norm (cell s (exp_avg optim_state))));
    ("l2_norm/param"%string,
     fun param optim_state step_tensor s =>
       Some (torch.vector_norm (cell s (data param))));
    ("l2_norm/update"%string,
     fun param optim_state step_tensor s =>
       Some (torch.vector_norm (cell s step_tensor)));
    ("l2_norm/grad"%string,
     fun param optim_state step_tensor s =>
       match grad param with
       | Some g => Some (torch.vector_norm (cell s g))
       | None => None
       end);
    ("cosine/update_grad"%string,
     fun param optim_state step_tensor s =>
       match grad param with
       | Some g => Some (cosine_similarity (cell s g) (cell s step_tensor))
       | None => None
       end);
    ("cosine/moment_grad"%string,
     fun param optim_state step_tensor s =>
       match grad param with
       | Some g =>
           Some (cosine_similarity (cell s g) (cell s (exp_avg optim_state)))
       | None => None
       end) ].

(** Lines 590-609.  The work tensor is scaled by the group's [lr], not
    by [layerwise_lr]. *)
Definition report_per_parameter_metrics (self : t) (param : param)
    (name : string) (optimizer_metrics : metric_map) (s : machine)
    : option (metric_map * machine) :=
  match param_groups self with
  | [] => None
  | group0 :: _ =>
      let lr := lr group0 in
      let weight_decay := weight_decay group0 in
      let initial_lr := initial_lr group0 in
      let '(beta1, _) := betas group0 in
      match state self (data param) with
      | None => Some (optimizer_metrics, s)
      | Some param_optim_state =>
          let layerwise_lr :=
            adjust_lr lr (lr_penalty self)
              (length (outlier_timestamp param_optim_state))
              (min_scale self) in
          match grad param with
          | None => None
          | Some g =>
              let '(step_tensor, s) :=
                torch.clone (exp_avg param_optim_state) s in
              let s := torch.lerp_ step_tensor g (1 - beta1) s in
              let s := torch.sign_ step_tensor s in
              let s := torch.mul_ step_tensor lr s in
              let decay_factor :=
                if Req_dec_T initial_lr 0 then 1 else lr / initial_lr in
              let s :=
                torch.add_ step_tensor (data param)
                  (- weight_decay * decay_factor) s in
              match
                for_each
                  (fun mf om =>
                     match snd mf param param_optim_state step_tensor s with
                     | Some v =>
                         Some (metric_set (fst mf ++ "/" ++ name)%string v om)
                     | None => None
                     end)
                  metric_functions optimizer_metrics
              with
              | None => None
              | Some optimizer_metrics =>
                  let '(t1, s) := torch.scalar_tensor layerwise_lr s in
                  Some (metric_set ("layerwise_lr/" ++ name)%string
                          (item (cell s t1)) optimizer_metrics, s)
              end
          end
      end
  end.

End Defs.
End AdaLRLion.

(* ================================================================== *)
(** * ClipLion (lines 614-795) *)
(* ================================================================== *)

Module ClipLion.
Section Defs.
Context {D : Type} `{OutlierDetector D} `{Dist}.

Record state_t := {
  exp_avg : ref;
  grad_tracker : D;
  clipped_batches : ref
}.

Record t := {
  param_groups : list param_group;
  state : id_map state_t;
  outlier_threshold : R
}.

Definition __init__ (params : list param) (lr : R) (betas : R * R)
    (weight_decay outlier_threshold : R) : construction t :=
  validate lr betas weight_decay
    {| param_groups := default_groups params lr betas weight_decay;
       state := fun _ => None;
       outlier_threshold := outlier_threshold |}.

Definition init_state (self : t) (p : param) (st : id_map state_t)
    (s : machine) : state_t * machine :=
  match st (data p) with
  | Some state => (state, s)
  | None =>
      let '(exp_avg, s) := torch.zeros_like (data p) s in
      let grad_tracker := new_detector (outlier_threshold self) in
      let '(clipped_batches, s) := torch.scalar_tensor 0 s in
      ({| exp_avg := exp_avg; grad_tracker := grad_tracker;
          clipped_batches := clipped_batches |}, s)
  end.

(** Lines 707-711: the gradient handed to [lionw].  On a flagged step
    the local name [grad] is rebound to a new tensor: [div] allocates
    and [mul_] works on the result. *)
Definition clip (self : t) (state : state_t) (flagged : bool) (tracker : D)
    (grad : ref) (grad_norm : R) (s : machine) : ref * machine :=
  if flagged then
    let s := torch.add_scalar_ (clipped_batches state) 1 s in
    let clip_norm := get_slow_mva tracker * outlier_threshold self in
    let '(grad, s) := torch.div grad grad_norm s in
    let s := torch.mul_ grad clip_norm s in
    (grad, s)
  else (grad, s).

(** Lines 687-722. *)
Definition step_param (self : t) (group : param_group) (p : param)
    (x : id_map state_t * machine) : option (id_map state_t * machine) :=
  let '(st, s) := x in
  match grad p with
  | None => Some (st, s)
  | Some grad =>
      let lr := lr group in
      let initial_lr := initial_lr group in
      let wd := weight_decay group in
      let '(beta1, beta2) := betas group in
      let '(state, s) := init_state self p st s in
      let exp_avg := exp_avg state in
      match reduced_norm (cell s grad) s with
      | None => None
      | Some (grad_norm, s) =>
          let '(flagged, tracker) :=
            insert_observation (grad_tracker state) grad_norm in
          let '(grad, s) := clip self state flagged tracker grad grad_norm s in
          let s := lionw (data p) grad exp_avg lr initial_lr wd beta1 beta2 s in
          Some (id_set (data p)
                  {| exp_avg := exp_avg; grad_tracker := tracker;
                     clipped_batches := clipped_batches state |} st, s)
      end
  end.

Definition step (self : t) (closure : closure_t) (s : machine)
    : option (option R * t * machine) :=
  let '(loss, s) := call_closure closure s in
  match
    for_each
      (fun group =>
         for_each (step_param self group) (filter trainable (params group)))
      (param_groups self) (state self, s)
  with
  | None => None
  | Some (st, s) =>
      Some (loss,
            {| param_groups := param_groups self; state := st;
               outlier_threshold := outlier_threshold self |},
            s)
  end.

Context `{Functional}.

(** Lines 726-754: the loop of SkipLion, passing over the counters. *)
Definition dist_reduce_metric (metric : string) (x : metric_map * machine)
    : option (metric_map * machine) :=
  let '(optimizer_metrics, s) := x in
  if startswith metric "l2_norm" then
    match metric_get metric optimizer_metrics with
    | None => None
    | Some reduced =>
        let '(reduced, s) := reduce_if_distributed reduced s in
        match math_sqrt reduced with
        | None => None
        | Some root => Some (metric_set metric root optimizer_metrics, s)
        end
    end
  else if startswith metric "cosine" then
    match metric_get metric optimizer_metrics with
    | None => None
    | Some reduced =>
        let '(reduced, s) := reduce_if_distributed reduced s in
        match SkipLion.split_cosine metric with
        | None => None
        | Some (A, B, layer) =>
            match metric_get (SkipLion.l2_norm_key A layer) optimizer_metrics,
                  metric_get (SkipLion.l2_norm_key B layer) optimizer_metrics with
            | Some A_reduced_norm, Some B_reduced_norm =>
                Some (metric_set metric
                        (reduced / (A_reduced_norm * B_reduced_norm))
                        optimizer_metrics, s)
            | _, _ => None
            end
        end
    end
  else if startswith metric "clipped_batches" then Some (optimizer_metrics, s)
  else
    match metric_get metric optimizer_metrics with
    | None => None
    | Some reduced =>
        let '(reduced, s) := reduce_if_distributed reduced s in
        Some (metric_set metric (reduced / IZR get_world_size)
                optimizer_metrics, s)
    end.

Definition dist_reduce_metrics (optimizer_metrics : metric_map) (s : machine)
    : option (metric_map * machine) :=
  for_each dist_reduce_metric (keys optimizer_metrics) (optimizer_metrics, s).

(** Lines 756-776. *)
Definition pre_reduce_metric (metric : string) (optimizer_metrics : metric_map)
    : option metric_map :=
  if startswith metric "l2_norm" then
    (* L2 norms need to be squared, before they are reduced via summation *)
    match metric_get metric optimizer_metrics with
    | None => None
    | Some v => Some (metric_set metric (v ^ 2) optimizer_metrics)
    end
  else if startswith metric "cosine" then
    match SkipLion.split_cosine metric with
    | None => None
    | Some (A, B, layer) =>
        (* L2 norm would've been squared in previous branch *)
        match metric_get (SkipLion.l2_norm_key A layer) optimizer_metrics,
              metric_get (SkipLion.l2_norm_key B layer) optimizer_metrics with
        | Some A_sq, Some B_sq =>
            match math_sqrt A_sq, math_sqrt B_sq,
                  metric_get metric optimizer_metrics with
            | Some A_rank_subset_norm, Some B_rank_subset_norm, Some v =>
                Some (metric_set metric
                        (v * (A_rank_subset_norm * B_rank_subset_norm))
                        optimizer_metrics)
            | _, _, _ => None
            end
        | _, _ => None
        end
    end
  else Some optimizer_metrics.

Definition pre_reduce_metrics (optimizer_metrics : metric_map)
    : option metric_map :=
  let metrics := keys optimizer_metrics in
  let metrics :=
    sorted (fun metric => if contains "l2_norm" metric then 0 else 1)%nat
      metrics in
  for_each pre_reduce_metric metrics optimizer_metrics.

(** [metric_functions] (lines 615-630). *)
Definition metric_functions
    : list (string * (param -> state_t -> ref -> machine -> option R)) :=
  [ ("l2_norm/moment"%string,
     fun param optim_state step_tensor s =>
       Some (torch.vector_norm (cell s (exp_avg optim_state))));
    ("l2_norm/param"%string,
     fun param optim_state step_tensor s =>
       Some (torch.vector_norm (cell s (data param))));
    ("l2_norm/update"%string,
     fun param optim_state step_tensor s =>
       Some (torch.vector_norm (cell s step_tensor)));
    ("l2_norm/grad"%string,
     fun param optim_state step_tensor s =>
       match grad param with
       | Some g => Some (torch.vector_norm (cell s g))
       | None => None
       end);
    ("cosine/update_grad"%string,
     fun param optim_state step_tensor s =>
       match grad param with
       | Some g => Some (cosine_similarity (cell s g) (cell s step_tensor))
       | None => None
       end);
    ("cosine/moment_grad"%string,
     fun param optim_state step_tensor s =>
       match grad param with
       | Some g =>
           Some (cosine_similarity (cell s g) (cell s (exp_avg optim_state)))
       | None => None
       end) ].

(** Lines 778-795.  The entry [clipped_batches/<name>] is the counter
    tensor of the state itself; the map records its value. *)
Definition report_per_parameter_metrics (self : t) (param : param)
    (name : string) (optimizer_metrics : metric_map) (s : machine)
    : option (metric_map * machine) :=
  match param_groups self with
  | [] => None
  | group0 :: _ =>
      let lr := lr group0 in
      let weight_decay := weight_decay group0 in
      let initial_lr := initial_lr group0 in
      let '(beta1, _) := betas group0 in
      match state self (data param) with
      | None => Some (optimizer_metrics, s)
      | Some param_optim_state =>
          match grad param with
          | None => None
          | Some g =>
              let '(step_tensor, s) :=
                torch.clone (exp_avg param_optim_state) s in
              let s := torch.lerp_ step_tensor g (1 - beta1) s in
              let s := torch.sign_ step_tensor s in
              let s := torch.mul_ step_tensor lr s in
              let decay_factor :=
                if Req_dec_T initial_lr 0 then 1 else lr / initial_lr in
              let s :=
                torch.add_ step_tensor (data param)
                  (- weight_decay * decay_factor) s in
              match
                for_each
                  (fun mf om =>
                     match snd mf param param_optim_state step_tensor s with
                     | Some v =>
                         Some (metric_set (fst mf ++ "/" ++ name)%string v om)
                     | None => None
                     end)
                  metric_functions optimizer_metrics
              with
              | None => None
              | Some optimizer_metrics =>
                  Some (metric_set ("clipped_batches/" ++ name)%string
                          (item (cell s (clipped_batches param_optim_state)))
                          optimizer_metrics, s)
              end
          end
      end
  end.

End Defs.
End ClipLion.

(* ================================================================== *)
(** * FullyAdaptiveLion (lines 799-1029) *)
(* ================================================================== *)

Module FullyAdaptiveLion.
Section Defs.
Context {D : Type} `{OutlierDetector D} `{Dist}.

(** The defaults of this class hold no [weight_decay] (lines 831-834). *)
Record group_t := {
  params : list param;
  lr : R;
  betas : R * R;
  initial_lr : R
}.

Record state_t := {
  exp_avg : ref;
  moment_tracker : D;
  outlier_timestamp : list Z;
  step_count : Z
}.

Record t := {
  param_groups : list group_t;
  state : id_map state_t;
  outlier_threshold : R;
  timeout : Z;
  param_adjustment : R;
  param_init_norm : id_map R;
  param_wd_scaling : id_map R
}.

(** Lines 817-844: [print(lr)] comes before the assertions. *)
Definition __init__ (params : list param) (lr : R) (betas : R * R)
    (outlier_threshold : R) (timeout : Z) (param_adjustment : R)
    : construction t :=
  if Rlt_dec 0 lr then
    if (if Rle_dec 0 (fst betas) then if Rle_dec (fst betas) 1 then true else false else false)
       && (if Rle_dec 0 (snd betas) then if Rle_dec (snd betas) 1 then true else false else false)
    then
      {| printed := [lr]; logged := [];
         instance :=
           Some {| param_groups :=
                     [ {| params := params; lr := lr; betas := betas;
                          initial_lr := lr |} ];
                   state := fun _ => None;
                   outlier_threshold := outlier_threshold;
                   timeout := timeout;
                   param_adjustment := param_adjustment;
                   param_init_norm := fun _ => None;
                   param_wd_scaling := fun _ => None |} |}
    else {| printed := [lr]; logged := []; instance := None |}
  else {| printed := [lr]; logged := []; instance := None |}.

(** Lines 847-849. *)
Definition adjust_param (lr param_adjustment : R) (num_times : nat) : R :=
  lr * (param_adjustment ^ num_times).

Definition init_state (self : t) (p : param) (st : id_map state_t)
    (s : machine) : state_t * machine :=
  match st (data p) with
  | Some state => (state, s)
  | None =>
      let '(exp_avg, s) := torch.zeros_like (data p) s in
      ({| exp_avg := exp_avg;
          moment_tracker := new_detector (outlier_threshold self);
          outlier_timestamp := [];
          step_count := 0 |}, s)
  end.

(** The local dictionaries of [step] and the per-parameter state. *)
Record locals := {
  tmp_param_init_norm : @dict ref R;
  tmp_param_current_norm : @dict ref R;
  states : id_map state_t
}.

(** [self.param_wd_scaling.get(p, 0.0)]. *)
Definition wd_scaling_of (self : t) (p : param) : R :=
  match param_wd_scaling self (data p) with
  | Some wd_scale => wd_scale
  | None => 0
  end.

(** Lines 881-931. *)
Definition step_param (self : t) (group : group_t) (p : param)
    (x : locals * machine) : option (locals * machine) :=
  let '(loc, s) := x in
  match grad p with
  | None => Some (loc, s)
  | Some grad =>
      let tmp_init :=
        match param_init_norm self (data p) with
        | None =>
            dict_set Nat.eqb (data p)
              (torch.vector_norm (cell s (data p)) ^ 2)
              (tmp_param_init_norm loc)
        | Some _ => tmp_param_init_norm loc
        end in
      let lr := lr group in
      let initial_lr := initial_lr group in
      let '(beta1, beta2) := betas group in
      let '(state, s) := init_state self p (states loc) s in
      let exp_avg := exp_avg state in
      match moment_norm exp_avg grad beta2 s with
      | None => None
      | Some (moment_norm, s) =>
          let '(flagged, tracker) :=
            insert_observation (moment_tracker state) moment_norm in
          let outlier_timestamp :=
            update_window flagged (step_count state) (timeout self)
              (outlier_timestamp state) in
          let lr :=
            adjust_param lr (param_adjustment self) (length outlier_timestamp) in
          let beta1 :=
            adjust_param beta1 (param_adjustment self) (length outlier_timestamp) in
          let beta2 :=
            adjust_param beta1 (param_adjustment self) (length outlier_timestamp) in
          let wd := lr * wd_scaling_of self p in
          let s := lionw (data p) grad exp_avg lr initial_lr wd beta1 beta2 s in
          Some ({| tmp_param_init_norm := tmp_init;
                   tmp_param_current_norm :=
                     dict_set Nat.eqb (data p)
                       (torch.vector_norm (cell s (data p)) ^ 2)
                       (tmp_param_current_norm loc);
                   states :=
                     id_set (data p)
                       {| exp_avg := exp_avg; moment_tracker := tracker;
                          outlier_timestamp := outlier_timestamp;
                          step_count := step_count state + 1 |}
                       (states loc) |}, s)
      end
  end.

(** Lines 934-938: all_reduce of the initial param norms. *)
Definition reduce_init_norm (tmp_param_init_norm : @dict ref R) (p : ref)
    (x : id_map R * machine) : option (id_map R * machine) :=
  let '(param_init_norm, s) := x in
  match dict_get Nat.eqb p tmp_param_init_norm with
  | None => None
  | Some reduced =>
      let '(reduced, s) := reduce_if_distributed reduced s in
      match math_sqrt reduced with
      | None => None
      | Some root => Some (id_set p root param_init_norm, s)
      end
  end.

(** Lines 941-945: all_reduce of the current param norms. *)
Definition reduce_current_norm (p : ref) (x : @dict ref R * machine)
    : option (@dict ref R * machine) :=
  let '(tmp_param_current_norm, s) := x in
  match dict_get Nat.eqb p tmp_param_current_norm with
  | None => None
  | Some reduced =>
      let '(reduced, s) := reduce_if_distributed reduced s in
      match math_sqrt reduced with
      | None => None
      | Some root => Some (dict_set Nat.eqb p root tmp_param_current_norm, s)
      end
  end.

(** Lines 948-952: the new per-parameter weight-decay scaling.  Both
    norms are Python floats, so a zero initial norm raises
    [ZeroDivisionError]. *)
Definition derive_wd_scaling (param_init_norm : id_map R)
    (tmp_param_current_norm : @dict ref R) (p : ref)
    (param_wd_scaling : id_map R) : option (id_map R) :=
  match param_init_norm p, dict_get Nat.eqb p tmp_param_current_norm with
  | Some p_0, Some p_t =>
      if Req_dec_T p_0 0 then None
      else Some (id_set p ((p_t - p_0) / p_0) param_wd_scaling)
  | _, _ => None
  end.

(** Lines 868-954. *)
Definition step (self : t) (closure : closure_t) (s : machine)
    : option (option R * t * machine) :=
  let '(loss, s) := call_closure closure s in
  match
    for_each
      (fun group =>
         for_each (step_param self group) (filter trainable (params group)))
      (param_groups self)
      ({| tmp_param_init_norm := []; tmp_param_current_norm := [];
          states := state self |}, s)
  with
  | None => None
  | Some (loc, s) =>
      match
        for_each (reduce_init_norm (tmp_param_init_norm loc))
          (keys (tmp_param_init_norm loc)) (param_init_norm self, s)
      with
      | None => None
      | Some (init_norm, s) =>
          match
            for_each reduce_current_norm
              (keys (tmp_param_current_norm loc))
              (tmp_param_current_norm loc, s)
          with
          | None => None
          | Some (current_norm, s) =>
              match
                for_each (derive_wd_scaling init_norm current_norm)
                  (keys current_norm) (param_wd_scaling self)
              with
              | None => None
              | Some wd_scaling =>
                  Some (loss,
                        {| param_groups := param_groups self;
                           state := states loc;
                           outlier_threshold := outlier_threshold self;
                           timeout := timeout self;
                           param_adjustment := param_adjustment self;
                           param_init_norm := init_norm;
                           param_wd_scaling := wd_scaling |},
                        s)
              end
          end
      end
  end.

Context `{Functional}.

(** Lines 957-978: the two families only; every other key is left as
    it is. *)
Definition dist_reduce_metric (metric : string) (x : metric_map * machine)
    : option (metric_map * machine) :=
  let '(optimizer_metrics, s) := x in
  if startswith metric "l2_norm" then
    match metric_get metric optimizer_metrics with
    | None => None
    | Some reduced =>
        let '(reduced, s) := reduce_if_distributed reduced s in
        match math_sqrt reduced with
        | None => None
        | Some root => Some (metric_set metric root optimizer_metrics, s)
        end
    end
  else if startswith metric "cosine" then
    match metric_get metric optimizer_metrics with
    | None => None
    | Some reduced =>
        let '(reduced, s) := reduce_if_distributed reduced s in
        match SkipLion.split_cosine metric with
        | None => None
        | Some (A, B, layer) =>
            match metric_get (SkipLion.l2_norm_key A layer) optimizer_metrics,
                  metric_get (SkipLion.l2_norm_key B layer) optimizer_metrics with
            | Some A_reduced_norm, Some B_reduced_norm =>
                Some (metric_set metric
                        (reduced / (A_reduced_norm * B_reduced_norm))
                        optimizer_metrics, s)
            | _, _ => None
            end
        end
    end
  else Some (optimizer_metrics, s).

Definition dist_reduce_metrics (optimizer_metrics : metric_map) (s : machine)
    : option (metric_map * machine) :=
  for_each dist_reduce_metric (keys optimizer_metrics) (optimizer_metrics, s).

(** Lines 980-1001. *)
Definition pre_reduce_metric (metric : string) (optimizer_metrics : metric_map)
    : option metric_map :=
  if startswith metric "l2_norm" then
    (* L2 norms need to be squared, before they are reduced via summation *)
    match metric_get metric optimizer_metrics with
    | None => None
    | Some v => Some (metric_set metric (v ^ 2) optimizer_metrics)
    end
  else if startswith metric "cosine" then
    match SkipLion.split_cosine metric with
    | None => None
    | Some (A, B, layer) =>
        (* L2 norm would've been squared in previous branch *)
        match metric_get (SkipLion.l2_norm_key A layer) optimizer_metrics,
              metric_get (SkipLion.l2_norm_key B layer) optimizer_metrics with
        | Some A_sq, Some B_sq =>
            match math_sqrt A_sq, math_sqrt B_sq,
                  metric_get metric optimizer_metrics with
            | Some A_rank_subset_norm, Some B_rank_subset_norm, Some v =>
                Some (metric_set metric
                        (v * (A_rank_subset_norm * B_rank_subset_norm))
                        optimizer_metrics)
            | _, _, _ => None
            end
        | _, _ => None
        end
    end
  else Some optimizer_metrics.

Definition pre_reduce_metrics (optimizer_metrics : metric_map)
    : option metric_map :=
  let metrics := keys optimizer_metrics in
  let metrics :=
    sorted (fun metric => if contains "l2_norm" metric then 0 else 1)%nat
      metrics in
  for_each pre_reduce_metric metrics optimizer_metrics.

(** [metric_functions] (lines 800-815). *)
Definition metric_functions
    : list (string * (param -> state_t -> ref -> machine -> option R)) :=
  [ ("l2_norm/moment"%string,
     fun param optim_state step_tensor s =>
       Some (torch.vector_norm (cell s (exp_avg optim_state))));
    ("l2_norm/param"%string,
     fun param optim_state step_tensor s =>
       Some (torch.vector_norm (cell s (data param))));
    ("l2_norm/update"%string,
     fun param optim_state step_tensor s =>
       Some (torch.vector_norm (cell s step_tensor)));
    ("l2_norm/grad"%string,
     fun param optim_state step_tensor s =>
       match grad param with
       | Some g => Some (torch.vector_norm (cell s g))
       | None => None
       end);
    ("cosine/update_grad"%string,
     fun param optim_state step_tensor s =>
       match grad param with
       | Some g => Some (cosine_similarity (cell s g) (cell s step_tensor))
       | None => None
       end);
    ("cosine/moment_grad"%string,
     fun param optim_state step_tensor s =>
       match grad param with
       | Some g =>
           Some (cosine_similarity (cell s g) (cell s (exp_avg optim_state)))
       | None => None
       end) ].

(** Lines 1004-1029.  The default [torch.tensor(0.0)] of the last [get]
    is built whether or not the parameter has a scaling. *)
Definition report_per_parameter_metrics (self : t) (param : param)
    (name : string) (optimizer_metrics : metric_map) (s : machine)
    : option (metric_map * machine) :=
  match param_groups self with
  | [] => None
  | group0 :: _ =>
      let lr := lr group0 in
      let initial_lr := initial_lr group0 in
      let '(beta1, beta2) := betas group0 in
      match state self (data param) with
      | None => Some (optimizer_metrics, s)
      | Some param_optim_state =>
          let layerwise_lr :=
            adjust_param lr (param_adjustment self)
              (length (outlier_timestamp param_optim_state)) in
          let beta1 :=
            adjust_param beta1 (param_adjustment self)
              (length (outlier_timestamp param_optim_state)) in
          let beta2 :=
            adjust_param beta1 (param_adjustment self)
              (length (outlier_timestamp param_optim_state)) in
          let wd := layerwise_lr * wd_scaling_of self param in
          match grad param with
          | None => None
          | Some g =>
              let '(step_tensor, s) :=
                torch.clone (exp_avg param_optim_state) s in
              let s := torch.lerp_ step_tensor g (1 - beta1) s in
              let s := torch.sign_ step_tensor s in
              let s := torch.mul_ step_tensor layerwise_lr s in
              let decay_factor :=
                if Req_dec_T initial_lr 0 then 1
                else layerwise_lr / initial_lr in
              let s :=
                torch.add_ step_tensor (data param) (- wd * decay_factor) s in
              match
                for_each
                  (fun mf om =>
                     match snd mf param param_optim_state step_tensor s with
                     | Some v =>
                         Some (metric_set (fst mf ++ "/" ++ name)%string v om)
                     | None => None
                     end)
                  metric_functions optimizer_metrics
              with
              | None => None
              | Some optimizer_metrics =>
                  let '(t1, s) := torch.scalar_tensor layerwise_lr s in
                  let optimizer_metrics :=
                    metric_set ("layerwise_lr/" ++ name)%string
                      (item (cell s t1)) optimizer_metrics in
                  let '(t2, s) := torch.scalar_tensor beta1 s in
                  let optimizer_metrics :=
                    metric_set ("betas/beta1/" ++ name)%string
                      (item (cell s t2)) optimizer_metrics in
                  let '(t3, s) := torch.scalar_tensor beta2 s in
                  let optimizer_metrics :=
                    metric_set ("betas/beta2/" ++ name)%string
                      (item (cell s t3)) optimizer_metrics in
                  let '(t4, s) := torch.scalar_tensor 0 s in
                  let wd_scaling :=
                    match param_wd_scaling self (data param) with
                    | Some wd_scale => wd_scale
                    | None => item (cell s t4)
                    end in
                  Some (metric_set ("wd_scaling/" ++ name)%string wd_scaling
                          optimizer_metrics, s)
              end
          end
      end
  end.

End Defs.
End FullyAdaptiveLion.

(* ================================================================== *)
(** * Well-formed optimizer states *)
(* ================================================================== *)

(** What the state of a parameter [p] looks like in a store: its tensors
    are allocated, are objects of their own, and the momentum has the
    shape of the parameter.  [step] establishes this when it creates the
    state and keeps it. *)
Definition skip_state_ok {D : Type} (state : @SkipLion.state_t D) (p : ref)
    (s : machine) : Prop :=
  (SkipLion.exp_avg state < next_ref s)%nat
  /\ (SkipLion.skipped_batches state < next_ref s)%nat
  /\ SkipLion.exp_avg state <> p
  /\ SkipLion.skipped_batches state <> p
  /\ SkipLion.skipped_batches state <> SkipLion.exp_avg state
  /\ length (cell s (SkipLion.exp_avg state)) = length (cell s p)
  /\ length (cell s (SkipLion.skipped_batches state)) = 1%nat.

Definition clip_state_ok {D : Type} (state : @ClipLion.state_t D)
    (p grad : ref) (s : machine) : Prop :=
  (ClipLion.exp_avg state < next_ref s)%nat
  /\ (ClipLion.clipped_batches state < next_ref s)%nat
  /\ ClipLion.exp_avg state <> p
  /\ ClipLion.clipped_batches state <> p
  /\ ClipLion.clipped_batches state <> ClipLion.exp_avg state
  /\ ClipLion.exp_avg state <> grad
  /\ ClipLion.clipped_batches state <> grad
  /\ length (cell s (ClipLion.exp_avg state)) = length (cell s p)
  /\ length (cell s (ClipLion.clipped_batches state)) = 1%nat.

(** For the three variants with an outlier window the state holds one
    tensor, the momentum. *)
Definition momentum_ok (exp_avg p : ref) (s : machine) : Prop :=
  (exp_avg < next_ref s)%nat
  /\ exp_avg <> p
  /\ length (cell s exp_avg) = length (cell s p).

(** The local dictionaries have distinct keys, and a key of
    [tmp_param_init_norm] has no initial norm yet. *)
Definition locals_ok {D : Type} (self : @FullyAdaptiveLion.t D)
    (loc : @FullyAdaptiveLion.locals D) : Prop :=
  NoDup (keys (FullyAdaptiveLion.tmp_param_init_norm loc))
  /\ NoDup (keys (FullyAdaptiveLion.tmp_param_current_norm loc))
  /\ (forall k, In k (keys (FullyAdaptiveLion.tmp_param_init_norm loc)) ->
        FullyAdaptiveLion.param_init_norm self k = None).

(** The keys [report_per_parameter_metrics] assigns for a parameter
    name: one per metric function, then the counter. *)
Definition reported_keys (name : string) : list string :=
  [ ("l2_norm/moment" ++ "/" ++ name)%string;
    ("l2_norm/param" ++ "/" ++ name)%string;
    ("l2_norm/update" ++ "/" ++ name)%string;
    ("l2_norm/grad" ++ "/" ++ name)%string;
    ("cosine/update_grad" ++ "/" ++ name)%string;
    ("cosine/moment_grad" ++ "/" ++ name)%string;
    ("skipped_batches/" ++ name)%string ].

(* ================================================================== *)
(** * Metric maps the reduction protocol is meant for *)
(* ================================================================== *)

(** The keys of a [dict] are distinct. *)
Definition well_keyed (m : metric_map) : Prop := NoDup (keys m).

(** Every value of the l2_norm family is a norm, hence not negative. *)
Definition norms_nonneg (m : metric_map) : Prop :=
  forall metric v,
    In (metric, v) m -> startswith metric "l2_norm" = true -> 0 <= v.

(** Every key of the cosine family reads [cosine/<A>_<B>/<layer>], and
    the two norms [l2_norm/<A>/<layer>] and [l2_norm/<B>/<layer>] stand
    before it in the iteration order of the map, with positive values.
    This is the order in which [report_per_parameter_metrics] fills the
    map. *)
Definition siblings_before (m : metric_map) : Prop :=
  forall before metric v after,
    m = before ++ (metric, v) :: after ->
    startswith metric "l2_norm" = false ->
    startswith metric "cosine" = true ->
    exists A B layer a b,
      SkipLion.split_cosine metric = Some (A, B, layer)
      /\ metric_get (SkipLion.l2_norm_key A layer) before = Some a
      /\ metric_get (SkipLion.l2_norm_key B layer) before = Some b
      /\ 0 < a /\ 0 < b.

(** What the claim of the specification asks of a map: both sibling norms
    of every cosine key are somewhere in the map, with positive values. *)
Definition siblings_present (m : metric_map) : Prop :=
  forall metric v,
    In (metric, v) m ->
    startswith metric "l2_norm" = false ->
    startswith metric "cosine" = true ->
    exists A B layer a b,
      SkipLion.split_cosine metric = Some (A, B, layer)
      /\ metric_get (SkipLion.l2_norm_key A layer) m = Some a
      /\ metric_get (SkipLion.l2_norm_key B layer) m = Some b
      /\ 0 < a /\ 0 < b.

(** The value [pre_reduce_metrics] is to leave under a key: the square of
    a norm, a cosine multiplied by its two norms, anything else as it is. *)
Definition pre_reduced_value (m : metric_map) (metric : string) (v : R) : R :=
  if startswith metric "l2_norm" then v ^ 2
  else if startswith metric "cosine" then
    match SkipLion.split_cosine metric with
    | Some (A, B, layer) =>
        match metric_get (SkipLion.l2_norm_key A layer) m,
              metric_get (SkipLion.l2_norm_key B layer) m with
        | Some a, Some b => v * (a * b)
        | _, _ => v
        end
    | None => v
    end
  else v.

(** A map part of whose keys ([done]) a loop has already rewritten: those
    hold [f1] of the original value, the others [f0] of it. *)
Definition staged (f0 f1 : string -> R -> R) (done : list string)
    (m : metric_map) : metric_map :=
  map (fun kv =>
         (fst kv,
          if in_dec string_dec (fst kv) done then f1 (fst kv) (snd kv)
          else f0 (fst kv) (snd kv)))
    m.

(* ================================================================== *)
(** * Whole steps and the reduction loop *)
(* ================================================================== *)

(** The tensors a state map owns: [r] is one of the tensors of one of
    its states. *)
Definition owned {S : Type} (tensors : S -> list ref) (st : id_map S)
    (r : ref) : Prop :=
  exists q state, st q = Some state /\ In r (tensors state).

(** The parameters the loops of [step] process, in their order, and
    their number. *)
Definition trained_params {G : Type} (params : G -> list param)
    (groups : list G) : list param :=
  flat_map (fun group => filter trainable (params group)) groups.

Definition trained {G : Type} (params : G -> list param) (groups : list G)
    : nat :=
  length (trained_params params groups).

(** The number of collective calls one worker makes for [n] reductions. *)
Definition collectives `{Dist} (n : nat) : nat :=
  if (1 <? get_world_size)%Z then n else 0%nat.

(** The tensors the state of one parameter holds, for each variant. *)
Definition skip_tensors {D : Type} (state : @SkipLion.state_t D) : list ref :=
  [SkipLion.exp_avg state; SkipLion.skipped_batches state].

Definition clip_tensors {D : Type} (state : @ClipLion.state_t D) : list ref :=
  [ClipLion.exp_avg state; ClipLion.clipped_batches state].

Definition adabeta_tensors {D : Type} (state : @AdaBetaLion.state_t D)
    : list ref :=
  [AdaBetaLion.exp_avg state].

Definition adalr_tensors {D : Type} (state : @AdaLRLion.state_t D) : list ref :=
  [AdaLRLion.exp_avg state].

Definition fully_tensors {D : Type} (state : @FullyAdaptiveLion.state_t D)
    : list ref :=
  [FullyAdaptiveLion.exp_avg state].

(** [p not in self.param_init_norm] (line 881). *)
Definition no_init_norm_yet {D : Type} (self : @FullyAdaptiveLion.t D)
    (p : param) : bool :=
  match FullyAdaptiveLion.param_init_norm self (data p) with
  | None => true
  | Some _ => false
  end.

(** The steps of a run, numbered from 0, that the detector flagged and
    that are at most [timeout] steps older than the last one. *)
Definition recent_outliers (timeout : Z) (verdicts : list bool) : list Z :=
  let last := (Z.of_nat (length verdicts) - 1)%Z in
  map Z.of_nat
    (filter
       (fun i => nth i verdicts false && (last - Z.of_nat i <=? timeout)%Z)
       (seq 0 (length verdicts))).

(** The loop body of [dist_reduce_metrics] in the shape the five classes
    share: they differ in the keys that are passed over
    ([skipped_batches], [beta], [layerwise_lr], [clipped_batches]; every
    key outside the two families in FullyAdaptiveLion, whose loop has no
    last branch). *)
Definition dist_reduce_metric_of `{Dist} (passed_over : string -> bool)
    (metric : string) (x : metric_map * machine)
    : option (metric_map * machine) :=
  let '(optimizer_metrics, s) := x in
  if startswith metric "l2_norm" then
    match metric_get metric optimizer_metrics with
    | None => None
    | Some reduced =>
        let '(reduced, s) := reduce_if_distributed reduced s in
        match math_sqrt reduced with
        | None => None
        | Some root => Some (metric_set metric root optimizer_metrics, s)
        end
    end
  else if startswith metric "cosine" then
    match metric_get metric optimizer_metrics with
    | None => None
    | Some reduced =>
        let '(reduced, s) := reduce_if_distributed reduced s in
        match SkipLion.split_cosine metric with
        | None => None
        | Some (A, B, layer) =>
            match metric_get (SkipLion.l2_norm_key A layer) optimizer_metrics,
                  metric_get (SkipLion.l2_norm_key B layer) optimizer_metrics with
            | Some A_reduced_norm, Some B_reduced_norm =>
                Some (metric_set metric
                        (reduced / (A_reduced_norm * B_reduced_norm))
                        optimizer_metrics, s)
            | _, _ => None
            end
        end
    end
  else if passed_over metric then Some (optimizer_metrics, s)
  else
    match metric_get metric optimizer_metrics with
    | None => None
    | Some reduced =>
        let '(reduced, s) := reduce_if_distributed reduced s in
        Some (metric_set metric (reduced / IZR get_world_size)
                optimizer_metrics, s)
    end.

(** The keys for which the loop makes a collective call when there is
    more than one worker. *)
Definition reduced_key (passed_over : string -> bool) (metric : string)
    : bool :=
  startswith metric "l2_norm" || startswith metric "cosine"
  || negb (passed_over metric).

(** The keys the loop leaves alone: outside the two families and passed
    over. *)
Definition untouched_key (passed_over : string -> bool) (metric : string)
    : bool :=
  negb (startswith metric "l2_norm") && negb (startswith metric "cosine")
  && passed_over metric.

(** A key of the cosine family that the loops cannot take apart, or one
    of whose sibling norms is not in the map. *)
Definition unreadable_cosine (m : metric_map) (k : string) : Prop :=
  In k (keys m)
  /\ startswith k "l2_norm" = false /\ startswith k "cosine" = true
  /\ match SkipLion.split_cosine k with
     | None => True
     | Some (A, B, layer) =>
         metric_get (SkipLion.l2_norm_key A layer) m = None
         \/ metric_get (SkipLion.l2_norm_key B layer) m = None
     end.

(** Every key of the cosine family reads [cosine/<A>_<B>/<layer>], and
    its two sibling norms stand before it in the map; nothing is asked
    of the values. *)
Definition siblings_stand_before (m : metric_map) : Prop :=
  forall before metric v after,
    m = before ++ (metric, v) :: after ->
    startswith metric "l2_norm" = false ->
    startswith metric "cosine" = true ->
    exists A B layer,
      SkipLion.split_cosine metric = Some (A, B, layer)
      /\ In (SkipLion.l2_norm_key A layer) (keys before)
      /\ In (SkipLion.l2_norm_key B layer) (keys before).

(** What [pre_reduce_metrics] leaves under a key whatever the signs of
    the values: the root of a squared norm is its absolute value. *)
Definition pre_reduced_abs (m : metric_map) (metric : string) (v : R) : R :=
  if startswith metric "l2_norm" then v ^ 2
  else if startswith metric "cosine" then
    match SkipLion.split_cosine metric with
    | Some (A, B, layer) =>
        match metric_get (SkipLion.l2_norm_key A layer) m,
              metric_get (SkipLion.l2_norm_key B layer) m with
        | Some a, Some b => v * (Rabs a * Rabs b)
        | _, _ => v
        end
    | None => v
    end
  else v.

(* ================================================================== *)
(** * Concrete collaborators for worked inputs *)
(* ================================================================== *)

(** A store holding the given tensors at references 0, 1, 2, ... *)
Definition machine_of (ts : list tensor) : machine :=
  {| next_ref := length ts; cell := fun r => nth r ts []; calls := 0 |}.

(** A detector double whose verdicts are scripted: it answers the next
    entry of its script whatever the observation, and reports a fixed
    slow average. *)
Record scripted := {
  script : list bool;
  slow_mva : R
}.

Definition scripted_detector (verdicts : list bool) (mva : R)
    : OutlierDetector scripted :=
  {| new_detector := fun _ => {| script := verdicts; slow_mva := mva |};
     insert_observation := fun d _ =>
       match script d with
       | [] => (false, d)
       | b :: rest => (b, {| script := rest; slow_mva := slow_mva d |})
       end;
     get_slow_mva := slow_mva |}.

(** A single worker. *)
Definition single_worker : Dist :=
  {| get_world_size := 1; peers_sum := fun _ => 0 |}.

(** Two workers; the other one contributes [peer k] to the [k]-th
    collective call of this one. *)
Definition two_workers (peer : nat -> R) : Dist :=
  {| get_world_size := 2; peers_sum := peer |}.

(** The cosine similarity without the epsilon clamp. *)
Definition plain_cosine : Functional :=
  {| cosine_similarity := fun a b =>
       fold_right Rplus 0 (zip_with Rmult a b)
       / (torch.vector_norm a * torch.vector_norm b) |}.

(* ================================================================== *)
(** * Properties *)
(* ================================================================== *)

(** ** The store *)

Lemma cell_write_same r t s : cell (write r t s) r = t.
Proof. unfold write; simpl. now rewrite Nat.eqb_refl. Qed.

Lemma cell_write_other r r' t s : r' <> r -> cell (write r t s) r' = cell s r'.
Proof.
  intros Hne; unfold write; simpl.
  destruct (Nat.eqb_spec r' r); [contradiction | reflexivity].
Qed.

Lemma cell_alloc_old t s r :
  (r < next_ref s)%nat -> cell (snd (alloc t s)) r = cell s r.
Proof.
  intros Hlt; unfold alloc; simpl.
  destruct (Nat.eqb_spec r (next_ref s)); [lia | reflexivity].
Qed.

Lemma cell_alloc_new t s : cell (snd (alloc t s)) (fst (alloc t s)) = t.
Proof. unfold alloc; simpl. now rewrite Nat.eqb_refl. Qed.

(** ** Elementwise operations *)

Lemma zip_with_map_l f g a b :
  zip_with f (map g a) b = zip_with (fun x y => f (g x) y) a b.
Proof.
  revert b; induction a as [|x a IH]; intros [|y b]; simpl; try reflexivity.
  now rewrite IH.
Qed.

Lemma zip_with_map_r f g a b :
  zip_with f a (map g b) = zip_with (fun x y => f x (g y)) a b.
Proof.
  revert b; induction a as [|x a IH]; intros [|y b]; simpl; try reflexivity.
  now rewrite IH.
Qed.

Lemma zip_with_ext f g a b :
  (forall x y, f x y = g x y) -> zip_with f a b = zip_with g a b.
Proof.
  intros Hfg; revert b; induction a as [|x a IH]; intros [|y b]; simpl;
    try reflexivity.
  now rewrite Hfg, IH.
Qed.

Lemma map_zip_with g f a b :
  map g (zip_with f a b) = zip_with (fun x y => g (f x y)) a b.
Proof.
  revert b; induction a as [|x a IH]; intros [|y b]; simpl; try reflexivity.
  now rewrite IH.
Qed.

Lemma length_zip_with f a b :
  length a = length b -> length (zip_with f a b) = length a.
Proof.
  revert b; induction a as [|x a IH]; intros [|y b]; simpl;
    try reflexivity; try discriminate.
  intros H; f_equal; apply IH; lia.
Qed.

Lemma sign_val_neg x : x < 0 -> sign_val x = -1.
Proof. intros H; unfold sign_val. destruct (Rlt_dec x 0); [reflexivity | lra]. Qed.

Lemma sign_val_zero : sign_val 0 = 0.
Proof.
  unfold sign_val. destruct (Rlt_dec 0 0); [lra | reflexivity].
Qed.

Lemma sign_val_pos x : 0 < x -> sign_val x = 1.
Proof.
  intros H; unfold sign_val.
  destruct (Rlt_dec x 0); [lra |]. destruct (Rlt_dec 0 x); [reflexivity | lra].
Qed.

(** ** The update rule *)

Ltac eqb_cases :=
  repeat match goal with
         | |- context [Nat.eqb ?a ?b] =>
             destruct (Nat.eqb_spec a b); try lia
         end.

Lemma lionw_cells p g m lr ilr wd b1 b2 s :
  p <> g -> p <> m ->
  (p < next_ref s)%nat -> (g < next_ref s)%nat -> (m < next_ref s)%nat ->
  let s' := lionw p g m lr ilr wd b1 b2 s in
  cell s' p =
    SignMomentumUpdate.new_parameter (cell s p) (cell s g) (cell s m) lr ilr wd b1
  /\ cell s' m = SignMomentumUpdate.new_momentum (cell s m) (cell s g) b2
  /\ (forall r, (r < next_ref s)%nat -> r <> p -> r <> m -> cell s' r = cell s r)
  /\ next_ref s' = S (next_ref s)
  /\ calls s' = calls s.
Proof.
  intros Hpg Hpm Hp Hg Hm.
  unfold lionw, SignMomentumUpdate.new_parameter, SignMomentumUpdate.update,
    SignMomentumUpdate.new_momentum, SignMomentumUpdate.decay_scale.
  destruct (Req_dec_T wd 0) as [Hwd | Hwd];
    [| destruct (Req_dec_T ilr 0) as [Hi | Hi]];
    unfold torch.lerp, torch.lerp_, torch.sign_, torch.add_, torch.mul_,
      alloc, write; simpl;
    (repeat split; [ | | intros r Hr Hrp Hrm ]); eqb_cases;
    try reflexivity;
    rewrite ?map_zip_with, ?zip_with_map_l;
    apply zip_with_ext; intros; unfold Rdiv; ring.
Qed.

(** C1.  The shared update rule.  For references [p], [grad], [exp_avg]
    to allocated tensors of one shape, with [p] distinct from the other
    two, [lionw] leaves in the cell of [p] the parameter scaled by
    [1 - wd * (lr / initial_lr)] when [wd <> 0] (by [1 - wd * 1] when
    [initial_lr] is zero) and decremented by
    [lr * sign (lerp exp_avg grad (1 - beta1))] elementwise, where the
    momentum read is the one before the call; when [wd = 0] the parameter
    is only decremented; the cell of [exp_avg] is overwritten with
    [lerp exp_avg grad (1 - beta2)]; and [sign] maps negative numbers to
    -1, zero to 0 and positive numbers to +1. *)
Theorem lionw_update_rule p grad exp_avg lr initial_lr wd beta1 beta2 s :
  p <> grad -> p <> exp_avg ->
  (p < next_ref s)%nat -> (grad < next_ref s)%nat ->
  (exp_avg < next_ref s)%nat ->
  length (cell s grad) = length (cell s p) ->
  length (cell s exp_avg) = length (cell s p) ->
  let s' := lionw p grad exp_avg lr initial_lr wd beta1 beta2 s in
  let update :=
    zip_with (fun m g => sign_val (lerp_val m g (1 - beta1)))
      (cell s exp_avg) (cell s grad) in
  cell s' p =
    SignMomentumUpdate.new_parameter (cell s p) (cell s grad) (cell s exp_avg)
      lr initial_lr wd beta1
  /\ (wd <> 0 -> initial_lr <> 0 ->
      cell s' p =
        zip_with (fun x u => (1 - wd * (lr / initial_lr)) * x - lr * u)
          (cell s p) update)
  /\ (wd <> 0 -> initial_lr = 0 ->
      cell s' p =
        zip_with (fun x u => (1 - wd * 1) * x - lr * u) (cell s p) update)
  /\ (wd = 0 ->
      cell s' p = zip_with (fun x u => x - lr * u) (cell s p) update)
  /\ cell s' exp_avg =
       zip_with (fun m g => lerp_val m g (1 - beta2))
         (cell s exp_avg) (cell s grad)
  /\ cell s' exp_avg =
       SignMomentumUpdate.new_momentum (cell s exp_avg) (cell s grad) beta2
  /\ length (cell s' p) = length (cell s p)
  /\ length (cell s' exp_avg) = length (cell s exp_avg)
  /\ (forall x, x < 0 -> sign_val x = -1)
  /\ sign_val 0 = 0
  /\ (forall x, 0 < x -> sign_val x = 1).
Proof.
  intros Hpg Hpm Hp Hg Hm Lg Lm s' update.
  destruct (lionw_cells p grad exp_avg lr initial_lr wd beta1 beta2 s
              Hpg Hpm Hp Hg Hm) as (Hcp & Hcm & _ & _ & _).
  fold s' in Hcp, Hcm.
  assert (Lu : length update = length (cell s exp_avg)).
  { unfold update. apply length_zip_with. congruence. }
  repeat split.
  - exact Hcp.
  - intros Hwd Hi. rewrite Hcp.
    unfold SignMomentumUpdate.new_parameter, SignMomentumUpdate.decay_scale,
      SignMomentumUpdate.update.
    destruct (Req_dec_T wd 0); [contradiction |].
    destruct (Req_dec_T initial_lr 0); [contradiction | reflexivity].
  - intros Hwd Hi. rewrite Hcp.
    unfold SignMomentumUpdate.new_parameter, SignMomentumUpdate.decay_scale,
      SignMomentumUpdate.update.
    destruct (Req_dec_T wd 0); [contradiction |].
    destruct (Req_dec_T initial_lr 0); [reflexivity | contradiction].
  - intros Hwd. rewrite Hcp.
    unfold SignMomentumUpdate.new_parameter, SignMomentumUpdate.decay_scale,
      SignMomentumUpdate.update.
    destruct (Req_dec_T wd 0); [| contradiction].
    apply zip_with_ext; intros; ring.
  - exact Hcm.
  - exact Hcm.
  - rewrite Hcp. unfold SignMomentumUpdate.new_parameter.
    apply length_zip_with.
    change (SignMomentumUpdate.update (cell s exp_avg) (cell s grad) beta1)
      with update.
    congruence.
  - rewrite Hcm. unfold SignMomentumUpdate.new_momentum.
    apply length_zip_with. congruence.
  - exact sign_val_neg.
  - exact sign_val_zero.
  - exact sign_val_pos.
Qed.

(** The rule on a two-element parameter [1; -2] with gradient [1/2; 0],
    zero momentum, [lr = initial_lr = 1/10], no weight decay and betas
    (9/10, 99/100): the first element moves by [-lr], the second, whose
    interpolated momentum is zero, stays. *)
Lemma lionw_update_rule_witness :
  let s := machine_of [[1; -2]; [1 / 2; 0]; [0; 0]] in
  let s' := lionw 0%nat 1%nat 2%nat (1 / 10) (1 / 10) 0 (9 / 10) (99 / 100) s in
  cell s' 0%nat = [9 / 10; -2] /\ cell s' 2%nat = [1 / 200; 0].
Proof.
  intros s s'.
  destruct (lionw_update_rule 0%nat 1%nat 2%nat (1 / 10) (1 / 10) 0 (9 / 10)
              (99 / 100) s
              ltac:(lia) ltac:(lia) ltac:(simpl; lia) ltac:(simpl; lia)
              ltac:(simpl; lia) ltac:(reflexivity) ltac:(reflexivity))
    as (_ & _ & _ & Hp & Hm & _).
  fold s' in Hp, Hm. rewrite Hp, Hm by reflexivity. simpl.
  unfold lerp_val.
  replace (0 + (1 - 9 / 10) * (1 / 2 - 0)) with (1 / 20) by lra.
  replace (0 + (1 - 9 / 10) * (0 - 0)) with 0 by lra.
  rewrite sign_val_zero, (sign_val_pos (1 / 20)) by lra.
  split; (f_equal; [lra | f_equal; lra]).
Defined.

(** ** Observations *)

Lemma sum_squares_nonneg t : 0 <= sum_squares t.
Proof.
  induction t as [|x t IH]; simpl; [lra |].
  pose proof (Rle_0_sqr x) as Hx. unfold Rsqr in Hx. lra.
Qed.

Lemma vector_norm_nonneg t : 0 <= torch.vector_norm t.
Proof. apply sqrt_pos. Qed.

Lemma vector_norm_sq t : torch.vector_norm t ^ 2 = sum_squares t.
Proof.
  unfold torch.vector_norm. simpl. rewrite Rmult_1_r.
  apply sqrt_sqrt, sum_squares_nonneg.
Qed.

Lemma math_sqrt_nonneg x : 0 <= x -> math_sqrt x = Some (sqrt x).
Proof. intros Hx; unfold math_sqrt. destruct (Rlt_dec x 0); [lra | reflexivity]. Qed.

Lemma math_sqrt_sq x : 0 <= x -> math_sqrt (x ^ 2) = Some x.
Proof.
  intros Hx. rewrite math_sqrt_nonneg by (apply pow2_ge_0).
  now rewrite sqrt_pow2.
Qed.

Section Properties.
Context {D : Type} {detector : OutlierDetector D} {dist : Dist}
  {functional : Functional}.

Lemma reduce_if_distributed_frame x s :
  next_ref (snd (reduce_if_distributed x s)) = next_ref s
  /\ cell (snd (reduce_if_distributed x s)) = cell s
  /\ (collective_ok s -> 0 <= x -> 0 <= fst (reduce_if_distributed x s))
  /\ ((get_world_size <= 1)%Z -> reduce_if_distributed x s = (x, s)).
Proof.
  unfold reduce_if_distributed, all_reduce, collective_ok.
  destruct (Z.ltb_spec 1 get_world_size); simpl; repeat split;
    try lia; try lra; intros [Hw | Hp]; intros; try lia; lra.
Qed.

Lemma reduced_norm_ok t s :
  collective_ok s ->
  exists obs s1,
    reduced_norm t s = Some (obs, s1)
    /\ next_ref s1 = next_ref s
    /\ cell s1 = cell s
    /\ 0 <= obs
    /\ ((get_world_size <= 1)%Z -> obs = torch.vector_norm t /\ s1 = s).
Proof.
  intros Hok. unfold reduced_norm.
  destruct (reduce_if_distributed_frame (torch.vector_norm t ^ 2) s)
    as (Hn & Hc & Hpos & Hone).
  destruct (reduce_if_distributed (torch.vector_norm t ^ 2) s) as [y s1]
    eqn:Hred.
  simpl in Hn, Hc, Hpos.
  assert (Hy : 0 <= y) by (apply Hpos; [exact Hok | apply pow2_ge_0]).
  rewrite (math_sqrt_nonneg y Hy).
  exists (sqrt y), s1. repeat split; try assumption.
  - apply sqrt_pos.
  - specialize (Hone H). inversion Hone; subst.
    apply sqrt_pow2, vector_norm_nonneg.
  - specialize (Hone H). now inversion Hone.
Qed.

Lemma moment_norm_ok m g b2 s :
  collective_ok s ->
  exists obs s1,
    moment_norm m g b2 s = Some (obs, s1)
    /\ next_ref s1 = S (next_ref s)
    /\ (forall r, (r < next_ref s)%nat -> cell s1 r = cell s r).
Proof.
  intros Hok. unfold moment_norm, torch.lerp.
  set (t := zip_with _ _ _).
  destruct (alloc t s) as [r0 s0] eqn:Ha.
  assert (Hs0 : s0 = snd (alloc t s)) by now rewrite Ha.
  destruct (reduced_norm_ok (cell s0 r0) s0) as (obs & s1 & Hr & Hn & Hc & _).
  { subst s0. exact Hok. }
  exists obs, s1. rewrite Hr. repeat split.
  - rewrite Hn, Hs0. reflexivity.
  - intros r Hlt. rewrite Hc, Hs0. now apply cell_alloc_old.
Qed.

(** ** SkipLion *)

Lemma skip_init_ok (self : SkipLion.t) p st s state0 s0 :
  SkipLion.init_state self p st s = (state0, s0) ->
  (data p < next_ref s)%nat ->
  (forall state, st (data p) = Some state -> skip_state_ok state (data p) s) ->
  skip_state_ok state0 (data p) s0
  /\ (next_ref s <= next_ref s0)%nat
  /\ (forall r, (r < next_ref s)%nat -> cell s0 r = cell s r)
  /\ calls s0 = calls s
  /\ (forall state, st (data p) = Some state -> state0 = state /\ s0 = s)
  /\ (st (data p) = None ->
      cell s0 (SkipLion.exp_avg state0) = repeat 0 (length (cell s (data p)))
      /\ cell s0 (SkipLion.skipped_batches state0) = [0]).
Proof.
  unfold SkipLion.init_state. intros Hinit Hp Hst.
  destruct (st (data p)) as [state |] eqn:Hlook.
  - inversion Hinit; subst.
    split; [now apply Hst |].
    repeat split; auto; try discriminate; now inversion H.
  - cbv beta iota zeta delta [torch.zeros_like torch.scalar_tensor alloc]
      in Hinit.
    inversion Hinit; subst; clear Hinit.
    unfold skip_state_ok.
    cbn [cell next_ref calls SkipLion.exp_avg SkipLion.skipped_batches].
    repeat split; try lia; try discriminate; try intros r Hr; eqb_cases;
      try reflexivity.
    now rewrite repeat_length.
Qed.

(** C2.  One SkipLion step on a parameter [p] with gradient [grad].
    The step returns (when the collective cannot fail).  If the detector
    flags the moment-norm observation, the cells of the parameter and of
    the momentum are what they were and the counter [skipped_batches]
    is one more.  Otherwise the counter is what it was and the store is
    the result of [lionw] called with the group's [lr], [initial_lr],
    [weight_decay] and betas, so that parameter and momentum are the
    ones the update rule prescribes. *)
Theorem skip_step_policy (self : SkipLion.t) (group : param_group)
    (p : param) (grad_ref : ref) (st : id_map SkipLion.state_t) (s : machine) :
  grad p = Some grad_ref ->
  data p <> grad_ref ->
  (data p < next_ref s)%nat -> (grad_ref < next_ref s)%nat ->
  length (cell s grad_ref) = length (cell s (data p)) ->
  (forall state, st (data p) = Some state -> skip_state_ok state (data p) s) ->
  collective_ok s ->
  let state0 := fst (SkipLion.init_state self p st s) in
  let s0 := snd (SkipLion.init_state self p st s) in
  let exp_avg := SkipLion.exp_avg state0 in
  let counter := SkipLion.skipped_batches state0 in
  exists obs s1 st' s' state',
    moment_norm exp_avg grad_ref (snd (betas group)) s0 = Some (obs, s1)
    /\ SkipLion.step_param self group p (st, s) = Some (st', s')
    /\ st' (data p) = Some state'
    /\ SkipLion.exp_avg state' = exp_avg
    /\ SkipLion.skipped_batches state' = counter
    /\ SkipLion.moment_tracker state' =
         snd (insert_observation (SkipLion.moment_tracker state0) obs)
    /\ (forall state, st (data p) = Some state -> state0 = state /\ s0 = s)
    /\ (fst (insert_observation (SkipLion.moment_tracker state0) obs) = true ->
        cell s' (data p) = cell s (data p)
        /\ cell s' exp_avg = cell s0 exp_avg
        /\ item (cell s' counter) = item (cell s0 counter) + 1)
    /\ (fst (insert_observation (SkipLion.moment_tracker state0) obs) = false ->
        s' = lionw (data p) grad_ref exp_avg (lr group) (initial_lr group)
               (weight_decay group) (fst (betas group)) (snd (betas group)) s1
        /\ cell s' counter = cell s0 counter
        /\ cell s' (data p) =
             SignMomentumUpdate.new_parameter (cell s (data p))
               (cell s grad_ref) (cell s0 exp_avg) (lr group)
               (initial_lr group) (weight_decay group) (fst (betas group))
        /\ cell s' exp_avg =
             SignMomentumUpdate.new_momentum (cell s0 exp_avg)
               (cell s grad_ref) (snd (betas group))).
Proof.
  intros Hgrad Hpg Hp Hg Hlen Hst Hok state0 s0 exp_avg counter.
  destruct (SkipLion.init_state self p st s) as [state0' s0'] eqn:Hinit.
  simpl in state0, s0. subst state0 s0.
  destruct (skip_init_ok self p st s state0' s0' Hinit Hp Hst)
    as ((He & Hc & Hep & Hcp & Hce & Hel & Hcl) & Hnext & Hold & Hcalls
        & Hsame & _).
  fold exp_avg in He, Hep, Hce, Hel. fold counter in Hc, Hcp, Hce, Hcl.
  destruct (moment_norm_ok exp_avg grad_ref (snd (betas group)) s0')
    as (obs & s1 & Hmn & Hn1 & Hold1).
  { unfold collective_ok in *. now rewrite Hcalls. }
  unfold SkipLion.step_param. rewrite Hgrad, Hinit.
  destruct (betas group) as [beta1 beta2] eqn:Hbetas.
  cbn [fst snd] in Hmn |- *.
  fold exp_avg counter. rewrite Hmn.
  destruct (insert_observation (SkipLion.moment_tracker state0') obs)
    as [flagged tracker] eqn:Hins.
  cbn [fst snd].
  assert (Hset : forall (x : SkipLion.state_t),
             id_set (data p) x st (data p) = Some x).
  { intros x. unfold id_set. now rewrite Nat.eqb_refl. }
  destruct flagged.
  - eexists obs, s1, _, _, _. rewrite Hins.
    split; [reflexivity |]. split; [reflexivity |].
    split; [apply Hset |].
    cbn [SkipLion.exp_avg SkipLion.skipped_batches SkipLion.moment_tracker
         fst snd].
    split; [reflexivity |]. split; [reflexivity |]. split; [reflexivity |].
    split; [exact Hsame |].
    split; [intros _ | intros Habs; discriminate Habs].
    unfold torch.add_scalar_.
    split; [| split].
    + rewrite cell_write_other by auto.
      rewrite Hold1 by lia. apply Hold; lia.
    + rewrite cell_write_other by auto. apply Hold1; lia.
    + rewrite cell_write_same.
      rewrite Hold1 by lia. unfold item.
      destruct (cell s0' counter) as [| c0 rest]; [discriminate Hcl |].
      reflexivity.
  - destruct (lionw_cells (data p) grad_ref exp_avg (lr group)
                (initial_lr group) (weight_decay group) beta1 beta2 s1)
      as (Hcp' & Hcm' & Hframe & _); auto; try lia.
    eexists obs, s1, _, _, _. rewrite Hins.
    split; [reflexivity |]. split; [reflexivity |].
    split; [apply Hset |].
    cbn [SkipLion.exp_avg SkipLion.skipped_batches SkipLion.moment_tracker
         fst snd].
    split; [reflexivity |]. split; [reflexivity |]. split; [reflexivity |].
    split; [exact Hsame |].
    split; [intros Habs; discriminate Habs | intros _].
    split; [reflexivity |]. split; [| split].
    + rewrite Hframe by (auto; lia). apply Hold1; lia.
    + rewrite Hcp'. rewrite !Hold1 by lia.
      now rewrite (Hold (data p)), (Hold grad_ref) by lia.
    + rewrite Hcm'. rewrite !Hold1 by lia.
      now rewrite (Hold grad_ref) by lia.
Qed.

(** ** The outlier window *)

Lemma fold_remove_first_keep x rs l :
  ~ In x rs ->
  fold_left (fun l ts => remove_first ts l) rs (x :: l) =
  x :: fold_left (fun l ts => remove_first ts l) rs l.
Proof.
  revert l; induction rs as [|r rs IH]; intros l Hnin; simpl; [reflexivity |].
  destruct (Z.eqb_spec r x) as [-> | Hne].
  - exfalso. apply Hnin. now left.
  - apply IH. intros Hin. apply Hnin. now right.
Qed.

(** Removing one by one the entries collected for removal is filtering
    them out. *)
Lemma evict_filter step timeout l :
  evict step timeout l =
  filter (fun ts => negb (timeout <? step - ts)%Z) l.
Proof.
  unfold evict. induction l as [|x l IH]; simpl; [reflexivity |].
  destruct (timeout <? step - x)%Z eqn:Hx; simpl.
  - rewrite Z.eqb_refl. exact IH.
  - rewrite fold_remove_first_keep.
    + now rewrite IH.
    + intros Hin. apply filter_In in Hin. destruct Hin as [_ Hin].
      congruence.
Qed.

Lemma update_window_bound flagged step timeout l :
  Forall (fun ts => (step - ts <= timeout)%Z)
    (update_window flagged step timeout l).
Proof.
  unfold update_window. rewrite evict_filter.
  apply Forall_forall. intros ts Hin. apply filter_In in Hin.
  destruct Hin as [_ Hts]. apply negb_true_iff in Hts.
  apply Z.ltb_ge in Hts. exact Hts.
Qed.

Lemma update_window_unflagged_length step timeout l :
  (length (update_window false step timeout l) <= length l)%nat.
Proof.
  unfold update_window. rewrite evict_filter. apply filter_length_le.
Qed.

Lemma update_window_unflagged_incl step timeout l ts :
  In ts (update_window false step timeout l) -> In ts l.
Proof.
  unfold update_window. rewrite evict_filter. intros Hin.
  apply filter_In in Hin. tauto.
Qed.

Lemma update_window_upper flagged step timeout l :
  Forall (fun ts => (ts < step)%Z) l ->
  Forall (fun ts => (ts < step + 1)%Z) (update_window flagged step timeout l).
Proof.
  intros Hl. unfold update_window. rewrite evict_filter.
  apply Forall_forall. intros ts Hin. apply filter_In in Hin.
  destruct Hin as [Hin _].
  destruct flagged.
  - apply in_app_or in Hin. destruct Hin as [Hin | [<- | []]]; [| lia].
    rewrite Forall_forall in Hl. specialize (Hl ts Hin). lia.
  - rewrite Forall_forall in Hl. specialize (Hl ts Hin). lia.
Qed.

Lemma window_run_app timeout v1 v2 x :
  window_run timeout (v1 ++ v2) x =
  window_run timeout v2 (window_run timeout v1 x).
Proof. unfold window_run. apply fold_left_app. Qed.

Lemma window_run_upper timeout verdicts step l :
  Forall (fun ts => (ts < step)%Z) l ->
  fst (window_run timeout verdicts (step, l)) =
    (step + Z.of_nat (length verdicts))%Z
  /\ Forall (fun ts => (ts < step + Z.of_nat (length verdicts))%Z)
       (snd (window_run timeout verdicts (step, l))).
Proof.
  revert step l. induction verdicts as [|f fs IH]; intros step l Hl.
  - simpl. split; [lia |]. eapply Forall_impl; [| exact Hl].
    simpl; intros; lia.
  - cbn [window_run fold_left]. unfold window_step at 2. cbn [fst snd].
    destruct (IH (step + 1)%Z (update_window f step timeout l)) as [H1 H2].
    { now apply update_window_upper. }
    unfold window_run in H1, H2. split.
    + rewrite H1. cbn [length]. lia.
    + eapply Forall_impl; [| exact H2]. cbn [length]. intros; lia.
Qed.

(** After [k] steps without a flag, what is left of the window is at
    least [k] steps old. *)
Lemma window_run_quiet timeout k step l bound :
  Forall (fun ts => (ts < bound)%Z) l -> (bound <= step)%Z ->
  fst (window_run timeout (repeat false k) (step, l)) = (step + Z.of_nat k)%Z
  /\ Forall (fun ts => (ts < bound)%Z)
       (snd (window_run timeout (repeat false k) (step, l)))
  /\ (0 < k ->
      Forall (fun ts => (step + Z.of_nat k - 1 - ts <= timeout)%Z)
        (snd (window_run timeout (repeat false k) (step, l))))%nat
  /\ (length (snd (window_run timeout (repeat false k) (step, l)))
      <= length l)%nat.
Proof.
  revert step l. induction k as [|k IH]; intros step l Hl Hb.
  - simpl. repeat split; try lia; try assumption.
  - cbn [repeat window_run fold_left]. unfold window_step at 2.
    cbn [fst snd].
    assert (Hl' : Forall (fun ts => (ts < bound)%Z)
                    (update_window false step timeout l)).
    { apply Forall_forall. intros ts Hin.
      apply update_window_unflagged_incl in Hin.
      rewrite Forall_forall in Hl. now apply Hl. }
    destruct (IH (step + 1)%Z (update_window false step timeout l) Hl')
      as (H1 & H2 & H3 & H4); [lia |].
    unfold window_run in H1, H2, H3, H4.
    repeat split.
    + rewrite H1. lia.
    + exact H2.
    + intros _. destruct k as [|k'].
      * simpl. eapply Forall_impl; [| apply update_window_bound].
        simpl. intros; lia.
      * eapply Forall_impl; [| apply H3; lia]. simpl. intros; lia.
    + etransitivity; [exact H4 |]. apply update_window_unflagged_length.
Qed.


(** ** The variants with an outlier window *)

Ltac init_window_tac Hinit Hst :=
  match type of Hinit with
  | context [match ?x with _ => _ end] =>
      let Hlook := fresh "Hlook" in
      destruct x eqn:Hlook;
      [ inversion Hinit; subst;
        split; [now apply Hst |];
        repeat split; auto; try discriminate;
        match goal with H : Some _ = Some _ |- _ => now inversion H end
      | cbv beta iota zeta delta [torch.zeros_like alloc] in Hinit;
        inversion Hinit; subst; clear Hinit;
        unfold momentum_ok;
        cbn [cell next_ref calls
             AdaBetaLion.exp_avg AdaBetaLion.outlier_timestamp
             AdaBetaLion.step_count
             AdaLRLion.exp_avg AdaLRLion.outlier_timestamp
             AdaLRLion.step_count
             FullyAdaptiveLion.exp_avg FullyAdaptiveLion.outlier_timestamp
             FullyAdaptiveLion.step_count];
        repeat split; try lia; try discriminate; try intros r Hr;
        eqb_cases; try reflexivity;
        now rewrite repeat_length ]
  end.

Lemma adabeta_init_ok (self : AdaBetaLion.t) p st s state0 s0 :
  AdaBetaLion.init_state self p st s = (state0, s0) ->
  (data p < next_ref s)%nat ->
  (forall state, st (data p) = Some state ->
     momentum_ok (AdaBetaLion.exp_avg state) (data p) s) ->
  momentum_ok (AdaBetaLion.exp_avg state0) (data p) s0
  /\ (next_ref s <= next_ref s0)%nat
  /\ (forall r, (r < next_ref s)%nat -> cell s0 r = cell s r)
  /\ calls s0 = calls s
  /\ (forall state, st (data p) = Some state -> state0 = state /\ s0 = s)
  /\ (st (data p) = None ->
      cell s0 (AdaBetaLion.exp_avg state0) =
        repeat 0 (length (cell s (data p)))
      /\ AdaBetaLion.outlier_timestamp state0 = []
      /\ AdaBetaLion.step_count state0 = 0%Z).
Proof.
  unfold AdaBetaLion.init_state. intros Hinit Hp Hst.
  init_window_tac Hinit Hst.
Qed.

Lemma adalr_init_ok (self : AdaLRLion.t) p st s state0 s0 :
  AdaLRLion.init_state self p st s = (state0, s0) ->
  (data p < next_ref s)%nat ->
  (forall state, st (data p) = Some state ->
     momentum_ok (AdaLRLion.exp_avg state) (data p) s) ->
  momentum_ok (AdaLRLion.exp_avg state0) (data p) s0
  /\ (next_ref s <= next_ref s0)%nat
  /\ (forall r, (r < next_ref s)%nat -> cell s0 r = cell s r)
  /\ calls s0 = calls s
  /\ (forall state, st (data p) = Some state -> state0 = state /\ s0 = s)
  /\ (st (data p) = None ->
      cell s0 (AdaLRLion.exp_avg state0) =
        repeat 0 (length (cell s (data p)))
      /\ AdaLRLion.outlier_timestamp state0 = []
      /\ AdaLRLion.step_count state0 = 0%Z).
Proof.
  unfold AdaLRLion.init_state. intros Hinit Hp Hst.
  init_window_tac Hinit Hst.
Qed.

Lemma fully_init_ok (self : FullyAdaptiveLion.t) p st s state0 s0 :
  FullyAdaptiveLion.init_state self p st s = (state0, s0) ->
  (data p < next_ref s)%nat ->
  (forall state, st (data p) = Some state ->
     momentum_ok (FullyAdaptiveLion.exp_avg state) (data p) s) ->
  momentum_ok (FullyAdaptiveLion.exp_avg state0) (data p) s0
  /\ (next_ref s <= next_ref s0)%nat
  /\ (forall r, (r < next_ref s)%nat -> cell s0 r = cell s r)
  /\ calls s0 = calls s
  /\ (forall state, st (data p) = Some state -> state0 = state /\ s0 = s)
  /\ (st (data p) = None ->
      cell s0 (FullyAdaptiveLion.exp_avg state0) =
        repeat 0 (length (cell s (data p)))
      /\ FullyAdaptiveLion.outlier_timestamp state0 = []
      /\ FullyAdaptiveLion.step_count state0 = 0%Z).
Proof.
  unfold FullyAdaptiveLion.init_state. intros Hinit Hp Hst.
  init_window_tac Hinit Hst.
Qed.

(** The initialisation touches the store only by allocating, whatever
    the state map holds. *)
Lemma adabeta_init_calls (self : AdaBetaLion.t) p st s :
  calls (snd (AdaBetaLion.init_state self p st s)) = calls s.
Proof.
  unfold AdaBetaLion.init_state. now destruct (st (data p)).
Qed.

Lemma adalr_init_calls (self : AdaLRLion.t) p st s :
  calls (snd (AdaLRLion.init_state self p st s)) = calls s.
Proof.
  unfold AdaLRLion.init_state. now destruct (st (data p)).
Qed.

Lemma fully_init_calls (self : FullyAdaptiveLion.t) p st s :
  calls (snd (FullyAdaptiveLion.init_state self p st s)) = calls s.
Proof.
  unfold FullyAdaptiveLion.init_state. now destruct (st (data p)).
Qed.


Lemma adabeta_step_eq (self : AdaBetaLion.t) group p g st s :
  grad p = Some g -> collective_ok s ->
  let state0 := fst (AdaBetaLion.init_state self p st s) in
  let s0 := snd (AdaBetaLion.init_state self p st s) in
  exists obs s1,
    moment_norm (AdaBetaLion.exp_avg state0) g (snd (betas group)) s0 =
      Some (obs, s1)
    /\ next_ref s1 = S (next_ref s0)
    /\ (forall r, (r < next_ref s0)%nat -> cell s1 r = cell s0 r)
    /\ let verdict :=
         insert_observation (AdaBetaLion.moment_tracker state0) obs in
       let window :=
         update_window (fst verdict) (AdaBetaLion.step_count state0)
           (AdaBetaLion.timeout self) (AdaBetaLion.outlier_timestamp state0) in
       let adapted :=
         AdaBetaLion.adjust_betas (fst (betas group)) (snd (betas group))
           (AdaBetaLion.increase self) (length window) in
       AdaBetaLion.step_param self group p (st, s) =
         Some (id_set (data p)
                 {| AdaBetaLion.exp_avg := AdaBetaLion.exp_avg state0;
                    AdaBetaLion.moment_tracker := snd verdict;
                    AdaBetaLion.outlier_timestamp := window;
                    AdaBetaLion.step_count :=
                      (AdaBetaLion.step_count state0 + 1)%Z |} st,
               lionw (data p) g (AdaBetaLion.exp_avg state0) (lr group)
                 (initial_lr group) (weight_decay group)
                 (fst adapted) (snd adapted) s1).
Proof.
  intros Hgrad Hok state0 s0.
  destruct (moment_norm_ok (AdaBetaLion.exp_avg state0) g
              (snd (betas group)) s0) as (obs & s1 & Hmn & Hn & Hold).
  { unfold collective_ok in *. subst s0. now rewrite adabeta_init_calls. }
  exists obs, s1. repeat (split; [assumption |]).
  intros verdict window adapted.
  unfold AdaBetaLion.step_param. rewrite Hgrad.
  subst state0 s0.
  destruct (AdaBetaLion.init_state self p st s) as [state0 s0].
  destruct (betas group) as [beta1 beta2].
  cbn [fst snd] in *. rewrite Hmn.
  subst adapted window verdict.
  destruct (insert_observation (AdaBetaLion.moment_tracker state0) obs)
    as [flagged tracker].
  cbn [fst snd]. reflexivity.
Qed.

Lemma adalr_step_eq (self : AdaLRLion.t) group p g st s :
  grad p = Some g -> collective_ok s ->
  let state0 := fst (AdaLRLion.init_state self p st s) in
  let s0 := snd (AdaLRLion.init_state self p st s) in
  exists obs s1,
    moment_norm (AdaLRLion.exp_avg state0) g (snd (betas group)) s0 =
      Some (obs, s1)
    /\ next_ref s1 = S (next_ref s0)
    /\ (forall r, (r < next_ref s0)%nat -> cell s1 r = cell s0 r)
    /\ let verdict :=
         insert_observation (AdaLRLion.moment_tracker state0) obs in
       let window :=
         update_window (fst verdict) (AdaLRLion.step_count state0)
           (AdaLRLion.timeout self) (AdaLRLion.outlier_timestamp state0) in
       AdaLRLion.step_param self group p (st, s) =
         Some (id_set (data p)
                 {| AdaLRLion.exp_avg := AdaLRLion.exp_avg state0;
                    AdaLRLion.moment_tracker := snd verdict;
                    AdaLRLion.outlier_timestamp := window;
                    AdaLRLion.step_count :=
                      (AdaLRLion.step_count state0 + 1)%Z |} st,
               lionw (data p) g (AdaLRLion.exp_avg state0)
                 (AdaLRLion.adjust_lr (lr group) (AdaLRLion.lr_penalty self)
                    (length window) (AdaLRLion.min_scale self))
                 (initial_lr group) (weight_decay group)
                 (fst (betas group)) (snd (betas group)) s1).
Proof.
  intros Hgrad Hok state0 s0.
  destruct (moment_norm_ok (AdaLRLion.exp_avg state0) g
              (snd (betas group)) s0) as (obs & s1 & Hmn & Hn & Hold).
  { unfold collective_ok in *. subst s0. now rewrite adalr_init_calls. }
  exists obs, s1. repeat (split; [assumption |]).
  intros verdict window.
  unfold AdaLRLion.step_param. rewrite Hgrad.
  subst state0 s0.
  destruct (AdaLRLion.init_state self p st s) as [state0 s0].
  destruct (betas group) as [beta1 beta2].
  cbn [fst snd] in *. rewrite Hmn.
  subst window verdict.
  destruct (insert_observation (AdaLRLion.moment_tracker state0) obs)
    as [flagged tracker].
  cbn [fst snd]. reflexivity.
Qed.

Lemma fully_step_eq (self : FullyAdaptiveLion.t) group p g loc s :
  grad p = Some g -> collective_ok s ->
  let state0 :=
    fst (FullyAdaptiveLion.init_state self p
           (FullyAdaptiveLion.states loc) s) in
  let s0 :=
    snd (FullyAdaptiveLion.init_state self p
           (FullyAdaptiveLion.states loc) s) in
  exists obs s1,
    moment_norm (FullyAdaptiveLion.exp_avg state0) g
      (snd (FullyAdaptiveLion.betas group)) s0 = Some (obs, s1)
    /\ next_ref s1 = S (next_ref s0)
    /\ (forall r, (r < next_ref s0)%nat -> cell s1 r = cell s0 r)
    /\ let verdict :=
         insert_observation (FullyAdaptiveLion.moment_tracker state0) obs in
       let window :=
         update_window (fst verdict) (FullyAdaptiveLion.step_count state0)
           (FullyAdaptiveLion.timeout self)
           (FullyAdaptiveLion.outlier_timestamp state0) in
       let n := length window in
       let adj := FullyAdaptiveLion.param_adjustment self in
       let lr' :=
         FullyAdaptiveLion.adjust_param (FullyAdaptiveLion.lr group) adj n in
       let beta1' :=
         FullyAdaptiveLion.adjust_param
           (fst (FullyAdaptiveLion.betas group)) adj n in
       let beta2' := FullyAdaptiveLion.adjust_param beta1' adj n in
       let s' :=
         lionw (data p) g (FullyAdaptiveLion.exp_avg state0) lr'
           (FullyAdaptiveLion.initial_lr group)
           (lr' * FullyAdaptiveLion.wd_scaling_of self p) beta1' beta2' s1 in
       FullyAdaptiveLion.step_param self group p (loc, s) =
         Some ({| FullyAdaptiveLion.tmp_param_init_norm :=
                    match FullyAdaptiveLion.param_init_norm self (data p) with
                    | None =>
                        dict_set Nat.eqb (data p)
                          (torch.vector_norm (cell s (data p)) ^ 2)
                          (FullyAdaptiveLion.tmp_param_init_norm loc)
                    | Some _ => FullyAdaptiveLion.tmp_param_init_norm loc
                    end;
                  FullyAdaptiveLion.tmp_param_current_norm :=
                    dict_set Nat.eqb (data p)
                      (torch.vector_norm (cell s' (data p)) ^ 2)
                      (FullyAdaptiveLion.tmp_param_current_norm loc);
                  FullyAdaptiveLion.states :=
                    id_set (data p)
                      {| FullyAdaptiveLion.exp_avg :=
                           FullyAdaptiveLion.exp_avg state0;
                         FullyAdaptiveLion.moment_tracker := snd verdict;
                         FullyAdaptiveLion.outlier_timestamp := window;
                         FullyAdaptiveLion.step_count :=
                           (FullyAdaptiveLion.step_count state0 + 1)%Z |}
                      (FullyAdaptiveLion.states loc) |}, s').
Proof.
  intros Hgrad Hok state0 s0.
  destruct (moment_norm_ok (FullyAdaptiveLion.exp_avg state0) g
              (snd (FullyAdaptiveLion.betas group)) s0)
    as (obs & s1 & Hmn & Hn & Hold).
  { unfold collective_ok in *. subst s0. now rewrite fully_init_calls. }
  exists obs, s1. repeat (split; [assumption |]).
  intros verdict window n adj lr' beta1' beta2' s'.
  unfold FullyAdaptiveLion.step_param. rewrite Hgrad.
  subst state0 s0.
  destruct (FullyAdaptiveLion.init_state self p
              (FullyAdaptiveLion.states loc) s) as [state0 s0].
  destruct (FullyAdaptiveLion.betas group) as [beta1 beta2].
  cbn [fst snd] in *. rewrite Hmn.
  subst s' beta2' beta1' lr' adj n window verdict.
  destruct (insert_observation (FullyAdaptiveLion.moment_tracker state0) obs)
    as [flagged tracker].
  cbn [fst snd]. reflexivity.
Qed.


(** C6.  One AdaBetaLion step on a parameter with a gradient.  With [n]
    the length of the outlier window after this step's eviction and
    [scale] 1/2 when the optimizer was built with [increase = True] and
    3/2 otherwise, the step is the call of [lionw] with the group's
    [lr], [initial_lr] and [weight_decay] and with the betas
    [1 - (1 - beta) * scale ^ n]; this holds whatever the detector
    answers, so the update is never skipped. *)
Theorem adabeta_adapted_betas (self : AdaBetaLion.t) (group : param_group)
    (p : param) (grad_ref : ref) (st : id_map AdaBetaLion.state_t)
    (s : machine) :
  grad p = Some grad_ref ->
  data p <> grad_ref ->
  (data p < next_ref s)%nat -> (grad_ref < next_ref s)%nat ->
  length (cell s grad_ref) = length (cell s (data p)) ->
  (forall state, st (data p) = Some state ->
     momentum_ok (AdaBetaLion.exp_avg state) (data p) s) ->
  collective_ok s ->
  let state0 := fst (AdaBetaLion.init_state self p st s) in
  let s0 := snd (AdaBetaLion.init_state self p st s) in
  let exp_avg := AdaBetaLion.exp_avg state0 in
  let beta1 := fst (betas group) in
  let beta2 := snd (betas group) in
  let scale := if AdaBetaLion.increase self then 1 / 2 else 3 / 2 in
  exists obs s1 st' s' state',
    moment_norm exp_avg grad_ref beta2 s0 = Some (obs, s1)
    /\ AdaBetaLion.step_param self group p (st, s) = Some (st', s')
    /\ st' (data p) = Some state'
    /\ AdaBetaLion.outlier_timestamp state' =
         evict (AdaBetaLion.step_count state0) (AdaBetaLion.timeout self)
           (if fst (insert_observation (AdaBetaLion.moment_tracker state0) obs)
            then AdaBetaLion.outlier_timestamp state0
                 ++ [AdaBetaLion.step_count state0]
            else AdaBetaLion.outlier_timestamp state0)
    /\ let n := length (AdaBetaLion.outlier_timestamp state') in
       let beta1' := 1 - (1 - beta1) * scale ^ n in
       let beta2' := 1 - (1 - beta2) * scale ^ n in
       s' = lionw (data p) grad_ref exp_avg (lr group) (initial_lr group)
              (weight_decay group) beta1' beta2' s1
       /\ cell s' (data p) =
            SignMomentumUpdate.new_parameter (cell s (data p))
              (cell s grad_ref) (cell s0 exp_avg) (lr group)
              (initial_lr group) (weight_decay group) beta1'
       /\ cell s' exp_avg =
            SignMomentumUpdate.new_momentum (cell s0 exp_avg)
              (cell s grad_ref) beta2'.
Proof.
  intros Hgrad Hpg Hp Hg Hlen Hst Hok state0 s0 exp_avg beta1 beta2 scale.
  destruct (adabeta_step_eq self group p grad_ref st s Hgrad Hok)
    as (obs & s1 & Hmn & Hn1 & Hold1 & Hstep).
  fold state0 s0 in Hmn, Hn1, Hold1, Hstep.
  destruct (adabeta_init_ok self p st s state0 s0) as
    ((He & Hep & Hel) & Hnext & Hold & _); auto.
  { subst state0 s0. now destruct (AdaBetaLion.init_state self p st s). }
  fold exp_avg in He, Hep, Hel, Hmn, Hstep. fold beta1 beta2 in Hmn, Hstep.
  cbv zeta in Hstep.
  set (window :=
         update_window
           (fst (insert_observation (AdaBetaLion.moment_tracker state0) obs))
           (AdaBetaLion.step_count state0) (AdaBetaLion.timeout self)
           (AdaBetaLion.outlier_timestamp state0)) in *.
  assert (Hb : forall b,
             1 - (1 - b) * (if AdaBetaLion.increase self then 5 / 10
                            else 15 / 10) ^ length window =
             1 - (1 - b) * scale ^ length window).
  { intros b. subst scale. destruct (AdaBetaLion.increase self).
    - now replace (5 / 10) with (1 / 2) by lra.
    - now replace (15 / 10) with (3 / 2) by lra. }
  unfold AdaBetaLion.adjust_betas in Hstep. cbn [fst snd] in Hstep.
  rewrite !Hb in Hstep.
  eexists obs, s1, _, _, _.
  split; [exact Hmn |]. split; [exact Hstep |].
  split; [unfold id_set; now rewrite Nat.eqb_refl |].
  cbn [AdaBetaLion.outlier_timestamp].
  split; [reflexivity |].
  set (beta1' := 1 - (1 - beta1) * scale ^ length window).
  set (beta2' := 1 - (1 - beta2) * scale ^ length window).
  destruct (lionw_cells (data p) grad_ref exp_avg (lr group)
              (initial_lr group) (weight_decay group) beta1' beta2' s1)
    as (Hcp' & Hcm' & _); auto; try lia.
  split; [reflexivity |]. split.
  - rewrite Hcp'. rewrite !Hold1 by lia.
    now rewrite (Hold (data p)), (Hold grad_ref) by lia.
  - rewrite Hcm'. rewrite !Hold1 by lia.
    now rewrite (Hold grad_ref) by lia.
Qed.


Lemma pow_twice x n : x ^ n * x ^ n = x ^ (2 * n).
Proof. replace (2 * n)%nat with (n + n)%nat by lia. now rewrite pow_add. Qed.

(** C5.  One FullyAdaptiveLion step on a parameter with a gradient.
    With [n] the length of the outlier window after this step's eviction
    and [adj] the optimizer's [param_adjustment], the step is the call
    of [lionw] with [lr = group lr * adj ^ n],
    [beta1 = group beta1 * adj ^ n] and
    [beta2 = (group beta1 * adj ^ n) * adj ^ n = group beta1 * adj ^ (2 n)]:
    the group's beta2 reaches the update only through the observation
    that decides [n]. *)
Theorem fully_adaptive_adjustment (self : FullyAdaptiveLion.t)
    (group : FullyAdaptiveLion.group_t) (p : param) (grad_ref : ref)
    (loc : FullyAdaptiveLion.locals) (s : machine) :
  grad p = Some grad_ref ->
  data p <> grad_ref ->
  (data p < next_ref s)%nat -> (grad_ref < next_ref s)%nat ->
  length (cell s grad_ref) = length (cell s (data p)) ->
  (forall state, FullyAdaptiveLion.states loc (data p) = Some state ->
     momentum_ok (FullyAdaptiveLion.exp_avg state) (data p) s) ->
  collective_ok s ->
  let init :=
    FullyAdaptiveLion.init_state self p (FullyAdaptiveLion.states loc) s in
  let state0 := fst init in
  let s0 := snd init in
  let exp_avg := FullyAdaptiveLion.exp_avg state0 in
  let beta1 := fst (FullyAdaptiveLion.betas group) in
  let beta2 := snd (FullyAdaptiveLion.betas group) in
  let adj := FullyAdaptiveLion.param_adjustment self in
  exists obs s1 loc' s' state',
    moment_norm exp_avg grad_ref beta2 s0 = Some (obs, s1)
    /\ FullyAdaptiveLion.step_param self group p (loc, s) = Some (loc', s')
    /\ FullyAdaptiveLion.states loc' (data p) = Some state'
    /\ FullyAdaptiveLion.outlier_timestamp state' =
         evict (FullyAdaptiveLion.step_count state0)
           (FullyAdaptiveLion.timeout self)
           (if fst (insert_observation
                      (FullyAdaptiveLion.moment_tracker state0) obs)
            then FullyAdaptiveLion.outlier_timestamp state0
                 ++ [FullyAdaptiveLion.step_count state0]
            else FullyAdaptiveLion.outlier_timestamp state0)
    /\ let n := length (FullyAdaptiveLion.outlier_timestamp state') in
       let lr' := FullyAdaptiveLion.lr group * adj ^ n in
       let beta1' := beta1 * adj ^ n in
       let beta2' := beta1 * adj ^ (2 * n) in
       let wd := lr' * FullyAdaptiveLion.wd_scaling_of self p in
       beta2' = beta1' * adj ^ n
       /\ s' = lionw (data p) grad_ref exp_avg lr'
                 (FullyAdaptiveLion.initial_lr group) wd beta1' beta2' s1
       /\ cell s' (data p) =
            SignMomentumUpdate.new_parameter (cell s (data p))
              (cell s grad_ref) (cell s0 exp_avg) lr'
              (FullyAdaptiveLion.initial_lr group) wd beta1'
       /\ cell s' exp_avg =
            SignMomentumUpdate.new_momentum (cell s0 exp_avg)
              (cell s grad_ref) beta2'.
Proof.
  intros Hgrad Hpg Hp Hg Hlen Hst Hok init state0 s0 exp_avg beta1 beta2 adj.
  destruct (fully_step_eq self group p grad_ref loc s Hgrad Hok)
    as (obs & s1 & Hmn & Hn1 & Hold1 & Hstep).
  fold init in Hmn, Hn1, Hold1, Hstep.
  fold state0 s0 in Hmn, Hn1, Hold1, Hstep.
  destruct (fully_init_ok self p (FullyAdaptiveLion.states loc) s state0 s0)
    as ((He & Hep & Hel) & Hnext & Hold & _); auto.
  { subst state0 s0 init.
    now destruct (FullyAdaptiveLion.init_state self p
                    (FullyAdaptiveLion.states loc) s). }
  fold exp_avg in He, Hep, Hel, Hmn, Hstep. fold beta1 beta2 in Hmn, Hstep.
  cbv zeta in Hstep.
  set (window :=
         update_window
           (fst (insert_observation
                   (FullyAdaptiveLion.moment_tracker state0) obs))
           (FullyAdaptiveLion.step_count state0)
           (FullyAdaptiveLion.timeout self)
           (FullyAdaptiveLion.outlier_timestamp state0)) in *.
  fold adj in Hstep.
  unfold FullyAdaptiveLion.adjust_param in Hstep.
  assert (Hb : beta1 * adj ^ length window * adj ^ length window =
               beta1 * adj ^ (2 * length window)).
  { rewrite Rmult_assoc. now rewrite pow_twice. }
  rewrite Hb in Hstep.
  eexists obs, s1, _, _, _.
  split; [exact Hmn |]. split; [exact Hstep |].
  cbn [FullyAdaptiveLion.states FullyAdaptiveLion.outlier_timestamp].
  split; [unfold id_set; now rewrite Nat.eqb_refl |].
  cbn [FullyAdaptiveLion.outlier_timestamp].
  split; [reflexivity |].
  set (n := length window).
  set (lr' := FullyAdaptiveLion.lr group * adj ^ n).
  set (wd := lr' * FullyAdaptiveLion.wd_scaling_of self p).
  destruct (lionw_cells (data p) grad_ref exp_avg lr'
              (FullyAdaptiveLion.initial_lr group) wd (beta1 * adj ^ n)
              (beta1 * adj ^ (2 * n)) s1)
    as (Hcp' & Hcm' & _); auto; try lia.
  split; [exact (eq_sym Hb) |].
  split; [reflexivity |]. split.
  - rewrite Hcp'. rewrite !Hold1 by lia.
    now rewrite (Hold (data p)), (Hold grad_ref) by lia.
  - rewrite Hcm'. rewrite !Hold1 by lia.
    now rewrite (Hold grad_ref) by lia.
Qed.


(** C8.  The outlier window of AdaBetaLion, AdaLRLion and
    FullyAdaptiveLion.  Each step of each of the three moves the pair
    (step counter, window) by [window_step] with the detector's verdict,
    and after it every entry [ts] of the window satisfies
    [step - ts <= timeout] for the step counter [step] of that step.
    Consequently, for a window whose entries are earlier steps (as in a
    fresh state, and as every step keeps it): after more than [timeout]
    consecutive steps without a flag the window is empty, and a step
    without a flag never makes the window longer. *)
Theorem outlier_window_bounded :
  (forall (self : AdaBetaLion.t) group p g st s,
      grad p = Some g -> collective_ok s ->
      let state0 := fst (AdaBetaLion.init_state self p st s) in
      exists st' s' state' flagged,
        AdaBetaLion.step_param self group p (st, s) = Some (st', s')
        /\ st' (data p) = Some state'
        /\ (AdaBetaLion.step_count state', AdaBetaLion.outlier_timestamp state')
           = window_step (AdaBetaLion.timeout self) flagged
               (AdaBetaLion.step_count state0,
                AdaBetaLion.outlier_timestamp state0)
        /\ Forall (fun ts => (AdaBetaLion.step_count state0 - ts
                              <= AdaBetaLion.timeout self)%Z)
             (AdaBetaLion.outlier_timestamp state'))
  /\ (forall (self : AdaLRLion.t) group p g st s,
      grad p = Some g -> collective_ok s ->
      let state0 := fst (AdaLRLion.init_state self p st s) in
      exists st' s' state' flagged,
        AdaLRLion.step_param self group p (st, s) = Some (st', s')
        /\ st' (data p) = Some state'
        /\ (AdaLRLion.step_count state', AdaLRLion.outlier_timestamp state')
           = window_step (AdaLRLion.timeout self) flagged
               (AdaLRLion.step_count state0,
                AdaLRLion.outlier_timestamp state0)
        /\ Forall (fun ts => (AdaLRLion.step_count state0 - ts
                              <= AdaLRLion.timeout self)%Z)
             (AdaLRLion.outlier_timestamp state'))
  /\ (forall (self : FullyAdaptiveLion.t) group p g loc s,
      grad p = Some g -> collective_ok s ->
      let state0 :=
        fst (FullyAdaptiveLion.init_state self p
               (FullyAdaptiveLion.states loc) s) in
      exists loc' s' state' flagged,
        FullyAdaptiveLion.step_param self group p (loc, s) = Some (loc', s')
        /\ FullyAdaptiveLion.states loc' (data p) = Some state'
        /\ (FullyAdaptiveLion.step_count state',
            FullyAdaptiveLion.outlier_timestamp state')
           = window_step (FullyAdaptiveLion.timeout self) flagged
               (FullyAdaptiveLion.step_count state0,
                FullyAdaptiveLion.outlier_timestamp state0)
        /\ Forall (fun ts => (FullyAdaptiveLion.step_count state0 - ts
                              <= FullyAdaptiveLion.timeout self)%Z)
             (FullyAdaptiveLion.outlier_timestamp state'))
  /\ (forall timeout flagged step window,
      Forall (fun ts => (step - ts <= timeout)%Z)
        (snd (window_step timeout flagged (step, window)))
      /\ (Forall (fun ts => (ts < step)%Z) window ->
          Forall (fun ts =>
                    (ts < fst (window_step timeout flagged (step, window)))%Z)
            (snd (window_step timeout flagged (step, window)))))
  /\ (forall timeout verdicts k step window,
      Forall (fun ts => (ts < step)%Z) window ->
      (0 < k)%nat -> (timeout < Z.of_nat k)%Z ->
      snd (window_run timeout (verdicts ++ repeat false k) (step, window))
      = [])
  /\ (forall timeout step window,
      (length (snd (window_step timeout false (step, window)))
       <= length window)%nat).
Proof.
  split; [| split; [| split; [| split; [| split]]]].
  - intros self group p g st s Hgrad Hok state0.
    destruct (adabeta_step_eq self group p g st s Hgrad Hok)
      as (obs & s1 & _ & _ & _ & Hstep).
    cbv zeta in Hstep. fold state0 in Hstep.
    eexists _, _, _,
      (fst (insert_observation (AdaBetaLion.moment_tracker state0) obs)).
    split; [exact Hstep |].
    split; [unfold id_set; now rewrite Nat.eqb_refl |].
    cbn [AdaBetaLion.step_count AdaBetaLion.outlier_timestamp].
    split; [reflexivity | apply update_window_bound].
  - intros self group p g st s Hgrad Hok state0.
    destruct (adalr_step_eq self group p g st s Hgrad Hok)
      as (obs & s1 & _ & _ & _ & Hstep).
    cbv zeta in Hstep. fold state0 in Hstep.
    eexists _, _, _,
      (fst (insert_observation (AdaLRLion.moment_tracker state0) obs)).
    split; [exact Hstep |].
    split; [unfold id_set; now rewrite Nat.eqb_refl |].
    cbn [AdaLRLion.step_count AdaLRLion.outlier_timestamp].
    split; [reflexivity | apply update_window_bound].
  - intros self group p g loc s Hgrad Hok state0.
    destruct (fully_step_eq self group p g loc s Hgrad Hok)
      as (obs & s1 & _ & _ & _ & Hstep).
    cbv zeta in Hstep. fold state0 in Hstep.
    eexists _, _, _,
      (fst (insert_observation (FullyAdaptiveLion.moment_tracker state0) obs)).
    split; [exact Hstep |].
    cbn [FullyAdaptiveLion.states].
    split; [unfold id_set; now rewrite Nat.eqb_refl |].
    cbn [FullyAdaptiveLion.step_count FullyAdaptiveLion.outlier_timestamp].
    split; [reflexivity | apply update_window_bound].
  - intros timeout flagged step window. unfold window_step. cbn [fst snd].
    split; [apply update_window_bound | apply update_window_upper].
  - intros timeout verdicts k step window Hw Hk Ht.
    rewrite window_run_app.
    destruct (window_run_upper timeout verdicts step window Hw) as [H1 H2].
    destruct (window_run timeout verdicts (step, window)) as [step1 w1].
    cbn [fst snd] in H1, H2. rewrite <- H1 in H2.
    destruct (window_run_quiet timeout k step1 w1 step1 H2 (Z.le_refl _))
      as (_ & Hup & Hold & _).
    specialize (Hold Hk).
    destruct (snd (window_run timeout (repeat false k) (step1, w1)))
      as [|ts rest]; [reflexivity |].
    inversion Hup; subst. inversion Hold; subst. lia.
  - intros timeout step window. unfold window_step. cbn [fst snd].
    apply update_window_unflagged_length.
Qed.


(** ** ClipLion *)

Lemma sum_squares_scale k t :
  sum_squares (map (fun x => x * k) t) = k * k * sum_squares t.
Proof. induction t as [|x t IH]; simpl; [ring | rewrite IH; ring]. Qed.

Lemma vector_norm_scale k t :
  0 <= k ->
  torch.vector_norm (map (fun x => x * k) t) = k * torch.vector_norm t.
Proof.
  intros Hk. unfold torch.vector_norm. rewrite sum_squares_scale.
  rewrite sqrt_mult_alt by nra. now rewrite sqrt_square.
Qed.

(** A vector divided by its norm and multiplied by [c >= 0] has norm [c]
    and is a non-negative multiple of the vector. *)
Lemma rescaled_norm t c :
  torch.vector_norm t <> 0 -> 0 <= c ->
  let t' := map (fun x => x / torch.vector_norm t * c) t in
  torch.vector_norm t' = c
  /\ 0 <= c / torch.vector_norm t
  /\ t' = map (fun x => c / torch.vector_norm t * x) t.
Proof.
  intros Hn Hc t'.
  pose proof (vector_norm_nonneg t) as Hpos.
  assert (Hk : 0 <= c / torch.vector_norm t).
  { apply Rmult_le_pos; [exact Hc |].
    apply Rlt_le, Rinv_0_lt_compat. lra. }
  assert (Ht' : t' = map (fun x => x * (c / torch.vector_norm t)) t).
  { subst t'. apply map_ext. intros x. field. exact Hn. }
  repeat split.
  - rewrite Ht', vector_norm_scale by exact Hk. field. exact Hn.
  - exact Hk.
  - rewrite Ht'. apply map_ext. intros; ring.
Qed.

Lemma clip_init_ok (self : ClipLion.t) p g st s state0 s0 :
  ClipLion.init_state self p st s = (state0, s0) ->
  (data p < next_ref s)%nat -> (g < next_ref s)%nat ->
  (forall state, st (data p) = Some state ->
     clip_state_ok state (data p) g s) ->
  clip_state_ok state0 (data p) g s0
  /\ (next_ref s <= next_ref s0)%nat
  /\ (forall r, (r < next_ref s)%nat -> cell s0 r = cell s r)
  /\ calls s0 = calls s
  /\ (forall state, st (data p) = Some state -> state0 = state /\ s0 = s).
Proof.
  unfold ClipLion.init_state. intros Hinit Hp Hg Hst.
  destruct (st (data p)) as [state |] eqn:Hlook.
  - inversion Hinit; subst.
    split; [now apply Hst |].
    repeat split; auto; now inversion H.
  - cbv beta iota zeta delta [torch.zeros_like torch.scalar_tensor alloc]
      in Hinit.
    inversion Hinit; subst; clear Hinit.
    unfold clip_state_ok.
    cbn [cell next_ref calls ClipLion.exp_avg ClipLion.clipped_batches].
    repeat split; try lia; try discriminate; try intros r Hr; eqb_cases;
      try reflexivity.
    now rewrite repeat_length.
Qed.


Lemma vector_norm_scale_abs k t :
  torch.vector_norm (map (fun x => x * k) t) = Rabs k * torch.vector_norm t.
Proof.
  unfold torch.vector_norm. rewrite sum_squares_scale.
  rewrite sqrt_mult_alt by nra.
  fold (Rsqr k). now rewrite sqrt_Rsqr_abs.
Qed.

Lemma rescaled_norm_abs t c :
  torch.vector_norm t <> 0 ->
  torch.vector_norm (map (fun x => x / torch.vector_norm t * c) t) = Rabs c.
Proof.
  intros Hn. pose proof (vector_norm_nonneg t) as Hpos.
  rewrite (map_ext _ (fun x => x * (c / torch.vector_norm t))).
  - rewrite vector_norm_scale_abs. unfold Rdiv.
    rewrite Rabs_mult, Rabs_inv.
    rewrite (Rabs_right (torch.vector_norm t)) by lra.
    field. exact Hn.
  - intros x. field. exact Hn.
Qed.

(** The store after the clipping of a flagged step. *)
Lemma clip_cells (self : ClipLion.t) (state : ClipLion.state_t) tracker g n s :
  (ClipLion.clipped_batches state < next_ref s)%nat ->
  (g < next_ref s)%nat ->
  ClipLion.clipped_batches state <> g ->
  let c := get_slow_mva tracker * ClipLion.outlier_threshold self in
  let g' := fst (ClipLion.clip self state true tracker g n s) in
  let s2 := snd (ClipLion.clip self state true tracker g n s) in
  g' = next_ref s
  /\ next_ref s2 = S (next_ref s)
  /\ cell s2 g' = map (fun x => x / n * c) (cell s g)
  /\ cell s2 (ClipLion.clipped_batches state) =
       map (fun x => x + 1) (cell s (ClipLion.clipped_batches state))
  /\ (forall r, (r < next_ref s)%nat -> r <> ClipLion.clipped_batches state ->
        cell s2 r = cell s r).
Proof.
  intros Hc Hg Hcg c g' s2. subst g' s2.
  unfold ClipLion.clip, torch.add_scalar_, torch.div, torch.mul_, alloc, write.
  cbn [fst snd cell next_ref calls]. fold c.
  repeat split; try intros r Hr Hrc; eqb_cases; try reflexivity.
  rewrite map_map. reflexivity.
Qed.


(** C4.  One ClipLion step on a parameter with a gradient whose reduced
    norm the detector flags.  The counter [clipped_batches] is one more;
    [lionw] is called, with a new tensor holding the gradient divided by
    the reduced norm and multiplied by [get_slow_mva () * outlier_threshold]
    (the slow average read after the observation), so parameter and
    momentum are updated from that tensor; the tensor of [p.grad] keeps
    its elements.  With a single worker and a nonzero gradient the new
    tensor has norm [|slow_mva * threshold|]; when that product is not
    negative (a detector built with a positive threshold averages
    non-negative observations) the norm is the product itself and the
    tensor is a non-negative multiple of the gradient. *)
Theorem clip_step_flagged (self : ClipLion.t) (group : param_group)
    (p : param) (grad_ref : ref) (st : id_map ClipLion.state_t) (s : machine) :
  grad p = Some grad_ref ->
  data p <> grad_ref ->
  (data p < next_ref s)%nat -> (grad_ref < next_ref s)%nat ->
  length (cell s grad_ref) = length (cell s (data p)) ->
  (forall state, st (data p) = Some state ->
     clip_state_ok state (data p) grad_ref s) ->
  collective_ok s ->
  let state0 := fst (ClipLion.init_state self p st s) in
  let s0 := snd (ClipLion.init_state self p st s) in
  let exp_avg := ClipLion.exp_avg state0 in
  let counter := ClipLion.clipped_batches state0 in
  let beta1 := fst (betas group) in
  let beta2 := snd (betas group) in
  exists grad_norm s1 st' s' state',
    reduced_norm (cell s grad_ref) s0 = Some (grad_norm, s1)
    /\ ClipLion.step_param self group p (st, s) = Some (st', s')
    /\ st' (data p) = Some state'
    /\ ClipLion.grad_tracker state' =
         snd (insert_observation (ClipLion.grad_tracker state0) grad_norm)
    /\ (fst (insert_observation (ClipLion.grad_tracker state0) grad_norm) = true ->
        let clip_norm :=
          get_slow_mva
            (snd (insert_observation (ClipLion.grad_tracker state0) grad_norm))
          * ClipLion.outlier_threshold self in
        let clipped :=
          map (fun x => x / grad_norm * clip_norm) (cell s grad_ref) in
        item (cell s' counter) = item (cell s0 counter) + 1
        /\ (exists s2 grad',
              grad' = next_ref s1 /\ cell s2 grad' = clipped
              /\ s' = lionw (data p) grad' exp_avg (lr group)
                        (initial_lr group) (weight_decay group)
                        beta1 beta2 s2)
        /\ cell s' (data p) =
             SignMomentumUpdate.new_parameter (cell s (data p)) clipped
               (cell s0 exp_avg) (lr group) (initial_lr group)
               (weight_decay group) beta1
        /\ cell s' exp_avg =
             SignMomentumUpdate.new_momentum (cell s0 exp_avg) clipped beta2
        /\ cell s' grad_ref = cell s grad_ref
        /\ ((get_world_size <= 1)%Z ->
            torch.vector_norm (cell s grad_ref) <> 0 ->
            grad_norm = torch.vector_norm (cell s grad_ref)
            /\ torch.vector_norm clipped = Rabs clip_norm
            /\ (0 <= clip_norm ->
                torch.vector_norm clipped = clip_norm
                /\ 0 <= clip_norm / grad_norm
                /\ clipped =
                     map (fun x => clip_norm / grad_norm * x)
                       (cell s grad_ref)))).
Proof.
  intros Hgrad Hpg Hp Hg Hlen Hst Hok state0 s0 exp_avg counter beta1 beta2.
  destruct (ClipLion.init_state self p st s) as [state0' s0'] eqn:Hinit.
  cbn [fst snd] in state0, s0. subst state0 s0.
  destruct (clip_init_ok self p grad_ref st s state0' s0' Hinit Hp Hg Hst)
    as ((He & Hc & Hep & Hcp & Hce & Heg & Hcg & Hel & Hcl)
        & Hnext & Hold & Hcalls & Hsame).
  fold exp_avg in He, Hep, Hce, Heg, Hel.
  fold counter in Hc, Hcp, Hce, Hcg, Hcl.
  destruct (reduced_norm_ok (cell s grad_ref) s0')
    as (grad_norm & s1 & Hrn & Hn1 & Hc1 & _ & Hsingle).
  { unfold collective_ok in *. now rewrite Hcalls. }
  assert (Hold1 : forall r, cell s1 r = cell s0' r) by now rewrite Hc1.
  unfold ClipLion.step_param. rewrite Hgrad, Hinit.
  destruct (betas group) as [b1 b2] eqn:Hbetas.
  cbn [fst snd] in beta1, beta2. subst beta1 beta2.
  rewrite (Hold grad_ref) by lia. rewrite Hrn.
  destruct (insert_observation (ClipLion.grad_tracker state0') grad_norm)
    as [flagged tracker] eqn:Hins.
  destruct flagged.
  2:{ destruct (ClipLion.clip self state0' false tracker grad_ref grad_norm s1)
        as [g2 s2] eqn:Hclip.
      eexists grad_norm, s1, _, _, _. rewrite Hins. cbn [fst snd].
      split; [reflexivity |]. split; [reflexivity |].
      split; [unfold id_set; now rewrite Nat.eqb_refl |].
      split; [reflexivity |]. intros Habs; discriminate Habs. }
  destruct (clip_cells self state0' tracker grad_ref grad_norm s1)
    as (Hg' & Hn2 & Hcg' & Hcc & Hframe2); fold counter; try lia; auto.
  destruct (ClipLion.clip self state0' true tracker grad_ref grad_norm s1)
    as [g2 s2] eqn:Hclip.
  cbn [fst snd] in Hg', Hn2, Hcg', Hcc, Hframe2. fold counter in Hcc, Hframe2.
  destruct (lionw_cells (data p) g2 exp_avg (lr group) (initial_lr group)
              (weight_decay group) b1 b2 s2)
    as (Hcp' & Hcm' & Hframe & _); try lia; auto.
  eexists grad_norm, s1, _, _, _. rewrite Hins. cbn [fst snd].
  split; [reflexivity |]. split; [reflexivity |].
  split; [unfold id_set; now rewrite Nat.eqb_refl |].
  split; [reflexivity |]. intros _.
  cbn [ClipLion.exp_avg ClipLion.clipped_batches]. fold exp_avg counter.
  set (clip_norm := get_slow_mva tracker * ClipLion.outlier_threshold self)
    in *.
  set (clipped := map (fun x => x / grad_norm * clip_norm) (cell s grad_ref)).
  assert (Hclipped : cell s2 g2 = clipped).
  { rewrite Hcg', Hold1, Hold by lia. reflexivity. }
  split; [| split; [| split; [| split; [| split]]]].
  - rewrite Hframe by (try lia; auto). rewrite Hcc, Hold1.
    unfold item.
    destruct (cell s0' counter) as [| c0 rest]; [discriminate Hcl |].
    reflexivity.
  - exists s2, g2. repeat split; assumption.
  - rewrite Hcp', Hclipped.
    rewrite (Hframe2 (data p)), (Hframe2 exp_avg) by (try lia; auto).
    rewrite !Hold1. now rewrite (Hold (data p)) by lia.
  - rewrite Hcm', Hclipped.
    rewrite (Hframe2 exp_avg) by (try lia; auto).
    now rewrite !Hold1.
  - rewrite Hframe by (try lia; auto).
    rewrite Hframe2 by (try lia; auto).
    rewrite Hold1. apply Hold; lia.
  - intros Hw Hnz. destruct (Hsingle Hw) as [Hgn _].
    split; [exact Hgn |]. subst clipped. rewrite Hgn.
    split; [now apply rescaled_norm_abs |].
    intros Hpos.
    now apply (rescaled_norm (cell s grad_ref) clip_norm).
Qed.


(** ** Construction *)

Lemma validate_spec {X : Type} lr (betas : R * R) weight_decay (build : X) :
  (lr <= 0 -> instance (validate lr betas weight_decay build) = None)
  /\ (~ (0 <= fst betas <= 1) \/ ~ (0 <= snd betas <= 1) ->
      instance (validate lr betas weight_decay build) = None)
  /\ (0 < lr -> 0 <= fst betas <= 1 -> 0 <= snd betas <= 1 ->
      instance (validate lr betas weight_decay build) = Some build
      /\ printed (validate lr betas weight_decay build) = []
      /\ (1 / 1000 <= weight_decay ->
          logged (validate lr betas weight_decay build) =
            [high_weight_decay_warning weight_decay (1 - weight_decay)])
      /\ (weight_decay < 1 / 1000 ->
          logged (validate lr betas weight_decay build) = [])).
Proof.
  unfold validate.
  destruct (Rlt_dec 0 lr); destruct (Rle_dec 0 (fst betas));
    destruct (Rle_dec (fst betas) 1); destruct (Rle_dec 0 (snd betas));
    destruct (Rle_dec (snd betas) 1); destruct (Rle_dec (1 / 1000) weight_decay);
    cbn [andb instance logged printed];
    (split; [| split]); try reflexivity; intros; try lra;
    try (repeat split; intros; solve [reflexivity | lra]);
    try (exfalso; intuition lra).
Qed.

(** C9.  Construction.  Each of the five constructors produces no
    instance when [lr <= 0] or when one of the two betas is outside
    [0, 1].  With valid [lr] and betas, the four constructors that take
    [weight_decay] produce the instance also when [weight_decay >= 1e-3],
    and then log exactly one warning; FullyAdaptiveLion, which takes no
    [weight_decay], logs nothing. *)
Theorem constructor_validation
    (params : list param) (lr : R) (betas : R * R)
    (weight_decay outlier_threshold : R) (increase : bool) (timeout : Z)
    (lr_penalty min_scale param_adjustment : R) :
  let skip :=
    @SkipLion.__init__ D params lr betas weight_decay outlier_threshold in
  let adabeta :=
    @AdaBetaLion.__init__ D params lr betas weight_decay outlier_threshold
      increase timeout in
  let adalr :=
    @AdaLRLion.__init__ D params lr betas weight_decay outlier_threshold
      timeout lr_penalty min_scale in
  let clip :=
    @ClipLion.__init__ D params lr betas weight_decay outlier_threshold in
  let fully :=
    @FullyAdaptiveLion.__init__ D params lr betas outlier_threshold timeout
      param_adjustment in
  (lr <= 0 \/ ~ (0 <= fst betas <= 1) \/ ~ (0 <= snd betas <= 1) ->
   instance skip = None /\ instance adabeta = None /\ instance adalr = None
   /\ instance clip = None /\ instance fully = None
   /\ logged skip = [] /\ logged adabeta = [] /\ logged adalr = []
   /\ logged clip = [] /\ logged fully = [])
  /\ (0 < lr -> 0 <= fst betas <= 1 -> 0 <= snd betas <= 1 ->
      1 / 1000 <= weight_decay ->
      let warning :=
        [high_weight_decay_warning weight_decay (1 - weight_decay)] in
      (exists opt, instance skip = Some opt) /\ logged skip = warning
      /\ (exists opt, instance adabeta = Some opt) /\ logged adabeta = warning
      /\ (exists opt, instance adalr = Some opt) /\ logged adalr = warning
      /\ (exists opt, instance clip = Some opt) /\ logged clip = warning)
  /\ (0 < lr -> 0 <= fst betas <= 1 -> 0 <= snd betas <= 1 ->
      (exists opt, instance fully = Some opt) /\ logged fully = []).
Proof.
  intros skip adabeta adalr clip fully.
  subst skip adabeta adalr clip fully.
  unfold SkipLion.__init__, AdaBetaLion.__init__, AdaLRLion.__init__,
    ClipLion.__init__, FullyAdaptiveLion.__init__, validate.
  destruct (Rlt_dec 0 lr); destruct (Rle_dec 0 (fst betas));
    destruct (Rle_dec (fst betas) 1); destruct (Rle_dec 0 (snd betas));
    destruct (Rle_dec (snd betas) 1); destruct (Rle_dec (1 / 1000) weight_decay);
    cbn [andb instance logged printed];
    (split; [| split]); intros;
    try (exfalso; intuition lra);
    repeat split; try reflexivity; eexists; reflexivity.
Qed.


(** ** Dictionaries *)

Lemma metric_get_app_some k (d1 d2 : metric_map) v :
  metric_get k d1 = Some v -> metric_get k (d1 ++ d2) = Some v.
Proof.
  induction d1 as [|[k' v'] d1 IH]; simpl; [discriminate |].
  destruct (String.eqb k k'); auto.
Qed.

Lemma metric_get_in k (d : metric_map) v :
  metric_get k d = Some v -> In (k, v) d.
Proof.
  induction d as [|[k' v'] d IH]; simpl; [discriminate |].
  destruct (String.eqb_spec k k') as [-> | Hne].
  - intros Hv; inversion Hv; now left.
  - intros Hv; right; now apply IH.
Qed.

Lemma metric_get_keys k (d : metric_map) v :
  metric_get k d = Some v -> In k (keys d).
Proof.
  intros Hg. apply metric_get_in in Hg.
  unfold keys. now apply (in_map fst) in Hg.
Qed.

Lemma metric_get_middle (before after : metric_map) k v :
  ~ In k (keys before) ->
  metric_get k (before ++ (k, v) :: after) = Some v.
Proof.
  induction before as [|[k' v'] before IH]; simpl; intros Hnin.
  - now rewrite String.eqb_refl.
  - destruct (String.eqb_spec k k') as [-> | Hne]; [exfalso; auto |].
    apply IH. intros Hin. apply Hnin. now right.
Qed.

Lemma keys_staged f0 f1 done m : keys (staged f0 f1 done m) = keys m.
Proof.
  unfold keys, staged. rewrite map_map. now apply map_ext.
Qed.

Lemma metric_get_staged f0 f1 done m k :
  metric_get k (staged f0 f1 done m) =
  match metric_get k m with
  | Some v => Some (if in_dec string_dec k done then f1 k v else f0 k v)
  | None => None
  end.
Proof.
  induction m as [|[k' v'] m IH]; simpl; [reflexivity |].
  destruct (String.eqb_spec k k') as [-> | Hne]; [reflexivity | exact IH].
Qed.

(** Rewriting one more key moves it to the rewritten part. *)
Lemma metric_set_staged f0 f1 done m k v :
  NoDup (keys m) -> metric_get k m = Some v -> ~ In k done ->
  metric_set k (f1 k v) (staged f0 f1 done m) = staged f0 f1 (done ++ [k]) m.
Proof.
  intros Hnd Hget Hnin.
  induction m as [|[k' v'] m IH]; simpl in *; [discriminate |].
  inversion Hnd as [| ? ? Hk' Hnd']; subst.
  destruct (String.eqb_spec k k') as [-> | Hne].
  - inversion Hget; subst. f_equal.
    + f_equal. destruct (in_dec string_dec k' (done ++ [k'])) as [_ | Hn].
      * reflexivity.
      * exfalso. apply Hn, in_or_app. right. now left.
    + unfold staged. apply map_ext_in. intros [k2 v2] Hin. cbn [fst snd].
      assert (Hne : k2 <> k').
      { intros ->. apply Hk'. unfold keys. now apply (in_map fst) in Hin. }
      destruct (in_dec string_dec k2 done) as [Hd | Hd];
        destruct (in_dec string_dec k2 (done ++ [k'])) as [Hd' | Hd'];
        try reflexivity; exfalso.
      * apply Hd', in_or_app. now left.
      * apply in_app_or in Hd'. destruct Hd' as [? | [? | []]]; auto.
  - f_equal.
    + f_equal. destruct (in_dec string_dec k' done) as [Hd | Hd];
        destruct (in_dec string_dec k' (done ++ [k])) as [Hd' | Hd'];
        try reflexivity; exfalso.
      * apply Hd', in_or_app. now left.
      * apply in_app_or in Hd'. destruct Hd' as [? | [? | []]]; auto.
    + now apply IH.
Qed.

Lemma staged_nil f0 f1 m :
  staged f0 f1 [] m = map (fun kv => (fst kv, f0 (fst kv) (snd kv))) m.
Proof. unfold staged. apply map_ext. intros [k v]. reflexivity. Qed.

Lemma staged_all f0 f1 done m :
  (forall k, In k (keys m) -> In k done) ->
  staged f0 f1 done m = map (fun kv => (fst kv, f1 (fst kv) (snd kv))) m.
Proof.
  intros Hall. unfold staged. apply map_ext_in. intros [k v] Hin. cbn [fst snd].
  destruct (in_dec string_dec k done) as [_ | Hn]; [reflexivity |].
  exfalso. apply Hn, Hall. unfold keys. now apply (in_map fst) in Hin.
Qed.

(** ** Sorting by a two-valued key *)

Lemma insert_by_low {A : Type} (c : A -> bool) x l :
  c x = true ->
  insert_by (fun y => if c y then 0 else 1)%nat x l = x :: l.
Proof.
  intros Hx. destruct l as [|y l]; [reflexivity |]. simpl. rewrite Hx.
  reflexivity.
Qed.

Lemma insert_by_high {A : Type} (c : A -> bool) x l1 l2 :
  c x = false ->
  Forall (fun y => c y = true) l1 -> Forall (fun y => c y = false) l2 ->
  insert_by (fun y => if c y then 0 else 1)%nat x (l1 ++ l2) = l1 ++ x :: l2.
Proof.
  intros Hx H1 H2. induction H1 as [|y l1 Hy H1 IH]; simpl.
  - destruct l2 as [|y l2]; [reflexivity |]. simpl. rewrite Hx.
    inversion H2 as [| ? ? Hy2 _]; subst. now rewrite Hy2.
  - rewrite Hx, Hy. simpl. now rewrite IH.
Qed.

(** A stable sort by a key with two values is a partition. *)
Lemma sorted_partition {A : Type} (c : A -> bool) l :
  sorted (fun y => if c y then 0 else 1)%nat l =
  filter c l ++ filter (fun y => negb (c y)) l.
Proof.
  induction l as [|x l IH]; [reflexivity |].
  cbn [sorted filter]. rewrite IH.
  destruct (c x) eqn:Hx; cbn [negb].
  - now apply insert_by_low.
  - apply insert_by_high; [exact Hx | |];
      apply Forall_forall; intros y Hy; apply filter_In in Hy;
      destruct Hy as [_ Hy]; [exact Hy | now apply negb_true_iff].
Qed.

Lemma split_position {A : Type} (k : A) a b a' b' :
  NoDup (a ++ k :: b) -> a ++ k :: b = a' ++ k :: b' -> a = a'.
Proof.
  revert a'. induction a as [|x a IH]; intros [|x' a'] Hnd Heq; simpl in *.
  - reflexivity.
  - inversion Heq; subst. inversion Hnd as [| ? ? Hk _]; subst.
    exfalso. apply Hk, in_or_app. right. now left.
  - inversion Heq; subst. inversion Hnd as [| ? ? Hk _]; subst.
    exfalso. apply Hk, in_or_app. right. now left.
  - inversion Heq; subst. inversion Hnd; subst. f_equal. now apply IH.
Qed.

(** In the partition an element of the first class that stood before [k]
    still stands before [k]. *)
Lemma partition_keeps_order {A : Type} (c : A -> bool) l p1 p2 k sib l1 l2 :
  NoDup l -> l = p1 ++ k :: p2 -> In sib p1 -> c sib = true ->
  filter c l ++ filter (fun y => negb (c y)) l = l1 ++ k :: l2 ->
  In sib l1.
Proof.
  intros Hnd Hl Hsib Hc Heq.
  assert (Hnd' : NoDup (filter c l ++ filter (fun y => negb (c y)) l)).
  { apply NoDup_app.
    - now apply NoDup_filter.
    - now apply NoDup_filter.
    - intros x H1 H2. apply filter_In in H1, H2.
      destruct H1 as [_ H1], H2 as [_ H2]. rewrite H1 in H2. discriminate. }
  rewrite Heq in Hnd'.
  subst l. rewrite !filter_app in Heq. cbn [filter] in Heq.
  destruct (c k) eqn:Hk; cbn [negb] in Heq.
  - rewrite <- app_assoc in Heq. cbn [app] in Heq.
    symmetry in Heq. apply (split_position _ _ _ _ _ Hnd') in Heq.
    subst l1. apply filter_In. now split.
  - rewrite app_assoc in Heq.
    symmetry in Heq. apply (split_position _ _ _ _ _ Hnd') in Heq.
    subst l1. apply in_or_app. left. apply in_or_app. left.
    apply filter_In. now split.
Qed.


(** ** The metric reduction protocol *)

Lemma in_keys_get k (m : metric_map) :
  In k (keys m) -> exists v, metric_get k m = Some v.
Proof.
  induction m as [|[k' v'] m IH]; simpl; [intros [] |].
  destruct (String.eqb_spec k k') as [-> | Hne]; [intros _; now exists v' |].
  intros [Heq | Hin]; [congruence | now apply IH].
Qed.

Lemma metric_set_same k v (d : metric_map) :
  metric_get k d = Some v -> metric_set k v d = d.
Proof.
  induction d as [|[k' v'] d IH]; simpl; [discriminate |].
  destruct (String.eqb_spec k k') as [-> | Hne].
  - intros Hv; now inversion Hv.
  - intros Hv. now rewrite IH.
Qed.

Lemma startswith_contains s sub : startswith s sub = true -> contains sub s = true.
Proof.
  unfold startswith. intros Hp. destruct s; cbn [contains]; now rewrite Hp.
Qed.

Lemma l2_norm_key_family A layer :
  startswith (SkipLion.l2_norm_key A layer) "l2_norm" = true.
Proof. reflexivity. Qed.

(** Moving a key whose value the loop leaves alone to the rewritten part
    changes nothing. *)
Lemma staged_skip f0 f1 done m k v :
  NoDup (keys m) -> metric_get k m = Some v -> ~ In k done ->
  f1 k v = f0 k v ->
  staged f0 f1 done m = staged f0 f1 (done ++ [k]) m.
Proof.
  intros Hnd Hget Hnin Hsame.
  rewrite <- (metric_set_staged f0 f1 done m k v Hnd Hget Hnin).
  symmetry. apply metric_set_same.
  rewrite metric_get_staged, Hget.
  destruct (in_dec string_dec k done); [contradiction | now rewrite Hsame].
Qed.

(** The position of a key in the map gives the entries before it. *)
Lemma keys_split (m : metric_map) l1 k l2 :
  keys m = l1 ++ k :: l2 ->
  exists before v after,
    m = before ++ (k, v) :: after /\ keys before = l1.
Proof.
  unfold keys. intros Hk.
  apply map_eq_app in Hk. destruct Hk as (before & rest & -> & Hb & Hr).
  destruct rest as [|[k' v] after]; [discriminate |].
  inversion Hr; subst. now exists before, v, after.
Qed.

Lemma siblings_before_order m l1 k l2 A B layer :
  siblings_before m ->
  keys m = l1 ++ k :: l2 ->
  startswith k "l2_norm" = false -> startswith k "cosine" = true ->
  SkipLion.split_cosine k = Some (A, B, layer) ->
  In (SkipLion.l2_norm_key A layer) l1 /\ In (SkipLion.l2_norm_key B layer) l1.
Proof.
  intros Hsib Hk Hl2 Hcos Hsplit.
  destruct (keys_split m l1 k l2 Hk) as (before & v & after & Hm & Hb).
  destruct (Hsib before k v after Hm Hl2 Hcos)
    as (A' & B' & layer' & a & b & Hsplit' & Ha & Hb' & _).
  rewrite Hsplit in Hsplit'. inversion Hsplit'; subst.
  split; eapply metric_get_keys; eassumption.
Qed.

Lemma siblings_before_present m :
  well_keyed m -> siblings_before m -> siblings_present m.
Proof.
  intros Hnd Hsib k v Hin Hl2 Hcos.
  apply in_split in Hin. destruct Hin as (before & after & Hm).
  destruct (Hsib before k v after Hm Hl2 Hcos)
    as (A & B & layer & a & b & Hsplit & Ha & Hb & Hpa & Hpb).
  exists A, B, layer, a, b. rewrite Hm.
  repeat split; try assumption; now apply metric_get_app_some.
Qed.

Section RoundTrip.
Variable m : metric_map.
Hypothesis Hkeys : well_keyed m.
Hypothesis Hnorms : norms_nonneg m.
Hypothesis Hpresent : siblings_present m.

Let same (_ : string) (v : R) : R := v.

(** The loop of [pre_reduce_metrics], over keys in any order that puts
    the sibling norms of a cosine key before it. *)
Lemma pre_reduce_loop rest : forall done,
  NoDup (done ++ rest) ->
  (forall k, In k rest -> In k (keys m)) ->
  (forall l1 k l2 A B layer,
      done ++ rest = l1 ++ k :: l2 ->
      startswith k "l2_norm" = false -> startswith k "cosine" = true ->
      SkipLion.split_cosine k = Some (A, B, layer) ->
      In (SkipLion.l2_norm_key A layer) l1
      /\ In (SkipLion.l2_norm_key B layer) l1) ->
  for_each SkipLion.pre_reduce_metric rest
    (staged same (pre_reduced_value m) done m) =
  Some (staged same (pre_reduced_value m) (done ++ rest) m).
Proof.
  induction rest as [|k rest IH]; intros done Hnd Hin Hord.
  - now rewrite app_nil_r.
  - cbn [for_each].
    assert (Hk : ~ In k done).
    { apply NoDup_remove_2 in Hnd. intros Hd. apply Hnd, in_or_app. now left. }
    destruct (in_keys_get k m (Hin k (or_introl eq_refl))) as [v Hv].
    assert (Hstep : SkipLion.pre_reduce_metric k
                      (staged same (pre_reduced_value m) done m) =
                    Some (staged same (pre_reduced_value m) (done ++ [k]) m)).
    { unfold SkipLion.pre_reduce_metric.
      rewrite !metric_get_staged, Hv.
      destruct (in_dec string_dec k done) as [Hd | _]; [contradiction |].
      destruct (startswith k "l2_norm") eqn:Hl2.
      - rewrite <- (metric_set_staged same (pre_reduced_value m) done m k v)
          by assumption.
        unfold pre_reduced_value at 2. now rewrite Hl2.
      - destruct (startswith k "cosine") eqn:Hcos.
        + destruct (Hpresent k v (metric_get_in _ _ _ Hv) Hl2 Hcos)
            as (A & B & layer & a & b & Hsplit & Ha & Hb & Hpa & Hpb).
          rewrite Hsplit. rewrite !metric_get_staged, Ha, Hb.
          destruct (Hord done k rest A B layer eq_refl Hl2 Hcos Hsplit)
            as [HA HB].
          destruct (in_dec string_dec (SkipLion.l2_norm_key A layer) done)
            as [_ | Hn]; [| contradiction].
          destruct (in_dec string_dec (SkipLion.l2_norm_key B layer) done)
            as [_ | Hn]; [| contradiction].
          unfold pre_reduced_value at 1 2.
          rewrite !l2_norm_key_family.
          rewrite !math_sqrt_sq by lra.
          rewrite <- (metric_set_staged same (pre_reduced_value m) done m k v)
            by assumption.
          unfold pre_reduced_value at 2.
          now rewrite Hl2, Hcos, Hsplit, Ha, Hb.
        + f_equal. apply (staged_skip _ _ _ _ k v); try assumption.
          unfold pre_reduced_value, same. now rewrite Hl2, Hcos. }
    rewrite Hstep.
    replace (done ++ k :: rest) with ((done ++ [k]) ++ rest)
      by (now rewrite <- app_assoc).
    apply IH.
    + now rewrite <- app_assoc.
    + intros k' Hk'. apply Hin. now right.
    + intros l1 k' l2 A B layer Heq. apply (Hord l1 k' l2).
      now rewrite <- app_assoc in Heq.
Qed.

(** The loop of [dist_reduce_metrics] for a single worker, on the map
    [pre_reduce_metrics] left. *)
Lemma dist_reduce_loop (Hsingle : get_world_size = 1%Z) s rest : forall done,
  NoDup (done ++ rest) ->
  (forall k, In k rest -> In k (keys m)) ->
  (forall l1 k l2 A B layer,
      done ++ rest = l1 ++ k :: l2 ->
      startswith k "l2_norm" = false -> startswith k "cosine" = true ->
      SkipLion.split_cosine k = Some (A, B, layer) ->
      In (SkipLion.l2_norm_key A layer) l1
      /\ In (SkipLion.l2_norm_key B layer) l1) ->
  for_each SkipLion.dist_reduce_metric rest
    (staged (pre_reduced_value m) same done m, s) =
  Some (staged (pre_reduced_value m) same (done ++ rest) m, s).
Proof.
  assert (Hred : forall x, reduce_if_distributed x s = (x, s)).
  { intros x. unfold reduce_if_distributed. now rewrite Hsingle. }
  induction rest as [|k rest IH]; intros done Hnd Hin Hord.
  - now rewrite app_nil_r.
  - cbn [for_each].
    assert (Hk : ~ In k done).
    { apply NoDup_remove_2 in Hnd. intros Hd. apply Hnd, in_or_app. now left. }
    destruct (in_keys_get k m (Hin k (or_introl eq_refl))) as [v Hv].
    assert (Hstep : SkipLion.dist_reduce_metric k
                      (staged (pre_reduced_value m) same done m, s) =
                    Some (staged (pre_reduced_value m) same (done ++ [k]) m, s)).
    { unfold SkipLion.dist_reduce_metric.
      rewrite !metric_get_staged, Hv.
      destruct (in_dec string_dec k done) as [Hd | _]; [contradiction |].
      rewrite Hred.
      pose proof (metric_set_staged (pre_reduced_value m) same done m k v
                    Hkeys Hv Hk) as Hset.
      unfold same at 1 in Hset.
      destruct (startswith k "l2_norm") eqn:Hl2.
      - assert (Hpre : pre_reduced_value m k v = v ^ 2).
        { unfold pre_reduced_value. now rewrite Hl2. }
        rewrite Hpre, math_sqrt_sq
          by (eapply Hnorms; [eapply metric_get_in; eassumption | assumption]).
        now rewrite Hset.
      - destruct (startswith k "cosine") eqn:Hcos.
        + destruct (Hpresent k v (metric_get_in _ _ _ Hv) Hl2 Hcos)
            as (A & B & layer & a & b & Hsplit & Ha & Hb & Hpa & Hpb).
          assert (Hpre : pre_reduced_value m k v = v * (a * b)).
          { unfold pre_reduced_value. now rewrite Hl2, Hcos, Hsplit, Ha, Hb. }
          rewrite Hsplit. rewrite !metric_get_staged, Ha, Hb.
          destruct (Hord done k rest A B layer eq_refl Hl2 Hcos Hsplit)
            as [HA HB].
          destruct (in_dec string_dec (SkipLion.l2_norm_key A layer) done)
            as [_ | Hn]; [| contradiction].
          destruct (in_dec string_dec (SkipLion.l2_norm_key B layer) done)
            as [_ | Hn]; [| contradiction].
          rewrite Hpre. unfold same at 1 2.
          replace (v * (a * b) / (a * b)) with v by (field; nra).
          now rewrite Hset.
        + assert (Hpre : pre_reduced_value m k v = v).
          { unfold pre_reduced_value. now rewrite Hl2, Hcos. }
          destruct (startswith k "skipped_batches").
          * f_equal. f_equal. apply (staged_skip _ _ _ _ k v); try assumption.
            now rewrite Hpre.
          * rewrite Hpre, Hsingle.
            replace (v / 1) with v by field.
            now rewrite Hset. }
    rewrite Hstep.
    replace (done ++ k :: rest) with ((done ++ [k]) ++ rest)
      by (now rewrite <- app_assoc).
    apply IH.
    + now rewrite <- app_assoc.
    + intros k' Hk'. apply Hin. now right.
    + intros l1 k' l2 A B layer Heq. apply (Hord l1 k' l2).
      now rewrite <- app_assoc in Heq.
Qed.

End RoundTrip.


Lemma map_entries_id (m : metric_map) :
  map (fun kv : string * R => (fst kv, snd kv)) m = m.
Proof.
  induction m as [|[k v] m IH]; [reflexivity |]. simpl. now rewrite IH.
Qed.

(** C3, as the code has it.  For a single worker and a metric map with
    distinct keys and non-negative norms, in which every cosine key reads
    [cosine/<A>_<B>/<layer>] and both sibling norms stand before it in
    the map's iteration order with positive values: [pre_reduce_metrics]
    succeeds and leaves the squared norms and the cosines multiplied by
    their two norms, and [dist_reduce_metrics] applied to the result
    succeeds, makes no collective call and returns the original map, so
    every key, of the l2_norm and cosine families in particular, has its
    original value. *)
Theorem metrics_round_trip (m : metric_map) (s : machine) :
  get_world_size = 1%Z ->
  well_keyed m -> norms_nonneg m -> siblings_before m ->
  exists m1,
    SkipLion.pre_reduce_metrics m = Some m1
    /\ m1 = map (fun kv => (fst kv, pre_reduced_value m (fst kv) (snd kv))) m
    /\ SkipLion.dist_reduce_metrics m1 s = Some (m, s).
Proof.
  intros Hsingle Hkeys Hnorms Hsib.
  pose proof (siblings_before_present m Hkeys Hsib) as Hpresent.
  set (c := fun metric => contains "l2_norm" metric).
  assert (Hsorted :
            sorted (fun metric => if contains "l2_norm" metric then 0 else 1)%nat
              (keys m) =
            filter c (keys m) ++ filter (fun y => negb (c y)) (keys m)).
  { apply (sorted_partition c). }
  exists (map (fun kv => (fst kv, pre_reduced_value m (fst kv) (snd kv))) m).
  split; [| split; [reflexivity |]].
  - unfold SkipLion.pre_reduce_metrics. rewrite Hsorted.
    pose proof (pre_reduce_loop m Hkeys Hpresent
                  (filter c (keys m) ++ filter (fun y => negb (c y)) (keys m))
                  []) as Hloop.
    rewrite staged_nil in Hloop. cbv beta in Hloop.
    rewrite map_entries_id in Hloop. cbn [app] in Hloop.
    rewrite Hloop.
    + f_equal. apply staged_all.
      intros k Hk. destruct (c k) eqn:Hc; apply in_or_app;
        [left | right]; apply filter_In; split; auto. now rewrite Hc.
    + apply NoDup_app.
      * now apply NoDup_filter.
      * now apply NoDup_filter.
      * intros x H1 H2. apply filter_In in H1, H2.
        destruct H1 as [_ H1], H2 as [_ H2]. rewrite H1 in H2. discriminate.
    + intros k Hk. apply in_app_or in Hk.
      destruct Hk as [Hk | Hk]; apply filter_In in Hk; tauto.
    + intros l1 k l2 A B layer Heq Hl2 Hcos Hsplit.
      assert (Hk : In k (keys m)).
      { assert (Hin : In k (l1 ++ k :: l2))
          by (apply in_or_app; right; now left).
        rewrite <- Heq in Hin. apply in_app_or in Hin.
        destruct Hin as [Hin | Hin]; apply filter_In in Hin; tauto. }
      apply in_split in Hk. destruct Hk as (p1 & p2 & Hp).
      destruct (siblings_before_order m p1 k p2 A B layer Hsib Hp Hl2 Hcos Hsplit)
        as [HA HB].
      split; eapply (partition_keeps_order c (keys m) p1 p2 k); eauto;
        unfold c; apply startswith_contains, l2_norm_key_family.
  - unfold SkipLion.dist_reduce_metrics.
    replace (keys (map (fun kv => (fst kv, pre_reduced_value m (fst kv) (snd kv))) m))
      with (keys m)
      by (unfold keys; rewrite map_map; now apply map_ext).
    pose proof (dist_reduce_loop m Hkeys Hnorms Hpresent Hsingle s (keys m) [])
      as Hloop.
    rewrite staged_nil in Hloop. cbn [app] in Hloop.
    rewrite Hloop.
    + f_equal. f_equal.
      rewrite staged_all by auto. apply map_entries_id.
    + exact Hkeys.
    + auto.
    + intros l1 k l2 A B layer Heq Hl2 Hcos Hsplit.
      now apply (siblings_before_order m l1 k l2 A B layer).
Qed.

(** The branches of the two loop bodies, for evaluating them on a map. *)

Lemma pre_reduce_metric_l2 metric d v :
  startswith metric "l2_norm" = true ->
  metric_get metric d = Some v ->
  SkipLion.pre_reduce_metric metric d = Some (metric_set metric (v ^ 2) d).
Proof.
  intros Hl2 Hv. unfold SkipLion.pre_reduce_metric. now rewrite Hl2, Hv.
Qed.

Lemma pre_reduce_metric_cosine metric d A B layer a b v :
  startswith metric "l2_norm" = false ->
  startswith metric "cosine" = true ->
  SkipLion.split_cosine metric = Some (A, B, layer) ->
  metric_get (SkipLion.l2_norm_key A layer) d = Some (a ^ 2) ->
  metric_get (SkipLion.l2_norm_key B layer) d = Some (b ^ 2) ->
  0 <= a -> 0 <= b ->
  metric_get metric d = Some v ->
  SkipLion.pre_reduce_metric metric d =
  Some (metric_set metric (v * (a * b)) d).
Proof.
  intros Hl2 Hcos Hsplit Ha Hb Hpa Hpb Hv.
  unfold SkipLion.pre_reduce_metric.
  rewrite Hl2, Hcos, Hsplit, Ha, Hb, Hv.
  now rewrite !math_sqrt_sq by assumption.
Qed.

Lemma dist_reduce_metric_l2 metric d v s :
  (get_world_size <= 1)%Z ->
  startswith metric "l2_norm" = true ->
  metric_get metric d = Some (v ^ 2) -> 0 <= v ->
  SkipLion.dist_reduce_metric metric (d, s) = Some (metric_set metric v d, s).
Proof.
  intros Hw Hl2 Hv Hpos. unfold SkipLion.dist_reduce_metric.
  rewrite Hl2, Hv.
  destruct (reduce_if_distributed_frame (v ^ 2) s) as (_ & _ & _ & Hone).
  rewrite (Hone Hw). now rewrite math_sqrt_sq.
Qed.

Lemma dist_reduce_metric_cosine metric d A B layer a b v s :
  (get_world_size <= 1)%Z ->
  startswith metric "l2_norm" = false ->
  startswith metric "cosine" = true ->
  SkipLion.split_cosine metric = Some (A, B, layer) ->
  metric_get (SkipLion.l2_norm_key A layer) d = Some a ->
  metric_get (SkipLion.l2_norm_key B layer) d = Some b ->
  metric_get metric d = Some v ->
  SkipLion.dist_reduce_metric metric (d, s) =
  Some (metric_set metric (v / (a * b)) d, s).
Proof.
  intros Hw Hl2 Hcos Hsplit Ha Hb Hv. unfold SkipLion.dist_reduce_metric.
  rewrite Hl2, Hcos, Hv.
  destruct (reduce_if_distributed_frame v s) as (_ & _ & _ & Hone).
  rewrite (Hone Hw). now rewrite Hsplit, Ha, Hb.
Qed.


(** ** Reporting *)

Lemma metric_get_set_same k v (d : metric_map) :
  metric_get k (metric_set k v d) = Some v.
Proof.
  induction d as [|[k' v'] d IH]; simpl.
  - now rewrite String.eqb_refl.
  - destruct (String.eqb_spec k k') as [-> | Hne]; simpl.
    + now rewrite String.eqb_refl.
    + destruct (String.eqb_spec k k'); [contradiction | exact IH].
Qed.

Lemma metric_get_set_other k k' v (d : metric_map) :
  k <> k' -> metric_get k (metric_set k' v d) = metric_get k d.
Proof.
  intros Hne. induction d as [|[k2 v2] d IH]; simpl.
  - destruct (String.eqb_spec k k'); [contradiction | reflexivity].
  - destruct (String.eqb_spec k' k2) as [-> | Hne2]; simpl.
    + destruct (String.eqb_spec k k2); [contradiction | reflexivity].
    + destruct (String.eqb_spec k k2); [reflexivity | exact IH].
Qed.

Lemma keys_metric_set k v (d : metric_map) :
  keys (metric_set k v d) = keys d \/ keys (metric_set k v d) = keys d ++ [k].
Proof.
  induction d as [|[k' v'] d IH]; simpl; [now right |].
  destruct (String.eqb_spec k k') as [-> | Hne]; simpl; [now left |].
  destruct IH as [-> | ->]; [now left | now right].
Qed.

Lemma keys_metric_set_incl k v (d : metric_map) k0 :
  In k0 (keys d) -> In k0 (keys (metric_set k v d)).
Proof.
  intros Hin. destruct (keys_metric_set k v d) as [-> | ->];
    [exact Hin | apply in_or_app; now left].
Qed.

(** The loop over [metric_functions]: it assigns the keys of the
    functions and nothing else. *)
Lemma report_loop
    (get : string * (param -> @SkipLion.state_t D -> ref -> machine -> option R)
           -> option R)
    name fs : forall om om',
  for_each
    (fun mf om =>
       match get mf with
       | Some v => Some (metric_set (fst mf ++ "/" ++ name)%string v om)
       | None => None
       end) fs om = Some om' ->
  (forall k, ~ In k (map (fun mf => (fst mf ++ "/" ++ name)%string) fs) ->
     metric_get k om' = metric_get k om)
  /\ (forall k, In k (map (fun mf => (fst mf ++ "/" ++ name)%string) fs) ->
        exists v, metric_get k om' = Some v)
  /\ (forall k, In k (keys om) -> In k (keys om')).
Proof.
  induction fs as [|mf fs IH]; intros om om' Hloop; cbn [for_each] in Hloop.
  - inversion Hloop; subst. repeat split; auto. intros k [].
  - destruct (get mf) as [v |]; [| discriminate].
    destruct (IH _ _ Hloop) as (Hother & Hnew & Hkeys).
    cbn [map]. repeat split.
    + intros k Hk. rewrite Hother by (intros Hin; apply Hk; now right).
      apply metric_get_set_other. intros ->. apply Hk. now left.
    + intros k [<- | Hin]; [| now apply Hnew].
      destruct (in_dec string_dec (fst mf ++ "/" ++ name)%string
                  (map (fun mf => (fst mf ++ "/" ++ name)%string) fs))
        as [Hin | Hnin]; [now apply Hnew |].
      rewrite Hother by assumption. eexists. apply metric_get_set_same.
    + intros k Hk. apply Hkeys. now apply keys_metric_set_incl.
Qed.

(** C10.  [report_per_parameter_metrics] is a read-only pass over the
    optimizer and the parameter: every tensor that existed before the
    call (the parameter, its gradient, the momentum and the counter among
    them) has the elements it had, and no collective call is made; the
    work tensor is a clone.  The returned map is the passed one with the
    reported keys assigned: other keys keep their value, no key is lost.
    Without state for the parameter the map and the store are returned
    untouched; with state and a gradient the call returns, and every
    reported key is then in the map, the counter key with the counter's
    value.  (The function returns no optimizer: the state mapping itself
    is out of its reach.) *)
Theorem report_is_read_only (self : @SkipLion.t D) (prm : param)
    (name : string)
    (optimizer_metrics : metric_map) (s : machine) :
  (forall om' s',
      SkipLion.report_per_parameter_metrics self prm name optimizer_metrics s
        = Some (om', s') ->
      (forall r, (r < next_ref s)%nat -> cell s' r = cell s r)
      /\ calls s' = calls s
      /\ (forall k, ~ In k (reported_keys name) ->
            metric_get k om' = metric_get k optimizer_metrics)
      /\ (forall k, In k (keys optimizer_metrics) -> In k (keys om'))
      /\ (SkipLion.state self (data prm) = None ->
          om' = optimizer_metrics /\ s' = s)
      /\ (forall state, SkipLion.state self (data prm) = Some state ->
          (forall k, In k (reported_keys name) ->
             exists v, metric_get k om' = Some v)
          /\ metric_get ("skipped_batches/" ++ name)%string om' =
               Some (item (cell s' (SkipLion.skipped_batches state)))))
  /\ (forall group0 groups state g,
      SkipLion.param_groups self = group0 :: groups ->
      SkipLion.state self (data prm) = Some state ->
      grad prm = Some g ->
      exists om' s',
        SkipLion.report_per_parameter_metrics self prm name optimizer_metrics s
          = Some (om', s')).
Proof.
  unfold SkipLion.report_per_parameter_metrics.
  split.
  - intros om' s' Hrun.
    destruct (SkipLion.param_groups self) as [|group0 groups]; [discriminate |].
    destruct (betas group0) as [beta1 beta2].
    destruct (SkipLion.state self (data prm)) as [state |] eqn:Hstate.
    2:{ inversion Hrun; subst. repeat split; auto; intros; discriminate. }
    destruct (grad prm) as [g |] eqn:Hgrad; [| discriminate].
    destruct (torch.clone (SkipLion.exp_avg state) s) as [step_tensor s1]
      eqn:Hclone.
    unfold torch.clone, alloc in Hclone. inversion Hclone; subst; clear Hclone.
    set (sf := torch.add_ _ _ _ _) in Hrun.
    assert (Hframe : (forall r, (r < next_ref s)%nat -> cell sf r = cell s r)
                     /\ calls sf = calls s).
    { subst sf.
      unfold torch.add_, torch.mul_, torch.sign_, torch.lerp_, write.
      cbn [cell next_ref calls]. split; [| reflexivity].
      intros r Hr. eqb_cases. reflexivity. }
    destruct Hframe as [Hcells Hcalls].
    match type of Hrun with
    | match for_each ?body ?fs ?om with _ => _ end = _ =>
        destruct (for_each body fs om) as [om1 |] eqn:Hloop; [| discriminate]
    end.
    inversion Hrun; subst om' s'; clear Hrun.
    apply (report_loop
             (fun mf => snd mf prm state (next_ref s) sf) name) in Hloop.
    destruct Hloop as (Hother & Hnew & Hkeys).
    split; [exact Hcells |]. split; [exact Hcalls |].
    split; [| split; [| split]].
    + intros k Hk.
      rewrite metric_get_set_other
        by (intros ->; apply Hk; unfold reported_keys; simpl; tauto).
      apply Hother. intros Hin. apply Hk.
      unfold reported_keys. simpl in Hin |- *. tauto.
    + intros k Hk. now apply keys_metric_set_incl, Hkeys.
    + intros Habs; discriminate Habs.
    + intros state' Hs. inversion Hs; subst state'. split.
      * intros k Hk.
        destruct (string_dec k ("skipped_batches/" ++ name)%string)
          as [-> | Hne].
        -- eexists. apply metric_get_set_same.
        -- rewrite metric_get_set_other by assumption.
           apply Hnew. unfold reported_keys in Hk.
           unfold SkipLion.metric_functions. cbn [map fst In] in Hk |- *.
           destruct Hk as [Hk|[Hk|[Hk|[Hk|[Hk|[Hk|[Hk|[]]]]]]]];
             try (symmetry in Hk; contradiction); tauto.
      * apply metric_get_set_same.
  - intros group0 groups state g Hgroups Hstate Hgrad.
    rewrite Hgroups, Hstate, Hgrad.
    destruct (betas group0) as [beta1 beta2].
    destruct (torch.clone (SkipLion.exp_avg state) s) as [step_tensor s1].
    unfold SkipLion.metric_functions. cbn [for_each fst snd].
    rewrite Hgrad. eexists _, _. reflexivity.
Qed.

(** ** FullyAdaptiveLion: the derived weight decay *)

Lemma for_each_app {A X : Type} (body : A -> X -> option X) l1 l2 x :
  for_each body (l1 ++ l2) x =
  match for_each body l1 x with
  | Some y => for_each body l2 y
  | None => None
  end.
Proof.
  revert x. induction l1 as [|a l1 IH]; intros x; cbn [for_each app].
  - reflexivity.
  - destruct (body a x); [apply IH | reflexivity].
Qed.

Lemma rget_set_same k v (d : @dict ref R) :
  dict_get Nat.eqb k (dict_set Nat.eqb k v d) = Some v.
Proof.
  induction d as [|[k' v'] d IH]; simpl.
  - now rewrite Nat.eqb_refl.
  - destruct (Nat.eqb_spec k k') as [-> | Hne]; simpl.
    + now rewrite Nat.eqb_refl.
    + destruct (Nat.eqb_spec k k'); [contradiction | exact IH].
Qed.

Lemma rget_set_other k k' v (d : @dict ref R) :
  k <> k' ->
  dict_get Nat.eqb k (dict_set Nat.eqb k' v d) = dict_get Nat.eqb k d.
Proof.
  intros Hne. induction d as [|[k2 v2] d IH]; simpl.
  - destruct (Nat.eqb_spec k k'); [contradiction | reflexivity].
  - destruct (Nat.eqb_spec k' k2) as [-> | Hne2]; simpl.
    + destruct (Nat.eqb_spec k k2); [contradiction | reflexivity].
    + destruct (Nat.eqb_spec k k2); [reflexivity | exact IH].
Qed.

Lemma rget_keys k (d : @dict ref R) :
  In k (keys d) <-> exists v, dict_get Nat.eqb k d = Some v.
Proof.
  induction d as [|[k' v'] d IH]; simpl.
  - split; [intros [] | intros [v Hv]; discriminate].
  - destruct (Nat.eqb_spec k k') as [-> | Hne].
    + split; [intros _; now exists v' | intros _; now left].
    + rewrite <- IH. split; [intros [? | ?]; [congruence | assumption] | now right].
Qed.

Lemma rkeys_set_present k v v' (d : @dict ref R) :
  dict_get Nat.eqb k d = Some v -> keys (dict_set Nat.eqb k v' d) = keys d.
Proof.
  induction d as [|[k2 v2] d IH]; simpl; [discriminate |].
  destruct (Nat.eqb_spec k k2) as [-> | Hne]; simpl; [reflexivity |].
  intros Hv. now rewrite IH.
Qed.

Lemma rkeys_set_nodup k v (d : @dict ref R) :
  NoDup (keys d) -> NoDup (keys (dict_set Nat.eqb k v d)).
Proof.
  intros Hnd.
  destruct (dict_get Nat.eqb k d) as [v0 |] eqn:Hget.
  - now rewrite (rkeys_set_present k v0 v d Hget).
  - assert (Hnin : ~ In k (keys d)).
    { intros Hin. apply rget_keys in Hin. destruct Hin as [v1 Hv1]. congruence. }
    clear Hget. induction d as [|[k2 v2] d IH]; simpl.
    + constructor; [intros [] | constructor].
    + simpl in Hnin, Hnd. inversion Hnd as [| ? ? Hk2 Hnd']; subst.
      destruct (Nat.eqb_spec k k2) as [-> | Hne]; [exfalso; auto |].
      simpl. constructor.
      * intros Hin. apply rget_keys in Hin. destruct Hin as [v1 Hv1].
        rewrite rget_set_other in Hv1 by congruence.
        apply Hk2, rget_keys. now exists v1.
      * apply IH; [assumption | tauto].
Qed.

Lemma reduce_if_distributed_value x s :
  fst (reduce_if_distributed x s) = reduced_value x (calls s).
Proof.
  unfold reduce_if_distributed, reduced_value, all_reduce.
  now destruct (1 <? get_world_size)%Z.
Qed.

Lemma reduced_value_single x k :
  (get_world_size <= 1)%Z -> reduced_value x k = x.
Proof.
  intros Hw. unfold reduced_value.
  destruct (Z.ltb_spec 1 get_world_size); [lia | reflexivity].
Qed.

Lemma math_sqrt_some x root : math_sqrt x = Some root -> root = sqrt x.
Proof.
  unfold math_sqrt. destruct (Rlt_dec x 0); [discriminate |].
  intros Hr; now inversion Hr.
Qed.

(** Lines 934-938. *)
Lemma reduce_init_loop tmp ks : forall m s m' s',
  for_each (FullyAdaptiveLion.reduce_init_norm tmp) ks (m, s) = Some (m', s') ->
  NoDup ks ->
  (forall k, In k ks ->
     exists v k0, dict_get Nat.eqb k tmp = Some v
                  /\ m' k = Some (sqrt (reduced_value v k0)))
  /\ (forall k, ~ In k ks -> m' k = m k).
Proof.
  induction ks as [|k0 ks IH]; intros m s m' s' Hloop Hnd;
    cbn [for_each] in Hloop.
  - inversion Hloop; subst. split; [intros k [] | reflexivity].
  - unfold FullyAdaptiveLion.reduce_init_norm at 1 in Hloop.
    destruct (dict_get Nat.eqb k0 tmp) as [v |] eqn:Hv; [| discriminate].
    pose proof (reduce_if_distributed_value v s) as Hval.
    destruct (reduce_if_distributed v s) as [y s1]. cbn [fst] in Hval.
    destruct (math_sqrt y) as [root |] eqn:Hroot; [| discriminate].
    apply math_sqrt_some in Hroot.
    inversion Hnd as [| ? ? Hk0 Hnd']; subst.
    destruct (IH _ _ _ _ Hloop Hnd') as [Hin Hout].
    split.
    + intros k [<- | Hk]; [| now apply Hin].
      exists v, (calls s). split; [exact Hv |].
      rewrite (Hout k0 Hk0). unfold id_set. now rewrite Nat.eqb_refl.
    + intros k Hk. rewrite Hout by (intros Hin'; apply Hk; now right).
      unfold id_set. destruct (Nat.eqb_spec k k0); [| reflexivity].
      exfalso. apply Hk. now left.
Qed.

(** Lines 941-945. *)
Lemma reduce_current_loop ks : forall d s d' s',
  for_each FullyAdaptiveLion.reduce_current_norm ks (d, s) = Some (d', s') ->
  NoDup ks ->
  (forall k, In k ks ->
     exists v k1, dict_get Nat.eqb k d = Some v
                  /\ dict_get Nat.eqb k d' = Some (sqrt (reduced_value v k1)))
  /\ (forall k, ~ In k ks -> dict_get Nat.eqb k d' = dict_get Nat.eqb k d)
  /\ keys d' = keys d.
Proof.
  induction ks as [|k0 ks IH]; intros d s d' s' Hloop Hnd;
    cbn [for_each] in Hloop.
  - inversion Hloop; subst. repeat split; auto. intros k [].
  - unfold FullyAdaptiveLion.reduce_current_norm at 1 in Hloop.
    destruct (dict_get Nat.eqb k0 d) as [v |] eqn:Hv; [| discriminate].
    pose proof (reduce_if_distributed_value v s) as Hval.
    destruct (reduce_if_distributed v s) as [y s1]. cbn [fst] in Hval.
    destruct (math_sqrt y) as [root |] eqn:Hroot; [| discriminate].
    apply math_sqrt_some in Hroot.
    inversion Hnd as [| ? ? Hk0 Hnd']; subst.
    destruct (IH _ _ _ _ Hloop Hnd') as (Hin & Hout & Hkeys).
    split; [| split].
    + intros k [<- | Hk].
      * exists v, (calls s). split; [exact Hv |].
        rewrite (Hout k0 Hk0). apply rget_set_same.
      * destruct (Hin k Hk) as (v1 & k1 & Hv1 & Hd').
        exists v1, k1. split; [| exact Hd'].
        rewrite rget_set_other in Hv1; [exact Hv1 |].
        intros ->. contradiction.
    + intros k Hk. rewrite Hout by (intros Hin'; apply Hk; now right).
      apply rget_set_other. intros ->. apply Hk. now left.
    + rewrite Hkeys. now apply (rkeys_set_present k0 v).
Qed.

(** Lines 948-952. *)
Lemma derive_wd_loop init cur ks : forall w w',
  for_each (FullyAdaptiveLion.derive_wd_scaling init cur) ks w = Some w' ->
  (forall k, In k ks ->
     exists p_0 p_t, init k = Some p_0 /\ dict_get Nat.eqb k cur = Some p_t
                     /\ p_0 <> 0 /\ w' k = Some ((p_t - p_0) / p_0))
  /\ (forall k, ~ In k ks -> w' k = w k).
Proof.
  induction ks as [|k0 ks IH]; intros w w' Hloop; cbn [for_each] in Hloop.
  - inversion Hloop; subst. split; [intros k [] | reflexivity].
  - unfold FullyAdaptiveLion.derive_wd_scaling at 1 in Hloop.
    destruct (init k0) as [p_0 |] eqn:Hp0; [| discriminate].
    destruct (dict_get Nat.eqb k0 cur) as [p_t |] eqn:Hpt; [| discriminate].
    destruct (Req_dec_T p_0 0) as [| Hnz]; [discriminate |].
    destruct (IH _ _ Hloop) as [Hin Hout].
    split.
    + intros k Hk.
      destruct (in_dec Nat.eq_dec k ks) as [Hks | Hks]; [now apply Hin |].
      destruct Hk as [<- | Hk]; [| contradiction].
      exists p_0, p_t. repeat split; try assumption.
      rewrite (Hout k0 Hks). unfold id_set. now rewrite Nat.eqb_refl.
    + intros k Hk. rewrite Hout by (intros Hin'; apply Hk; now right).
      unfold id_set. destruct (Nat.eqb_spec k k0); [| reflexivity].
      exfalso. apply Hk. now left.
Qed.


(** What the body of the loop leaves in the local dictionaries, and the
    call of [lionw] it makes, when it returns. *)
Lemma fully_body_effect (self : FullyAdaptiveLion.t) group q loc s loc' s' :
  FullyAdaptiveLion.step_param self group q (loc, s) = Some (loc', s') ->
  match grad q with
  | None => loc' = loc /\ s' = s
  | Some g =>
      FullyAdaptiveLion.tmp_param_current_norm loc' =
        dict_set Nat.eqb (data q) (torch.vector_norm (cell s' (data q)) ^ 2)
          (FullyAdaptiveLion.tmp_param_current_norm loc)
      /\ FullyAdaptiveLion.tmp_param_init_norm loc' =
           match FullyAdaptiveLion.param_init_norm self (data q) with
           | None =>
               dict_set Nat.eqb (data q)
                 (torch.vector_norm (cell s (data q)) ^ 2)
                 (FullyAdaptiveLion.tmp_param_init_norm loc)
           | Some _ => FullyAdaptiveLion.tmp_param_init_norm loc
           end
      /\ exists state' s1,
           FullyAdaptiveLion.states loc' (data q) = Some state'
           /\ let n := length (FullyAdaptiveLion.outlier_timestamp state') in
              let adj := FullyAdaptiveLion.param_adjustment self in
              let lr' := FullyAdaptiveLion.lr group * adj ^ n in
              let beta1' := fst (FullyAdaptiveLion.betas group) * adj ^ n in
              s' = lionw (data q) g (FullyAdaptiveLion.exp_avg state') lr'
                     (FullyAdaptiveLion.initial_lr group)
                     (lr' * FullyAdaptiveLion.wd_scaling_of self q)
                     beta1' (beta1' * adj ^ n) s1
  end.
Proof.
  unfold FullyAdaptiveLion.step_param. intros Hrun.
  destruct (grad q) as [g |]; [| inversion Hrun; now split].
  destruct (FullyAdaptiveLion.betas group) as [beta1 beta2].
  destruct (FullyAdaptiveLion.init_state self q
              (FullyAdaptiveLion.states loc) s) as [state0 s0].
  destruct (moment_norm (FullyAdaptiveLion.exp_avg state0) g beta2 s0)
    as [[obs s1] |]; [| discriminate].
  destruct (insert_observation (FullyAdaptiveLion.moment_tracker state0) obs)
    as [flagged tracker].
  inversion Hrun; subst loc'. clear Hrun.
  cbn [FullyAdaptiveLion.tmp_param_current_norm
       FullyAdaptiveLion.tmp_param_init_norm FullyAdaptiveLion.states].
  split; [now subst s' |]. split; [reflexivity |].
  eexists _, s1. split; [unfold id_set; now rewrite Nat.eqb_refl |].
  cbn [FullyAdaptiveLion.outlier_timestamp FullyAdaptiveLion.exp_avg fst].
  subst s'. reflexivity.
Qed.

Lemma fully_body_keeps (self : FullyAdaptiveLion.t) group q loc s loc' s' r :
  FullyAdaptiveLion.step_param self group q (loc, s) = Some (loc', s') ->
  (locals_ok self loc -> locals_ok self loc')
  /\ (data q <> r ->
      dict_get Nat.eqb r (FullyAdaptiveLion.tmp_param_current_norm loc') =
        dict_get Nat.eqb r (FullyAdaptiveLion.tmp_param_current_norm loc)
      /\ dict_get Nat.eqb r (FullyAdaptiveLion.tmp_param_init_norm loc') =
           dict_get Nat.eqb r (FullyAdaptiveLion.tmp_param_init_norm loc)).
Proof.
  intros Hrun. apply fully_body_effect in Hrun.
  destruct (grad q) as [g |].
  2:{ destruct Hrun as [-> ->]. split; auto. }
  destruct Hrun as (Hcur & Hinit & _). rewrite Hcur, Hinit. split.
  - intros (Hn1 & Hn2 & Hfresh). unfold locals_ok. rewrite Hcur, Hinit.
    split; [| split].
    + destruct (FullyAdaptiveLion.param_init_norm self (data q));
        [assumption | now apply rkeys_set_nodup].
    + now apply rkeys_set_nodup.
    + intros k Hk.
      destruct (FullyAdaptiveLion.param_init_norm self (data q)) eqn:Hq;
        [now apply Hfresh |].
      destruct (Nat.eq_dec k (data q)) as [-> | Hne]; [exact Hq |].
      apply Hfresh. apply rget_keys in Hk. destruct Hk as [v Hv].
      rewrite rget_set_other in Hv by assumption.
      apply rget_keys. now exists v.
  - intros Hne. split.
    + apply rget_set_other. congruence.
    + destruct (FullyAdaptiveLion.param_init_norm self (data q));
        [reflexivity | apply rget_set_other; congruence].
Qed.

Lemma fully_inner_keeps (self : FullyAdaptiveLion.t) group r qs :
  forall loc s loc' s',
  for_each (FullyAdaptiveLion.step_param self group) qs (loc, s)
    = Some (loc', s') ->
  (locals_ok self loc -> locals_ok self loc')
  /\ ((forall q, In q qs -> data q <> r) ->
      dict_get Nat.eqb r (FullyAdaptiveLion.tmp_param_current_norm loc') =
        dict_get Nat.eqb r (FullyAdaptiveLion.tmp_param_current_norm loc)
      /\ dict_get Nat.eqb r (FullyAdaptiveLion.tmp_param_init_norm loc') =
           dict_get Nat.eqb r (FullyAdaptiveLion.tmp_param_init_norm loc)).
Proof.
  induction qs as [|q qs IH]; intros loc s loc' s' Hloop;
    cbn [for_each] in Hloop.
  - inversion Hloop; subst. auto.
  - destruct (FullyAdaptiveLion.step_param self group q (loc, s))
      as [[loc1 s1] |] eqn:Hq; [| discriminate].
    destruct (fully_body_keeps self group q loc s loc1 s1 r Hq) as [Hok1 Hget1].
    destruct (IH _ _ _ _ Hloop) as [Hok2 Hget2].
    split; [auto |].
    intros Hne.
    destruct (Hget1 (Hne q (or_introl eq_refl))) as [H1 H2].
    destruct Hget2 as [H3 H4]; [intros q' Hq'; apply Hne; now right |].
    split; congruence.
Qed.

Lemma fully_outer_keeps (self : FullyAdaptiveLion.t) r gs :
  forall loc s loc' s',
  for_each
    (fun group =>
       for_each (FullyAdaptiveLion.step_param self group)
         (filter trainable (FullyAdaptiveLion.params group)))
    gs (loc, s) = Some (loc', s') ->
  (locals_ok self loc -> locals_ok self loc')
  /\ ((forall group q, In group gs ->
         In q (filter trainable (FullyAdaptiveLion.params group)) ->
         data q <> r) ->
      dict_get Nat.eqb r (FullyAdaptiveLion.tmp_param_current_norm loc') =
        dict_get Nat.eqb r (FullyAdaptiveLion.tmp_param_current_norm loc)
      /\ dict_get Nat.eqb r (FullyAdaptiveLion.tmp_param_init_norm loc') =
           dict_get Nat.eqb r (FullyAdaptiveLion.tmp_param_init_norm loc)).
Proof.
  induction gs as [|group gs IH]; intros loc s loc' s' Hloop;
    cbn [for_each] in Hloop.
  - inversion Hloop; subst. auto.
  - destruct (for_each (FullyAdaptiveLion.step_param self group)
                (filter trainable (FullyAdaptiveLion.params group)) (loc, s))
      as [[loc1 s1] |] eqn:Hg; [| discriminate].
    destruct (fully_inner_keeps self group r _ _ _ _ _ Hg) as [Hok1 Hget1].
    destruct (IH _ _ _ _ Hloop) as [Hok2 Hget2].
    split; [auto |].
    intros Hne.
    destruct Hget1 as [H1 H2].
    { intros q Hq. apply (Hne group q); [now left | exact Hq]. }
    destruct Hget2 as [H3 H4].
    { intros group' q Hg' Hq. apply (Hne group' q); [now right | exact Hq]. }
    split; congruence.
Qed.


(** For a single worker, an optimizer with one group and one trainable
    parameter returns from [step] unless the initial norm is zero. *)
Lemma fully_step_single (self : FullyAdaptiveLion.t) closure s group p g :
  FullyAdaptiveLion.param_groups self = [group] ->
  filter trainable (FullyAdaptiveLion.params group) = [p] ->
  grad p = Some g ->
  (get_world_size <= 1)%Z ->
  match FullyAdaptiveLion.param_init_norm self (data p) with
  | Some n0 => n0 <> 0
  | None => torch.vector_norm (cell (snd (call_closure closure s)) (data p)) <> 0
  end ->
  exists r, FullyAdaptiveLion.step self closure s = Some r.
Proof.
  intros Hgroups Hfilter Hgrad Hw Hnz.
  assert (Hred : forall x s0, reduce_if_distributed x s0 = (x, s0)).
  { intros x s0.
    now destruct (reduce_if_distributed_frame x s0) as (_ & _ & _ & ->). }
  unfold FullyAdaptiveLion.step.
  destruct (call_closure closure s) as [loss s_c]. cbn [snd] in Hnz.
  rewrite Hgroups. cbn [for_each]. rewrite Hfilter. cbn [for_each].
  set (loc0 := {| FullyAdaptiveLion.tmp_param_init_norm := [];
                  FullyAdaptiveLion.tmp_param_current_norm := [];
                  FullyAdaptiveLion.states := FullyAdaptiveLion.state self |}).
  destruct (fully_step_eq self group p g loc0 s_c Hgrad (or_introl Hw))
    as (obs & s1 & _ & _ & _ & Hstep).
  cbv zeta in Hstep. rewrite Hstep. clear Hstep.
  cbn [FullyAdaptiveLion.tmp_param_init_norm
       FullyAdaptiveLion.tmp_param_current_norm FullyAdaptiveLion.states
       loc0 dict_set keys map fst for_each].
  set (s_a := lionw _ _ _ _ _ _ _ _ _).
  set (st_a := id_set _ _ _).
  destruct (FullyAdaptiveLion.param_init_norm self (data p)) as [n0 |] eqn:Hinit.
  - cbn [keys map fst for_each].
    unfold FullyAdaptiveLion.reduce_current_norm.
    cbn [dict_get]. rewrite Nat.eqb_refl, Hred.
    rewrite math_sqrt_sq by apply vector_norm_nonneg.
    cbn [dict_set]. rewrite Nat.eqb_refl. cbn [keys map fst for_each].
    unfold FullyAdaptiveLion.derive_wd_scaling.
    cbn [dict_get]. rewrite Nat.eqb_refl, Hinit.
    destruct (Req_dec_T n0 0); [contradiction |]. eexists. reflexivity.
  - cbn [keys map fst for_each].
    unfold FullyAdaptiveLion.reduce_init_norm at 1.
    cbn [dict_get]. rewrite Nat.eqb_refl, Hred.
    rewrite math_sqrt_sq by apply vector_norm_nonneg.
    unfold FullyAdaptiveLion.reduce_current_norm.
    cbn [dict_get]. rewrite Nat.eqb_refl, Hred.
    rewrite math_sqrt_sq by apply vector_norm_nonneg.
    cbn [dict_set]. rewrite Nat.eqb_refl. cbn [keys map fst for_each].
    unfold FullyAdaptiveLion.derive_wd_scaling, id_set at 1.
    cbn [dict_get]. rewrite !Nat.eqb_refl.
    destruct (Req_dec_T (torch.vector_norm (cell s_c (data p))) 0);
      [contradiction |]. eexists. reflexivity.
Qed.


(** ** The state of a parameter stays well-formed *)

Lemma lionw_keeps_shape p g m lr ilr wd b1 b2 s :
  p <> g -> p <> m ->
  (p < next_ref s)%nat -> (g < next_ref s)%nat -> (m < next_ref s)%nat ->
  length (cell s g) = length (cell s p) ->
  length (cell s m) = length (cell s p) ->
  let s' := lionw p g m lr ilr wd b1 b2 s in
  length (cell s' p) = length (cell s p)
  /\ length (cell s' m) = length (cell s p)
  /\ next_ref s' = S (next_ref s)
  /\ (forall r, (r < next_ref s)%nat -> r <> p -> r <> m -> cell s' r = cell s r).
Proof.
  intros Hpg Hpm Hp Hg Hm Lg Lm s'.
  destruct (lionw_cells p g m lr ilr wd b1 b2 s Hpg Hpm Hp Hg Hm)
    as (Hcp & Hcm & Hframe & Hnext & _).
  fold s' in Hcp, Hcm, Hframe, Hnext.
  repeat split; try assumption.
  - rewrite Hcp. unfold SignMomentumUpdate.new_parameter.
    apply length_zip_with. unfold SignMomentumUpdate.update.
    rewrite length_zip_with; congruence.
  - rewrite Hcm. unfold SignMomentumUpdate.new_momentum.
    rewrite length_zip_with; congruence.
Qed.

Lemma reduced_norm_frame t s obs s1 :
  reduced_norm t s = Some (obs, s1) ->
  next_ref s1 = next_ref s /\ cell s1 = cell s.
Proof.
  unfold reduced_norm. intros Hr.
  destruct (reduce_if_distributed_frame (torch.vector_norm t ^ 2) s)
    as (Hn & Hc & _).
  destruct (reduce_if_distributed (torch.vector_norm t ^ 2) s) as [y s2].
  destruct (math_sqrt y); [| discriminate].
  inversion Hr; subst. now split.
Qed.

Lemma moment_norm_frame m g b2 s obs s1 :
  moment_norm m g b2 s = Some (obs, s1) ->
  next_ref s1 = S (next_ref s)
  /\ (forall r, (r < next_ref s)%nat -> cell s1 r = cell s r).
Proof.
  unfold moment_norm, torch.lerp. intros Hm.
  set (t := zip_with _ _ _) in Hm.
  destruct (alloc t s) as [r0 s0] eqn:Ha.
  assert (Hs0 : s0 = snd (alloc t s)) by now rewrite Ha.
  apply reduced_norm_frame in Hm. destruct Hm as [Hn Hc].
  split.
  - rewrite Hn, Hs0. reflexivity.
  - intros r Hr. rewrite Hc, Hs0. now apply cell_alloc_old.
Qed.

(** A SkipLion step leaves the state of the parameter as the next step
    needs it. *)
Lemma skip_state_kept (self : SkipLion.t) group p g st s st' s' state' :
  grad p = Some g -> data p <> g ->
  (data p < next_ref s)%nat -> (g < next_ref s)%nat ->
  length (cell s g) = length (cell s (data p)) ->
  (forall state, st (data p) = Some state -> skip_state_ok state (data p) s) ->
  SkipLion.step_param self group p (st, s) = Some (st', s') ->
  st' (data p) = Some state' ->
  skip_state_ok state' (data p) s'
  /\ (data p < next_ref s')%nat
  /\ length (cell s' (data p)) = length (cell s (data p)).
Proof.
  intros Hgrad Hpg Hp Hg Hlen Hst Hrun Hstate.
  unfold SkipLion.step_param in Hrun. rewrite Hgrad in Hrun.
  destruct (betas group) as [beta1 beta2].
  destruct (SkipLion.init_state self p st s) as [state0 s0] eqn:Hinit.
  destruct (skip_init_ok self p st s state0 s0 Hinit Hp Hst)
    as ((He & Hc & Hep & Hcp & Hce & Hel & Hcl) & Hnext & Hold & _).
  destruct (moment_norm (SkipLion.exp_avg state0) g beta2 s0)
    as [[obs s1] |] eqn:Hmn; [| discriminate].
  destruct (moment_norm_frame _ _ _ _ _ _ Hmn) as [Hn1 Hold1].
  destruct (insert_observation (SkipLion.moment_tracker state0) obs)
    as [flagged tracker].
  destruct flagged; inversion Hrun; subst st' s'; clear Hrun;
    unfold id_set in Hstate; rewrite Nat.eqb_refl in Hstate;
    inversion Hstate; subst state'; clear Hstate;
    unfold skip_state_ok;
    cbn [SkipLion.exp_avg SkipLion.skipped_batches].
  - unfold torch.add_scalar_, write. cbn [cell next_ref].
    rewrite Nat.eqb_refl.
    destruct (Nat.eqb_spec (SkipLion.exp_avg state0)
                (SkipLion.skipped_batches state0)); [congruence |].
    destruct (Nat.eqb_spec (data p) (SkipLion.skipped_batches state0));
      [congruence |].
    rewrite length_map, !Hold1 by lia.
    rewrite (Hold (data p)) in * by lia.
    repeat split; try assumption; try lia.
  - destruct (lionw_keeps_shape (data p) g (SkipLion.exp_avg state0) (lr group)
                (initial_lr group) (weight_decay group) beta1 beta2 s1)
      as (Lp & Lm & Hn2 & Hframe); auto; try lia.
    { rewrite !Hold1 by lia. now rewrite !Hold by lia. }
    { rewrite !Hold1 by lia. now rewrite Hel. }
    rewrite Lp, Lm.
    rewrite (Hframe (SkipLion.skipped_batches state0)) by (auto; lia).
    rewrite !Hold1 by lia. rewrite (Hold (data p)) in * by lia.
    repeat split; try assumption; try lia.
Qed.

(** ** From the loop body to [step] *)

(** For an optimizer with one group and one parameter that passes the
    filter, [step] is the closure followed by the loop body. *)
Lemma skip_step_single (self : SkipLion.t) closure s group p :
  SkipLion.param_groups self = [group] ->
  filter trainable (params group) = [p] ->
  SkipLion.step self closure s =
  match
    SkipLion.step_param self group p
      (SkipLion.state self, snd (call_closure closure s))
  with
  | Some (st, s') =>
      Some (fst (call_closure closure s),
            {| SkipLion.param_groups := SkipLion.param_groups self;
               SkipLion.state := st;
               SkipLion.outlier_threshold := SkipLion.outlier_threshold self |},
            s')
  | None => None
  end.
Proof.
  intros Hgroups Hfilter. unfold SkipLion.step.
  destruct (call_closure closure s) as [loss s_c].
  rewrite Hgroups. cbn [for_each fst snd]. rewrite Hfilter. cbn [for_each].
  now destruct (SkipLion.step_param self group p (SkipLion.state self, s_c))
    as [[st s'] |].
Qed.

Lemma clip_step_single (self : ClipLion.t) closure s group p :
  ClipLion.param_groups self = [group] ->
  filter trainable (params group) = [p] ->
  ClipLion.step self closure s =
  match
    ClipLion.step_param self group p
      (ClipLion.state self, snd (call_closure closure s))
  with
  | Some (st, s') =>
      Some (fst (call_closure closure s),
            {| ClipLion.param_groups := ClipLion.param_groups self;
               ClipLion.state := st;
               ClipLion.outlier_threshold := ClipLion.outlier_threshold self |},
            s')
  | None => None
  end.
Proof.
  intros Hgroups Hfilter. unfold ClipLion.step.
  destruct (call_closure closure s) as [loss s_c].
  rewrite Hgroups. cbn [for_each fst snd]. rewrite Hfilter. cbn [for_each].
  now destruct (ClipLion.step_param self group p (ClipLion.state self, s_c))
    as [[st s'] |].
Qed.

Lemma adabeta_step_single (self : AdaBetaLion.t) closure s group p :
  AdaBetaLion.param_groups self = [group] ->
  filter trainable (params group) = [p] ->
  AdaBetaLion.step self closure s =
  match
    AdaBetaLion.step_param self group p
      (AdaBetaLion.state self, snd (call_closure closure s))
  with
  | Some (st, s') =>
      Some (fst (call_closure closure s),
            {| AdaBetaLion.param_groups := AdaBetaLion.param_groups self;
               AdaBetaLion.state := st;
               AdaBetaLion.outlier_threshold := AdaBetaLion.outlier_threshold self;
               AdaBetaLion.increase := AdaBetaLion.increase self;
               AdaBetaLion.timeout := AdaBetaLion.timeout self |},
            s')
  | None => None
  end.
Proof.
  intros Hgroups Hfilter. unfold AdaBetaLion.step.
  destruct (call_closure closure s) as [loss s_c].
  rewrite Hgroups. cbn [for_each fst snd]. rewrite Hfilter. cbn [for_each].
  now destruct (AdaBetaLion.step_param self group p (AdaBetaLion.state self, s_c))
    as [[st s'] |].
Qed.

Lemma adalr_step_single (self : AdaLRLion.t) closure s group p :
  AdaLRLion.param_groups self = [group] ->
  filter trainable (params group) = [p] ->
  AdaLRLion.step self closure s =
  match
    AdaLRLion.step_param self group p
      (AdaLRLion.state self, snd (call_closure closure s))
  with
  | Some (st, s') =>
      Some (fst (call_closure closure s),
            {| AdaLRLion.param_groups := AdaLRLion.param_groups self;
               AdaLRLion.state := st;
               AdaLRLion.outlier_threshold := AdaLRLion.outlier_threshold self;
               AdaLRLion.timeout := AdaLRLion.timeout self;
               AdaLRLion.lr_penalty := AdaLRLion.lr_penalty self;
               AdaLRLion.min_scale := AdaLRLion.min_scale self |},
            s')
  | None => None
  end.
Proof.
  intros Hgroups Hfilter. unfold AdaLRLion.step.
  destruct (call_closure closure s) as [loss s_c].
  rewrite Hgroups. cbn [for_each fst snd]. rewrite Hfilter. cbn [for_each].
  now destruct (AdaLRLion.step_param self group p (AdaLRLion.state self, s_c))
    as [[st s'] |].
Qed.

(** A parameter without gradient, or one that does not require one, does
    not reach the loop body. *)
Lemma untrainable_filtered (ps : list param) :
  (forall p, In p ps -> grad p = None \/ requires_grad p = false) ->
  filter trainable ps = [].
Proof.
  induction ps as [|p ps IH]; intros Hall; [reflexivity |]. cbn [filter].
  assert (Hp : trainable p = false).
  { unfold trainable. destruct (Hall p (or_introl eq_refl)) as [-> | Hr];
      [reflexivity |]. now destruct (grad p). }
  rewrite Hp. apply IH. intros q Hq. apply Hall. now right.
Qed.


(** ** What [lionw] writes, and how far it moves a parameter *)

Lemma nth_zip_with f a b i d1 d2 d3 :
  (i < length a)%nat -> length a = length b ->
  nth i (zip_with f a b) d1 = f (nth i a d2) (nth i b d3).
Proof.
  revert b i. induction a as [|x a IH]; intros [|y b] i Hi Hlen;
    simpl in *; try lia.
  destruct i as [|i]; [reflexivity |]. apply IH; lia.
Qed.

Lemma sign_val_cases x : sign_val x = -1 \/ sign_val x = 0 \/ sign_val x = 1.
Proof.
  unfold sign_val. destruct (Rlt_dec x 0); [now left |].
  destruct (Rlt_dec 0 x); [now right; right | now right; left].
Qed.

(** The writes of [lionw], without any assumption on its arguments. *)
Lemma lionw_writes p grad exp_avg lr initial_lr wd beta1 beta2 s :
  next_ref (lionw p grad exp_avg lr initial_lr wd beta1 beta2 s) = S (next_ref s)
  /\ calls (lionw p grad exp_avg lr initial_lr wd beta1 beta2 s) = calls s
  /\ (forall r, (r < next_ref s)%nat -> r <> p -> r <> exp_avg ->
        cell (lionw p grad exp_avg lr initial_lr wd beta1 beta2 s) r = cell s r).
Proof.
  assert (H : forall s0,
             next_ref s0 = next_ref s -> calls s0 = calls s ->
             (forall r, r <> p -> cell s0 r = cell s r) ->
             let '(update, s1) := torch.lerp exp_avg grad (1 - beta1) s0 in
             let s2 := torch.sign_ update s1 in
             let s3 := torch.add_ p update (- lr) s2 in
             let s4 := torch.lerp_ exp_avg grad (1 - beta2) s3 in
             next_ref s4 = S (next_ref s) /\ calls s4 = calls s
             /\ (forall r, (r < next_ref s)%nat -> r <> p -> r <> exp_avg ->
                   cell s4 r = cell s r)).
  { intros s0 Hn Hc Hcells.
    unfold torch.lerp, torch.lerp_, torch.sign_, torch.add_, alloc, write.
    cbn [cell next_ref calls]. rewrite Hn, Hc.
    repeat split. intros r Hr Hrp Hrm. eqb_cases. now apply Hcells. }
  unfold lionw. destruct (Req_dec_T wd 0).
  - specialize (H s eq_refl eq_refl (fun r _ => eq_refl)).
    destruct (torch.lerp exp_avg grad (1 - beta1) s). exact H.
  - match goal with
    | |- context [torch.lerp _ _ _ ?s0] =>
        specialize (H s0 eq_refl eq_refl)
    end.
    match type of H with
    | ?P -> _ => assert (HP : P)
    end.
    { intros r Hr. unfold torch.mul_. now apply cell_write_other. }
    specialize (H HP).
    match goal with
    | |- context [torch.lerp exp_avg grad (1 - beta1) ?s0] =>
        destruct (torch.lerp exp_avg grad (1 - beta1) s0)
    end.
    exact H.
Qed.

(** X1.  [lionw] allocates one tensor (the interpolated momentum it takes
    the sign of), makes no collective call, and writes to no tensor that
    existed before the call other than the parameter and the momentum;
    this needs no assumption on the arguments.  In particular a gradient
    that is an object of its own keeps its elements. *)
Theorem lionw_frame p grad exp_avg lr initial_lr wd beta1 beta2 s :
  let s' := lionw p grad exp_avg lr initial_lr wd beta1 beta2 s in
  next_ref s' = S (next_ref s)
  /\ calls s' = calls s
  /\ (forall r, (r < next_ref s)%nat -> r <> p -> r <> exp_avg ->
        cell s' r = cell s r)
  /\ ((grad < next_ref s)%nat -> grad <> p -> grad <> exp_avg ->
      cell s' grad = cell s grad).
Proof.
  intros s'. subst s'.
  destruct (lionw_writes p grad exp_avg lr initial_lr wd beta1 beta2 s)
    as (G1 & G2 & G3).
  repeat split; auto.
Qed.

(** X2.  The step of [lionw] is bounded coordinate by coordinate: after
    the decay, every element of the parameter moves by [-lr], [0] or
    [+lr], whatever the size of the gradient; without weight decay the
    element itself moves by at most [|lr|]. *)
Theorem lionw_moves_by_lr p grad exp_avg lr initial_lr wd beta1 beta2 s :
  p <> grad -> p <> exp_avg ->
  (p < next_ref s)%nat -> (grad < next_ref s)%nat ->
  (exp_avg < next_ref s)%nat ->
  length (cell s grad) = length (cell s p) ->
  length (cell s exp_avg) = length (cell s p) ->
  let s' := lionw p grad exp_avg lr initial_lr wd beta1 beta2 s in
  let scale :=
    if Req_dec_T wd 0 then 1
    else 1 - (if Req_dec_T initial_lr 0 then 1 else lr / initial_lr) * wd in
  length (cell s' p) = length (cell s p)
  /\ forall i, (i < length (cell s p))%nat ->
       let x := nth i (cell s p) 0 in
       let x' := nth i (cell s' p) 0 in
       (x' = scale * x - lr \/ x' = scale * x \/ x' = scale * x + lr)
       /\ (wd = 0 -> Rabs (x' - x) <= Rabs lr).
Proof.
  intros Hpg Hpm Hp Hg Hm Lg Lm s' scale.
  destruct (lionw_cells p grad exp_avg lr initial_lr wd beta1 beta2 s
              Hpg Hpm Hp Hg Hm) as (Hcp & _).
  fold s' in Hcp.
  assert (Lu : length (SignMomentumUpdate.update (cell s exp_avg) (cell s grad)
                         beta1) = length (cell s p)).
  { unfold SignMomentumUpdate.update. rewrite length_zip_with; congruence. }
  split.
  - rewrite Hcp. unfold SignMomentumUpdate.new_parameter.
    apply length_zip_with. congruence.
  - intros i Hi x x'. subst x x'. rewrite Hcp.
    unfold SignMomentumUpdate.new_parameter.
    rewrite (nth_zip_with _ _ _ i 0 0 0) by congruence.
    assert (Hscale : SignMomentumUpdate.decay_scale lr initial_lr wd = scale).
    { subst scale. unfold SignMomentumUpdate.decay_scale.
      destruct (Req_dec_T wd 0); [reflexivity |].
      destruct (Req_dec_T initial_lr 0); ring. }
    rewrite Hscale.
    unfold SignMomentumUpdate.update.
    rewrite (nth_zip_with _ _ _ i 0 0 0) by congruence.
    set (u := sign_val _).
    assert (Hu : u = -1 \/ u = 0 \/ u = 1) by apply sign_val_cases.
    split.
    + destruct Hu as [-> | [-> | ->]]; [right; right | right; left | left]; ring.
    + intros Hwd. clear Hscale. subst scale.
      destruct (Req_dec_T wd 0); [| contradiction].
      destruct Hu as [-> | [-> | ->]].
      * replace (1 * nth i (cell s p) 0 - lr * -1 - nth i (cell s p) 0)
          with lr by ring. lra.
      * replace (1 * nth i (cell s p) 0 - lr * 0 - nth i (cell s p) 0)
          with 0 by ring. rewrite Rabs_R0. apply Rabs_pos.
      * replace (1 * nth i (cell s p) 0 - lr * 1 - nth i (cell s p) 0)
          with (- lr) by ring. rewrite Rabs_Ropp. lra.
Qed.

(** ** The observation *)

Lemma reduced_norm_inv t s obs s1 :
  reduced_norm t s = Some (obs, s1) ->
  next_ref s1 = next_ref s /\ cell s1 = cell s
  /\ calls s1 = (calls s + (if (1 <? get_world_size)%Z then 1 else 0))%nat
  /\ obs = sqrt (reduced_value (torch.vector_norm t ^ 2) (calls s))
  /\ ((get_world_size <= 1)%Z -> obs = torch.vector_norm t /\ s1 = s).
Proof.
  unfold reduced_norm, reduce_if_distributed, reduced_value, all_reduce.
  intros Hr.
  destruct (Z.ltb_spec 1 get_world_size) as [Hw | Hw].
  - destruct (math_sqrt _) as [root |] eqn:Hroot; [| discriminate].
    apply math_sqrt_some in Hroot.
    inversion Hr; subst. cbn [next_ref cell calls].
    repeat split; try lia.
  - destruct (math_sqrt _) as [root |] eqn:Hroot; [| discriminate].
    apply math_sqrt_some in Hroot.
    inversion Hr; subst.
    split; [reflexivity |]. split; [reflexivity |]. split; [lia |].
    split; [reflexivity |]. intros _. split; [| reflexivity].
    apply sqrt_pow2, vector_norm_nonneg.
Qed.

Lemma moment_norm_inv m g b2 s obs s1 :
  moment_norm m g b2 s = Some (obs, s1) ->
  next_ref s1 = S (next_ref s)
  /\ (forall r, (r < next_ref s)%nat -> cell s1 r = cell s r)
  /\ calls s1 = (calls s + (if (1 <? get_world_size)%Z then 1 else 0))%nat
  /\ ((get_world_size <= 1)%Z ->
      obs = torch.vector_norm
              (zip_with (fun x y => lerp_val x y (1 - b2)) (cell s m) (cell s g))).
Proof.
  unfold moment_norm, torch.lerp. intros Hm.
  set (t := zip_with _ _ _) in *.
  destruct (alloc t s) as [r0 s0] eqn:Ha.
  assert (Hs0 : s0 = snd (alloc t s)) by now rewrite Ha.
  assert (Hr0 : r0 = fst (alloc t s)) by now rewrite Ha.
  apply reduced_norm_inv in Hm. destruct Hm as (Hn & Hc & Hk & _ & Hone).
  repeat split.
  - rewrite Hn, Hs0. reflexivity.
  - intros r Hr. rewrite Hc, Hs0. now apply cell_alloc_old.
  - rewrite Hk, Hs0. reflexivity.
  - intros Hw. destruct (Hone Hw) as [-> _].
    rewrite Hs0, Hr0. now rewrite cell_alloc_new.
Qed.

(** ** Loops *)

Lemma for_each_sum {A X : Type} (body : A -> X -> option X) (mu : X -> nat)
    (w : A -> nat) l :
  (forall a x x', In a l -> body a x = Some x' -> mu x' = (mu x + w a)%nat) ->
  forall x x', for_each body l x = Some x' ->
  mu x' = (mu x + list_sum (map w l))%nat.
Proof.
  induction l as [|a l IH]; intros Hbody x x' Hloop; cbn [for_each] in Hloop.
  - inversion Hloop; subst. simpl. lia.
  - destruct (body a x) as [y |] eqn:Hy; [| discriminate].
    rewrite (IH (fun a0 x0 x0' Hin => Hbody a0 x0 x0' (or_intror Hin)) y x' Hloop).
    rewrite (Hbody a x y (or_introl eq_refl) Hy). simpl. lia.
Qed.

Lemma for_each_invariant {A X : Type} (body : A -> X -> option X)
    (P : X -> Prop) l :
  (forall a x x', In a l -> P x -> body a x = Some x' -> P x') ->
  forall x x', P x -> for_each body l x = Some x' -> P x'.
Proof.
  induction l as [|a l IH]; intros Hbody x x' Hx Hloop; cbn [for_each] in Hloop.
  - now inversion Hloop; subst.
  - destruct (body a x) as [y |] eqn:Hy; [| discriminate].
    apply (IH (fun a0 x0 x0' Hin => Hbody a0 x0 x0' (or_intror Hin)) y x');
      [| exact Hloop].
    exact (Hbody a x y (or_introl eq_refl) Hx Hy).
Qed.

Lemma list_sum_const {A : Type} (c : nat) (l : list A) :
  list_sum (map (fun _ => c) l) = (c * length l)%nat.
Proof.
  induction l as [|a l IH]; cbn [map list_sum fold_right length]; [lia |].
  fold (list_sum (map (fun _ : A => c) l)). rewrite IH. lia.
Qed.

Lemma list_sum_scaled {A : Type} (c : nat) (w : A -> nat) (l : list A) :
  list_sum (map (fun a => c * w a) l)%nat = (c * list_sum (map w l))%nat.
Proof.
  induction l as [|a l IH]; cbn [map list_sum fold_right]; [lia |].
  fold (list_sum (map (fun a => c * w a)%nat l)).
  fold (list_sum (map w l)). rewrite IH. lia.
Qed.

Lemma filter_trainable_grad p ps :
  In p (filter trainable ps) -> In p ps /\ exists g, grad p = Some g.
Proof.
  intros Hin. apply filter_In in Hin. destruct Hin as [Hin Ht].
  split; [exact Hin |]. unfold trainable in Ht.
  destruct (grad p) as [g |]; [now exists g | discriminate].
Qed.

(** The two nested loops of [step], for a body that writes only to the
    parameter it is given and to what the state map owns. *)
Section Frame.
Context {S X G : Type} (tensors : S -> list ref)
  (view : X -> id_map S * machine) (params : G -> list param)
  (body : G -> param -> X -> option X).

Let st_of (x : X) := fst (view x).
Let m_of (x : X) := snd (view x).

Hypothesis body_frame : forall group p x x',
  body group p x = Some x' ->
  (next_ref (m_of x) <= next_ref (m_of x'))%nat
  /\ forall r, (r < next_ref (m_of x))%nat -> ~ owned tensors (st_of x) r ->
       ~ owned tensors (st_of x') r
       /\ (r <> data p -> cell (m_of x') r = cell (m_of x) r).

Lemma inner_loop_frame group ps : forall x x',
  for_each (body group) ps x = Some x' ->
  (next_ref (m_of x) <= next_ref (m_of x'))%nat
  /\ forall r, (r < next_ref (m_of x))%nat -> ~ owned tensors (st_of x) r ->
       ~ owned tensors (st_of x') r
       /\ ((forall p, In p ps -> r <> data p) ->
           cell (m_of x') r = cell (m_of x) r).
Proof.
  induction ps as [|p ps IH]; intros x x' Hloop; cbn [for_each] in Hloop.
  - inversion Hloop; subst. split; [lia |]. intros r Hr Hfree. now split.
  - destruct (body group p x) as [y |] eqn:Hy; [| discriminate].
    destruct (body_frame group p x y Hy) as [Hn1 Hf1].
    destruct (IH y x' Hloop) as [Hn2 Hf2].
    split; [lia |]. intros r Hr Hfree.
    destruct (Hf1 r Hr Hfree) as [Hfree1 Hcell1].
    destruct (Hf2 r ltac:(lia) Hfree1) as [Hfree2 Hcell2].
    split; [exact Hfree2 |]. intros Hps.
    rewrite Hcell2 by (intros q Hq; apply Hps; now right).
    apply Hcell1, Hps. now left.
Qed.

Lemma outer_loop_frame groups : forall x x',
  for_each
    (fun group => for_each (body group) (filter trainable (params group)))
    groups x = Some x' ->
  (next_ref (m_of x) <= next_ref (m_of x'))%nat
  /\ forall r, (r < next_ref (m_of x))%nat -> ~ owned tensors (st_of x) r ->
       ~ owned tensors (st_of x') r
       /\ ((forall group p, In group groups -> In p (params group) ->
              trainable p = true -> r <> data p) ->
           cell (m_of x') r = cell (m_of x) r).
Proof.
  induction groups as [|group groups IH]; intros x x' Hloop;
    cbn [for_each] in Hloop.
  - inversion Hloop; subst. split; [lia |]. intros r Hr Hfree. now split.
  - destruct (for_each (body group) (filter trainable (params group)) x)
      as [y |] eqn:Hy; [| discriminate].
    destruct (inner_loop_frame group _ x y Hy) as [Hn1 Hf1].
    destruct (IH y x' Hloop) as [Hn2 Hf2].
    split; [lia |]. intros r Hr Hfree.
    destruct (Hf1 r Hr Hfree) as [Hfree1 Hcell1].
    destruct (Hf2 r ltac:(lia) Hfree1) as [Hfree2 Hcell2].
    split; [exact Hfree2 |]. intros Hps.
    rewrite Hcell2
      by (intros g q Hg Hq Ht; apply (Hps g q); [now right | exact Hq | exact Ht]).
    apply Hcell1. intros q Hq. apply filter_In in Hq. destruct Hq as [Hq Ht].
    apply (Hps group q); [now left | exact Hq | exact Ht].
Qed.

(** The collective calls of the two loops, for a body that makes [c]
    of them for a parameter with a gradient. *)
Variable c : nat.
Hypothesis body_calls : forall group p x x' g,
  grad p = Some g -> body group p x = Some x' ->
  calls (m_of x') = (calls (m_of x) + c)%nat.

Lemma outer_loop_calls groups x x' :
  for_each
    (fun group => for_each (body group) (filter trainable (params group)))
    groups x = Some x' ->
  calls (m_of x') = (calls (m_of x) + c * trained params groups)%nat.
Proof.
  intros Hloop.
  assert (Hinner : forall group y y',
             for_each (body group) (filter trainable (params group)) y = Some y' ->
             calls (m_of y') =
             (calls (m_of y) + c * length (filter trainable (params group)))%nat).
  { intros group y y' Hin.
    rewrite (for_each_sum (body group) (fun x => calls (m_of x)) (fun _ => c)
               (filter trainable (params group))) with (x := y) (x' := y');
      [| | exact Hin].
    - f_equal. apply list_sum_const.
    - intros p z z' Hp Hz.
      apply filter_trainable_grad in Hp. destruct Hp as [_ [g Hg]].
      now apply (body_calls group p z z' g). }
  rewrite (for_each_sum
             (fun group => for_each (body group) (filter trainable (params group)))
             (fun x => calls (m_of x))
             (fun group => c * length (filter trainable (params group)))%nat
             groups) with (x := x) (x' := x'); [| | exact Hloop].
  - f_equal. unfold trained, trained_params.
    rewrite list_sum_scaled. f_equal.
    clear. induction groups as [|g gs IH]; [reflexivity |].
    cbn [flat_map map list_sum fold_right]. rewrite length_app.
    fold (list_sum (map (fun group => length (filter trainable (params group))) gs)).
    now rewrite IH.
  - intros group y y' _ Hy. now apply Hinner.
Qed.

Lemma outer_loop_frozen groups x :
  trained_params params groups = [] ->
  for_each
    (fun group => for_each (body group) (filter trainable (params group)))
    groups x = Some x.
Proof.
  unfold trained_params. induction groups as [|g gs IH]; [reflexivity |].
  cbn [flat_map for_each]. intros Hnil. apply app_eq_nil in Hnil.
  destruct Hnil as [Hg Hgs]. rewrite Hg. cbn [for_each]. now apply IH.
Qed.

End Frame.
(** ** What a step writes, and how many collective calls it makes *)

Lemma owned_id_set {S : Type} (tensors : S -> list ref) (st : id_map S)
    k state r :
  ~ owned tensors st r -> ~ In r (tensors state) ->
  ~ owned tensors (id_set k state st) r.
Proof.
  intros Hfree Hnew (q & state' & Hq & Hin). unfold id_set in Hq.
  destruct (Nat.eqb q k).
  - inversion Hq; subst. contradiction.
  - apply Hfree. now exists q, state'.
Qed.

Lemma skip_init_frame (self : SkipLion.t) p st s state0 s0 :
  SkipLion.init_state self p st s = (state0, s0) ->
  (next_ref s <= next_ref s0)%nat
  /\ calls s0 = calls s
  /\ forall r, (r < next_ref s)%nat ->
       cell s0 r = cell s r
       /\ (~ owned skip_tensors st r -> ~ In r (skip_tensors state0)).
Proof.
  unfold SkipLion.init_state. intros Hinit.
  destruct (st (data p)) as [state |] eqn:Hlook.
  - inversion Hinit; subst. split; [lia |]. split; [reflexivity |].
    intros r Hr. split; [reflexivity |].
    intros Hfree Hin. apply Hfree. now exists (data p), state0.
  - cbv beta iota zeta delta [torch.zeros_like torch.scalar_tensor alloc]
      in Hinit.
    inversion Hinit; subst; clear Hinit.
    cbn [cell next_ref calls skip_tensors SkipLion.exp_avg
         SkipLion.skipped_batches].
    split; [lia |]. split; [reflexivity |].
    intros r Hr. split.
    + eqb_cases. reflexivity.
    + intros _ [Hin | [Hin | []]]; cbn in Hin; lia.
Qed.

Lemma skip_body_frame (self : SkipLion.t) group p st s st' s' :
  SkipLion.step_param self group p (st, s) = Some (st', s') ->
  (next_ref s <= next_ref s')%nat
  /\ (forall g, grad p = Some g ->
        calls s' = (calls s + collectives 1)%nat)
  /\ forall r, (r < next_ref s)%nat -> ~ owned skip_tensors st r ->
       ~ owned skip_tensors st' r
       /\ (r <> data p -> cell s' r = cell s r).
Proof.
  unfold SkipLion.step_param. intros Hrun.
  destruct (grad p) as [g |] eqn:Hgrad.
  2:{ inversion Hrun; subst. split; [lia |]. split; [discriminate |].
      intros r Hr Hfree. now split. }
  destruct (betas group) as [beta1 beta2].
  destruct (SkipLion.init_state self p st s) as [state0 s0] eqn:Hinit.
  destruct (skip_init_frame self p st s state0 s0 Hinit) as (Hn0 & Hc0 & Hf0).
  destruct (moment_norm (SkipLion.exp_avg state0) g beta2 s0)
    as [[obs s1] |] eqn:Hmn; [| discriminate].
  destruct (moment_norm_inv _ _ _ _ _ _ Hmn) as (Hn1 & Hold1 & Hc1 & _).
  destruct (insert_observation (SkipLion.moment_tracker state0) obs)
    as [flagged tracker].
  destruct flagged; inversion Hrun; subst st' s'; clear Hrun.
  - unfold torch.add_scalar_, write. cbn [cell next_ref calls].
    split; [lia |]. split; [intros _ _; unfold collectives; lia |].
    intros r Hr Hfree. destruct (Hf0 r Hr) as [Hcell0 Hnew].
    specialize (Hnew Hfree). split.
    + apply owned_id_set; [exact Hfree | exact Hnew].
    + intros _. cbn [skip_tensors In] in Hnew.
      destruct (Nat.eqb_spec r (SkipLion.skipped_batches state0)) as [-> | _];
        [exfalso; tauto |].
      rewrite Hold1 by lia. exact Hcell0.
  - destruct (lionw_writes (data p) g (SkipLion.exp_avg state0) (lr group)
                (initial_lr group) (weight_decay group) beta1 beta2 s1)
      as (Hn2 & Hc2 & Hframe).
    split; [lia |].
    split; [intros _ _; rewrite Hc2; unfold collectives; lia |].
    intros r Hr Hfree. destruct (Hf0 r Hr) as [Hcell0 Hnew].
    specialize (Hnew Hfree). split.
    + apply owned_id_set; [exact Hfree | exact Hnew].
    + intros Hrp. cbn [skip_tensors In] in Hnew.
      rewrite Hframe by (try lia; auto; intros ->; tauto).
      rewrite Hold1 by lia. exact Hcell0.
Qed.

Lemma clip_init_frame (self : ClipLion.t) p st s state0 s0 :
  ClipLion.init_state self p st s = (state0, s0) ->
  (next_ref s <= next_ref s0)%nat
  /\ calls s0 = calls s
  /\ forall r, (r < next_ref s)%nat ->
       cell s0 r = cell s r
       /\ (~ owned clip_tensors st r -> ~ In r (clip_tensors state0)).
Proof.
  unfold ClipLion.init_state. intros Hinit.
  destruct (st (data p)) as [state |] eqn:Hlook.
  - inversion Hinit; subst. split; [lia |]. split; [reflexivity |].
    intros r Hr. split; [reflexivity |].
    intros Hfree Hin. apply Hfree. now exists (data p), state0.
  - cbv beta iota zeta delta [torch.zeros_like torch.scalar_tensor alloc]
      in Hinit.
    inversion Hinit; subst; clear Hinit.
    cbn [cell next_ref calls].
    split; [lia |]. split; [reflexivity |].
    intros r Hr. split.
    + eqb_cases. reflexivity.
    + intros _ [Hin | [Hin | []]]; cbn in Hin; lia.
Qed.

Lemma clip_writes (self : ClipLion.t) (state : ClipLion.state_t) flagged
    tracker g n s :
  let g' := fst (ClipLion.clip self state flagged tracker g n s) in
  let s2 := snd (ClipLion.clip self state flagged tracker g n s) in
  (next_ref s <= next_ref s2)%nat
  /\ calls s2 = calls s
  /\ (g' = g \/ (next_ref s <= g')%nat)
  /\ (forall r, (r < next_ref s)%nat -> r <> ClipLion.clipped_batches state ->
        cell s2 r = cell s r).
Proof.
  unfold ClipLion.clip. destruct flagged.
  - unfold torch.add_scalar_, torch.div, torch.mul_, alloc, write.
    cbn [fst snd cell next_ref calls].
    split; [lia |]. split; [reflexivity |]. split; [right; lia |].
    intros r Hr Hrc. eqb_cases. reflexivity.
  - cbn [fst snd]. split; [lia |]. split; [reflexivity |].
    split; [now left |]. reflexivity.
Qed.

Lemma clip_body_frame (self : ClipLion.t) group p st s st' s' :
  ClipLion.step_param self group p (st, s) = Some (st', s') ->
  (next_ref s <= next_ref s')%nat
  /\ (forall g, grad p = Some g ->
        calls s' = (calls s + collectives 1)%nat)
  /\ forall r, (r < next_ref s)%nat -> ~ owned clip_tensors st r ->
       ~ owned clip_tensors st' r
       /\ (r <> data p -> cell s' r = cell s r).
Proof.
  unfold ClipLion.step_param. intros Hrun.
  destruct (grad p) as [g |] eqn:Hgrad.
  2:{ inversion Hrun; subst. split; [lia |]. split; [discriminate |].
      intros r Hr Hfree. now split. }
  destruct (betas group) as [beta1 beta2].
  destruct (ClipLion.init_state self p st s) as [state0 s0] eqn:Hinit.
  destruct (clip_init_frame self p st s state0 s0 Hinit) as (Hn0 & Hc0 & Hf0).
  destruct (reduced_norm (cell s0 g) s0) as [[grad_norm s1] |] eqn:Hrn;
    [| discriminate].
  destruct (reduced_norm_inv _ _ _ _ Hrn) as (Hn1 & Hcell1 & Hc1 & _).
  destruct (insert_observation (ClipLion.grad_tracker state0) grad_norm)
    as [flagged tracker].
  destruct (clip_writes self state0 flagged tracker g grad_norm s1)
    as (Hn2 & Hc2 & _ & Hf2).
  destruct (ClipLion.clip self state0 flagged tracker g grad_norm s1)
    as [g2 s2].
  cbn [fst snd] in Hn2, Hc2, Hf2.
  inversion Hrun; subst st' s'; clear Hrun.
  destruct (lionw_writes (data p) g2 (ClipLion.exp_avg state0) (lr group)
              (initial_lr group) (weight_decay group) beta1 beta2 s2)
    as (Hn3 & Hc3 & Hframe).
  split; [lia |].
  split; [intros _ _; rewrite Hc3, Hc2; unfold collectives; lia |].
  intros r Hr Hfree. destruct (Hf0 r Hr) as [Hcell0 Hnew].
  specialize (Hnew Hfree). split.
  - apply owned_id_set; [exact Hfree | exact Hnew].
  - intros Hrp. cbn [clip_tensors In] in Hnew.
    rewrite Hframe by (try lia; auto; intros ->; tauto).
    rewrite Hf2 by (try lia; intros ->; tauto).
    rewrite Hcell1. exact Hcell0.
Qed.

Lemma adabeta_init_frame (self : AdaBetaLion.t) p st s state0 s0 :
  AdaBetaLion.init_state self p st s = (state0, s0) ->
  (next_ref s <= next_ref s0)%nat
  /\ calls s0 = calls s
  /\ forall r, (r < next_ref s)%nat ->
       cell s0 r = cell s r
       /\ (~ owned adabeta_tensors st r -> ~ In r (adabeta_tensors state0)).
Proof.
  unfold AdaBetaLion.init_state. intros Hinit.
  destruct (st (data p)) as [state |] eqn:Hlook.
  - inversion Hinit; subst. split; [lia |]. split; [reflexivity |].
    intros r Hr. split; [reflexivity |].
    intros Hfree Hin. apply Hfree. now exists (data p), state0.
  - cbv beta iota zeta delta [torch.zeros_like alloc] in Hinit.
    inversion Hinit; subst; clear Hinit.
    cbn [cell next_ref calls].
    split; [lia |]. split; [reflexivity |].
    intros r Hr. split.
    + eqb_cases. reflexivity.
    + intros _ [Hin | []]; cbn in Hin; lia.
Qed.

Lemma adabeta_body_frame (self : AdaBetaLion.t) group p st s st' s' :
  AdaBetaLion.step_param self group p (st, s) = Some (st', s') ->
  (next_ref s <= next_ref s')%nat
  /\ (forall g, grad p = Some g ->
        calls s' = (calls s + collectives 1)%nat)
  /\ forall r, (r < next_ref s)%nat -> ~ owned adabeta_tensors st r ->
       ~ owned adabeta_tensors st' r
       /\ (r <> data p -> cell s' r = cell s r).
Proof.
  unfold AdaBetaLion.step_param. intros Hrun.
  destruct (grad p) as [g |] eqn:Hgrad.
  2:{ inversion Hrun; subst. split; [lia |]. split; [discriminate |].
      intros r Hr Hfree. now split. }
  destruct (betas group) as [beta1 beta2].
  destruct (AdaBetaLion.init_state self p st s) as [state0 s0] eqn:Hinit.
  destruct (adabeta_init_frame self p st s state0 s0 Hinit)
    as (Hn0 & Hc0 & Hf0).
  destruct (moment_norm (AdaBetaLion.exp_avg state0) g beta2 s0)
    as [[obs s1] |] eqn:Hmn; [| discriminate].
  destruct (moment_norm_inv _ _ _ _ _ _ Hmn) as (Hn1 & Hold1 & Hc1 & _).
  destruct (insert_observation (AdaBetaLion.moment_tracker state0) obs)
    as [flagged tracker].
  destruct (AdaBetaLion.adjust_betas beta1 beta2 (AdaBetaLion.increase self) _)
    as [beta1' beta2'].
  inversion Hrun; subst st' s'; clear Hrun.
  destruct (lionw_writes (data p) g (AdaBetaLion.exp_avg state0) (lr group)
              (initial_lr group) (weight_decay group) beta1' beta2' s1)
    as (Hn2 & Hc2 & Hframe).
  split; [lia |].
  split; [intros _ _; rewrite Hc2; unfold collectives; lia |].
  intros r Hr Hfree. destruct (Hf0 r Hr) as [Hcell0 Hnew].
  specialize (Hnew Hfree). split.
  - apply owned_id_set; [exact Hfree | exact Hnew].
  - intros Hrp. cbn [adabeta_tensors In] in Hnew.
    rewrite Hframe by (try lia; auto; intros ->; tauto).
    rewrite Hold1 by lia. exact Hcell0.
Qed.

Lemma adalr_init_frame (self : AdaLRLion.t) p st s state0 s0 :
  AdaLRLion.init_state self p st s = (state0, s0) ->
  (next_ref s <= next_ref s0)%nat
  /\ calls s0 = calls s
  /\ forall r, (r < next_ref s)%nat ->
       cell s0 r = cell s r
       /\ (~ owned adalr_tensors st r -> ~ In r (adalr_tensors state0)).
Proof.
  unfold AdaLRLion.init_state. intros Hinit.
  destruct (st (data p)) as [state |] eqn:Hlook.
  - inversion Hinit; subst. split; [lia |]. split; [reflexivity |].
    intros r Hr. split; [reflexivity |].
    intros Hfree Hin. apply Hfree. now exists (data p), state0.
  - cbv beta iota zeta delta [torch.zeros_like alloc] in Hinit.
    inversion Hinit; subst; clear Hinit.
    cbn [cell next_ref calls].
    split; [lia |]. split; [reflexivity |].
    intros r Hr. split.
    + eqb_cases. reflexivity.
    + intros _ [Hin | []]; cbn in Hin; lia.
Qed.

Lemma adalr_body_frame (self : AdaLRLion.t) group p st s st' s' :
  AdaLRLion.step_param self group p (st, s) = Some (st', s') ->
  (next_ref s <= next_ref s')%nat
  /\ (forall g, grad p = Some g ->
        calls s' = (calls s + collectives 1)%nat)
  /\ forall r, (r < next_ref s)%nat -> ~ owned adalr_tensors st r ->
       ~ owned adalr_tensors st' r
       /\ (r <> data p -> cell s' r = cell s r).
Proof.
  unfold AdaLRLion.step_param. intros Hrun.
  destruct (grad p) as [g |] eqn:Hgrad.
  2:{ inversion Hrun; subst. split; [lia |]. split; [discriminate |].
      intros r Hr Hfree. now split. }
  destruct (betas group) as [beta1 beta2].
  destruct (AdaLRLion.init_state self p st s) as [state0 s0] eqn:Hinit.
  destruct (adalr_init_frame self p st s state0 s0 Hinit)
    as (Hn0 & Hc0 & Hf0).
  destruct (moment_norm (AdaLRLion.exp_avg state0) g beta2 s0)
    as [[obs s1] |] eqn:Hmn; [| discriminate].
  destruct (moment_norm_inv _ _ _ _ _ _ Hmn) as (Hn1 & Hold1 & Hc1 & _).
  destruct (insert_observation (AdaLRLion.moment_tracker state0) obs)
    as [flagged tracker].
  inversion Hrun; subst st' s'; clear Hrun.
  match goal with
  | |- context [lionw ?a ?b ?c ?d ?e ?f ?g0 ?h s1] =>
      destruct (lionw_writes a b c d e f g0 h s1) as (Hn2 & Hc2 & Hframe)
  end.
  split; [lia |].
  split; [intros _ _; rewrite Hc2; unfold collectives; lia |].
  intros r Hr Hfree. destruct (Hf0 r Hr) as [Hcell0 Hnew].
  specialize (Hnew Hfree). split.
  - apply owned_id_set; [exact Hfree | exact Hnew].
  - intros Hrp. cbn [adalr_tensors In] in Hnew.
    rewrite Hframe by (try lia; auto; intros ->; tauto).
    rewrite Hold1 by lia. exact Hcell0.
Qed.

Lemma fully_init_frame (self : FullyAdaptiveLion.t) p st s state0 s0 :
  FullyAdaptiveLion.init_state self p st s = (state0, s0) ->
  (next_ref s <= next_ref s0)%nat
  /\ calls s0 = calls s
  /\ forall r, (r < next_ref s)%nat ->
       cell s0 r = cell s r
       /\ (~ owned fully_tensors st r -> ~ In r (fully_tensors state0)).
Proof.
  unfold FullyAdaptiveLion.init_state. intros Hinit.
  destruct (st (data p)) as [state |] eqn:Hlook.
  - inversion Hinit; subst. split; [lia |]. split; [reflexivity |].
    intros r Hr. split; [reflexivity |].
    intros Hfree Hin. apply Hfree. now exists (data p), state0.
  - cbv beta iota zeta delta [torch.zeros_like alloc] in Hinit.
    inversion Hinit; subst; clear Hinit.
    cbn [cell next_ref calls].
    split; [lia |]. split; [reflexivity |].
    intros r Hr. split.
    + eqb_cases. reflexivity.
    + intros _ [Hin | []]; cbn in Hin; lia.
Qed.

Lemma fully_body_frame (self : FullyAdaptiveLion.t) group p loc s loc' s' :
  FullyAdaptiveLion.step_param self group p (loc, s) = Some (loc', s') ->
  (next_ref s <= next_ref s')%nat
  /\ (forall g, grad p = Some g ->
        calls s' = (calls s + collectives 1)%nat)
  /\ forall r, (r < next_ref s)%nat ->
       ~ owned fully_tensors (FullyAdaptiveLion.states loc) r ->
       ~ owned fully_tensors (FullyAdaptiveLion.states loc') r
       /\ (r <> data p -> cell s' r = cell s r).
Proof.
  unfold FullyAdaptiveLion.step_param. intros Hrun.
  destruct (grad p) as [g |] eqn:Hgrad.
  2:{ inversion Hrun; subst. split; [lia |]. split; [discriminate |].
      intros r Hr Hfree. now split. }
  destruct (FullyAdaptiveLion.betas group) as [beta1 beta2].
  destruct (FullyAdaptiveLion.init_state self p
              (FullyAdaptiveLion.states loc) s) as [state0 s0] eqn:Hinit.
  destruct (fully_init_frame self p _ s state0 s0 Hinit)
    as (Hn0 & Hc0 & Hf0).
  destruct (moment_norm (FullyAdaptiveLion.exp_avg state0) g beta2 s0)
    as [[obs s1] |] eqn:Hmn; [| discriminate].
  destruct (moment_norm_inv _ _ _ _ _ _ Hmn) as (Hn1 & Hold1 & Hc1 & _).
  destruct (insert_observation (FullyAdaptiveLion.moment_tracker state0) obs)
    as [flagged tracker].
  inversion Hrun; subst loc' s'; clear Hrun.
  match goal with
  | |- context [lionw ?a ?b ?c ?d ?e ?f ?g0 ?h s1] =>
      destruct (lionw_writes a b c d e f g0 h s1) as (Hn2 & Hc2 & Hframe)
  end.
  cbn [FullyAdaptiveLion.states].
  split; [lia |].
  split; [intros _ _; rewrite Hc2; unfold collectives; lia |].
  intros r Hr Hfree. destruct (Hf0 r Hr) as [Hcell0 Hnew].
  specialize (Hnew Hfree). split.
  - apply owned_id_set; [exact Hfree | exact Hnew].
  - intros Hrp. cbn [fully_tensors In] in Hnew.
    rewrite Hframe by (try lia; auto; intros ->; tauto).
    rewrite Hold1 by lia. exact Hcell0.
Qed.

Ltac step_frame_tac :=
  let loss0 := fresh "loss0" in
  let s0 := fresh "s0" in
  let st1 := fresh "st1" in
  let s1 := fresh "s1" in
  let Hloop := fresh "Hloop" in
  intros self closure s loss self' s' Hstep;
  unfold SkipLion.step, AdaBetaLion.step, AdaLRLion.step, ClipLion.step
    in Hstep;
  destruct (call_closure closure s) as [loss0 s0];
  cbn [fst snd];
  match type of Hstep with
  | match ?loop with _ => _ end = _ =>
      destruct loop as [[st1 s1] |] eqn:Hloop; [| discriminate]
  end;
  inversion Hstep; subst loss self' s'; clear Hstep;
  split; [reflexivity |]; split; [reflexivity |].

(** X3.  A step of SkipLion, AdaBetaLion, AdaLRLion or ClipLion that
    returns gives back the loss of the closure and keeps the parameter
    groups; of the tensors that existed when the closure returned it has
    written only to parameters that have a gradient and require one, and
    to tensors the optimizer state owned.  So gradients that are objects
    of their own, and parameters that are frozen or have no gradient,
    hold what they held; and a step that finds no parameter to train
    leaves the optimizer and the store as the closure left them. *)
Theorem step_writes_only_trained :
  (forall (self : SkipLion.t) closure s loss self' s',
      SkipLion.step self closure s = Some (loss, self', s') ->
      let s0 := snd (call_closure closure s) in
      loss = fst (call_closure closure s)
      /\ SkipLion.param_groups self' = SkipLion.param_groups self
      /\ (next_ref s0 <= next_ref s')%nat
      /\ (forall r, (r < next_ref s0)%nat ->
            ~ owned skip_tensors (SkipLion.state self) r ->
            (forall group p, In group (SkipLion.param_groups self) ->
               In p (params group) -> trainable p = true -> r <> data p) ->
            cell s' r = cell s0 r)
      /\ (trained_params params (SkipLion.param_groups self) = [] ->
          self' = self /\ s' = s0))
  /\ (forall (self : AdaBetaLion.t) closure s loss self' s',
      AdaBetaLion.step self closure s = Some (loss, self', s') ->
      let s0 := snd (call_closure closure s) in
      loss = fst (call_closure closure s)
      /\ AdaBetaLion.param_groups self' = AdaBetaLion.param_groups self
      /\ (next_ref s0 <= next_ref s')%nat
      /\ (forall r, (r < next_ref s0)%nat ->
            ~ owned adabeta_tensors (AdaBetaLion.state self) r ->
            (forall group p, In group (AdaBetaLion.param_groups self) ->
               In p (params group) -> trainable p = true -> r <> data p) ->
            cell s' r = cell s0 r)
      /\ (trained_params params (AdaBetaLion.param_groups self) = [] ->
          self' = self /\ s' = s0))
  /\ (forall (self : AdaLRLion.t) closure s loss self' s',
      AdaLRLion.step self closure s = Some (loss, self', s') ->
      let s0 := snd (call_closure closure s) in
      loss = fst (call_closure closure s)
      /\ AdaLRLion.param_groups self' = AdaLRLion.param_groups self
      /\ (next_ref s0 <= next_ref s')%nat
      /\ (forall r, (r < next_ref s0)%nat ->
            ~ owned adalr_tensors (AdaLRLion.state self) r ->
            (forall group p, In group (AdaLRLion.param_groups self) ->
               In p (params group) -> trainable p = true -> r <> data p) ->
            cell s' r = cell s0 r)
      /\ (trained_params params (AdaLRLion.param_groups self) = [] ->
          self' = self /\ s' = s0))
  /\ (forall (self : ClipLion.t) closure s loss self' s',
      ClipLion.step self closure s = Some (loss, self', s') ->
      let s0 := snd (call_closure closure s) in
      loss = fst (call_closure closure s)
      /\ ClipLion.param_groups self' = ClipLion.param_groups self
      /\ (next_ref s0 <= next_ref s')%nat
      /\ (forall r, (r < next_ref s0)%nat ->
            ~ owned clip_tensors (ClipLion.state self) r ->
            (forall group p, In group (ClipLion.param_groups self) ->
               In p (params group) -> trainable p = true -> r <> data p) ->
            cell s' r = cell s0 r)
      /\ (trained_params params (ClipLion.param_groups self) = [] ->
          self' = self /\ s' = s0)).
Proof.
  split; [| split; [| split]].
  - step_frame_tac.
    destruct (outer_loop_frame skip_tensors (fun x => x) params
                (SkipLion.step_param self)
                (fun group p x x' =>
                   match x, x' with
                   | (st, s), (st', s') => fun H =>
                       let '(conj Hn (conj _ Hf)) :=
                         skip_body_frame self group p st s st' s' H in
                       conj Hn Hf
                   end)
                _ _ _ Hloop) as [Hn Hf].
    cbn [fst snd] in Hn, Hf. split; [exact Hn |]. split.
    + intros r Hr Hfree Hps. now apply (Hf r Hr Hfree).
    + intros Hnil.
      rewrite (outer_loop_frozen params (SkipLion.step_param self) _ _ Hnil)
        in Hloop.
      inversion Hloop; subst. now destruct self.
  - step_frame_tac.
    destruct (outer_loop_frame adabeta_tensors (fun x => x) params
                (AdaBetaLion.step_param self)
                (fun group p x x' =>
                   match x, x' with
                   | (st, s), (st', s') => fun H =>
                       let '(conj Hn (conj _ Hf)) :=
                         adabeta_body_frame self group p st s st' s' H in
                       conj Hn Hf
                   end)
                _ _ _ Hloop) as [Hn Hf].
    cbn [fst snd] in Hn, Hf. split; [exact Hn |]. split.
    + intros r Hr Hfree Hps. now apply (Hf r Hr Hfree).
    + intros Hnil.
      rewrite (outer_loop_frozen params (AdaBetaLion.step_param self) _ _ Hnil)
        in Hloop.
      inversion Hloop; subst. now destruct self.
  - step_frame_tac.
    destruct (outer_loop_frame adalr_tensors (fun x => x) params
                (AdaLRLion.step_param self)
                (fun group p x x' =>
                   match x, x' with
                   | (st, s), (st', s') => fun H =>
                       let '(conj Hn (conj _ Hf)) :=
                         adalr_body_frame self group p st s st' s' H in
                       conj Hn Hf
                   end)
                _ _ _ Hloop) as [Hn Hf].
    cbn [fst snd] in Hn, Hf. split; [exact Hn |]. split.
    + intros r Hr Hfree Hps. now apply (Hf r Hr Hfree).
    + intros Hnil.
      rewrite (outer_loop_frozen params (AdaLRLion.step_param self) _ _ Hnil)
        in Hloop.
      inversion Hloop; subst. now destruct self.
  - step_frame_tac.
    destruct (outer_loop_frame clip_tensors (fun x => x) params
                (ClipLion.step_param self)
                (fun group p x x' =>
                   match x, x' with
                   | (st, s), (st', s') => fun H =>
                       let '(conj Hn (conj _ Hf)) :=
                         clip_body_frame self group p st s st' s' H in
                       conj Hn Hf
                   end)
                _ _ _ Hloop) as [Hn Hf].
    cbn [fst snd] in Hn, Hf. split; [exact Hn |]. split.
    + intros r Hr Hfree Hps. now apply (Hf r Hr Hfree).
    + intros Hnil.
      rewrite (outer_loop_frozen params (ClipLion.step_param self) _ _ Hnil)
        in Hloop.
      inversion Hloop; subst. now destruct self.
Qed.

Lemma collectives_scaled n : (collectives 1 * n)%nat = collectives n.
Proof. unfold collectives. destruct (1 <? get_world_size)%Z; lia. Qed.

(** X4.  The collective calls of one step of SkipLion, AdaBetaLion,
    AdaLRLion or ClipLion: with more than one worker, one [all_reduce]
    for every parameter that has a gradient and requires one, whatever
    the detector answers (a skipped or clipped update costs the same
    call); with a single worker none. *)
Theorem step_collectives :
  (forall (self : SkipLion.t) closure s loss self' s',
      SkipLion.step self closure s = Some (loss, self', s') ->
      calls s' =
      (calls (snd (call_closure closure s))
       + collectives (trained params (SkipLion.param_groups self)))%nat)
  /\ (forall (self : AdaBetaLion.t) closure s loss self' s',
      AdaBetaLion.step self closure s = Some (loss, self', s') ->
      calls s' =
      (calls (snd (call_closure closure s))
       + collectives (trained params (AdaBetaLion.param_groups self)))%nat)
  /\ (forall (self : AdaLRLion.t) closure s loss self' s',
      AdaLRLion.step self closure s = Some (loss, self', s') ->
      calls s' =
      (calls (snd (call_closure closure s))
       + collectives (trained params (AdaLRLion.param_groups self)))%nat)
  /\ (forall (self : ClipLion.t) closure s loss self' s',
      ClipLion.step self closure s = Some (loss, self', s') ->
      calls s' =
      (calls (snd (call_closure closure s))
       + collectives (trained params (ClipLion.param_groups self)))%nat).
Proof.
  split; [| split; [| split]];
    intros self closure s loss self' s' Hstep;
    unfold SkipLion.step, AdaBetaLion.step, AdaLRLion.step, ClipLion.step
      in Hstep;
    destruct (call_closure closure s) as [loss0 s0];
    cbn [fst snd];
    match type of Hstep with
    | match ?loop with _ => _ end = _ =>
        destruct loop as [[st1 s1] |] eqn:Hloop; [| discriminate]
    end;
    inversion Hstep; subst loss self' s'; clear Hstep;
    rewrite <- collectives_scaled.
  - apply (outer_loop_calls (fun x => x) params (SkipLion.step_param self)
             (collectives 1)) with (x := (SkipLion.state self, s0))
            (x' := (st1, s1)); [| exact Hloop].
    intros group p [st sa] [st' sb] g Hg Hbody. cbn [fst snd].
    destruct (skip_body_frame self group p st sa st' sb Hbody) as (_ & Hc & _).
    exact (Hc g Hg).
  - apply (outer_loop_calls (fun x => x) params (AdaBetaLion.step_param self)
             (collectives 1)) with (x := (AdaBetaLion.state self, s0))
            (x' := (st1, s1)); [| exact Hloop].
    intros group p [st sa] [st' sb] g Hg Hbody. cbn [fst snd].
    destruct (adabeta_body_frame self group p st sa st' sb Hbody)
      as (_ & Hc & _).
    exact (Hc g Hg).
  - apply (outer_loop_calls (fun x => x) params (AdaLRLion.step_param self)
             (collectives 1)) with (x := (AdaLRLion.state self, s0))
            (x' := (st1, s1)); [| exact Hloop].
    intros group p [st sa] [st' sb] g Hg Hbody. cbn [fst snd].
    destruct (adalr_body_frame self group p st sa st' sb Hbody) as (_ & Hc & _).
    exact (Hc g Hg).
  - apply (outer_loop_calls (fun x => x) params (ClipLion.step_param self)
             (collectives 1)) with (x := (ClipLion.state self, s0))
            (x' := (st1, s1)); [| exact Hloop].
    intros group p [st sa] [st' sb] g Hg Hbody. cbn [fst snd].
    destruct (clip_body_frame self group p st sa st' sb Hbody) as (_ & Hc & _).
    exact (Hc g Hg).
Qed.

(** ** FullyAdaptiveLion: the whole step *)

Lemma reduce_init_machine tmp ks : forall m s m' s',
  for_each (FullyAdaptiveLion.reduce_init_norm tmp) ks (m, s) = Some (m', s') ->
  next_ref s' = next_ref s /\ cell s' = cell s
  /\ calls s' = (calls s + collectives (length ks))%nat.
Proof.
  induction ks as [|k ks IH]; intros m s m' s' Hloop; cbn [for_each] in Hloop.
  - inversion Hloop; subst. unfold collectives.
    repeat split. destruct (1 <? get_world_size)%Z; simpl; lia.
  - unfold FullyAdaptiveLion.reduce_init_norm at 1 in Hloop.
    destruct (dict_get Nat.eqb k tmp) as [v |]; [| discriminate].
    unfold reduce_if_distributed, all_reduce in Hloop.
    unfold collectives in *. cbn [length].
    destruct (1 <? get_world_size)%Z;
      destruct (math_sqrt _) as [root |]; try discriminate;
      destruct (IH _ _ _ _ Hloop) as (Hn & Hc & Hk);
      cbn [next_ref cell calls] in Hn, Hc, Hk;
      repeat split; try assumption; lia.
Qed.

Lemma reduce_current_machine ks : forall d s d' s',
  for_each FullyAdaptiveLion.reduce_current_norm ks (d, s) = Some (d', s') ->
  next_ref s' = next_ref s /\ cell s' = cell s
  /\ calls s' = (calls s + collectives (length ks))%nat.
Proof.
  induction ks as [|k ks IH]; intros d s d' s' Hloop; cbn [for_each] in Hloop.
  - inversion Hloop; subst. unfold collectives.
    repeat split. destruct (1 <? get_world_size)%Z; simpl; lia.
  - unfold FullyAdaptiveLion.reduce_current_norm at 1 in Hloop.
    destruct (dict_get Nat.eqb k d) as [v |]; [| discriminate].
    unfold reduce_if_distributed, all_reduce in Hloop.
    unfold collectives in *. cbn [length].
    destruct (1 <? get_world_size)%Z;
      destruct (math_sqrt _) as [root |]; try discriminate;
      destruct (IH _ _ _ _ Hloop) as (Hn & Hc & Hk);
      cbn [next_ref cell calls] in Hn, Hc, Hk;
      repeat split; try assumption; lia.
Qed.

Lemma rkeys_set_absent k v (d : @dict ref R) :
  ~ In k (keys d) -> keys (dict_set Nat.eqb k v d) = keys d ++ [k].
Proof.
  induction d as [|[k' v'] d IH]; simpl; intros Hnin; [reflexivity |].
  destruct (Nat.eqb_spec k k') as [-> | Hne]; [exfalso; auto |].
  simpl. rewrite IH; [reflexivity | tauto].
Qed.

(** The two nested loops run the body over the processed parameters in
    order. *)
Lemma for_each_groups {G X : Type} (params : G -> list param)
    (body : G -> param -> X -> option X) groups x :
  for_each
    (fun group => for_each (body group) (filter trainable (params group)))
    groups x =
  for_each (fun gp => body (fst gp) (snd gp))
    (flat_map (fun group => map (pair group) (filter trainable (params group)))
       groups) x.
Proof.
  revert x. induction groups as [|g gs IH]; intros x; [reflexivity |].
  cbn [for_each flat_map]. rewrite for_each_app.
  assert (Hinner : forall l y,
             for_each (body g) l y =
             for_each (fun gp => body (fst gp) (snd gp)) (map (pair g) l) y).
  { induction l as [|p l IHl]; intros y; [reflexivity |].
    cbn [for_each map fst snd]. destruct (body g p y); [apply IHl | reflexivity]. }
  rewrite <- Hinner.
  destruct (for_each (body g) (filter trainable (params g)) x);
    [apply IH | reflexivity].
Qed.

Lemma trained_pairs {G : Type} (params : G -> list param) groups :
  map snd
    (flat_map (fun group : G => map (pair group) (filter trainable (params group)))
       groups) = trained_params params groups.
Proof.
  unfold trained_params. induction groups as [|g gs IH]; [reflexivity |].
  cbn [flat_map]. rewrite map_app, IH. f_equal.
  rewrite map_map. cbn [snd]. apply map_id.
Qed.

(** The keys of the local dictionaries after the loops, for parameters
    that are distinct objects. *)
Lemma fully_loop_keys (self : FullyAdaptiveLion.t) gps : forall loc s loc' s',
  for_each (fun gp => FullyAdaptiveLion.step_param self (fst gp) (snd gp))
    gps (loc, s) = Some (loc', s') ->
  (forall gp, In gp gps -> trainable (snd gp) = true) ->
  NoDup (keys (FullyAdaptiveLion.tmp_param_current_norm loc)
         ++ map data (map snd gps)) ->
  NoDup (keys (FullyAdaptiveLion.tmp_param_init_norm loc)
         ++ map data (map snd gps)) ->
  keys (FullyAdaptiveLion.tmp_param_current_norm loc') =
    keys (FullyAdaptiveLion.tmp_param_current_norm loc)
    ++ map data (map snd gps)
  /\ keys (FullyAdaptiveLion.tmp_param_init_norm loc') =
       keys (FullyAdaptiveLion.tmp_param_init_norm loc)
       ++ map data (filter (no_init_norm_yet self) (map snd gps)).
Proof.
  induction gps as [|[g p] gps IH]; intros loc s loc' s' Hloop Htr Hnd1 Hnd2;
    cbn [for_each fst snd] in Hloop.
  - inversion Hloop; subst. cbn [map filter]. now rewrite !app_nil_r.
  - destruct (FullyAdaptiveLion.step_param self g p (loc, s))
      as [[loc1 s1] |] eqn:Hbody; [| discriminate].
    pose proof (fully_body_effect self g p loc s loc1 s1 Hbody) as Heff.
    pose proof (Htr (g, p) (or_introl eq_refl)) as Hp. cbn [snd] in Hp.
    unfold trainable in Hp.
    destruct (grad p) as [gr |]; [| discriminate].
    destruct Heff as (Hcur & Hinit & _).
    cbn [map] in Hnd1, Hnd2.
    assert (Hk1 : ~ In (data p)
                    (keys (FullyAdaptiveLion.tmp_param_current_norm loc))).
    { apply NoDup_remove_2 in Hnd1. intros Hin. apply Hnd1, in_or_app.
      now left. }
    assert (Hk2 : ~ In (data p)
                    (keys (FullyAdaptiveLion.tmp_param_init_norm loc))).
    { apply NoDup_remove_2 in Hnd2. intros Hin. apply Hnd2, in_or_app.
      now left. }
    assert (Hc1 : keys (FullyAdaptiveLion.tmp_param_current_norm loc1) =
                  keys (FullyAdaptiveLion.tmp_param_current_norm loc)
                  ++ [data p]).
    { rewrite Hcur. now apply rkeys_set_absent. }
    assert (Hi1 : keys (FullyAdaptiveLion.tmp_param_init_norm loc1) =
                  keys (FullyAdaptiveLion.tmp_param_init_norm loc)
                  ++ (if no_init_norm_yet self p then [data p] else [])).
    { rewrite Hinit. unfold no_init_norm_yet.
      destruct (FullyAdaptiveLion.param_init_norm self (data p)).
      - now rewrite app_nil_r.
      - now apply rkeys_set_absent. }
    destruct (IH loc1 s1 loc' s' Hloop) as [Hc Hi].
    + intros gp Hgp. apply Htr. now right.
    + rewrite Hc1, <- app_assoc. exact Hnd1.
    + rewrite Hi1. destruct (no_init_norm_yet self p).
      * rewrite <- app_assoc. exact Hnd2.
      * rewrite app_nil_r. apply NoDup_remove_1 in Hnd2. exact Hnd2.
    + split.
      * rewrite Hc, Hc1, <- app_assoc. reflexivity.
      * rewrite Hi, Hi1. cbn [map filter snd].
        destruct (no_init_norm_yet self p); cbn [map];
          rewrite <- app_assoc; reflexivity.
Qed.

Ltac fully_step_tac Hstep :=
  unfold FullyAdaptiveLion.step in Hstep;
  destruct (call_closure _ _) as [loss0 s0];
  cbn [fst snd];
  match type of Hstep with
  | match ?loop with _ => _ end = _ =>
      destruct loop as [[loc1 s1] |] eqn:Hloop; [| discriminate]
  end;
  match type of Hstep with
  | match ?loop with _ => _ end = _ =>
      destruct loop as [[init1 s2] |] eqn:Hinit; [| discriminate]
  end;
  match type of Hstep with
  | match ?loop with _ => _ end = _ =>
      destruct loop as [[cur1 s3] |] eqn:Hcur; [| discriminate]
  end;
  match type of Hstep with
  | match ?loop with _ => _ end = _ =>
      destruct loop as [wd1 |] eqn:Hwd; [| discriminate]
  end;
  inversion Hstep; subst; clear Hstep.

(** X5.  A step of FullyAdaptiveLion that returns gives back the loss of
    the closure and keeps the parameter groups; of the tensors that
    existed when the closure returned it has written only to parameters
    that have a gradient and require one, and to momentum tensors the
    optimizer state owned: the three loops that reduce the norms and
    derive the scalings write to no tensor.  A step that finds no
    parameter to train leaves the optimizer, its initial norms and
    scalings included, and the store as the closure left them. *)
Theorem fully_step_frame (self : FullyAdaptiveLion.t) closure s loss self' s' :
  FullyAdaptiveLion.step self closure s = Some (loss, self', s') ->
  let s0 := snd (call_closure closure s) in
  loss = fst (call_closure closure s)
  /\ FullyAdaptiveLion.param_groups self' = FullyAdaptiveLion.param_groups self
  /\ (next_ref s0 <= next_ref s')%nat
  /\ (forall r, (r < next_ref s0)%nat ->
        ~ owned fully_tensors (FullyAdaptiveLion.state self) r ->
        (forall group p, In group (FullyAdaptiveLion.param_groups self) ->
           In p (FullyAdaptiveLion.params group) -> trainable p = true ->
           r <> data p) ->
        cell s' r = cell s0 r)
  /\ (trained_params FullyAdaptiveLion.params
        (FullyAdaptiveLion.param_groups self) = [] ->
      self' = self /\ s' = s0).
Proof.
  intros Hstep. fully_step_tac Hstep.
  destruct (reduce_init_machine _ _ _ _ _ _ Hinit) as (Hn2 & Hc2 & _).
  destruct (reduce_current_machine _ _ _ _ _ Hcur) as (Hn3 & Hc3 & _).
  split; [reflexivity |]. split; [reflexivity |].
  destruct (outer_loop_frame fully_tensors
              (fun x => (FullyAdaptiveLion.states (fst x), snd x))
              FullyAdaptiveLion.params
              (FullyAdaptiveLion.step_param self)
              (fun group p x x' =>
                 match x, x' with
                 | (loc, s), (loc', s') => fun H =>
                     let '(conj Hn (conj _ Hf)) :=
                       fully_body_frame self group p loc s loc' s' H in
                     conj Hn Hf
                 end)
              _ _ _ Hloop) as [Hn Hf].
  cbn [fst snd FullyAdaptiveLion.states] in Hn, Hf.
  split; [lia |]. split.
  - intros r Hr Hfree Hps. rewrite Hc3, Hc2. now apply (Hf r Hr Hfree).
  - intros Hnil.
    rewrite (outer_loop_frozen FullyAdaptiveLion.params
               (FullyAdaptiveLion.step_param self) _ _ Hnil) in Hloop.
    inversion Hloop; subst. cbn in Hinit, Hcur.
    inversion Hinit; subst. inversion Hcur; subst. cbn in Hwd.
    inversion Hwd; subst. now destruct self.
Qed.

(** X6.  The collective calls of one step of FullyAdaptiveLion over
    parameters that are distinct objects, with more than one worker: one
    [all_reduce] per processed parameter for the observation, one more
    for its current norm, and a third one in the step that sees the
    parameter for the first time, for its initial norm.  With a single
    worker none. *)
Theorem fully_step_collectives (self : FullyAdaptiveLion.t) closure s loss
    self' s' :
  let ps :=
    trained_params FullyAdaptiveLion.params
      (FullyAdaptiveLion.param_groups self) in
  NoDup (map data ps) ->
  FullyAdaptiveLion.step self closure s = Some (loss, self', s') ->
  calls s' =
  (calls (snd (call_closure closure s))
   + collectives (length ps)
   + collectives (length (filter (no_init_norm_yet self) ps))
   + collectives (length ps))%nat.
Proof.
  intros ps Hnd Hstep. fully_step_tac Hstep.
  destruct (reduce_init_machine _ _ _ _ _ _ Hinit) as (_ & _ & Hk2).
  destruct (reduce_current_machine _ _ _ _ _ Hcur) as (_ & _ & Hk3).
  assert (Hk1 : calls s1 = (calls s0 + collectives (length ps))%nat).
  { rewrite <- collectives_scaled.
    apply (outer_loop_calls
             (fun x => (FullyAdaptiveLion.states (fst x), snd x))
             FullyAdaptiveLion.params (FullyAdaptiveLion.step_param self)
             (collectives 1))
      with (x := ({| FullyAdaptiveLion.tmp_param_init_norm := [];
                     FullyAdaptiveLion.tmp_param_current_norm := [];
                     FullyAdaptiveLion.states := FullyAdaptiveLion.state self |},
                  s0))
           (x' := (loc1, s1)); [| exact Hloop].
    intros group p [loc sa] [loc' sb] g Hg Hbody. cbn [fst snd].
    destruct (fully_body_frame self group p loc sa loc' sb Hbody)
      as (_ & Hc & _).
    exact (Hc g Hg). }
  rewrite for_each_groups in Hloop.
  destruct (fully_loop_keys self _ _ _ _ _ Hloop) as [Hkc Hki].
  - intros [g p] Hin. cbn [snd]. apply in_flat_map in Hin.
    destruct Hin as (g' & _ & Hin). apply in_map_iff in Hin.
    destruct Hin as (p' & Heq & Hp'). inversion Heq; subst.
    apply filter_In in Hp'. tauto.
  - cbn [FullyAdaptiveLion.tmp_param_current_norm keys map app].
    now rewrite trained_pairs.
  - cbn [FullyAdaptiveLion.tmp_param_init_norm keys map app].
    now rewrite trained_pairs.
  - cbn [FullyAdaptiveLion.tmp_param_current_norm
         FullyAdaptiveLion.tmp_param_init_norm keys map app] in Hkc, Hki.
    rewrite trained_pairs in Hkc, Hki. fold ps in Hkc, Hki.
    rewrite Hk3, Hk2, Hk1, Hkc, Hki, !length_map. reflexivity.
Qed.

(** ** The first step on a parameter *)

Lemma zip_with_zeros f (b : tensor) :
  zip_with f (repeat 0 (length b)) b = map (f 0) b.
Proof. induction b as [|y b IH]; simpl; [reflexivity | now rewrite IH]. Qed.

Lemma sign_val_scale c y : 0 < c -> sign_val (c * y) = sign_val y.
Proof.
  intros Hc. unfold sign_val.
  destruct (Rlt_dec y 0) as [Hy | Hy].
  - destruct (Rlt_dec (c * y) 0); [reflexivity | nra].
  - destruct (Rlt_dec (c * y) 0); [nra |].
    destruct (Rlt_dec 0 y); destruct (Rlt_dec 0 (c * y)); try reflexivity; nra.
Qed.

Lemma single_worker_ok s : (get_world_size <= 1)%Z -> collective_ok s.
Proof. intros Hw. now left. Qed.

(** X7.  The first SkipLion step on a parameter, for a single worker.
    The state is created with a zero momentum, so the observation the
    new detector receives is [|1 - beta2|] times the norm of the
    gradient.  If the detector flags it, the parameter is untouched, the
    momentum stays zero and the counter reads 1.  Otherwise the
    parameter is decayed and moved by [lr] against
    [sign ((1 - beta1) * grad)], which for [beta1 < 1] is the sign of the
    gradient, the momentum becomes [(1 - beta2) * grad] and the counter
    reads 0. *)
Theorem skip_first_step (self : SkipLion.t) (group : param_group) (p : param)
    (grad_ref : ref) (st : id_map SkipLion.state_t) (s : machine) :
  grad p = Some grad_ref ->
  data p <> grad_ref ->
  (data p < next_ref s)%nat -> (grad_ref < next_ref s)%nat ->
  length (cell s grad_ref) = length (cell s (data p)) ->
  st (data p) = None ->
  (get_world_size <= 1)%Z ->
  let beta1 := fst (betas group) in
  let beta2 := snd (betas group) in
  let scale :=
    if Req_dec_T (weight_decay group) 0 then 1
    else 1 - (if Req_dec_T (initial_lr group) 0 then 1
              else lr group / initial_lr group) * weight_decay group in
  let obs := Rabs (1 - beta2) * torch.vector_norm (cell s grad_ref) in
  let verdict :=
    insert_observation (new_detector (SkipLion.outlier_threshold self)) obs in
  exists st' s' state',
    SkipLion.step_param self group p (st, s) = Some (st', s')
    /\ st' (data p) = Some state'
    /\ SkipLion.moment_tracker state' = snd verdict
    /\ (fst verdict = true ->
        cell s' (data p) = cell s (data p)
        /\ cell s' (SkipLion.exp_avg state') =
             repeat 0 (length (cell s (data p)))
        /\ cell s' (SkipLion.skipped_batches state') = [1])
    /\ (fst verdict = false ->
        cell s' (data p) =
          zip_with (fun x y => scale * x - lr group * sign_val ((1 - beta1) * y))
            (cell s (data p)) (cell s grad_ref)
        /\ (beta1 < 1 ->
            cell s' (data p) =
              zip_with (fun x y => scale * x - lr group * sign_val y)
                (cell s (data p)) (cell s grad_ref))
        /\ cell s' (SkipLion.exp_avg state') =
             map (fun y => (1 - beta2) * y) (cell s grad_ref)
        /\ cell s' (SkipLion.skipped_batches state') = [0]).
Proof.
  intros Hgrad Hpg Hp Hg Hlen Hnone Hw beta1 beta2 scale obs verdict.
  destruct (SkipLion.init_state self p st s) as [state0 s0] eqn:Hinit.
  destruct (skip_init_ok self p st s state0 s0 Hinit Hp)
    as ((He & Hc & Hep & Hcp & Hce & Hel & Hcl) & Hnext & Hold & Hcalls
        & _ & Hfresh).
  { intros state Hs. congruence. }
  destruct (Hfresh Hnone) as [Hzero Hcount].
  assert (Htracker : SkipLion.moment_tracker state0 =
                     new_detector (SkipLion.outlier_threshold self)).
  { unfold SkipLion.init_state in Hinit. rewrite Hnone in Hinit.
    cbv beta iota zeta delta [torch.zeros_like torch.scalar_tensor alloc]
      in Hinit.
    now inversion Hinit. }
  destruct (moment_norm_ok (SkipLion.exp_avg state0) grad_ref beta2 s0)
    as (obs1 & s1 & Hmn & Hn1 & Hold1).
  { now apply single_worker_ok. }
  destruct (moment_norm_inv _ _ _ _ _ _ Hmn) as (_ & _ & _ & Hobs).
  specialize (Hobs Hw).
  assert (Hmom : zip_with (fun x y => lerp_val x y (1 - beta2))
                   (cell s0 (SkipLion.exp_avg state0)) (cell s0 grad_ref)
                 = map (fun y => (1 - beta2) * y) (cell s grad_ref)).
  { rewrite Hzero, (Hold grad_ref), <- Hlen by lia.
    rewrite zip_with_zeros. apply map_ext. intros y. unfold lerp_val. ring. }
  assert (Hobs' : obs1 = obs).
  { rewrite Hobs, Hmom. subst obs.
    rewrite (map_ext _ (fun y => y * (1 - beta2))) by (intros; ring).
    apply vector_norm_scale_abs. }
  rewrite Hobs' in Hmn. clear Hobs Hobs'.
  unfold SkipLion.step_param. rewrite Hgrad, Hinit.
  destruct (betas group) as [b1 b2] eqn:Hbetas.
  cbn [fst snd] in beta1, beta2. subst beta1 beta2.
  rewrite Hmn, Htracker. fold verdict.
  destruct verdict as [flagged tracker] eqn:Hverdict.
  cbn [fst snd].
  destruct flagged.
  - eexists _, _, _. split; [reflexivity |].
    split; [unfold id_set; now rewrite Nat.eqb_refl |].
    cbn [SkipLion.moment_tracker SkipLion.exp_avg SkipLion.skipped_batches].
    split; [reflexivity |].
    split; [intros _ | intros Habs; discriminate Habs].
    unfold torch.add_scalar_.
    split; [| split].
    + rewrite cell_write_other by auto.
      rewrite Hold1 by lia. apply Hold; lia.
    + rewrite cell_write_other by auto. rewrite Hold1 by lia. exact Hzero.
    + rewrite cell_write_same. rewrite Hold1 by lia. rewrite Hcount.
      simpl. f_equal. lra.
  - destruct (lionw_cells (data p) grad_ref (SkipLion.exp_avg state0)
                (lr group) (initial_lr group) (weight_decay group) b1 b2 s1)
      as (Hcp' & Hcm' & Hframe & _); auto; try lia.
    assert (Hparam :
              cell (lionw (data p) grad_ref (SkipLion.exp_avg state0)
                      (lr group) (initial_lr group) (weight_decay group)
                      b1 b2 s1) (data p) =
              zip_with (fun x y => scale * x - lr group * sign_val ((1 - b1) * y))
                (cell s (data p)) (cell s grad_ref)).
    { rewrite Hcp'. rewrite !Hold1 by lia.
      rewrite (Hold (data p)), (Hold grad_ref), Hzero by lia.
      unfold SignMomentumUpdate.new_parameter, SignMomentumUpdate.update.
      rewrite <- Hlen, zip_with_zeros, zip_with_map_r.
      apply zip_with_ext. intros x y.
      unfold SignMomentumUpdate.decay_scale, lerp_val. subst scale.
      replace (0 + (1 - b1) * (y - 0)) with ((1 - b1) * y) by ring.
      destruct (Req_dec_T (weight_decay group) 0); [reflexivity |].
      destruct (Req_dec_T (initial_lr group) 0); f_equal; ring. }
    eexists _, _, _. split; [reflexivity |].
    split; [unfold id_set; now rewrite Nat.eqb_refl |].
    cbn [SkipLion.moment_tracker SkipLion.exp_avg SkipLion.skipped_batches].
    split; [reflexivity |].
    split; [intros Habs; discriminate Habs | intros _].
    split; [exact Hparam |]. split; [| split].
    + intros Hb1. rewrite Hparam. apply zip_with_ext. intros x y.
      rewrite sign_val_scale by lra. reflexivity.
    + rewrite Hcm'. rewrite !Hold1 by lia.
      unfold SignMomentumUpdate.new_momentum. exact Hmom.
    + rewrite Hframe by (auto; lia). rewrite Hold1 by lia. exact Hcount.
Qed.

(** ** Steps the claims leave out *)

(** X8.  One ClipLion step on a parameter with a gradient whose reduced
    norm the detector does not flag.  The counter [clipped_batches]
    keeps its value, no tensor is made for the gradient, and [lionw] is
    called on the tensor of [p.grad] itself with the group's [lr],
    [initial_lr], [weight_decay] and betas; only the temporary of
    [lionw] is allocated after the state. *)
Theorem clip_step_unflagged (self : ClipLion.t) (group : param_group)
    (p : param) (grad_ref : ref) (st : id_map ClipLion.state_t) (s : machine) :
  grad p = Some grad_ref ->
  data p <> grad_ref ->
  (data p < next_ref s)%nat -> (grad_ref < next_ref s)%nat ->
  length (cell s grad_ref) = length (cell s (data p)) ->
  (forall state, st (data p) = Some state ->
     clip_state_ok state (data p) grad_ref s) ->
  collective_ok s ->
  let state0 := fst (ClipLion.init_state self p st s) in
  let s0 := snd (ClipLion.init_state self p st s) in
  let exp_avg := ClipLion.exp_avg state0 in
  let counter := ClipLion.clipped_batches state0 in
  let beta1 := fst (betas group) in
  let beta2 := snd (betas group) in
  exists grad_norm s1 st' s' state',
    reduced_norm (cell s grad_ref) s0 = Some (grad_norm, s1)
    /\ ClipLion.step_param self group p (st, s) = Some (st', s')
    /\ st' (data p) = Some state'
    /\ ClipLion.grad_tracker state' =
         snd (insert_observation (ClipLion.grad_tracker state0) grad_norm)
    /\ (fst (insert_observation (ClipLion.grad_tracker state0) grad_norm)
        = false ->
        s' = lionw (data p) grad_ref exp_avg (lr group) (initial_lr group)
               (weight_decay group) beta1 beta2 s1
        /\ next_ref s' = S (next_ref s0)
        /\ cell s' counter = cell s0 counter
        /\ cell s' grad_ref = cell s grad_ref
        /\ cell s' (data p) =
             SignMomentumUpdate.new_parameter (cell s (data p))
               (cell s grad_ref) (cell s0 exp_avg) (lr group)
               (initial_lr group) (weight_decay group) beta1
        /\ cell s' exp_avg =
             SignMomentumUpdate.new_momentum (cell s0 exp_avg)
               (cell s grad_ref) beta2).
Proof.
  intros Hgrad Hpg Hp Hg Hlen Hst Hok state0 s0 exp_avg counter beta1 beta2.
  destruct (ClipLion.init_state self p st s) as [state0' s0'] eqn:Hinit.
  cbn [fst snd] in state0, s0. subst state0 s0.
  destruct (clip_init_ok self p grad_ref st s state0' s0' Hinit Hp Hg Hst)
    as ((He & Hc & Hep & Hcp & Hce & Heg & Hcg & Hel & Hcl)
        & Hnext & Hold & Hcalls & Hsame).
  fold exp_avg in He, Hep, Hce, Heg, Hel.
  fold counter in Hc, Hcp, Hce, Hcg, Hcl.
  destruct (reduced_norm_ok (cell s grad_ref) s0')
    as (grad_norm & s1 & Hrn & Hn1 & Hc1 & _ & _).
  { unfold collective_ok in *. now rewrite Hcalls. }
  assert (Hold1 : forall r, cell s1 r = cell s0' r) by now rewrite Hc1.
  unfold ClipLion.step_param. rewrite Hgrad, Hinit.
  destruct (betas group) as [b1 b2] eqn:Hbetas.
  cbn [fst snd] in beta1, beta2. subst beta1 beta2.
  rewrite (Hold grad_ref) by lia. rewrite Hrn.
  destruct (insert_observation (ClipLion.grad_tracker state0') grad_norm)
    as [flagged tracker] eqn:Hins.
  destruct flagged.
  { destruct (ClipLion.clip self state0' true tracker grad_ref grad_norm s1)
      as [g2 s2] eqn:Hclip.
    eexists grad_norm, s1, _, _, _. rewrite Hins. cbn [fst snd].
    split; [reflexivity |]. split; [reflexivity |].
    split; [unfold id_set; now rewrite Nat.eqb_refl |].
    split; [reflexivity |]. intros Habs; discriminate Habs. }
  cbn [ClipLion.clip].
  destruct (lionw_cells (data p) grad_ref exp_avg (lr group) (initial_lr group)
              (weight_decay group) b1 b2 s1)
    as (Hcp' & Hcm' & Hframe & Hn2 & _); try lia; auto.
  eexists grad_norm, s1, _, _, _. rewrite Hins. cbn [fst snd].
  split; [reflexivity |]. split; [reflexivity |].
  split; [unfold id_set; now rewrite Nat.eqb_refl |].
  split; [reflexivity |]. intros _.
  fold exp_avg.
  split; [reflexivity |].
  split; [rewrite Hn2; lia |].
  split; [| split; [| split]].
  - rewrite Hframe by (try lia; auto). apply Hold1.
  - rewrite Hframe by (try lia; auto). rewrite Hold1. apply Hold; lia.
  - rewrite Hcp'. rewrite !Hold1. now rewrite (Hold (data p)), (Hold grad_ref) by lia.
  - rewrite Hcm'. rewrite !Hold1. now rewrite (Hold grad_ref) by lia.
Qed.

(** X9.  One AdaLRLion step on a parameter with a gradient.  With [n] the
    length of the outlier window after this step's eviction, the step is
    the call of [lionw] with the learning rate
    [lr * max (min_scale, lr_penalty ^ n)] and with the group's
    [initial_lr], [weight_decay] and betas as they are; the update is
    never skipped. *)
Theorem adalr_adapted_lr (self : AdaLRLion.t) (group : param_group)
    (p : param) (grad_ref : ref) (st : id_map AdaLRLion.state_t)
    (s : machine) :
  grad p = Some grad_ref ->
  data p <> grad_ref ->
  (data p < next_ref s)%nat -> (grad_ref < next_ref s)%nat ->
  length (cell s grad_ref) = length (cell s (data p)) ->
  (forall state, st (data p) = Some state ->
     momentum_ok (AdaLRLion.exp_avg state) (data p) s) ->
  collective_ok s ->
  let state0 := fst (AdaLRLion.init_state self p st s) in
  let s0 := snd (AdaLRLion.init_state self p st s) in
  let exp_avg := AdaLRLion.exp_avg state0 in
  let beta1 := fst (betas group) in
  let beta2 := snd (betas group) in
  exists obs s1 st' s' state',
    moment_norm exp_avg grad_ref beta2 s0 = Some (obs, s1)
    /\ AdaLRLion.step_param self group p (st, s) = Some (st', s')
    /\ st' (data p) = Some state'
    /\ AdaLRLion.step_count state' = (AdaLRLion.step_count state0 + 1)%Z
    /\ AdaLRLion.outlier_timestamp state' =
         evict (AdaLRLion.step_count state0) (AdaLRLion.timeout self)
           (if fst (insert_observation (AdaLRLion.moment_tracker state0) obs)
            then AdaLRLion.outlier_timestamp state0
                 ++ [AdaLRLion.step_count state0]
            else AdaLRLion.outlier_timestamp state0)
    /\ let n := length (AdaLRLion.outlier_timestamp state') in
       let lr' :=
         lr group * Rmax (AdaLRLion.min_scale self)
                      (AdaLRLion.lr_penalty self ^ n) in
       s' = lionw (data p) grad_ref exp_avg lr' (initial_lr group)
              (weight_decay group) beta1 beta2 s1
       /\ cell s' (data p) =
            SignMomentumUpdate.new_parameter (cell s (data p))
              (cell s grad_ref) (cell s0 exp_avg) lr'
              (initial_lr group) (weight_decay group) beta1
       /\ cell s' exp_avg =
            SignMomentumUpdate.new_momentum (cell s0 exp_avg)
              (cell s grad_ref) beta2.
Proof.
  intros Hgrad Hpg Hp Hg Hlen Hst Hok state0 s0 exp_avg beta1 beta2.
  destruct (adalr_step_eq self group p grad_ref st s Hgrad Hok)
    as (obs & s1 & Hmn & Hn1 & Hold1 & Hstep).
  fold state0 s0 in Hmn, Hn1, Hold1, Hstep.
  destruct (adalr_init_ok self p st s state0 s0) as
    ((He & Hep & Hel) & Hnext & Hold & _); auto.
  { subst state0 s0. now destruct (AdaLRLion.init_state self p st s). }
  fold exp_avg in He, Hep, Hel, Hmn, Hstep. fold beta1 beta2 in Hmn, Hstep.
  cbv zeta in Hstep.
  set (window :=
         update_window
           (fst (insert_observation (AdaLRLion.moment_tracker state0) obs))
           (AdaLRLion.step_count state0) (AdaLRLion.timeout self)
           (AdaLRLion.outlier_timestamp state0)) in *.
  unfold AdaLRLion.adjust_lr in Hstep.
  eexists obs, s1, _, _, _.
  split; [exact Hmn |]. split; [exact Hstep |].
  split; [unfold id_set; now rewrite Nat.eqb_refl |].
  cbn [AdaLRLion.outlier_timestamp AdaLRLion.step_count].
  split; [reflexivity |]. split; [reflexivity |].
  set (lr' := lr group * Rmax (AdaLRLion.min_scale self)
                           (AdaLRLion.lr_penalty self ^ length window)).
  destruct (lionw_cells (data p) grad_ref exp_avg lr'
              (initial_lr group) (weight_decay group) beta1 beta2 s1)
    as (Hcp' & Hcm' & _); auto; try lia.
  split; [reflexivity |]. split.
  - rewrite Hcp'. rewrite !Hold1 by lia.
    now rewrite (Hold (data p)), (Hold grad_ref) by lia.
  - rewrite Hcm'. rewrite !Hold1 by lia.
    now rewrite (Hold grad_ref) by lia.
Qed.

(** X10.  [adjust_lr] never drops the learning rate below
    [lr * min_scale]: once [lr_penalty ^ n] is below [min_scale] the
    result is exactly that floor.  With no outlier in the window it is
    [lr * max (min_scale, 1)].  For a non-negative [lr], a penalty in
    [0, 1] and [min_scale <= 1] the result lies between
    [lr * min_scale] and [lr] and does not grow with the number of
    outliers. *)
Theorem adjust_lr_bounds (lr lr_penalty min_scale : R) (n : nat) :
  (0 <= lr -> lr * min_scale <= AdaLRLion.adjust_lr lr lr_penalty n min_scale)
  /\ (lr_penalty ^ n <= min_scale ->
      AdaLRLion.adjust_lr lr lr_penalty n min_scale = lr * min_scale)
  /\ AdaLRLion.adjust_lr lr lr_penalty 0 min_scale = lr * Rmax min_scale 1
  /\ (0 <= lr -> 0 <= lr_penalty <= 1 -> min_scale <= 1 ->
      AdaLRLion.adjust_lr lr lr_penalty n min_scale <= lr
      /\ AdaLRLion.adjust_lr lr lr_penalty (S n) min_scale
         <= AdaLRLion.adjust_lr lr lr_penalty n min_scale).
Proof.
  unfold AdaLRLion.adjust_lr.
  split; [| split; [| split]].
  - intros Hlr. apply Rmult_le_compat_l; [exact Hlr | apply Rmax_l].
  - intros Hfloor. now rewrite Rmax_left.
  - reflexivity.
  - intros Hlr [Hp0 Hp1] Hms.
    assert (Hpow : forall k, 0 <= lr_penalty ^ k <= 1).
    { induction k as [|k IH]; simpl; [lra |]. nra. }
    split.
    + rewrite <- (Rmult_1_r lr) at 2.
      apply Rmult_le_compat_l; [exact Hlr |].
      apply Rmax_lub; [exact Hms | apply Hpow].
    + apply Rmult_le_compat_l; [exact Hlr |].
      apply Rle_max_compat_l. simpl. specialize (Hpow n). nra.
Qed.

(** X11.  [adjust_betas] with [increase = True] keeps a beta of [0, 1]
    in [0, 1] and moves it towards 1 as outliers accumulate; with no
    outlier in the window it returns the betas unchanged, whatever
    [increase] is.  With [increase = False] the adapted beta is at most
    the beta, and it is not kept in [0, 1]: for every beta below 1 some
    number of outliers makes it negative. *)
Theorem adjust_betas_range (beta1 beta2 : R) (increase : bool) (n : nat) :
  AdaBetaLion.adjust_betas beta1 beta2 increase 0 = (beta1, beta2)
  /\ (0 <= beta1 <= 1 -> 0 <= beta2 <= 1 ->
      let adapted := AdaBetaLion.adjust_betas beta1 beta2 true n in
      let next := AdaBetaLion.adjust_betas beta1 beta2 true (S n) in
      beta1 <= fst adapted <= 1 /\ beta2 <= snd adapted <= 1
      /\ fst adapted <= fst next /\ snd adapted <= snd next)
  /\ (beta1 <= 1 -> beta2 <= 1 ->
      fst (AdaBetaLion.adjust_betas beta1 beta2 false n) <= beta1
      /\ snd (AdaBetaLion.adjust_betas beta1 beta2 false n) <= beta2)
  /\ (beta1 < 1 ->
      exists k, fst (AdaBetaLion.adjust_betas beta1 beta2 false k) < 0).
Proof.
  unfold AdaBetaLion.adjust_betas. cbn [fst snd].
  split; [| split; [| split]].
  - destruct increase; f_equal; simpl; ring.
  - intros [H10 H11] [H20 H21].
    assert (Hpow : forall k, 0 < (5 / 10) ^ k <= 1).
    { induction k as [|k IH]; simpl; [lra |]. nra. }
    pose proof (Hpow n) as Hn. pose proof (Hpow (S n)) as Hsn.
    assert (Hdec : (5 / 10) ^ S n <= (5 / 10) ^ n) by (simpl; nra).
    repeat split; nra.
  - intros H1 H2.
    assert (Hpow : forall k, 1 <= (15 / 10) ^ k).
    { induction k as [|k IH]; simpl; [lra |]. nra. }
    pose proof (Hpow n) as Hn. split; nra.
  - intros H1.
    destruct (Pow_x_infinity (15 / 10)) with (b := 2 / (1 - beta1))
      as [N HN].
    { rewrite Rabs_right; lra. }
    exists N. specialize (HN N (Nat.le_refl N)).
    assert (Hpos : 0 < (15 / 10) ^ N) by (apply pow_lt; lra).
    rewrite Rabs_right in HN by lra.
    assert (Hb : 0 < 1 - beta1) by lra.
    assert (H2 : 2 <= (1 - beta1) * (15 / 10) ^ N).
    { apply Rge_le in HN.
      apply (Rmult_le_compat_l (1 - beta1)) in HN; [| lra].
      replace ((1 - beta1) * (2 / (1 - beta1))) with 2 in HN by (field; lra).
      exact HN. }
    lra.
Qed.

(** ** The window over a run of steps *)

Lemma filter_filter {A : Type} (f g : A -> bool) l :
  filter f (filter g l) = filter (fun x => g x && f x) l.
Proof.
  induction l as [|x l IH]; simpl; [reflexivity |].
  destruct (g x); simpl; [destruct (f x) |]; now rewrite IH.
Qed.

Lemma filter_map_swap {A B : Type} (f : A -> B) (g : B -> bool) l :
  filter g (map f l) = map f (filter (fun x => g (f x)) l).
Proof.
  induction l as [|x l IH]; simpl; [reflexivity |].
  destruct (g (f x)); simpl; now rewrite IH.
Qed.

Lemma filter_seq_none g a n :
  (forall i, (a <= i < a + n)%nat -> g i = false) -> filter g (seq a n) = [].
Proof.
  revert a. induction n as [|n IH]; intros a Hg; simpl; [reflexivity |].
  rewrite Hg by lia. apply IH. intros i Hi. apply Hg. lia.
Qed.

Lemma window_run_snoc timeout verdicts flagged x :
  window_run timeout (verdicts ++ [flagged]) x =
  window_step timeout flagged (window_run timeout verdicts x).
Proof. now rewrite window_run_app. Qed.

Lemma window_run_recent timeout verdicts :
  window_run timeout verdicts (0%Z, []) =
  (Z.of_nat (length verdicts), recent_outliers timeout verdicts).
Proof.
  induction verdicts as [|flagged verdicts IH] using rev_ind; [reflexivity |].
  rewrite window_run_snoc, IH. unfold window_step. cbn [fst snd].
  rewrite length_app. cbn [length]. f_equal; [lia |].
  unfold update_window. rewrite evict_filter.
  unfold recent_outliers. rewrite length_app. cbn [length].
  set (n := length verdicts).
  replace (n + 1)%nat with (S n) by lia.
  rewrite seq_S, filter_app. cbn [plus filter].
  rewrite app_nth2 by (unfold n; lia).
  replace (n - length verdicts)%nat with 0%nat by (unfold n; lia).
  cbn [nth].
  assert (Hold : filter
                   (fun i => nth i (verdicts ++ [flagged]) false
                             && (Z.of_nat (S n) - 1 - Z.of_nat i <=? timeout)%Z)
                   (seq 0 n)
                 = filter
                     (fun i => nth i verdicts false
                               && (Z.of_nat (S n) - 1 - Z.of_nat i <=? timeout)%Z)
                     (seq 0 n)).
  { apply filter_ext_in. intros i Hi. apply in_seq in Hi.
    rewrite app_nth1 by (unfold n in Hi; lia). reflexivity. }
  rewrite Hold. clear Hold.
  assert (Hstep : (Z.of_nat (S n) - 1 = Z.of_nat n)%Z) by lia.
  rewrite Hstep.
  assert (Hpast : filter (fun ts => negb (timeout <? Z.of_nat n - ts)%Z)
                    (map Z.of_nat
                       (filter
                          (fun i => nth i verdicts false
                                    && (Z.of_nat n - 1 - Z.of_nat i <=? timeout)%Z)
                          (seq 0 n)))
                  = map Z.of_nat
                      (filter
                         (fun i => nth i verdicts false
                                   && (Z.of_nat n - Z.of_nat i <=? timeout)%Z)
                         (seq 0 n))).
  { rewrite filter_map_swap, filter_filter. f_equal.
    apply filter_ext. intros i.
    destruct (nth i verdicts false); cbn [andb]; [| reflexivity].
    destruct (Z.leb_spec (Z.of_nat n - 1 - Z.of_nat i) timeout);
      destruct (Z.leb_spec (Z.of_nat n - Z.of_nat i) timeout);
      destruct (Z.ltb_spec timeout (Z.of_nat n - Z.of_nat i));
      cbn [andb negb]; try reflexivity; lia. }
  destruct flagged; cbn [andb].
  - rewrite filter_app, Hpast. cbn [filter].
    replace (Z.of_nat n - Z.of_nat n)%Z with 0%Z by lia.
    destruct (Z.ltb_spec timeout 0); destruct (Z.leb_spec 0 timeout);
      try lia; cbn [negb]; now rewrite map_app.
  - rewrite Hpast. now rewrite app_nil_r.
Qed.

Lemma filter_seq_tail g n k :
  (forall i, (i < n)%nat -> g i = true -> (n <= i + k)%nat) ->
  (length (filter g (seq 0 n)) <= k)%nat.
Proof.
  intros Hg.
  destruct (Nat.le_gt_cases n k) as [Hle | Hgt].
  - etransitivity; [apply filter_length_le |]. now rewrite length_seq.
  - replace n with ((n - k) + k)%nat at 1 by lia.
    rewrite seq_app, filter_app. cbn [plus].
    rewrite filter_seq_none.
    + cbn [app]. etransitivity; [apply filter_length_le |].
      now rewrite length_seq.
    + intros i Hi. destruct (g i) eqn:Hgi; [| reflexivity].
      specialize (Hg i ltac:(lia) Hgi). lia.
Qed.

(** X12.  The outlier window of a parameter after any run of steps of
    AdaBetaLion, AdaLRLion or FullyAdaptiveLion, started from the fresh
    state: the step counter is the number of steps, and the window holds
    exactly the steps the detector flagged that are at most [timeout]
    steps older than the last step, in ascending order.  So the number
    of outliers that adapts the hyperparameters never exceeds
    [timeout + 1] nor the number of flagged steps, and a negative
    [timeout] keeps the window empty. *)
Theorem window_is_recent_outliers (timeout : Z) (verdicts : list bool) :
  let after := window_run timeout verdicts (0%Z, []) in
  fst after = Z.of_nat (length verdicts)
  /\ snd after = recent_outliers timeout verdicts
  /\ (forall ts, In ts (snd after) <->
        exists i, ts = Z.of_nat i /\ nth i verdicts false = true
                  /\ (Z.of_nat (length verdicts) - 1 - ts <= timeout)%Z)
  /\ (length (snd after) <= Z.to_nat (timeout + 1))%nat
  /\ (length (snd after) <= length (filter (fun b => b) verdicts))%nat
  /\ StronglySorted Z.lt (snd after).
Proof.
  intros after. subst after. rewrite window_run_recent. cbn [fst snd].
  split; [reflexivity |]. split; [reflexivity |].
  unfold recent_outliers. set (n := length verdicts).
  split; [| split; [| split]].
  - intros ts. rewrite in_map_iff. split.
    + intros (i & <- & Hi). apply filter_In in Hi. destruct Hi as [_ Hi].
      apply andb_true_iff in Hi. destruct Hi as [Hf Ht].
      apply Z.leb_le in Ht. exists i. repeat split; assumption.
    + intros (i & -> & Hf & Ht). exists i. split; [reflexivity |].
      apply filter_In. split.
      * apply in_seq. split; [lia |]. cbn [plus].
        destruct (Nat.lt_ge_cases i n) as [Hlt | Hge]; [exact Hlt |].
        rewrite nth_overflow in Hf by (unfold n in Hge; lia). discriminate.
      * rewrite Hf. cbn [andb]. now apply Z.leb_le.
  - rewrite length_map. apply filter_seq_tail.
    intros i Hi Hg. apply andb_true_iff in Hg. destruct Hg as [_ Ht].
    apply Z.leb_le in Ht. lia.
  - rewrite length_map.
    assert (Hnth : forall (l : list bool) a,
               map (fun i => nth (i - a) l false) (seq a (length l)) = l).
    { induction l as [|b l IHl]; intros a; [reflexivity |].
      cbn [length seq map]. f_equal.
      - now rewrite Nat.sub_diag.
      - rewrite <- (IHl (S a)) at 2. apply map_ext_in. intros i Hi.
        apply in_seq in Hi.
        replace (i - a)%nat with (S (i - S a)) by lia. reflexivity. }
    assert (Hcount : forall (l : list bool) a,
               (length (filter (fun i => nth (i - a) l false) (seq a (length l)))
                = length (filter (fun b => b) l))%nat).
    { intros l a.
      transitivity
        (length (filter (fun b : bool => b)
                   (map (fun i => nth (i - a) l false) (seq a (length l))))).
      - rewrite filter_map_swap. now rewrite length_map.
      - now rewrite Hnth. }
    specialize (Hcount verdicts 0%nat). fold n in Hcount.
    rewrite <- Hcount.
    rewrite (filter_ext (fun i => nth (i - 0) verdicts false)
               (fun i => nth i verdicts false))
      by (intros i; now rewrite Nat.sub_0_r).
    rewrite <- (filter_filter
                  (fun i => (Z.of_nat n - 1 - Z.of_nat i <=? timeout)%Z)
                  (fun i => nth i verdicts false)).
    apply filter_length_le.
  - assert (Hsorted : forall g a k,
               StronglySorted Z.lt (map Z.of_nat (filter g (seq a k)))).
    { intros g a k. revert a. induction k as [|k IHk]; intros a; cbn [seq filter].
      - constructor.
      - destruct (g a); [| apply IHk]. cbn [map]. constructor; [apply IHk |].
        apply Forall_forall. intros z Hz. apply in_map_iff in Hz.
        destruct Hz as (i & <- & Hi). apply filter_In in Hi.
        destruct Hi as [Hi _]. apply in_seq in Hi. lia. }
    apply Hsorted.
Qed.

(** ** The reduction loop of the five classes *)

Lemma dist_reduce_metric_shape :
  SkipLion.dist_reduce_metric =
    dist_reduce_metric_of (fun k => startswith k "skipped_batches")
  /\ AdaBetaLion.dist_reduce_metric =
       dist_reduce_metric_of (fun k => startswith k "beta")
  /\ AdaLRLion.dist_reduce_metric =
       dist_reduce_metric_of (fun k => startswith k "layerwise_lr")
  /\ ClipLion.dist_reduce_metric =
       dist_reduce_metric_of (fun k => startswith k "clipped_batches")
  /\ FullyAdaptiveLion.dist_reduce_metric =
       dist_reduce_metric_of (fun _ => true).
Proof. repeat split; reflexivity. Qed.

Lemma pre_reduce_metric_shape :
  AdaBetaLion.pre_reduce_metric = SkipLion.pre_reduce_metric
  /\ AdaLRLion.pre_reduce_metric = SkipLion.pre_reduce_metric
  /\ ClipLion.pre_reduce_metric = SkipLion.pre_reduce_metric
  /\ FullyAdaptiveLion.pre_reduce_metric = SkipLion.pre_reduce_metric.
Proof. repeat split; reflexivity. Qed.

Lemma keys_metric_set_present k v v' (d : metric_map) :
  metric_get k d = Some v -> keys (metric_set k v' d) = keys d.
Proof.
  induction d as [|[k2 v2] d IH]; simpl; [discriminate |].
  destruct (String.eqb_spec k k2) as [-> | Hne]; simpl; [reflexivity |].
  intros Hv. now rewrite IH.
Qed.

Lemma reduce_if_distributed_machine x s :
  next_ref (snd (reduce_if_distributed x s)) = next_ref s
  /\ cell (snd (reduce_if_distributed x s)) = cell s
  /\ calls (snd (reduce_if_distributed x s)) = (calls s + collectives 1)%nat
  /\ fst (reduce_if_distributed x s) = reduced_value x (calls s).
Proof.
  unfold reduce_if_distributed, all_reduce, collectives, reduced_value.
  destruct (1 <? get_world_size)%Z; cbn [fst snd next_ref cell calls];
    repeat split; lia.
Qed.

(** One turn of the loop, when it returns. *)
Lemma dist_reduce_metric_of_inv passed_over k m s m' s' :
  dist_reduce_metric_of passed_over k (m, s) = Some (m', s') ->
  next_ref s' = next_ref s /\ cell s' = cell s
  /\ calls s' =
     (calls s + collectives (if reduced_key passed_over k then 1 else 0))%nat
  /\ keys m' = keys m
  /\ (forall k', k' <> k -> metric_get k' m' = metric_get k' m)
  /\ (untouched_key passed_over k = true -> m' = m).
Proof.
  unfold dist_reduce_metric_of, reduced_key, untouched_key. intros Hrun.
  assert (Hzero : collectives 0 = 0%nat).
  { unfold collectives. now destruct (1 <? get_world_size)%Z. }
  destruct (startswith k "l2_norm") eqn:Hl2; cbn [orb negb andb].
  - destruct (metric_get k m) as [v |] eqn:Hv; [| discriminate].
    destruct (reduce_if_distributed_machine v s) as (Hn & Hc & Hk & _).
    destruct (reduce_if_distributed v s) as [y s1]. cbn [snd] in Hn, Hc, Hk.
    destruct (math_sqrt y) as [root |]; [| discriminate].
    inversion Hrun; subst m' s'. clear Hrun.
    repeat split; try assumption; try discriminate.
    + now apply (keys_metric_set_present k v).
    + intros k' Hne. now apply metric_get_set_other.
  - destruct (startswith k "cosine") eqn:Hcos; cbn [orb negb andb].
    + destruct (metric_get k m) as [v |] eqn:Hv; [| discriminate].
      destruct (reduce_if_distributed_machine v s) as (Hn & Hc & Hk & _).
      destruct (reduce_if_distributed v s) as [y s1]. cbn [snd] in Hn, Hc, Hk.
      destruct (SkipLion.split_cosine k) as [[[A B] layer] |]; [| discriminate].
      destruct (metric_get (SkipLion.l2_norm_key A layer) m) as [a |];
        [| discriminate].
      destruct (metric_get (SkipLion.l2_norm_key B layer) m) as [b |];
        [| discriminate].
      inversion Hrun; subst m' s'. clear Hrun.
      repeat split; try assumption; try discriminate.
      * now apply (keys_metric_set_present k v).
      * intros k' Hne. now apply metric_get_set_other.
    + destruct (passed_over k) eqn:Hpo; cbn [negb].
      * inversion Hrun; subst m' s'. rewrite Hzero.
        repeat split; auto.
      * destruct (metric_get k m) as [v |] eqn:Hv; [| discriminate].
        destruct (reduce_if_distributed_machine v s) as (Hn & Hc & Hk & _).
        destruct (reduce_if_distributed v s) as [y s1].
        cbn [snd] in Hn, Hc, Hk.
        inversion Hrun; subst m' s'. clear Hrun.
        repeat split; try assumption; try discriminate.
        -- now apply (keys_metric_set_present k v).
        -- intros k' Hne. now apply metric_get_set_other.
Qed.

Lemma collectives_add a b :
  (collectives a + collectives b)%nat = collectives (a + b).
Proof. unfold collectives. destruct (1 <? get_world_size)%Z; lia. Qed.

(** The loop, when it returns. *)
Lemma dist_reduce_loop_of passed_over ks : forall m s m' s',
  for_each (dist_reduce_metric_of passed_over) ks (m, s) = Some (m', s') ->
  next_ref s' = next_ref s /\ cell s' = cell s
  /\ calls s' =
     (calls s + collectives (length (filter (reduced_key passed_over) ks)))%nat
  /\ keys m' = keys m
  /\ (forall k, ~ In k ks \/ untouched_key passed_over k = true ->
        metric_get k m' = metric_get k m).
Proof.
  induction ks as [|k ks IH]; intros m s m' s' Hloop; cbn [for_each] in Hloop.
  - inversion Hloop; subst. repeat split; auto.
    unfold collectives. destruct (1 <? get_world_size)%Z; simpl; lia.
  - destruct (dist_reduce_metric_of passed_over k (m, s)) as [[m1 s1] |]
      eqn:Hk; [| discriminate].
    destruct (dist_reduce_metric_of_inv _ _ _ _ _ _ Hk)
      as (Hn1 & Hc1 & Hk1 & Hkeys1 & Hother1 & Hskip1).
    destruct (IH _ _ _ _ Hloop) as (Hn & Hc & Hcalls & Hkeys & Hother).
    split; [congruence |]. split; [congruence |].
    split; [| split; [congruence |]].
    + rewrite Hcalls, Hk1. cbn [filter].
      destruct (reduced_key passed_over k); cbn [length];
        rewrite <- Nat.add_assoc, collectives_add; reflexivity.
    + intros k' Hk'.
      rewrite Hother by (destruct Hk' as [Hnin | Hun];
                         [left; intros Hin; apply Hnin; now right | now right]).
      destruct (string_dec k' k) as [-> | Hne]; [| now apply Hother1].
      destruct Hk' as [Hnin | Hun].
      * exfalso. apply Hnin. now left.
      * now rewrite (Hskip1 Hun).
Qed.

Ltac reducer_cases :=
  destruct dist_reduce_metric_shape as (Hs1 & Hs2 & Hs3 & Hs4 & Hs5);
  unfold SkipLion.dist_reduce_metrics, AdaBetaLion.dist_reduce_metrics,
    AdaLRLion.dist_reduce_metrics, ClipLion.dist_reduce_metrics,
    FullyAdaptiveLion.dist_reduce_metrics;
  rewrite ?Hs1, ?Hs2, ?Hs3, ?Hs4, ?Hs5.

(** X13.  [dist_reduce_metrics], in each of the five classes, is a pass
    over the values of the map: when it returns, the map has the same
    keys in the same order.  The number of collective calls it has made
    depends on the names of the keys only, never on their values: with
    more than one worker it is the number of keys that are not passed
    over (for FullyAdaptiveLion: the number of keys of the two
    families), with a single worker it is zero.  So workers that hold
    maps with the same keys make the same collective calls. *)
Theorem dist_reduce_is_a_pass (m : metric_map) (s : machine) :
  let pass passed_over (result : option (metric_map * machine)) :=
    forall m' s', result = Some (m', s') ->
      keys m' = keys m
      /\ calls s' =
         (calls s
          + collectives (length (filter (reduced_key passed_over) (keys m))))%nat
  in
  pass (fun k => startswith k "skipped_batches")
    (SkipLion.dist_reduce_metrics m s)
  /\ pass (fun k => startswith k "beta") (AdaBetaLion.dist_reduce_metrics m s)
  /\ pass (fun k => startswith k "layerwise_lr")
       (AdaLRLion.dist_reduce_metrics m s)
  /\ pass (fun k => startswith k "clipped_batches")
       (ClipLion.dist_reduce_metrics m s)
  /\ pass (fun _ => true) (FullyAdaptiveLion.dist_reduce_metrics m s).
Proof.
  intros pass. subst pass. cbv beta.
  reducer_cases.
  repeat split;
    match goal with
    | H : for_each _ _ _ = Some _ |- _ =>
        destruct (dist_reduce_loop_of _ _ _ _ _ _ H)
          as (_ & _ & Hcalls & Hkeys & _); assumption
    end.
Qed.

Lemma pre_reduce_metric_inv k m m' :
  SkipLion.pre_reduce_metric k m = Some m' ->
  keys m' = keys m
  /\ (forall k', k' <> k -> metric_get k' m' = metric_get k' m)
  /\ (startswith k "l2_norm" = false -> startswith k "cosine" = false ->
      m' = m).
Proof.
  unfold SkipLion.pre_reduce_metric. intros Hrun.
  destruct (startswith k "l2_norm") eqn:Hl2.
  - destruct (metric_get k m) as [v |] eqn:Hv; [| discriminate].
    inversion Hrun; subst m'. repeat split; try discriminate.
    + now apply (keys_metric_set_present k v).
    + intros k' Hne. now apply metric_get_set_other.
  - destruct (startswith k "cosine") eqn:Hcos.
    + destruct (SkipLion.split_cosine k) as [[[A B] layer] |]; [| discriminate].
      destruct (metric_get (SkipLion.l2_norm_key A layer) m) as [a |];
        [| discriminate].
      destruct (metric_get (SkipLion.l2_norm_key B layer) m) as [b |];
        [| discriminate].
      destruct (math_sqrt a); [| discriminate].
      destruct (math_sqrt b); [| discriminate].
      destruct (metric_get k m) as [v |] eqn:Hv; [| discriminate].
      inversion Hrun; subst m'. repeat split; try discriminate.
      * now apply (keys_metric_set_present k v).
      * intros k' Hne. now apply metric_get_set_other.
    + inversion Hrun; subst m'. repeat split; auto.
Qed.

Lemma pre_reduce_loop_inv ks : forall m m',
  for_each SkipLion.pre_reduce_metric ks m = Some m' ->
  keys m' = keys m
  /\ (forall k,
        ~ In k ks
        \/ (startswith k "l2_norm" = false /\ startswith k "cosine" = false) ->
        metric_get k m' = metric_get k m).
Proof.
  induction ks as [|k ks IH]; intros m m' Hloop; cbn [for_each] in Hloop.
  - inversion Hloop; subst. split; auto.
  - destruct (SkipLion.pre_reduce_metric k m) as [m1 |] eqn:Hk;
      [| discriminate].
    destruct (pre_reduce_metric_inv _ _ _ Hk) as (Hkeys1 & Hother1 & Hskip1).
    destruct (IH _ _ Hloop) as (Hkeys & Hother).
    split; [congruence |].
    intros k' Hk'.
    rewrite Hother by (destruct Hk' as [Hnin | Hun];
                       [left; intros Hin; apply Hnin; now right | now right]).
    destruct (string_dec k' k) as [-> | Hne]; [| now apply Hother1].
    destruct Hk' as [Hnin | [H1 H2]].
    + exfalso. apply Hnin. now left.
    + now rewrite (Hskip1 H1 H2).
Qed.

Ltac pre_reducer_cases :=
  destruct pre_reduce_metric_shape as (Hp2 & Hp3 & Hp4 & Hp5);
  unfold SkipLion.pre_reduce_metrics, AdaBetaLion.pre_reduce_metrics,
    AdaLRLion.pre_reduce_metrics, ClipLion.pre_reduce_metrics,
    FullyAdaptiveLion.pre_reduce_metrics;
  rewrite ?Hp2, ?Hp3, ?Hp4, ?Hp5.

(** X14.  The counters survive the reduction.  The entry
    [skipped_batches/<name>] of SkipLion and the entry
    [clipped_batches/<name>] of ClipLion, as
    [report_per_parameter_metrics] names them, come out of
    [pre_reduce_metrics] and of [dist_reduce_metrics] with the value
    they went in with, for any number of workers: a counter is neither
    summed over the workers nor averaged. *)
Theorem counters_survive_reduction (name : string) (m : metric_map)
    (s : machine) :
  (forall m', SkipLion.pre_reduce_metrics m = Some m' ->
     metric_get ("skipped_batches/" ++ name)%string m' =
     metric_get ("skipped_batches/" ++ name)%string m)
  /\ (forall m' s', SkipLion.dist_reduce_metrics m s = Some (m', s') ->
        metric_get ("skipped_batches/" ++ name)%string m' =
        metric_get ("skipped_batches/" ++ name)%string m)
  /\ (forall m', ClipLion.pre_reduce_metrics m = Some m' ->
        metric_get ("clipped_batches/" ++ name)%string m' =
        metric_get ("clipped_batches/" ++ name)%string m)
  /\ (forall m' s', ClipLion.dist_reduce_metrics m s = Some (m', s') ->
        metric_get ("clipped_batches/" ++ name)%string m' =
        metric_get ("clipped_batches/" ++ name)%string m).
Proof.
  pre_reducer_cases. reducer_cases.
  split; [| split; [| split]].
  - intros m' Hrun. destruct (pre_reduce_loop_inv _ _ _ Hrun) as [_ Hother].
    apply Hother. right. split; reflexivity.
  - intros m' s' Hrun.
    destruct (dist_reduce_loop_of _ _ _ _ _ _ Hrun) as (_ & _ & _ & _ & Hother).
    apply Hother. right. reflexivity.
  - intros m' Hrun. destruct (pre_reduce_loop_inv _ _ _ Hrun) as [_ Hother].
    apply Hother. right. split; reflexivity.
  - intros m' s' Hrun.
    destruct (dist_reduce_loop_of _ _ _ _ _ _ Hrun) as (_ & _ & _ & _ & Hother).
    apply Hother. right. reflexivity.
Qed.

(** X15.  The reported hyperparameters survive the reduction.  The
    entries [betas/beta1/<name>] and [betas/beta2/<name>] of AdaBetaLion
    and the entry [layerwise_lr/<name>] of AdaLRLion come out of
    [dist_reduce_metrics] with the value they went in with, for any
    number of workers.  The loop of FullyAdaptiveLion has no branch for
    the remaining keys: it leaves every key outside the l2_norm and
    cosine families alone, its [layerwise_lr], [betas] and [wd_scaling]
    entries among them, so it never averages a metric over the
    workers. *)
Theorem adaptation_survives_reduction (name : string) (m : metric_map)
    (s : machine) :
  (forall m' s', AdaBetaLion.dist_reduce_metrics m s = Some (m', s') ->
     metric_get ("betas/beta1/" ++ name)%string m' =
       metric_get ("betas/beta1/" ++ name)%string m
     /\ metric_get ("betas/beta2/" ++ name)%string m' =
          metric_get ("betas/beta2/" ++ name)%string m)
  /\ (forall m' s', AdaLRLion.dist_reduce_metrics m s = Some (m', s') ->
        metric_get ("layerwise_lr/" ++ name)%string m' =
        metric_get ("layerwise_lr/" ++ name)%string m)
  /\ (forall m' s', FullyAdaptiveLion.dist_reduce_metrics m s = Some (m', s') ->
        (forall k, startswith k "l2_norm" = false ->
           startswith k "cosine" = false ->
           metric_get k m' = metric_get k m)
        /\ metric_get ("layerwise_lr/" ++ name)%string m' =
             metric_get ("layerwise_lr/" ++ name)%string m
        /\ metric_get ("betas/beta1/" ++ name)%string m' =
             metric_get ("betas/beta1/" ++ name)%string m
        /\ metric_get ("betas/beta2/" ++ name)%string m' =
             metric_get ("betas/beta2/" ++ name)%string m
        /\ metric_get ("wd_scaling/" ++ name)%string m' =
             metric_get ("wd_scaling/" ++ name)%string m).
Proof.
  reducer_cases.
  split; [| split].
  - intros m' s' Hrun.
    destruct (dist_reduce_loop_of _ _ _ _ _ _ Hrun) as (_ & _ & _ & _ & Hother).
    split; apply Hother; right; reflexivity.
  - intros m' s' Hrun.
    destruct (dist_reduce_loop_of _ _ _ _ _ _ Hrun) as (_ & _ & _ & _ & Hother).
    apply Hother. right. reflexivity.
  - intros m' s' Hrun.
    destruct (dist_reduce_loop_of _ _ _ _ _ _ Hrun) as (_ & _ & _ & _ & Hother).
    split; [| repeat split; apply Hother; right; reflexivity].
    intros k Hl2 Hcos. apply Hother. right.
    unfold untouched_key. now rewrite Hl2, Hcos.
Qed.

Lemma for_each_ext_inv {A X : Type} (f g : A -> X -> option X)
    (P : X -> Prop) l :
  (forall a x, In a l -> P x -> f a x = g a x) ->
  (forall a x x', In a l -> P x -> f a x = Some x' -> P x') ->
  forall x, P x -> for_each f l x = for_each g l x.
Proof.
  induction l as [|a l IH]; intros Hext Hinv x Hx; [reflexivity |].
  cbn [for_each]. rewrite <- (Hext a x (or_introl eq_refl) Hx).
  destruct (f a x) as [y |] eqn:Hy; [| reflexivity].
  apply IH.
  - intros a0 x0 Hin. apply Hext. now right.
  - intros a0 x0 x0' Hin. apply Hinv. now right.
  - exact (Hinv a x y (or_introl eq_refl) Hx Hy).
Qed.

(** For a single worker the last two branches of the loop do the same:
    dividing by the world size changes nothing. *)
Lemma dist_reduce_single_worker passed_over (m : metric_map) (s : machine) :
  get_world_size = 1%Z ->
  for_each (dist_reduce_metric_of passed_over) (keys m) (m, s) =
  for_each (dist_reduce_metric_of (fun _ => true)) (keys m) (m, s).
Proof.
  intros Hone.
  apply (for_each_ext_inv _ _ (fun x => keys (fst x) = keys m)).
  - intros k [m1 s1] Hin Hkeys. cbn [fst] in Hkeys.
    unfold dist_reduce_metric_of.
    destruct (startswith k "l2_norm"); [reflexivity |].
    destruct (startswith k "cosine"); [reflexivity |].
    destruct (passed_over k); [reflexivity |].
    rewrite <- Hkeys in Hin. apply in_keys_get in Hin. destruct Hin as [v Hv].
    rewrite Hv. unfold reduce_if_distributed. rewrite Hone.
    change (1 <? 1)%Z with false. cbv iota beta.
    replace (v / 1) with v by field.
    now rewrite (metric_set_same k v m1 Hv).
  - intros k [m1 s1] [m2 s2] Hin Hkeys Hrun. cbn [fst] in *.
    destruct (dist_reduce_metric_of_inv _ _ _ _ _ _ Hrun)
      as (_ & _ & _ & Hk & _).
    congruence.
  - reflexivity.
Qed.

Lemma skip_round_trip (m : metric_map) (s : machine) :
  get_world_size = 1%Z ->
  well_keyed m -> norms_nonneg m -> siblings_before m ->
  exists m1,
    SkipLion.pre_reduce_metrics m = Some m1
    /\ m1 = map (fun kv => (fst kv, pre_reduced_value m (fst kv) (snd kv))) m
    /\ SkipLion.dist_reduce_metrics m1 s = Some (m, s).
Proof.
  intros Hsingle Hkeys Hnorms Hsib.
  pose proof (siblings_before_present m Hkeys Hsib) as Hpresent.
  set (c := fun metric => contains "l2_norm" metric).
  assert (Hsorted :
            sorted (fun metric => if contains "l2_norm" metric then 0 else 1)%nat
              (keys m) =
            filter c (keys m) ++ filter (fun y => negb (c y)) (keys m)).
  { apply (sorted_partition c). }
  exists (map (fun kv => (fst kv, pre_reduced_value m (fst kv) (snd kv))) m).
  split; [| split; [reflexivity |]].
  - unfold SkipLion.pre_reduce_metrics. rewrite Hsorted.
    pose proof (pre_reduce_loop m Hkeys Hpresent
                  (filter c (keys m) ++ filter (fun y => negb (c y)) (keys m))
                  []) as Hloop.
    rewrite staged_nil in Hloop. cbv beta in Hloop.
    rewrite map_entries_id in Hloop. cbn [app] in Hloop.
    rewrite Hloop.
    + f_equal. apply staged_all.
      intros k Hk. destruct (c k) eqn:Hc; apply in_or_app;
        [left | right]; apply filter_In; split; auto. now rewrite Hc.
    + apply NoDup_app.
      * now apply NoDup_filter.
      * now apply NoDup_filter.
      * intros x H1 H2. apply filter_In in H1, H2.
        destruct H1 as [_ H1], H2 as [_ H2]. rewrite H1 in H2. discriminate.
    + intros k Hk. apply in_app_or in Hk.
      destruct Hk as [Hk | Hk]; apply filter_In in Hk; tauto.
    + intros l1 k l2 A B layer Heq Hl2 Hcos Hsplit.
      assert (Hk : In k (keys m)).
      { assert (Hin : In k (l1 ++ k :: l2))
          by (apply in_or_app; right; now left).
        rewrite <- Heq in Hin. apply in_app_or in Hin.
        destruct Hin as [Hin | Hin]; apply filter_In in Hin; tauto. }
      apply in_split in Hk. destruct Hk as (p1 & p2 & Hp).
      destruct (siblings_before_order m p1 k p2 A B layer Hsib Hp Hl2 Hcos Hsplit)
        as [HA HB].
      split; eapply (partition_keeps_order c (keys m) p1 p2 k); eauto;
        unfold c; apply startswith_contains, l2_norm_key_family.
  - unfold SkipLion.dist_reduce_metrics.
    replace (keys (map (fun kv => (fst kv, pre_reduced_value m (fst kv) (snd kv))) m))
      with (keys m)
      by (unfold keys; rewrite map_map; now apply map_ext).
    pose proof (dist_reduce_loop m Hkeys Hnorms Hpresent Hsingle s (keys m) [])
      as Hloop.
    rewrite staged_nil in Hloop. cbn [app] in Hloop.
    rewrite Hloop.
    + f_equal. f_equal.
      rewrite staged_all by auto. apply map_entries_id.
    + exact Hkeys.
    + auto.
    + intros l1 k l2 A B layer Heq Hl2 Hcos Hsplit.
      now apply (siblings_before_order m l1 k l2 A B layer).
Qed.

(** X16.  For a single worker the five [dist_reduce_metrics] return the
    same map and store on every map, and the five [pre_reduce_metrics]
    are one function; so the round trip of the protocol holds in every
    class: on a map with distinct keys and non-negative norms whose
    cosine keys read [cosine/<A>_<B>/<layer>] and stand after their two
    positive sibling norms, [pre_reduce_metrics] followed by
    [dist_reduce_metrics] returns the map it started from. *)
Theorem variants_round_trip (m : metric_map) (s : machine) :
  get_world_size = 1%Z ->
  (AdaBetaLion.dist_reduce_metrics m s = SkipLion.dist_reduce_metrics m s
   /\ AdaLRLion.dist_reduce_metrics m s = SkipLion.dist_reduce_metrics m s
   /\ ClipLion.dist_reduce_metrics m s = SkipLion.dist_reduce_metrics m s
   /\ FullyAdaptiveLion.dist_reduce_metrics m s
      = SkipLion.dist_reduce_metrics m s)
  /\ (AdaBetaLion.pre_reduce_metrics m = SkipLion.pre_reduce_metrics m
      /\ AdaLRLion.pre_reduce_metrics m = SkipLion.pre_reduce_metrics m
      /\ ClipLion.pre_reduce_metrics m = SkipLion.pre_reduce_metrics m
      /\ FullyAdaptiveLion.pre_reduce_metrics m
         = SkipLion.pre_reduce_metrics m)
  /\ (well_keyed m -> norms_nonneg m -> siblings_before m ->
      (exists m1, AdaBetaLion.pre_reduce_metrics m = Some m1
                  /\ AdaBetaLion.dist_reduce_metrics m1 s = Some (m, s))
      /\ (exists m1, AdaLRLion.pre_reduce_metrics m = Some m1
                     /\ AdaLRLion.dist_reduce_metrics m1 s = Some (m, s))
      /\ (exists m1, ClipLion.pre_reduce_metrics m = Some m1
                     /\ ClipLion.dist_reduce_metrics m1 s = Some (m, s))
      /\ (exists m1, FullyAdaptiveLion.pre_reduce_metrics m = Some m1
                     /\ FullyAdaptiveLion.dist_reduce_metrics m1 s
                        = Some (m, s))).
Proof.
  intros Hone.
  assert (Hagree : forall m0,
             AdaBetaLion.dist_reduce_metrics m0 s
               = SkipLion.dist_reduce_metrics m0 s
             /\ AdaLRLion.dist_reduce_metrics m0 s
                  = SkipLion.dist_reduce_metrics m0 s
             /\ ClipLion.dist_reduce_metrics m0 s
                  = SkipLion.dist_reduce_metrics m0 s
             /\ FullyAdaptiveLion.dist_reduce_metrics m0 s
                  = SkipLion.dist_reduce_metrics m0 s).
  { intros m0. reducer_cases.
    rewrite (dist_reduce_single_worker (fun k => startswith k "skipped_batches"))
      by exact Hone.
    repeat split; try reflexivity;
      now apply dist_reduce_single_worker. }
  assert (Hpre : AdaBetaLion.pre_reduce_metrics m = SkipLion.pre_reduce_metrics m
                 /\ AdaLRLion.pre_reduce_metrics m = SkipLion.pre_reduce_metrics m
                 /\ ClipLion.pre_reduce_metrics m = SkipLion.pre_reduce_metrics m
                 /\ FullyAdaptiveLion.pre_reduce_metrics m
                    = SkipLion.pre_reduce_metrics m).
  { repeat split; reflexivity. }
  split; [apply Hagree |]. split; [exact Hpre |].
  intros Hkeys Hnorms Hsib.
  destruct (skip_round_trip m s Hone Hkeys Hnorms Hsib) as (m1 & Hp & _ & Hd).
  destruct Hpre as (P2 & P3 & P4 & P5).
  destruct (Hagree m1) as (A2 & A3 & A4 & A5).
  repeat split; exists m1; split; congruence.
Qed.

(** ** Keys the reduction cannot read *)

Lemma for_each_fails {A X : Type} (body : A -> X -> option X) (P : X -> Prop)
    l a :
  In a l ->
  (forall x, P x -> body a x = None) ->
  (forall b x x', In b l -> P x -> body b x = Some x' -> P x') ->
  forall x, P x -> for_each body l x = None.
Proof.
  induction l as [|b l IH]; intros Hin Hfail Hinv x Hx; [destruct Hin |].
  cbn [for_each].
  destruct (body b x) as [y |] eqn:Hy; [| reflexivity].
  destruct Hin as [-> | Hin].
  - rewrite (Hfail x Hx) in Hy. discriminate.
  - apply IH; try assumption.
    + intros b0 x0 x0' Hb0. apply Hinv. now right.
    + exact (Hinv b x y (or_introl eq_refl) Hx Hy).
Qed.

Lemma metric_get_none k (m : metric_map) :
  metric_get k m = None <-> ~ In k (keys m).
Proof.
  split.
  - intros Hnone Hin. apply in_keys_get in Hin. destruct Hin as [v Hv].
    congruence.
  - intros Hnin. destruct (metric_get k m) as [v |] eqn:Hv; [| reflexivity].
    exfalso. apply Hnin. now apply (metric_get_keys k m v).
Qed.

Lemma metric_get_same_keys k (m m' : metric_map) :
  keys m' = keys m -> metric_get k m = None -> metric_get k m' = None.
Proof.
  intros Hkeys Hnone. apply metric_get_none. rewrite Hkeys.
  now apply metric_get_none.
Qed.

Lemma in_sorted_keys (m : metric_map) k :
  In k (keys m) ->
  In k (sorted (fun metric => if contains "l2_norm" metric then 0 else 1)%nat
          (keys m)).
Proof.
  intros Hin.
  rewrite (sorted_partition (fun metric => contains "l2_norm" metric)).
  apply in_or_app.
  destruct (contains "l2_norm" k) eqn:Hc; [left | right];
    apply filter_In; split; auto. now rewrite Hc.
Qed.

Lemma unreadable_pre_reduce m k :
  unreadable_cosine m k -> SkipLion.pre_reduce_metrics m = None.
Proof.
  intros (Hin & Hl2 & Hcos & Hbad). unfold SkipLion.pre_reduce_metrics.
  apply (for_each_fails _ (fun x => keys x = keys m) _ k).
  - now apply in_sorted_keys.
  - intros m1 Hkeys. unfold SkipLion.pre_reduce_metric.
    rewrite Hl2, Hcos.
    destruct (SkipLion.split_cosine k) as [[[A B] layer] |]; [| reflexivity].
    destruct Hbad as [Hbad | Hbad];
      rewrite (metric_get_same_keys _ m m1 Hkeys Hbad);
      [reflexivity |].
    now destruct (metric_get (SkipLion.l2_norm_key A layer) m1).
  - intros b m1 m2 _ Hkeys Hrun.
    destruct (pre_reduce_metric_inv _ _ _ Hrun) as (Hk & _). congruence.
  - reflexivity.
Qed.

Lemma unreadable_dist_reduce passed_over m k s :
  unreadable_cosine m k ->
  for_each (dist_reduce_metric_of passed_over) (keys m) (m, s) = None.
Proof.
  intros (Hin & Hl2 & Hcos & Hbad).
  apply (for_each_fails _ (fun x => keys (fst x) = keys m) _ k).
  - exact Hin.
  - intros [m1 s1] Hkeys. cbn [fst] in Hkeys. unfold dist_reduce_metric_of.
    rewrite Hl2, Hcos.
    destruct (metric_get k m1) as [v |]; [| reflexivity].
    destruct (reduce_if_distributed v s1) as [y s2].
    destruct (SkipLion.split_cosine k) as [[[A B] layer] |]; [| reflexivity].
    destruct Hbad as [Hbad | Hbad];
      rewrite (metric_get_same_keys _ m m1 Hkeys Hbad);
      [reflexivity |].
    now destruct (metric_get (SkipLion.l2_norm_key A layer) m1).
  - intros b [m1 s1] [m2 s2] _ Hkeys Hrun. cbn [fst] in *.
    destruct (dist_reduce_metric_of_inv _ _ _ _ _ _ Hrun)
      as (_ & _ & _ & Hk & _).
    congruence.
  - reflexivity.
Qed.

(** X17.  A key of the cosine family makes the whole reduction raise, in
    every class and for any number of workers, when it does not read
    [cosine/<A>_<B>/<layer>] (the unpacking of [split] fails) or when
    one of the keys [l2_norm/<A>/<layer>], [l2_norm/<B>/<layer>] is not
    in the map (the lookup fails): neither [pre_reduce_metrics] nor
    [dist_reduce_metrics] returns a map. *)
Theorem unreadable_cosine_raises (m : metric_map) (k : string) (s : machine) :
  unreadable_cosine m k ->
  SkipLion.pre_reduce_metrics m = None
  /\ SkipLion.dist_reduce_metrics m s = None
  /\ AdaBetaLion.dist_reduce_metrics m s = None
  /\ AdaLRLion.dist_reduce_metrics m s = None
  /\ ClipLion.dist_reduce_metrics m s = None
  /\ FullyAdaptiveLion.dist_reduce_metrics m s = None.
Proof.
  intros Hbad. split; [now apply (unreadable_pre_reduce m k) |].
  reducer_cases.
  repeat split; now apply (unreadable_dist_reduce _ m k).
Qed.


(** ** Layer names and the keys of the reports *)

Lemma split_nonempty sep s : split sep s <> [].
Proof.
  destruct s as [|c s]; cbn [split]; [discriminate |].
  destruct (Ascii.eqb c sep); [discriminate |].
  destruct (split sep s); discriminate.
Qed.

Lemma contains_slash_cons c s :
  contains "/" (String c s) = Ascii.eqb c "/" || contains "/" s.
Proof.
  cbn [contains]. unfold String.prefix. fold String.prefix.
  destruct (ascii_dec "/" c) as [<- | Hne].
  - rewrite Ascii.eqb_refl. now destruct s.
  - destruct (Ascii.eqb_spec c "/"%char) as [-> | _];
      [now contradiction Hne | reflexivity].
Qed.

(** A name without a slash is one piece; a name with one is at least
    two. *)
Lemma split_slash_free name :
  contains "/" name = false -> split "/" name = [name].
Proof.
  induction name as [|c name IH]; [reflexivity |].
  rewrite contains_slash_cons. intros Hc. apply orb_false_iff in Hc.
  destruct Hc as [Hc Hrest]. cbn [split]. rewrite Hc, (IH Hrest). reflexivity.
Qed.

Lemma split_slash name :
  contains "/" name = true ->
  exists piece1 piece2 rest, split "/" name = piece1 :: piece2 :: rest.
Proof.
  induction name as [|c name IH]; [discriminate |].
  rewrite contains_slash_cons. intros Hc. cbn [split].
  destruct (Ascii.eqb c "/") eqn:Hslash.
  - destruct (split "/" name) as [|piece rest] eqn:Hs;
      [now apply split_nonempty in Hs |].
    now exists EmptyString, piece, rest.
  - cbn [orb] in Hc. destruct (IH Hc) as (p1 & p2 & rest & ->).
    now exists (String c p1), p2, rest.
Qed.

Lemma split_cosine_update_grad name :
  (contains "/" name = false ->
   SkipLion.split_cosine ("cosine/update_grad" ++ "/" ++ name)
   = Some ("update", "grad", name)%string)
  /\ (contains "/" name = true ->
      SkipLion.split_cosine ("cosine/update_grad" ++ "/" ++ name) = None).
Proof.
  unfold SkipLion.split_cosine. split; intros Hc.
  - cbn [append split Ascii.eqb Bool.eqb]. rewrite (split_slash_free name Hc).
    reflexivity.
  - destruct (split_slash name Hc) as (p1 & p2 & rest & Hs).
    cbn [append split Ascii.eqb Bool.eqb]. rewrite Hs. reflexivity.
Qed.

Lemma split_cosine_moment_grad name :
  (contains "/" name = false ->
   SkipLion.split_cosine ("cosine/moment_grad" ++ "/" ++ name)
   = Some ("moment", "grad", name)%string)
  /\ (contains "/" name = true ->
      SkipLion.split_cosine ("cosine/moment_grad" ++ "/" ++ name) = None).
Proof.
  unfold SkipLion.split_cosine. split; intros Hc.
  - cbn [append split Ascii.eqb Bool.eqb]. rewrite (split_slash_free name Hc).
    reflexivity.
  - destruct (split_slash name Hc) as (p1 & p2 & rest & Hs).
    cbn [append split Ascii.eqb Bool.eqb]. rewrite Hs. reflexivity.
Qed.

(** ** What the reports compute *)

(** The work tensor of [report_per_parameter_metrics]: a clone of the
    momentum, interpolated towards the gradient, replaced by its signs,
    scaled by [lr], and shifted by [alpha] times the parameter. *)
Lemma report_work_tensor exp_avg g p beta1 lr alpha s :
  let step := fst (torch.clone exp_avg s) in
  let sf :=
    torch.add_ step p alpha
      (torch.mul_ step lr
         (torch.sign_ step
            (torch.lerp_ step g (1 - beta1) (snd (torch.clone exp_avg s))))) in
  step = next_ref s /\ next_ref sf = S (next_ref s) /\ calls sf = calls s
  /\ (forall r, (r < next_ref s)%nat -> cell sf r = cell s r)
  /\ ((g < next_ref s)%nat -> (p < next_ref s)%nat ->
      cell sf step =
        zip_with (fun u x => u + alpha * x)
          (map (fun m => sign_val m * lr)
             (zip_with (fun m y => lerp_val m y (1 - beta1))
                (cell s exp_avg) (cell s g)))
          (cell s p)).
Proof.
  intros step sf. subst step sf.
  unfold torch.clone, torch.add_, torch.mul_, torch.sign_, torch.lerp_,
    alloc, write.
  cbn [fst snd cell next_ref calls].
  split; [reflexivity |]. split; [reflexivity |]. split; [reflexivity |].
  split.
  - intros r Hr. eqb_cases. reflexivity.
  - intros Hg Hp. rewrite !Nat.eqb_refl.
    destruct (Nat.eqb_spec g (next_ref s)); [lia |].
    destruct (Nat.eqb_spec p (next_ref s)); [lia |].
    now rewrite map_map.
Qed.

Ltac other_key :=
  rewrite metric_get_set_other
    by (let H := fresh in intros H; cbn in H; discriminate H).

(** X18.  What [report_per_parameter_metrics] of SkipLion writes for a
    parameter with state and gradient.  The call returns, and under the
    seven keys the map holds: the norms of the momentum, of the
    parameter, of the gradient; the counter; the norm of the work tensor
    [lr * sign (lerp (exp_avg, grad, 1 - beta1))
     - weight_decay * decay_factor * param] and its cosine with the
    gradient; and the cosine of momentum and gradient.  All of them are
    computed from the tensors as they were before the call, with the
    [beta1] and [lr] of the first parameter group. *)
Theorem report_contents (self : @SkipLion.t D) (prm : param) (name : string)
    (optimizer_metrics : metric_map) (s : machine) group0 groups state g :
  SkipLion.param_groups self = group0 :: groups ->
  SkipLion.state self (data prm) = Some state ->
  grad prm = Some g ->
  (data prm < next_ref s)%nat -> (g < next_ref s)%nat ->
  (SkipLion.exp_avg state < next_ref s)%nat ->
  (SkipLion.skipped_batches state < next_ref s)%nat ->
  let decay_factor :=
    if Req_dec_T (initial_lr group0) 0 then 1
    else lr group0 / initial_lr group0 in
  let step_tensor :=
    zip_with (fun u x => u + - weight_decay group0 * decay_factor * x)
      (map (fun m => sign_val m * lr group0)
         (zip_with (fun m y => lerp_val m y (1 - fst (betas group0)))
            (cell s (SkipLion.exp_avg state)) (cell s g)))
      (cell s (data prm)) in
  exists om' s',
    SkipLion.report_per_parameter_metrics self prm name optimizer_metrics s
      = Some (om', s')
    /\ metric_get ("l2_norm/moment/" ++ name)%string om'
       = Some (torch.vector_norm (cell s (SkipLion.exp_avg state)))
    /\ metric_get ("l2_norm/param/" ++ name)%string om'
       = Some (torch.vector_norm (cell s (data prm)))
    /\ metric_get ("l2_norm/update/" ++ name)%string om'
       = Some (torch.vector_norm step_tensor)
    /\ metric_get ("l2_norm/grad/" ++ name)%string om'
       = Some (torch.vector_norm (cell s g))
    /\ metric_get ("cosine/update_grad/" ++ name)%string om'
       = Some (cosine_similarity (cell s g) step_tensor)
    /\ metric_get ("cosine/moment_grad/" ++ name)%string om'
       = Some (cosine_similarity (cell s g) (cell s (SkipLion.exp_avg state)))
    /\ metric_get ("skipped_batches/" ++ name)%string om'
       = Some (item (cell s (SkipLion.skipped_batches state))).
Proof.
  intros Hgroups Hstate Hgrad Hp Hg He Hc decay_factor step_tensor.
  unfold SkipLion.report_per_parameter_metrics.
  rewrite Hgroups, Hstate, Hgrad.
  destruct (betas group0) as [beta1 beta2]. cbn [fst] in step_tensor.
  destruct (report_work_tensor (SkipLion.exp_avg state) g (data prm) beta1
              (lr group0) (- weight_decay group0 * decay_factor) s)
    as (Hstep & _ & _ & Hold & Hwork).
  specialize (Hwork Hg Hp). fold step_tensor in Hwork.
  destruct (torch.clone (SkipLion.exp_avg state) s) as [step s1].
  cbn [fst snd] in Hstep, Hold, Hwork. fold decay_factor.
  set (sf := torch.add_ _ _ _ _) in *.
  unfold SkipLion.metric_functions. cbn [for_each fst snd]. rewrite Hgrad.
  eexists _, _. split; [reflexivity |].
  rewrite Hwork.
  rewrite (Hold (data prm)), (Hold g), (Hold (SkipLion.exp_avg state)),
    (Hold (SkipLion.skipped_batches state)) by assumption.
  repeat split; cbn [append];
    repeat first [ apply metric_get_set_same | other_key ].
Qed.

(** X19.  The tensor whose norm is reported as [l2_norm/update] against
    the update [lionw] makes with the same [lr], [initial_lr],
    [weight_decay] and [beta1].  [lionw] takes
    [lr * sign + weight_decay * decay_factor * param] off the parameter;
    the report builds [lr * sign - weight_decay * decay_factor * param].
    Without weight decay the two are the same tensor; in general they
    differ, element by element, by
    [2 * weight_decay * decay_factor * param]. *)
Theorem report_update_vs_step p grad exp_avg lr initial_lr wd beta1 beta2
    alpha s :
  p <> grad -> p <> exp_avg ->
  (p < next_ref s)%nat -> (grad < next_ref s)%nat ->
  (exp_avg < next_ref s)%nat ->
  length (cell s grad) = length (cell s p) ->
  length (cell s exp_avg) = length (cell s p) ->
  let decay_factor := if Req_dec_T initial_lr 0 then 1 else lr / initial_lr in
  alpha = - wd * decay_factor ->
  let step_tensor := fst (torch.clone exp_avg s) in
  let reported :=
    cell
      (torch.add_ step_tensor p alpha
         (torch.mul_ step_tensor lr
            (torch.sign_ step_tensor
               (torch.lerp_ step_tensor grad (1 - beta1)
                  (snd (torch.clone exp_avg s))))))
      step_tensor in
  let stepped := cell (lionw p grad exp_avg lr initial_lr wd beta1 beta2 s) p in
  length reported = length (cell s p)
  /\ length stepped = length (cell s p)
  /\ (forall i, (i < length (cell s p))%nat ->
        nth i reported 0 - (nth i (cell s p) 0 - nth i stepped 0)
        = - (2 * wd * decay_factor * nth i (cell s p) 0))
  /\ (wd = 0 ->
      reported = zip_with (fun x x' => x - x') (cell s p) stepped).
Proof.
  intros Hpg Hpm Hp Hg Hm Lg Lm decay_factor Halpha step_tensor reported
    stepped.
  destruct (report_work_tensor exp_avg grad p beta1 lr alpha s)
    as (_ & _ & _ & _ & Hwork).
  specialize (Hwork Hg Hp). fold step_tensor in Hwork. fold reported in Hwork.
  destruct (lionw_cells p grad exp_avg lr initial_lr wd beta1 beta2 s
              Hpg Hpm Hp Hg Hm) as (Hcp & _).
  fold stepped in Hcp.
  unfold SignMomentumUpdate.new_parameter, SignMomentumUpdate.update in Hcp.
  set (mix := zip_with (fun m y => lerp_val m y (1 - beta1))
                (cell s exp_avg) (cell s grad)) in *.
  assert (Lmix : length mix = length (cell s p)).
  { unfold mix. rewrite length_zip_with; congruence. }
  assert (Hsigns : zip_with (fun m g0 => sign_val (lerp_val m g0 (1 - beta1)))
                     (cell s exp_avg) (cell s grad) = map sign_val mix).
  { unfold mix. now rewrite map_zip_with. }
  rewrite Hsigns in Hcp.
  assert (Hscale : SignMomentumUpdate.decay_scale lr initial_lr wd
                   = 1 - decay_factor * wd).
  { unfold SignMomentumUpdate.decay_scale. subst decay_factor.
    destruct (Req_dec_T wd 0) as [-> | _]; [ring |].
    destruct (Req_dec_T initial_lr 0); ring. }
  rewrite Hscale in Hcp.
  assert (Lrep : length reported = length (cell s p)).
  { rewrite Hwork, length_zip_with; rewrite length_map; congruence. }
  assert (Lstep : length stepped = length (cell s p)).
  { rewrite Hcp, length_zip_with; [reflexivity |].
    rewrite length_map. congruence. }
  split; [exact Lrep |]. split; [exact Lstep |].
  assert (Hnth : forall i, (i < length (cell s p))%nat ->
             nth i reported 0
               = sign_val (nth i mix 0) * lr + alpha * nth i (cell s p) 0
             /\ nth i stepped 0
                = (1 - decay_factor * wd) * nth i (cell s p) 0
                  - lr * sign_val (nth i mix 0)).
  { intros i Hi. split.
    - rewrite Hwork.
      rewrite (nth_zip_with _ _ _ i 0 (sign_val 0 * lr) 0)
        by (rewrite ?length_map; congruence).
      now rewrite (map_nth (fun m => sign_val m * lr)).
    - rewrite Hcp.
      rewrite (nth_zip_with _ _ _ i 0 0 (sign_val 0))
        by (rewrite ?length_map; congruence).
      now rewrite (map_nth sign_val). }
  split.
  - intros i Hi. destruct (Hnth i Hi) as [-> ->]. rewrite Halpha. ring.
  - intros Hwd.
    apply (nth_ext _ _ 0 0).
    + rewrite length_zip_with; congruence.
    + intros i Hi. rewrite Lrep in Hi.
      rewrite (nth_zip_with _ _ _ i 0 0 0) by congruence.
      destruct (Hnth i Hi) as [-> ->]. rewrite Halpha, Hwd. ring.
Qed.

(** ** [pre_reduce_metrics] without assumptions on the values *)

Lemma math_sqrt_sq_abs x : math_sqrt (x ^ 2) = Some (Rabs x).
Proof.
  rewrite math_sqrt_nonneg by apply pow2_ge_0.
  f_equal. replace (x ^ 2) with (Rsqr x) by (unfold Rsqr; ring).
  apply sqrt_Rsqr_abs.
Qed.

Lemma pre_reduce_loop_abs (m : metric_map) (Hkeys : well_keyed m) rest :
  forall done,
  NoDup (done ++ rest) ->
  (forall k, In k rest -> In k (keys m)) ->
  (forall l1 k l2,
      done ++ rest = l1 ++ k :: l2 ->
      startswith k "l2_norm" = false -> startswith k "cosine" = true ->
      exists A B layer,
        SkipLion.split_cosine k = Some (A, B, layer)
        /\ In (SkipLion.l2_norm_key A layer) l1
        /\ In (SkipLion.l2_norm_key B layer) l1
        /\ In (SkipLion.l2_norm_key A layer) (keys m)
        /\ In (SkipLion.l2_norm_key B layer) (keys m)) ->
  for_each SkipLion.pre_reduce_metric rest
    (staged (fun _ v => v) (pre_reduced_abs m) done m) =
  Some (staged (fun _ v => v) (pre_reduced_abs m) (done ++ rest) m).
Proof.
  induction rest as [|k rest IH]; intros done Hnd Hin Hord.
  - now rewrite app_nil_r.
  - cbn [for_each].
    assert (Hk : ~ In k done).
    { apply NoDup_remove_2 in Hnd. intros Hd. apply Hnd, in_or_app. now left. }
    destruct (in_keys_get k m (Hin k (or_introl eq_refl))) as [v Hv].
    assert (Hstep : SkipLion.pre_reduce_metric k
                      (staged (fun _ v => v) (pre_reduced_abs m) done m) =
                    Some (staged (fun _ v => v) (pre_reduced_abs m)
                            (done ++ [k]) m)).
    { unfold SkipLion.pre_reduce_metric.
      rewrite !metric_get_staged, Hv.
      destruct (in_dec string_dec k done) as [Hd | _]; [contradiction |].
      destruct (startswith k "l2_norm") eqn:Hl2.
      - rewrite <- (metric_set_staged (fun _ v => v) (pre_reduced_abs m)
                      done m k v) by assumption.
        unfold pre_reduced_abs at 2. now rewrite Hl2.
      - destruct (startswith k "cosine") eqn:Hcos.
        + destruct (Hord done k rest eq_refl Hl2 Hcos)
            as (A & B & layer & Hsplit & HA & HB & HAm & HBm).
          destruct (in_keys_get _ m HAm) as [a Ha].
          destruct (in_keys_get _ m HBm) as [b Hb].
          rewrite Hsplit. rewrite !metric_get_staged, Ha, Hb.
          destruct (in_dec string_dec (SkipLion.l2_norm_key A layer) done)
            as [_ | Hn]; [| contradiction].
          destruct (in_dec string_dec (SkipLion.l2_norm_key B layer) done)
            as [_ | Hn]; [| contradiction].
          unfold pre_reduced_abs at 1 2.
          rewrite !l2_norm_key_family.
          rewrite !math_sqrt_sq_abs.
          rewrite <- (metric_set_staged (fun _ v => v) (pre_reduced_abs m)
                        done m k v) by assumption.
          unfold pre_reduced_abs at 2.
          now rewrite Hl2, Hcos, Hsplit, Ha, Hb.
        + f_equal. apply (staged_skip _ _ _ _ k v); try assumption.
          unfold pre_reduced_abs. now rewrite Hl2, Hcos. }
    rewrite Hstep.
    replace (done ++ k :: rest) with ((done ++ [k]) ++ rest)
      by (now rewrite <- app_assoc).
    apply IH.
    + now rewrite <- app_assoc.
    + intros k' Hk'. apply Hin. now right.
    + intros l1 k' l2 Heq. apply (Hord l1 k' l2).
      now rewrite <- app_assoc in Heq.
Qed.

Lemma pre_reduce_abs (m : metric_map) :
  well_keyed m -> siblings_stand_before m ->
  SkipLion.pre_reduce_metrics m =
  Some (map (fun kv => (fst kv, pre_reduced_abs m (fst kv) (snd kv))) m).
Proof.
  intros Hkeys Hsib.
  set (c := fun metric => contains "l2_norm" metric).
  unfold SkipLion.pre_reduce_metrics.
  rewrite (sorted_partition c).
  pose proof (pre_reduce_loop_abs m Hkeys
                (filter c (keys m) ++ filter (fun y => negb (c y)) (keys m))
                []) as Hloop.
  rewrite staged_nil in Hloop. cbv beta in Hloop.
  rewrite map_entries_id in Hloop. cbn [app] in Hloop.
  rewrite Hloop.
  - f_equal. apply staged_all.
    intros k Hk. destruct (c k) eqn:Hc; apply in_or_app;
      [left | right]; apply filter_In; split; auto. now rewrite Hc.
  - apply NoDup_app.
    + now apply NoDup_filter.
    + now apply NoDup_filter.
    + intros x H1 H2. apply filter_In in H1, H2.
      destruct H1 as [_ H1], H2 as [_ H2]. rewrite H1 in H2. discriminate.
  - intros k Hk. apply in_app_or in Hk.
    destruct Hk as [Hk | Hk]; apply filter_In in Hk; tauto.
  - intros l1 k l2 Heq Hl2 Hcos.
    assert (Hk : In k (keys m)).
    { assert (Hin : In k (l1 ++ k :: l2))
        by (apply in_or_app; right; now left).
      rewrite <- Heq in Hin. apply in_app_or in Hin.
      destruct Hin as [Hin | Hin]; apply filter_In in Hin; tauto. }
    apply in_split in Hk. destruct Hk as (p1 & p2 & Hp).
    destruct (keys_split m p1 k p2 Hp) as (before & v & after & Hm & Hb).
    destruct (Hsib before k v after Hm Hl2 Hcos)
      as (A & B & layer & Hsplit & HA & HB).
    rewrite Hb in HA, HB.
    exists A, B, layer. split; [exact Hsplit |].
    assert (Hin_m : forall sib, In sib p1 -> In sib (keys m)).
    { intros sib Hs. rewrite Hp. apply in_or_app. now left. }
    repeat split; auto;
      eapply (partition_keeps_order c (keys m) p1 p2 k); eauto;
      unfold c; apply startswith_contains, l2_norm_key_family.
Qed.

(** X20.  [pre_reduce_metrics] needs nothing of the values.  On a map
    with distinct keys in which every cosine key reads
    [cosine/<A>_<B>/<layer>] and stands after its two sibling norms, it
    returns, in every class: the norms are squared before any root is
    taken, so [math.sqrt] never sees a negative number.  The result has
    every l2_norm value squared and every cosine multiplied by the
    absolute values of its two norms; all other entries are as they
    were. *)
Theorem pre_reduce_values (m : metric_map) :
  well_keyed m -> siblings_stand_before m ->
  let squared :=
    map (fun kv => (fst kv, pre_reduced_abs m (fst kv) (snd kv))) m in
  SkipLion.pre_reduce_metrics m = Some squared
  /\ AdaBetaLion.pre_reduce_metrics m = Some squared
  /\ AdaLRLion.pre_reduce_metrics m = Some squared
  /\ ClipLion.pre_reduce_metrics m = Some squared
  /\ FullyAdaptiveLion.pre_reduce_metrics m = Some squared
  /\ (forall k v, metric_get k m = Some v ->
        metric_get k squared = Some (pre_reduced_abs m k v))
  /\ (forall k v, startswith k "l2_norm" = true ->
        metric_get k m = Some v -> metric_get k squared = Some (v ^ 2))
  /\ (forall k v, startswith k "l2_norm" = false ->
        startswith k "cosine" = false ->
        metric_get k m = Some v -> metric_get k squared = Some v).
Proof.
  intros Hkeys Hsib squared.
  pose proof (pre_reduce_abs m Hkeys Hsib) as Hpre. fold squared in Hpre.
  assert (Hget : forall k v, metric_get k m = Some v ->
             metric_get k squared = Some (pre_reduced_abs m k v)).
  { intros k v Hv. subst squared.
    rewrite <- (staged_all (fun _ v => v) (pre_reduced_abs m) (keys m) m)
      by auto.
    rewrite metric_get_staged, Hv.
    destruct (in_dec string_dec k (keys m)) as [_ | Hn]; [reflexivity |].
    exfalso. apply Hn. now apply (metric_get_keys k m v). }
  split; [exact Hpre |]. repeat (split; [exact Hpre |]).
  split; [exact Hget |]. split.
  - intros k v Hl2 Hv. rewrite (Hget k v Hv).
    unfold pre_reduced_abs. now rewrite Hl2.
  - intros k v Hl2 Hcos Hv. rewrite (Hget k v Hv).
    unfold pre_reduced_abs. now rewrite Hl2, Hcos.
Qed.

(** ** The values [dist_reduce_metrics] leaves *)

Lemma dist_reduce_metric_of_value passed_over k m s m' s' v :
  dist_reduce_metric_of passed_over k (m, s) = Some (m', s') ->
  metric_get k m = Some v ->
  (startswith k "l2_norm" = true ->
     0 <= reduced_value v (calls s)
     /\ metric_get k m' = Some (sqrt (reduced_value v (calls s))))
  /\ (startswith k "l2_norm" = false -> startswith k "cosine" = true ->
      exists A B layer a b,
        SkipLion.split_cosine k = Some (A, B, layer)
        /\ metric_get (SkipLion.l2_norm_key A layer) m = Some a
        /\ metric_get (SkipLion.l2_norm_key B layer) m = Some b
        /\ metric_get k m' = Some (reduced_value v (calls s) / (a * b)))
  /\ (startswith k "l2_norm" = false -> startswith k "cosine" = false ->
      passed_over k = false ->
      metric_get k m' =
      Some (reduced_value v (calls s) / IZR get_world_size)).
Proof.
  unfold dist_reduce_metric_of. intros Hrun Hv. rewrite Hv in Hrun.
  destruct (reduce_if_distributed_machine v s) as (_ & _ & _ & Hval).
  destruct (reduce_if_distributed v s) as [y s1]. cbn [fst] in Hval.
  subst y.
  destruct (startswith k "l2_norm") eqn:Hl2.
  - unfold math_sqrt in Hrun.
    destruct (Rlt_dec (reduced_value v (calls s)) 0) as [Hneg | Hpos];
      [discriminate |].
    inversion Hrun; subst m' s'. clear Hrun.
    split; [| split; intros; discriminate].
    intros _. split; [lra | apply metric_get_set_same].
  - destruct (startswith k "cosine") eqn:Hcos.
    + destruct (SkipLion.split_cosine k) as [[[A B] layer] |];
        [| discriminate].
      destruct (metric_get (SkipLion.l2_norm_key A layer) m) as [a |] eqn:Ha;
        [| discriminate].
      destruct (metric_get (SkipLion.l2_norm_key B layer) m) as [b |] eqn:Hb;
        [| discriminate].
      inversion Hrun; subst m' s'. clear Hrun.
      split; [intros; discriminate |]. split; [| intros; discriminate].
      intros _ _. exists A, B, layer, a, b.
      split; [reflexivity |]. split; [exact Ha |]. split; [exact Hb |].
      apply metric_get_set_same.
    + split; [intros; discriminate |]. split; [intros; discriminate |].
      intros _ _ Hpo. rewrite Hpo in Hrun.
      inversion Hrun; subst m' s'. apply metric_get_set_same.
Qed.

Lemma dist_reduce_values_of passed_over (m : metric_map) s m' s' :
  well_keyed m ->
  for_each (dist_reduce_metric_of passed_over) (keys m) (m, s) =
    Some (m', s') ->
  forall before k v after, m = before ++ (k, v) :: after ->
  let c := (calls s
            + collectives
                (length (filter (reduced_key passed_over) (keys before))))%nat
  in
  let at_turn sib :=
    if in_dec string_dec sib (keys before)
    then metric_get sib m' else metric_get sib m in
  (startswith k "l2_norm" = true ->
     0 <= reduced_value v c
     /\ metric_get k m' = Some (sqrt (reduced_value v c)))
  /\ (startswith k "l2_norm" = false -> startswith k "cosine" = true ->
      exists A B layer a b,
        SkipLion.split_cosine k = Some (A, B, layer)
        /\ at_turn (SkipLion.l2_norm_key A layer) = Some a
        /\ at_turn (SkipLion.l2_norm_key B layer) = Some b
        /\ metric_get k m' = Some (reduced_value v c / (a * b)))
  /\ (startswith k "l2_norm" = false -> startswith k "cosine" = false ->
      passed_over k = false ->
      metric_get k m' = Some (reduced_value v c / IZR get_world_size))
  /\ (untouched_key passed_over k = true -> metric_get k m' = Some v).
Proof.
  intros Hkeys Hloop before k v after Hm c at_turn.
  assert (Hks : keys m = keys before ++ k :: keys after).
  { rewrite Hm. unfold keys. now rewrite map_app. }
  unfold well_keyed in Hkeys. rewrite Hks in Hkeys, Hloop.
  assert (Hnb : ~ In k (keys before)).
  { apply NoDup_remove_2 in Hkeys. intros Hin. apply Hkeys, in_or_app.
    now left. }
  assert (Hna : ~ In k (keys after)).
  { apply NoDup_remove_2 in Hkeys. intros Hin. apply Hkeys, in_or_app.
    now right. }
  assert (Hv : metric_get k m = Some v).
  { rewrite Hm. now apply metric_get_middle. }
  rewrite for_each_app in Hloop.
  destruct (for_each (dist_reduce_metric_of passed_over) (keys before) (m, s))
    as [[m1 s1] |] eqn:H1; [| discriminate].
  cbn [for_each] in Hloop.
  destruct (dist_reduce_metric_of passed_over k (m1, s1)) as [[m2 s2] |]
    eqn:H2; [| discriminate].
  destruct (dist_reduce_loop_of _ _ _ _ _ _ H1) as (_ & _ & Hc1 & _ & Ho1).
  destruct (dist_reduce_metric_of_inv _ _ _ _ _ _ H2)
    as (_ & _ & _ & _ & Ho2 & Hu2).
  destruct (dist_reduce_loop_of _ _ _ _ _ _ Hloop) as (_ & _ & _ & _ & Ho3).
  assert (Hv1 : metric_get k m1 = Some v) by (rewrite Ho1; auto).
  assert (Hfinal : metric_get k m' = metric_get k m2) by (apply Ho3; auto).
  assert (Hsib : forall sib, sib <> k ->
             metric_get sib m1 = at_turn sib).
  { intros sib Hne. unfold at_turn.
    destruct (in_dec string_dec sib (keys before)) as [Hin | Hnin].
    - rewrite Ho3, Ho2; auto. left. intros Hin'.
      apply NoDup_remove_1 in Hkeys.
      assert (Hd : NoDup (keys before ++ keys after)) by exact Hkeys.
      revert Hd Hin Hin'. clear. intros Hd Hin Hin'.
      induction (keys before) as [|x l IH]; [contradiction |].
      cbn [app] in Hd. inversion Hd as [| ? ? Hx Hd']; subst.
      destruct Hin as [-> | Hin].
      + apply Hx, in_or_app. now right.
      + now apply IH.
    - apply Ho1. now left. }
  destruct (dist_reduce_metric_of_value _ _ _ _ _ _ _ H2 Hv1)
    as (Hl2 & Hcos & Hrest).
  fold c in Hc1. rewrite Hc1 in Hl2, Hcos, Hrest. rewrite Hfinal.
  split; [exact Hl2 |]. split; [| split; [exact Hrest |]].
  - intros Hn Hc. destruct (Hcos Hn Hc)
      as (A & B & layer & a & b & Hsplit & Ha & Hb & Hval).
    exists A, B, layer, a, b. split; [exact Hsplit |].
    assert (Hne : forall X, SkipLion.l2_norm_key X layer <> k).
    { intros X Heq. rewrite <- Heq, l2_norm_key_family in Hn. discriminate. }
    rewrite <- !Hsib by apply Hne. auto.
  - intros Hun. rewrite (Hu2 Hun). exact Hv1.
Qed.

(** X21.  What [dist_reduce_metrics] leaves under each key when it
    returns, in each of the five classes, on a map with distinct keys.
    The value of a key is reduced with the collective call whose number
    is fixed by the keys that stand before it.  An l2_norm key ends as
    the square root of its reduced value, which was not negative; a key
    outside the two families that is not passed over ends as its
    reduced value divided by the world size; a key that is passed over
    keeps its value.  A cosine key ends as its reduced value divided by
    the product of its two sibling norms as they are at its turn: the
    final value of a sibling that stands before it, the value that came
    in for a sibling that stands after it. *)
Theorem dist_reduce_values (m : metric_map) (s : machine) :
  well_keyed m ->
  let values passed_over (result : option (metric_map * machine)) :=
    forall m' s', result = Some (m', s') ->
    forall before k v after, m = before ++ (k, v) :: after ->
    let c := (calls s
              + collectives
                  (length (filter (reduced_key passed_over) (keys before))))%nat
    in
    let at_turn sib :=
      if in_dec string_dec sib (keys before)
      then metric_get sib m' else metric_get sib m in
    (startswith k "l2_norm" = true ->
       0 <= reduced_value v c
       /\ metric_get k m' = Some (sqrt (reduced_value v c)))
    /\ (startswith k "l2_norm" = false -> startswith k "cosine" = true ->
        exists A B layer a b,
          SkipLion.split_cosine k = Some (A, B, layer)
          /\ at_turn (SkipLion.l2_norm_key A layer) = Some a
          /\ at_turn (SkipLion.l2_norm_key B layer) = Some b
          /\ metric_get k m' = Some (reduced_value v c / (a * b)))
    /\ (startswith k "l2_norm" = false -> startswith k "cosine" = false ->
        passed_over k = false ->
        metric_get k m' = Some (reduced_value v c / IZR get_world_size))
    /\ (untouched_key passed_over k = true -> metric_get k m' = Some v)
  in
  values (fun k => startswith k "skipped_batches")
    (SkipLion.dist_reduce_metrics m s)
  /\ values (fun k => startswith k "beta")
       (AdaBetaLion.dist_reduce_metrics m s)
  /\ values (fun k => startswith k "layerwise_lr")
       (AdaLRLion.dist_reduce_metrics m s)
  /\ values (fun k => startswith k "clipped_batches")
       (ClipLion.dist_reduce_metrics m s)
  /\ values (fun _ => true) (FullyAdaptiveLion.dist_reduce_metrics m s).
Proof.
  intros Hkeys values. subst values. cbv beta.
  reducer_cases.
  split; [| split; [| split; [| split]]];
    intros m' s' Hrun before k v after Hm;
    exact (dist_reduce_values_of _ m s m' s' Hkeys Hrun before k v after Hm).
Qed.

(** ** From the report to the reduction *)

(** The map the report builds from an empty one. *)
Lemma report_map_shape name v1 v2 v3 v4 v5 v6 v7 :
  metric_set ("skipped_batches/" ++ name) v7
    (metric_set ("cosine/moment_grad" ++ "/" ++ name) v6
       (metric_set ("cosine/update_grad" ++ "/" ++ name) v5
          (metric_set ("l2_norm/grad" ++ "/" ++ name) v4
             (metric_set ("l2_norm/update" ++ "/" ++ name) v3
                (metric_set ("l2_norm/param" ++ "/" ++ name) v2
                   (metric_set ("l2_norm/moment" ++ "/" ++ name) v1 []))))))
  = [ (("l2_norm/moment" ++ "/" ++ name)%string, v1);
      (("l2_norm/param" ++ "/" ++ name)%string, v2);
      (("l2_norm/update" ++ "/" ++ name)%string, v3);
      (("l2_norm/grad" ++ "/" ++ name)%string, v4);
      (("cosine/update_grad" ++ "/" ++ name)%string, v5);
      (("cosine/moment_grad" ++ "/" ++ name)%string, v6);
      (("skipped_batches/" ++ name)%string, v7) ].
Proof. reflexivity. Qed.

Lemma reported_keys_distinct name : NoDup (reported_keys name).
Proof.
  unfold reported_keys.
  repeat constructor; cbn [In append]; intros Hin;
    repeat (destruct Hin as [Hin | Hin]; [discriminate Hin |]);
    exact Hin.
Qed.

(** X22.  The map [report_per_parameter_metrics] of SkipLion builds for
    one parameter, and what the reduction makes of it.  From an empty
    map the report leaves exactly the seven keys, in the order of
    [metric_functions] with the counter last.  If the name of the layer
    has no slash, [pre_reduce_metrics] returns on that map, with the
    four norms squared and each cosine scaled by its two norms.  If the
    name has a slash, both [pre_reduce_metrics] and
    [dist_reduce_metrics] raise on it: the cosine keys no longer split
    into three pieces. *)
Theorem report_feeds_reduction (self : @SkipLion.t D) (prm : param)
    (name : string) (s : machine) group0 groups state g :
  SkipLion.param_groups self = group0 :: groups ->
  SkipLion.state self (data prm) = Some state ->
  grad prm = Some g ->
  exists om' s',
    SkipLion.report_per_parameter_metrics self prm name [] s = Some (om', s')
    /\ keys om' = reported_keys name
    /\ (contains "/" name = false ->
        SkipLion.pre_reduce_metrics om' =
        Some (map (fun kv => (fst kv, pre_reduced_abs om' (fst kv) (snd kv)))
                om'))
    /\ (contains "/" name = true ->
        SkipLion.pre_reduce_metrics om' = None
        /\ SkipLion.dist_reduce_metrics om' s' = None).
Proof.
  intros Hgroups Hstate Hgrad.
  unfold SkipLion.report_per_parameter_metrics.
  rewrite Hgroups, Hstate, Hgrad.
  destruct (betas group0) as [beta1 beta2].
  destruct (torch.clone (SkipLion.exp_avg state) s) as [step s1].
  set (sf := torch.add_ _ _ _ _).
  unfold SkipLion.metric_functions. cbn [for_each fst snd]. rewrite Hgrad.
  rewrite report_map_shape.
  eexists _, _. split; [reflexivity |].
  set (v1 := torch.vector_norm (cell sf (SkipLion.exp_avg state))).
  set (v2 := torch.vector_norm (cell sf (data prm))).
  set (v3 := torch.vector_norm (cell sf step)).
  set (v4 := torch.vector_norm (cell sf g)).
  set (v5 := cosine_similarity (cell sf g) (cell sf step)).
  set (v6 := cosine_similarity (cell sf g) (cell sf (SkipLion.exp_avg state))).
  set (v7 := item (cell sf (SkipLion.skipped_batches state))).
  set (om := [_; _; _; _; _; _; _]).
  assert (Hkeys : keys om = reported_keys name) by reflexivity.
  split; [exact Hkeys |]. split.
  - intros Hfree.
    destruct (split_cosine_update_grad name) as [Hu _].
    destruct (split_cosine_moment_grad name) as [Hm _].
    specialize (Hu Hfree). specialize (Hm Hfree).
    apply pre_reduce_abs.
    + unfold well_keyed. rewrite Hkeys. apply reported_keys_distinct.
    + intros before metric v after Hom Hl2 Hcos.
      subst om.
      destruct before as [|e1 [|e2 [|e3 [|e4 [|e5 [|e6 [|e7 [|e8 before]]]]]]]];
        inversion Hom; subst; try discriminate Hl2; try discriminate Hcos.
      * exists "update"%string, "grad"%string, name.
        split; [exact Hu |]. cbn. tauto.
      * exists "moment"%string, "grad"%string, name.
        split; [exact Hm |]. cbn. tauto.
  - intros Hslash.
    destruct (split_cosine_update_grad name) as [_ Hu].
    specialize (Hu Hslash).
    assert (Hbad : unreadable_cosine om
                     ("cosine/update_grad" ++ "/" ++ name)%string).
    { split; [rewrite Hkeys; unfold reported_keys; cbn [In]; tauto |].
      split; [reflexivity |]. split; [reflexivity |].
      now rewrite Hu. }
    split.
    + now apply (unreadable_pre_reduce om _ Hbad).
    + unfold SkipLion.dist_reduce_metrics.
      destruct dist_reduce_metric_shape as (Hs1 & _). rewrite Hs1.
      now apply (unreadable_dist_reduce _ om _ sf Hbad).
Qed.

(** ** The report after a step *)

Lemma item_scalar_tensor x s :
  item (cell (snd (torch.scalar_tensor x s)) (fst (torch.scalar_tensor x s)))
  = x.
Proof.
  unfold torch.scalar_tensor, alloc, item. cbn [fst snd cell].
  now rewrite Nat.eqb_refl.
Qed.

(** X23.  The learning rate AdaLRLion reports is the one its last step
    used.  After the step on a parameter of the first group, with the
    optimizer holding the state the step left,
    [report_per_parameter_metrics] returns on any store, and the entry
    [layerwise_lr/<name>] is the learning rate with which the step
    called [lionw]. *)
Theorem adalr_report_after_step (self : AdaLRLion.t) (group : param_group)
    (groups : list param_group) (p : param) (g : ref)
    (st : id_map AdaLRLion.state_t) (s : machine) (name : string)
    (optimizer_metrics : metric_map) :
  AdaLRLion.param_groups self = group :: groups ->
  grad p = Some g ->
  collective_ok s ->
  let state0 := fst (AdaLRLion.init_state self p st s) in
  let s0 := snd (AdaLRLion.init_state self p st s) in
  exists obs s1 st' s' lr',
    moment_norm (AdaLRLion.exp_avg state0) g (snd (betas group)) s0
      = Some (obs, s1)
    /\ AdaLRLion.step_param self group p (st, s) = Some (st', s')
    /\ s' = lionw (data p) g (AdaLRLion.exp_avg state0) lr'
              (initial_lr group) (weight_decay group)
              (fst (betas group)) (snd (betas group)) s1
    /\ let self' :=
         {| AdaLRLion.param_groups := AdaLRLion.param_groups self;
            AdaLRLion.state := st';
            AdaLRLion.outlier_threshold := AdaLRLion.outlier_threshold self;
            AdaLRLion.timeout := AdaLRLion.timeout self;
            AdaLRLion.lr_penalty := AdaLRLion.lr_penalty self;
            AdaLRLion.min_scale := AdaLRLion.min_scale self |} in
       forall later : machine,
       exists om' s'',
         AdaLRLion.report_per_parameter_metrics self' p name
           optimizer_metrics later = Some (om', s'')
         /\ metric_get ("layerwise_lr/" ++ name)%string om' = Some lr'.
Proof.
  intros Hgroups Hgrad Hok state0 s0.
  destruct (adalr_step_eq self group p g st s Hgrad Hok)
    as (obs & s1 & Hmn & _ & _ & Hstep).
  fold state0 s0 in Hmn, Hstep. cbv zeta in Hstep.
  eexists obs, s1, _, _, _.
  split; [exact Hmn |]. split; [exact Hstep |]. split; [reflexivity |].
  intros self' later.
  unfold AdaLRLion.report_per_parameter_metrics. subst self'.
  cbn [AdaLRLion.param_groups AdaLRLion.state AdaLRLion.lr_penalty
       AdaLRLion.min_scale].
  rewrite Hgroups. destruct (betas group) as [beta1 beta2].
  unfold id_set at 1. rewrite Nat.eqb_refl. rewrite Hgrad.
  cbn [AdaLRLion.outlier_timestamp AdaLRLion.exp_avg].
  destruct (torch.clone _ _) as [step sc].
  unfold AdaLRLion.metric_functions. cbn [for_each fst snd]. rewrite Hgrad.
  match goal with
  | |- context [torch.scalar_tensor ?x ?m] =>
      pose proof (item_scalar_tensor x m) as Hitem;
      destruct (torch.scalar_tensor x m) as [t1 sf]
  end.
  cbn [fst snd] in Hitem.
  eexists _, _. split; [reflexivity |].
  rewrite metric_get_set_same. now rewrite Hitem.
Qed.

(** X24.  The betas AdaBetaLion reports are the ones its last step used.
    After the step on a parameter of the first group, with the optimizer
    holding the state the step left, [report_per_parameter_metrics]
    returns on any store, and the entries [betas/beta1/<name>] and
    [betas/beta2/<name>] are the two betas with which the step called
    [lionw]. *)
Theorem adabeta_report_after_step (self : AdaBetaLion.t) (group : param_group)
    (groups : list param_group) (p : param) (g : ref)
    (st : id_map AdaBetaLion.state_t) (s : machine) (name : string)
    (optimizer_metrics : metric_map) :
  AdaBetaLion.param_groups self = group :: groups ->
  grad p = Some g ->
  collective_ok s ->
  let state0 := fst (AdaBetaLion.init_state self p st s) in
  let s0 := snd (AdaBetaLion.init_state self p st s) in
  exists obs s1 st' s' beta1' beta2',
    moment_norm (AdaBetaLion.exp_avg state0) g (snd (betas group)) s0
      = Some (obs, s1)
    /\ AdaBetaLion.step_param self group p (st, s) = Some (st', s')
    /\ s' = lionw (data p) g (AdaBetaLion.exp_avg state0) (lr group)
              (initial_lr group) (weight_decay group) beta1' beta2' s1
    /\ let self' :=
         {| AdaBetaLion.param_groups := AdaBetaLion.param_groups self;
            AdaBetaLion.state := st';
            AdaBetaLion.outlier_threshold :=
              AdaBetaLion.outlier_threshold self;
            AdaBetaLion.increase := AdaBetaLion.increase self;
            AdaBetaLion.timeout := AdaBetaLion.timeout self |} in
       forall later : machine,
       exists om' s'',
         AdaBetaLion.report_per_parameter_metrics self' p name
           optimizer_metrics later = Some (om', s'')
         /\ metric_get ("betas/beta1/" ++ name)%string om' = Some beta1'
         /\ metric_get ("betas/beta2/" ++ name)%string om' = Some beta2'.
Proof.
  intros Hgroups Hgrad Hok state0 s0.
  destruct (adabeta_step_eq self group p g st s Hgrad Hok)
    as (obs & s1 & Hmn & _ & _ & Hstep).
  fold state0 s0 in Hmn, Hstep. cbv zeta in Hstep.
  eexists obs, s1, _, _, _, _.
  split; [exact Hmn |]. split; [exact Hstep |]. split; [reflexivity |].
  intros self' later.
  unfold AdaBetaLion.report_per_parameter_metrics. subst self'.
  cbn [AdaBetaLion.param_groups AdaBetaLion.state AdaBetaLion.increase].
  rewrite Hgroups. destruct (betas group) as [beta1 beta2].
  unfold id_set at 1. rewrite Nat.eqb_refl. rewrite Hgrad.
  cbn [AdaBetaLion.outlier_timestamp AdaBetaLion.exp_avg fst snd].
  destruct (AdaBetaLion.adjust_betas beta1 beta2 _ _) as [b1 b2].
  destruct (torch.clone _ _) as [step sc].
  unfold AdaBetaLion.metric_functions. cbn [for_each fst snd]. rewrite Hgrad.
  match goal with
  | |- context [torch.scalar_tensor b1 ?m] =>
      pose proof (item_scalar_tensor b1 m) as Hitem1;
      destruct (torch.scalar_tensor b1 m) as [t1 sf1]
  end.
  match goal with
  | |- context [torch.scalar_tensor b2 ?m] =>
      pose proof (item_scalar_tensor b2 m) as Hitem2;
      destruct (torch.scalar_tensor b2 m) as [t2 sf2]
  end.
  cbn [fst snd] in Hitem1, Hitem2.
  eexists _, _. split; [reflexivity |].
  split.
  - rewrite metric_get_set_other
      by (let H := fresh in intros H; cbn in H; discriminate H).
    rewrite metric_get_set_same. now rewrite Hitem1.
  - rewrite metric_get_set_same. now rewrite Hitem2.
Qed.

(** X25.  FullyAdaptiveLion reports the learning rate and the betas of
    its last step, and the weight-decay scaling of the next one.  After
    the step on a parameter of the first group, with the optimizer
    holding the state the step left and whatever norms and scalings the
    end of the step has stored, [report_per_parameter_metrics] returns
    on any store; the entries [layerwise_lr/<name>],
    [betas/beta1/<name>] and [betas/beta2/<name>] are the values with
    which the step called [lionw], and [wd_scaling/<name>] is the stored
    scaling of the parameter, 0 when there is none. *)
Theorem fully_report_after_step (self : FullyAdaptiveLion.t)
    (group : FullyAdaptiveLion.group_t)
    (groups : list FullyAdaptiveLion.group_t) (p : param) (g : ref)
    (loc : FullyAdaptiveLion.locals) (s : machine) (name : string)
    (optimizer_metrics : metric_map) :
  FullyAdaptiveLion.param_groups self = group :: groups ->
  grad p = Some g ->
  collective_ok s ->
  let state0 :=
    fst (FullyAdaptiveLion.init_state self p
           (FullyAdaptiveLion.states loc) s) in
  let s0 :=
    snd (FullyAdaptiveLion.init_state self p
           (FullyAdaptiveLion.states loc) s) in
  exists obs s1 loc' s' lr' beta1' beta2',
    moment_norm (FullyAdaptiveLion.exp_avg state0) g
      (snd (FullyAdaptiveLion.betas group)) s0 = Some (obs, s1)
    /\ FullyAdaptiveLion.step_param self group p (loc, s) = Some (loc', s')
    /\ s' = lionw (data p) g (FullyAdaptiveLion.exp_avg state0) lr'
              (FullyAdaptiveLion.initial_lr group)
              (lr' * FullyAdaptiveLion.wd_scaling_of self p)
              beta1' beta2' s1
    /\ forall (init_norm wd_scaling : id_map R) (later : machine),
       let self' :=
         {| FullyAdaptiveLion.param_groups :=
              FullyAdaptiveLion.param_groups self;
            FullyAdaptiveLion.state := FullyAdaptiveLion.states loc';
            FullyAdaptiveLion.outlier_threshold :=
              FullyAdaptiveLion.outlier_threshold self;
            FullyAdaptiveLion.timeout := FullyAdaptiveLion.timeout self;
            FullyAdaptiveLion.param_adjustment :=
              FullyAdaptiveLion.param_adjustment self;
            FullyAdaptiveLion.param_init_norm := init_norm;
            FullyAdaptiveLion.param_wd_scaling := wd_scaling |} in
       exists om' s'',
         FullyAdaptiveLion.report_per_parameter_metrics self' p name
           optimizer_metrics later = Some (om', s'')
         /\ metric_get ("layerwise_lr/" ++ name)%string om' = Some lr'
         /\ metric_get ("betas/beta1/" ++ name)%string om' = Some beta1'
         /\ metric_get ("betas/beta2/" ++ name)%string om' = Some beta2'
         /\ metric_get ("wd_scaling/" ++ name)%string om'
            = Some (match wd_scaling (data p) with
                    | Some w => w
                    | None => 0
                    end).
Proof.
  intros Hgroups Hgrad Hok state0 s0.
  destruct (fully_step_eq self group p g loc s Hgrad Hok)
    as (obs & s1 & Hmn & _ & _ & Hstep).
  fold state0 s0 in Hmn, Hstep. cbv zeta in Hstep.
  eexists obs, s1, _, _, _, _, _.
  split; [exact Hmn |]. split; [exact Hstep |]. split; [reflexivity |].
  intros init_norm wd_scaling later self'.
  unfold FullyAdaptiveLion.report_per_parameter_metrics. subst self'.
  cbn [FullyAdaptiveLion.param_groups FullyAdaptiveLion.state
       FullyAdaptiveLion.param_adjustment FullyAdaptiveLion.param_wd_scaling
       FullyAdaptiveLion.states].
  rewrite Hgroups. destruct (FullyAdaptiveLion.betas group) as [beta1 beta2].
  unfold id_set at 1. rewrite Nat.eqb_refl. rewrite Hgrad.
  cbn [FullyAdaptiveLion.outlier_timestamp FullyAdaptiveLion.exp_avg fst snd].
  destruct (torch.clone _ _) as [step sc].
  unfold FullyAdaptiveLion.metric_functions. cbn [for_each fst snd].
  rewrite Hgrad.
  repeat match goal with
  | |- context [torch.scalar_tensor ?x ?m] =>
      let Hitem := fresh "Hitem" in
      let t := fresh "t" in
      let sf := fresh "sf" in
      pose proof (item_scalar_tensor x m) as Hitem;
      destruct (torch.scalar_tensor x m) as [t sf];
      cbn [fst snd] in Hitem
  end.
  eexists _, _. split; [reflexivity |].
  repeat split;
    repeat first
      [ rewrite metric_get_set_same
      | rewrite metric_get_set_other
          by (let H := fresh in intros H; cbn in H; discriminate H) ];
    try (f_equal; assumption).
  destruct (wd_scaling (data p)); [reflexivity | f_equal; assumption].
Qed.

(** ** The reports of the other classes *)

Ltac report_store_tac :=
  unfold torch.scalar_tensor, torch.add_, torch.mul_, torch.sign_,
    torch.lerp_, torch.clone, alloc, write;
  cbn [cell next_ref calls fst snd].

Ltac report_keys_tac :=
  repeat apply keys_metric_set_incl; assumption.

Lemma adabeta_report_frame (self : @AdaBetaLion.t D) prm name
    (optimizer_metrics : metric_map) s om' s' :
  AdaBetaLion.report_per_parameter_metrics self prm name optimizer_metrics s
    = Some (om', s') ->
  (forall r, (r < next_ref s)%nat -> cell s' r = cell s r)
  /\ calls s' = calls s
  /\ (forall k, In k (keys optimizer_metrics) -> In k (keys om'))
  /\ (AdaBetaLion.state self (data prm) = None ->
      om' = optimizer_metrics /\ s' = s).
Proof.
  unfold AdaBetaLion.report_per_parameter_metrics. intros Hrun.
  destruct (AdaBetaLion.param_groups self) as [|group0 groups];
    [discriminate |].
  destruct (betas group0) as [beta1 beta2].
  destruct (AdaBetaLion.state self (data prm)) as [state |].
  2:{ inversion Hrun; subst. repeat split; auto. }
  destruct (AdaBetaLion.adjust_betas _ _ _ _) as [b1 b2].
  destruct (grad prm) as [g |] eqn:Hgrad; [| discriminate].
  unfold AdaBetaLion.metric_functions in Hrun.
  cbn [for_each fst snd] in Hrun. rewrite Hgrad in Hrun.
  revert Hrun. report_store_tac. intros Hrun.
  inversion Hrun; subst om' s'; clear Hrun. cbn [cell next_ref calls].
  split; [| split; [reflexivity | split; [| intros; discriminate]]].
  - intros r Hr.
    repeat match goal with
           | |- context [Nat.eqb r ?x] =>
               destruct (Nat.eqb_spec r x); [lia |]
           end.
    reflexivity.
  - intros k Hk. report_keys_tac.
Qed.

Lemma adalr_report_frame (self : @AdaLRLion.t D) prm name
    (optimizer_metrics : metric_map) s om' s' :
  AdaLRLion.report_per_parameter_metrics self prm name optimizer_metrics s
    = Some (om', s') ->
  (forall r, (r < next_ref s)%nat -> cell s' r = cell s r)
  /\ calls s' = calls s
  /\ (forall k, In k (keys optimizer_metrics) -> In k (keys om'))
  /\ (AdaLRLion.state self (data prm) = None ->
      om' = optimizer_metrics /\ s' = s).
Proof.
  unfold AdaLRLion.report_per_parameter_metrics. intros Hrun.
  destruct (AdaLRLion.param_groups self) as [|group0 groups];
    [discriminate |].
  destruct (betas group0) as [beta1 beta2].
  destruct (AdaLRLion.state self (data prm)) as [state |].
  2:{ inversion Hrun; subst. repeat split; auto. }
  destruct (grad prm) as [g |] eqn:Hgrad; [| discriminate].
  unfold AdaLRLion.metric_functions in Hrun.
  cbn [for_each fst snd] in Hrun. rewrite Hgrad in Hrun.
  revert Hrun. report_store_tac. intros Hrun.
  inversion Hrun; subst om' s'; clear Hrun. cbn [cell next_ref calls].
  split; [| split; [reflexivity | split; [| intros; discriminate]]].
  - intros r Hr.
    repeat match goal with
           | |- context [Nat.eqb r ?x] =>
               destruct (Nat.eqb_spec r x); [lia |]
           end.
    reflexivity.
  - intros k Hk. report_keys_tac.
Qed.

Lemma clip_report_frame (self : @ClipLion.t D) prm name
    (optimizer_metrics : metric_map) s om' s' :
  ClipLion.report_per_parameter_metrics self prm name optimizer_metrics s
    = Some (om', s') ->
  (forall r, (r < next_ref s)%nat -> cell s' r = cell s r)
  /\ calls s' = calls s
  /\ (forall k, In k (keys optimizer_metrics) -> In k (keys om'))
  /\ (ClipLion.state self (data prm) = None ->
      om' = optimizer_metrics /\ s' = s).
Proof.
  unfold ClipLion.report_per_parameter_metrics. intros Hrun.
  destruct (ClipLion.param_groups self) as [|group0 groups];
    [discriminate |].
  destruct (betas group0) as [beta1 beta2].
  destruct (ClipLion.state self (data prm)) as [state |].
  2:{ inversion Hrun; subst. repeat split; auto. }
  destruct (grad prm) as [g |] eqn:Hgrad; [| discriminate].
  unfold ClipLion.metric_functions in Hrun.
  cbn [for_each fst snd] in Hrun. rewrite Hgrad in Hrun.
  revert Hrun. report_store_tac. intros Hrun.
  inversion Hrun; subst om' s'; clear Hrun. cbn [cell next_ref calls].
  split; [| split; [reflexivity | split; [| intros; discriminate]]].
  - intros r Hr.
    repeat match goal with
           | |- context [Nat.eqb r ?x] =>
               destruct (Nat.eqb_spec r x); [lia |]
           end.
    reflexivity.
  - intros k Hk. report_keys_tac.
Qed.

Lemma fully_report_frame (self : @FullyAdaptiveLion.t D) prm name
    (optimizer_metrics : metric_map) s om' s' :
  FullyAdaptiveLion.report_per_parameter_metrics self prm name optimizer_metrics s
    = Some (om', s') ->
  (forall r, (r < next_ref s)%nat -> cell s' r = cell s r)
  /\ calls s' = calls s
  /\ (forall k, In k (keys optimizer_metrics) -> In k (keys om'))
  /\ (FullyAdaptiveLion.state self (data prm) = None ->
      om' = optimizer_metrics /\ s' = s).
Proof.
  unfold FullyAdaptiveLion.report_per_parameter_metrics. intros Hrun.
  destruct (FullyAdaptiveLion.param_groups self) as [|group0 groups];
    [discriminate |].
  destruct (FullyAdaptiveLion.betas group0) as [beta1 beta2].
  destruct (FullyAdaptiveLion.state self (data prm)) as [state |].
  2:{ inversion Hrun; subst. repeat split; auto. }
  destruct (grad prm) as [g |] eqn:Hgrad; [| discriminate].
  unfold FullyAdaptiveLion.metric_functions in Hrun.
  cbn [for_each fst snd] in Hrun. rewrite Hgrad in Hrun.
  revert Hrun. report_store_tac. intros Hrun.
  inversion Hrun; subst om' s'; clear Hrun. cbn [cell next_ref calls].
  split; [| split; [reflexivity | split; [| intros; discriminate]]].
  - intros r Hr.
    repeat match goal with
           | |- context [Nat.eqb r ?x] =>
               destruct (Nat.eqb_spec r x); [lia |]
           end.
    reflexivity.
  - intros k Hk. report_keys_tac.
Qed.

(** X26.  [report_per_parameter_metrics] of AdaBetaLion, AdaLRLion,
    ClipLion and FullyAdaptiveLion is a read-only pass, as that of
    SkipLion: when it returns, every tensor that existed before the call
    has the elements it had (the work tensor is a clone, and the
    reported betas and learning rates are fresh tensors), no collective
    call has been made, and no key of the map has been lost.  For a
    parameter without state the map and the store come back as they
    were. *)
Theorem variants_report_read_only (prm : param) (name : string)
    (optimizer_metrics : metric_map) (s : machine) :
  let read_only (no_state : Prop)
      (result : option (metric_map * machine)) :=
    forall om' s', result = Some (om', s') ->
      (forall r, (r < next_ref s)%nat -> cell s' r = cell s r)
      /\ calls s' = calls s
      /\ (forall k, In k (keys optimizer_metrics) -> In k (keys om'))
      /\ (no_state -> om' = optimizer_metrics /\ s' = s) in
  (forall self : @AdaBetaLion.t D,
      read_only (AdaBetaLion.state self (data prm) = None)
        (AdaBetaLion.report_per_parameter_metrics self prm name
           optimizer_metrics s))
  /\ (forall self : @AdaLRLion.t D,
      read_only (AdaLRLion.state self (data prm) = None)
        (AdaLRLion.report_per_parameter_metrics self prm name
           optimizer_metrics s))
  /\ (forall self : @ClipLion.t D,
      read_only (ClipLion.state self (data prm) = None)
        (ClipLion.report_per_parameter_metrics self prm name
           optimizer_metrics s))
  /\ (forall self : @FullyAdaptiveLion.t D,
      read_only (FullyAdaptiveLion.state self (data prm) = None)
        (FullyAdaptiveLion.report_per_parameter_metrics self prm name
           optimizer_metrics s)).
Proof.
  intros read_only. subst read_only. cbv beta.
  split; [| split; [| split]]; intros self om' s' Hrun.
  - exact (adabeta_report_frame self prm name optimizer_metrics s om' s' Hrun).
  - exact (adalr_report_frame self prm name optimizer_metrics s om' s' Hrun).
  - exact (clip_report_frame self prm name optimizer_metrics s om' s' Hrun).
  - exact (fully_report_frame self prm name optimizer_metrics s om' s' Hrun).
Qed.

(** ** [adjust_param] *)

(** X27.  [adjust_param] of FullyAdaptiveLion scales a value by
    [param_adjustment ^ n].  With no outlier in the window the value is
    unchanged.  Applied twice, as the step does for beta2, it gives
    [value * param_adjustment ^ (2 n)].  For a non-negative value and an
    adjustment in [0, 1] the result lies between 0 and the value and
    does not grow with the number of outliers; unlike [adjust_lr] it has
    no floor: for an adjustment below 1 enough outliers bring it as
    close to 0 as one likes. *)
Theorem adjust_param_bounds (value adj : R) (n : nat) :
  FullyAdaptiveLion.adjust_param value adj 0 = value
  /\ FullyAdaptiveLion.adjust_param
       (FullyAdaptiveLion.adjust_param value adj n) adj n
     = value * adj ^ (2 * n)
  /\ (0 <= value -> 0 <= adj <= 1 ->
      0 <= FullyAdaptiveLion.adjust_param value adj n <= value
      /\ FullyAdaptiveLion.adjust_param value adj (S n)
         <= FullyAdaptiveLion.adjust_param value adj n)
  /\ (0 <= adj < 1 -> forall eps, 0 < eps ->
      exists N, forall k, (N <= k)%nat ->
        Rabs (FullyAdaptiveLion.adjust_param value adj k) < eps).
Proof.
  unfold FullyAdaptiveLion.adjust_param.
  split; [simpl; ring |]. split; [| split].
  - replace (2 * n)%nat with (n + n)%nat by lia. rewrite pow_add. ring.
  - intros Hv [Ha0 Ha1].
    assert (Hpow : forall k, 0 <= adj ^ k <= 1).
    { induction k as [|k IH]; simpl; [lra |]. nra. }
    pose proof (Hpow n) as Hn. split; [split |].
    + now apply Rmult_le_pos.
    + rewrite <- (Rmult_1_r value) at 2.
      now apply Rmult_le_compat_l.
    + apply Rmult_le_compat_l; [exact Hv |]. simpl.
      rewrite <- (Rmult_1_l (adj ^ n)) at 2.
      apply Rmult_le_compat_r; lra.
  - intros [Ha0 Ha1] eps Heps.
    destruct (Req_dec value 0) as [-> | Hne].
    + exists 0%nat. intros k _. rewrite Rmult_0_l, Rabs_R0. exact Heps.
    + assert (Hpos : 0 < Rabs value) by now apply Rabs_pos_lt.
      destruct (pow_lt_1_zero adj) with (y := eps / Rabs value)
        as [N HN].
      * rewrite Rabs_right; lra.
      * now apply Rdiv_lt_0_compat.
      * exists N. intros k Hk. rewrite Rabs_mult.
        specialize (HN k ltac:(lia)).
        apply (Rmult_lt_compat_l (Rabs value)) in HN; [| exact Hpos].
        replace (Rabs value * (eps / Rabs value)) with eps in HN
          by (field; lra).
        exact HN.
Qed.

(** ** The weight decay of FullyAdaptiveLion, with the run pinned *)

(** The body of the loop, read backwards: when it returns, the
    observation was taken and the result is the one of [lionw]. *)
Lemma fully_step_inv (self : FullyAdaptiveLion.t) group p g loc s loc' s' :
  grad p = Some g ->
  FullyAdaptiveLion.step_param self group p (loc, s) = Some (loc', s') ->
  let state0 :=
    fst (FullyAdaptiveLion.init_state self p
           (FullyAdaptiveLion.states loc) s) in
  let s0 :=
    snd (FullyAdaptiveLion.init_state self p
           (FullyAdaptiveLion.states loc) s) in
  exists obs s1,
    moment_norm (FullyAdaptiveLion.exp_avg state0) g
      (snd (FullyAdaptiveLion.betas group)) s0 = Some (obs, s1)
    /\ let verdict :=
         insert_observation (FullyAdaptiveLion.moment_tracker state0) obs in
       let window :=
         update_window (fst verdict) (FullyAdaptiveLion.step_count state0)
           (FullyAdaptiveLion.timeout self)
           (FullyAdaptiveLion.outlier_timestamp state0) in
       let n := length window in
       let adj := FullyAdaptiveLion.param_adjustment self in
       let lr' := FullyAdaptiveLion.lr group * adj ^ n in
       let beta1' := fst (FullyAdaptiveLion.betas group) * adj ^ n in
       FullyAdaptiveLion.states loc' (data p) =
         Some {| FullyAdaptiveLion.exp_avg := FullyAdaptiveLion.exp_avg state0;
                 FullyAdaptiveLion.moment_tracker := snd verdict;
                 FullyAdaptiveLion.outlier_timestamp := window;
                 FullyAdaptiveLion.step_count :=
                   (FullyAdaptiveLion.step_count state0 + 1)%Z |}
       /\ s' = lionw (data p) g (FullyAdaptiveLion.exp_avg state0) lr'
                 (FullyAdaptiveLion.initial_lr group)
                 (lr' * FullyAdaptiveLion.wd_scaling_of self p)
                 beta1' (beta1' * adj ^ n) s1.
Proof.
  intros Hgrad Hrun state0 s0.
  unfold FullyAdaptiveLion.step_param in Hrun. rewrite Hgrad in Hrun.
  subst state0 s0.
  destruct (FullyAdaptiveLion.betas group) as [beta1 beta2].
  destruct (FullyAdaptiveLion.init_state self p
              (FullyAdaptiveLion.states loc) s) as [state0 s0].
  cbn [fst snd].
  destruct (moment_norm (FullyAdaptiveLion.exp_avg state0) g beta2 s0)
    as [[obs s1] |]; [| discriminate].
  exists obs, s1. split; [reflexivity |].
  destruct (insert_observation (FullyAdaptiveLion.moment_tracker state0) obs)
    as [flagged tracker].
  inversion Hrun; subst loc' s'; clear Hrun.
  cbn [FullyAdaptiveLion.states fst snd].
  split; [unfold id_set; now rewrite Nat.eqb_refl |].
  unfold FullyAdaptiveLion.adjust_param. reflexivity.
Qed.

Lemma reduced_value_collectives v c n :
  reduced_value v (c + collectives n) = reduced_value v (c + n).
Proof.
  unfold reduced_value, collectives.
  now destruct (1 <? get_world_size)%Z.
Qed.

(** The reduction of the initial norms, with the collective call of each
    key numbered by its place. *)
Lemma reduce_init_loop_at tmp before k after m s m' s' :
  for_each (FullyAdaptiveLion.reduce_init_norm tmp) (before ++ k :: after)
    (m, s) = Some (m', s') ->
  NoDup (before ++ k :: after) ->
  exists v, dict_get Nat.eqb k tmp = Some v
            /\ m' k = Some (sqrt (reduced_value v (calls s + length before))).
Proof.
  intros Hloop Hnd. rewrite for_each_app in Hloop.
  destruct (for_each (FullyAdaptiveLion.reduce_init_norm tmp) before (m, s))
    as [[m1 s1] |] eqn:H1; [| discriminate].
  destruct (reduce_init_machine _ _ _ _ _ _ H1) as (_ & _ & Hc1).
  cbn [for_each] in Hloop.
  unfold FullyAdaptiveLion.reduce_init_norm at 1 in Hloop.
  destruct (dict_get Nat.eqb k tmp) as [v |] eqn:Hv; [| discriminate].
  pose proof (reduce_if_distributed_value v s1) as Hval.
  destruct (reduce_if_distributed v s1) as [y s2]. cbn [fst] in Hval.
  destruct (math_sqrt y) as [root |] eqn:Hroot; [| discriminate].
  apply math_sqrt_some in Hroot.
  assert (Hnd2 : NoDup after).
  { apply NoDup_app_remove_l in Hnd. now inversion Hnd. }
  assert (Hk : ~ In k after).
  { apply NoDup_app_remove_l in Hnd. now inversion Hnd. }
  destruct (reduce_init_loop _ _ _ _ _ _ Hloop Hnd2) as [_ Hout].
  exists v. split; [reflexivity |].
  rewrite (Hout k Hk). unfold id_set. rewrite Nat.eqb_refl.
  rewrite Hroot, Hval, Hc1. now rewrite reduced_value_collectives.
Qed.

(** The same for the reduction of the current norms. *)
Lemma reduce_current_loop_at before k after d s d' s' :
  for_each FullyAdaptiveLion.reduce_current_norm (before ++ k :: after)
    (d, s) = Some (d', s') ->
  NoDup (before ++ k :: after) ->
  exists v, dict_get Nat.eqb k d = Some v
            /\ dict_get Nat.eqb k d'
               = Some (sqrt (reduced_value v (calls s + length before))).
Proof.
  intros Hloop Hnd. rewrite for_each_app in Hloop.
  destruct (for_each FullyAdaptiveLion.reduce_current_norm before (d, s))
    as [[d1 s1] |] eqn:H1; [| discriminate].
  destruct (reduce_current_machine _ _ _ _ _ H1) as (_ & _ & Hc1).
  assert (Hnb : NoDup before) by now apply NoDup_app_remove_r in Hnd.
  assert (Hkb : ~ In k before).
  { apply NoDup_remove_2 in Hnd. intros Hin. apply Hnd, in_or_app. now left. }
  destruct (reduce_current_loop _ _ _ _ _ H1 Hnb) as (_ & Hout1 & _).
  cbn [for_each] in Hloop.
  unfold FullyAdaptiveLion.reduce_current_norm at 1 in Hloop.
  rewrite (Hout1 k Hkb) in Hloop.
  destruct (dict_get Nat.eqb k d) as [v |] eqn:Hv; [| discriminate].
  pose proof (reduce_if_distributed_value v s1) as Hval.
  destruct (reduce_if_distributed v s1) as [y s2]. cbn [fst] in Hval.
  destruct (math_sqrt y) as [root |] eqn:Hroot; [| discriminate].
  apply math_sqrt_some in Hroot.
  assert (Hnd2 : NoDup after).
  { apply NoDup_app_remove_l in Hnd. now inversion Hnd. }
  assert (Hk : ~ In k after).
  { apply NoDup_app_remove_l in Hnd. now inversion Hnd. }
  destruct (reduce_current_loop _ _ _ _ _ Hloop Hnd2) as (_ & Hout & _).
  exists v. split; [reflexivity |].
  rewrite (Hout k Hk), rget_set_same.
  rewrite Hroot, Hval, Hc1. now rewrite reduced_value_collectives.
Qed.

(** The frame of the body and of the two loops of FullyAdaptiveLion, on
    the pairs the loops thread. *)
Lemma fully_pair_frame (self : FullyAdaptiveLion.t) group p
    (x x' : FullyAdaptiveLion.locals * machine) :
  FullyAdaptiveLion.step_param self group p x = Some x' ->
  (next_ref (snd x) <= next_ref (snd x'))%nat
  /\ forall r, (r < next_ref (snd x))%nat ->
       ~ owned fully_tensors (FullyAdaptiveLion.states (fst x)) r ->
       ~ owned fully_tensors (FullyAdaptiveLion.states (fst x')) r
       /\ (r <> data p -> cell (snd x') r = cell (snd x) r).
Proof.
  destruct x as [loc s], x' as [loc' s']. intros Hrun.
  destruct (fully_body_frame self group p loc s loc' s' Hrun)
    as (Hn & _ & Hf).
  split; [exact Hn | exact Hf].
Qed.

(** C7.  The weight decay of FullyAdaptiveLion.
    (a) In the body of a step that returns, for a parameter with a
    gradient: the observation [obs] is taken on the store [s1], the
    window of the state is updated with the detector's verdict on it,
    and the store the body leaves is the one of [lionw] on [s1] with the
    adapted [lr], the adapted betas, and the weight decay
    [adapted lr * scaling], where the scaling is the one the optimizer
    held for the parameter when the step began ([0.0] when it held
    none).
    (b) When a step returns, take a parameter [p] it processed, at its
    last occurrence in the groups.  The loop over the groups, run from
    the store the closure left, reaches [p] in [(loc_b, s_b)], leaves it
    in [(loc_a, s_a)], and ends in [(loc_n, s_n)]; the tensors that
    existed as the closure returned are in the store the step returns as
    they are in [s_n], and the parameter tensor is in it as the body of
    [p] left it (when it existed as the closure returned and is not a
    momentum tensor of the state).  With [p_t] the
    reduced norm of that tensor, and [p_0] the initial norm of [p] (the
    one the optimizer held, or else the reduced norm of [p] right before
    its update in this step), the optimizer holds [(p_t - p_0) / p_0] as
    the scaling of [p]; by (a) the next step is the first to use it.
    The collective call of each reduction is numbered by the place of
    [p] among the keys of the two dictionaries of norms; for a single
    worker the reduced norms are the L2 norms.
    (c) A step changes neither the scaling nor the initial norm of a
    parameter it does not process.
    (d) The constructor takes [params], [lr], [betas],
    [outlier_threshold], [timeout] and [param_adjustment]; the optimizer
    it builds holds no scaling and no initial norm, so by (a) and (c) the
    first step that processes a parameter uses weight decay 0. *)
Theorem fully_adaptive_weight_decay :
  (forall (self : FullyAdaptiveLion.t) group p g loc s loc' s',
      grad p = Some g ->
      FullyAdaptiveLion.step_param self group p (loc, s) = Some (loc', s') ->
      let state0 :=
        fst (FullyAdaptiveLion.init_state self p
               (FullyAdaptiveLion.states loc) s) in
      let s0 :=
        snd (FullyAdaptiveLion.init_state self p
               (FullyAdaptiveLion.states loc) s) in
      exists obs s1 state',
        moment_norm (FullyAdaptiveLion.exp_avg state0) g
          (snd (FullyAdaptiveLion.betas group)) s0 = Some (obs, s1)
        /\ FullyAdaptiveLion.states loc' (data p) = Some state'
        /\ FullyAdaptiveLion.exp_avg state' = FullyAdaptiveLion.exp_avg state0
        /\ FullyAdaptiveLion.outlier_timestamp state' =
             update_window
               (fst (insert_observation
                       (FullyAdaptiveLion.moment_tracker state0) obs))
               (FullyAdaptiveLion.step_count state0)
               (FullyAdaptiveLion.timeout self)
               (FullyAdaptiveLion.outlier_timestamp state0)
        /\ let n := length (FullyAdaptiveLion.outlier_timestamp state') in
           let adj := FullyAdaptiveLion.param_adjustment self in
           let lr' := FullyAdaptiveLion.lr group * adj ^ n in
           let beta1' := fst (FullyAdaptiveLion.betas group) * adj ^ n in
           s' = lionw (data p) g (FullyAdaptiveLion.exp_avg state') lr'
                  (FullyAdaptiveLion.initial_lr group)
                  (lr' * FullyAdaptiveLion.wd_scaling_of self p)
                  beta1' (beta1' * adj ^ n) s1)
  /\ (forall (self : FullyAdaptiveLion.t) closure s loss self' s'
             gs1 group gs2 ps1 p ps2,
      FullyAdaptiveLion.step self closure s = Some (loss, self', s') ->
      FullyAdaptiveLion.param_groups self = gs1 ++ group :: gs2 ->
      filter trainable (FullyAdaptiveLion.params group) = ps1 ++ p :: ps2 ->
      (forall q, In q ps2 -> data q <> data p) ->
      (forall group' q, In group' gs2 ->
         In q (filter trainable (FullyAdaptiveLion.params group')) ->
         data q <> data p) ->
      let loop := fun group' =>
        for_each (FullyAdaptiveLion.step_param self group')
          (filter trainable (FullyAdaptiveLion.params group')) in
      let s_c := snd (call_closure closure s) in
      let start :=
        ({| FullyAdaptiveLion.tmp_param_init_norm := [];
            FullyAdaptiveLion.tmp_param_current_norm := [];
            FullyAdaptiveLion.states := FullyAdaptiveLion.state self |},
         s_c) in
      exists loc1 s1 loc_b s_b loc_a s_a loc_n s_n p_0 p_t before after,
        for_each loop gs1 start = Some (loc1, s1)
        /\ for_each (FullyAdaptiveLion.step_param self group) ps1 (loc1, s1)
           = Some (loc_b, s_b)
        /\ FullyAdaptiveLion.step_param self group p (loc_b, s_b)
           = Some (loc_a, s_a)
        /\ for_each loop (FullyAdaptiveLion.param_groups self) start
           = Some (loc_n, s_n)
        /\ (forall r, (r < next_ref s_c)%nat -> cell s' r = cell s_n r)
        /\ ((data p < next_ref s_c)%nat ->
            ~ owned fully_tensors (FullyAdaptiveLion.state self) (data p) ->
            cell s' (data p) = cell s_a (data p))
        /\ keys (FullyAdaptiveLion.tmp_param_current_norm loc_n)
           = before ++ data p :: after
        /\ p_t = sqrt (reduced_value
                         (torch.vector_norm (cell s_a (data p)) ^ 2)
                         (calls s_n
                          + length
                              (keys (FullyAdaptiveLion.tmp_param_init_norm
                                       loc_n))
                          + length before))
        /\ FullyAdaptiveLion.param_init_norm self' (data p) = Some p_0
        /\ p_0 <> 0
        /\ (forall n0, FullyAdaptiveLion.param_init_norm self (data p) = Some n0 ->
              p_0 = n0)
        /\ (FullyAdaptiveLion.param_init_norm self (data p) = None ->
            exists before0 after0,
              keys (FullyAdaptiveLion.tmp_param_init_norm loc_n)
              = before0 ++ data p :: after0
              /\ p_0 = sqrt (reduced_value
                               (torch.vector_norm (cell s_b (data p)) ^ 2)
                               (calls s_n + length before0)))
        /\ FullyAdaptiveLion.param_wd_scaling self' (data p)
             = Some ((p_t - p_0) / p_0)
        /\ FullyAdaptiveLion.wd_scaling_of self' p = (p_t - p_0) / p_0
        /\ ((get_world_size <= 1)%Z ->
            p_t = torch.vector_norm (cell s_a (data p))
            /\ (FullyAdaptiveLion.param_init_norm self (data p) = None ->
                p_0 = torch.vector_norm (cell s_b (data p)))))
  /\ (forall (self : FullyAdaptiveLion.t) closure s loss self' s' r,
      FullyAdaptiveLion.step self closure s = Some (loss, self', s') ->
      (forall group q, In group (FullyAdaptiveLion.param_groups self) ->
         In q (filter trainable (FullyAdaptiveLion.params group)) ->
         data q <> r) ->
      FullyAdaptiveLion.param_wd_scaling self' r
        = FullyAdaptiveLion.param_wd_scaling self r
      /\ FullyAdaptiveLion.param_init_norm self' r
           = FullyAdaptiveLion.param_init_norm self r)
  /\ (forall params lr betas outlier_threshold timeout param_adjustment
             (self : @FullyAdaptiveLion.t D) p,
      instance (FullyAdaptiveLion.__init__ params lr betas outlier_threshold
                  timeout param_adjustment) = Some self ->
      FullyAdaptiveLion.param_wd_scaling self (data p) = None
      /\ FullyAdaptiveLion.param_init_norm self (data p) = None
      /\ FullyAdaptiveLion.wd_scaling_of self p = 0
      /\ forall lr', lr' * FullyAdaptiveLion.wd_scaling_of self p = 0).
Proof.
  split; [| split; [| split]].
  - intros self group p g loc s loc' s' Hgrad Hrun state0 s0.
    destruct (fully_step_inv self group p g loc s loc' s' Hgrad Hrun)
      as (obs & s1 & Hmn & Hstate & Hs').
    fold state0 s0 in Hmn, Hstate, Hs'.
    eexists obs, s1, _. split; [exact Hmn |]. split; [exact Hstate |].
    cbn [FullyAdaptiveLion.exp_avg FullyAdaptiveLion.outlier_timestamp].
    split; [reflexivity |]. split; [reflexivity |]. exact Hs'.
  - intros self closure s loss self' s' gs1 group gs2 ps1 p ps2
      Hstep Hgroups Hfilter Hps2 Hgs2 loop s_c start.
    unfold FullyAdaptiveLion.step in Hstep.
    subst start s_c.
    destruct (call_closure closure s) as [loss0 s_c]. cbn [snd].
    fold loop in Hstep.
    set (start :=
           ({| FullyAdaptiveLion.tmp_param_init_norm := [];
               FullyAdaptiveLion.tmp_param_current_norm := [];
               FullyAdaptiveLion.states := FullyAdaptiveLion.state self |},
            s_c)) in *.
    destruct (for_each loop (FullyAdaptiveLion.param_groups self) start)
      as [[loc_n s_n] |] eqn:Hmain; [| discriminate].
    destruct (for_each
                (FullyAdaptiveLion.reduce_init_norm
                   (FullyAdaptiveLion.tmp_param_init_norm loc_n))
                (keys (FullyAdaptiveLion.tmp_param_init_norm loc_n))
                (FullyAdaptiveLion.param_init_norm self, s_n))
      as [[init' s2] |] eqn:HloopB; [| discriminate].
    destruct (for_each FullyAdaptiveLion.reduce_current_norm
                (keys (FullyAdaptiveLion.tmp_param_current_norm loc_n))
                (FullyAdaptiveLion.tmp_param_current_norm loc_n, s2))
      as [[cur' s3] |] eqn:HloopC; [| discriminate].
    destruct (for_each (FullyAdaptiveLion.derive_wd_scaling init' cur')
                (keys cur') (FullyAdaptiveLion.param_wd_scaling self))
      as [wd' |] eqn:HloopD; [| discriminate].
    inversion Hstep; subst loss self' s'; clear Hstep.
    cbn [FullyAdaptiveLion.param_init_norm FullyAdaptiveLion.param_wd_scaling].
    (* locate the body of [p] in the main loop *)
    pose proof Hmain as Hsplit.
    rewrite Hgroups, for_each_app in Hsplit.
    destruct (for_each loop gs1 start) as [[loc1 s1] |] eqn:Hgs1;
      [| discriminate].
    cbn [for_each] in Hsplit.
    destruct (loop group (loc1, s1)) as [[loc2 s2'] |] eqn:Hgroup;
      [| discriminate].
    pose proof Hgroup as Hgroup'. unfold loop in Hgroup'.
    rewrite Hfilter, for_each_app in Hgroup'.
    destruct (for_each (FullyAdaptiveLion.step_param self group) ps1 (loc1, s1))
      as [[loc_b s_b] |] eqn:Hps1; [| discriminate].
    cbn [for_each] in Hgroup'.
    destruct (FullyAdaptiveLion.step_param self group p (loc_b, s_b))
      as [[loc_a s_a] |] eqn:Hbody; [| discriminate].
    (* the local dictionaries stay well-formed *)
    assert (Hok0 : locals_ok self (fst start)).
    { unfold locals_ok. cbn. repeat split; try constructor. intros k []. }
    pose proof (proj1 (fully_outer_keeps self (data p) _ _ _ _ _ Hgs1) Hok0)
      as Hok1.
    pose proof (proj1 (fully_inner_keeps self group (data p) _ _ _ _ _ Hps1)
                  Hok1) as Hokb.
    pose proof (proj1 (fully_body_keeps self group p _ _ _ _ (data p) Hbody)
                  Hokb) as Hoka.
    destruct (fully_inner_keeps self group (data p) _ _ _ _ _ Hgroup')
      as [Hok2 Hkeep2].
    destruct (fully_outer_keeps self (data p) _ _ _ _ _ Hsplit)
      as [Hokn Hkeepn].
    specialize (Hok2 Hoka). specialize (Hokn Hok2).
    destruct (Hkeep2 Hps2) as [Hcur2 Hinit2].
    destruct (Hkeepn Hgs2) as [Hcurn Hinitn].
    destruct Hokn as (Hnd_init & Hnd_cur & Hfresh).
    (* what the body of [p] recorded *)
    assert (Htrain : In p (filter trainable (FullyAdaptiveLion.params group))).
    { rewrite Hfilter. apply in_or_app. right. now left. }
    apply filter_In in Htrain. destruct Htrain as [_ Htrain].
    unfold trainable in Htrain.
    pose proof (fully_body_effect self group p _ _ _ _ Hbody) as Heff.
    destruct (grad p) as [g |]; [| discriminate].
    destruct Heff as (Hcur_a & Hinit_a & _).
    assert (Hcur : dict_get Nat.eqb (data p)
                     (FullyAdaptiveLion.tmp_param_current_norm loc_n) =
                   Some (torch.vector_norm (cell s_a (data p)) ^ 2)).
    { rewrite Hcurn, Hcur2, Hcur_a. apply rget_set_same. }
    (* the three loops after the main loop *)
    destruct (reduce_init_machine _ _ _ _ _ _ HloopB) as (HnB & HcB & HkB).
    destruct (reduce_current_machine _ _ _ _ _ HloopC) as (HnC & HcC & HkC).
    destruct (reduce_init_loop _ _ _ _ _ _ HloopB Hnd_init) as [HBin HBout].
    destruct (reduce_current_loop _ _ _ _ _ HloopC Hnd_cur)
      as (HCin & _ & HCkeys).
    destruct (derive_wd_loop _ _ _ _ _ HloopD) as [HDin _].
    assert (Hpkey : In (data p)
                      (keys (FullyAdaptiveLion.tmp_param_current_norm loc_n))).
    { apply rget_keys. eexists. exact Hcur. }
    destruct (in_split _ _ Hpkey) as (before & after & Hkeys).
    assert (Hcur' : dict_get Nat.eqb (data p) cur' =
                    Some (sqrt (reduced_value
                                  (torch.vector_norm (cell s_a (data p)) ^ 2)
                                  (calls s_n
                                   + length
                                       (keys
                                          (FullyAdaptiveLion.tmp_param_init_norm
                                             loc_n))
                                   + length before)))).
    { rewrite Hkeys in HloopC, Hnd_cur.
      destruct (reduce_current_loop_at _ _ _ _ _ _ _ HloopC Hnd_cur)
        as (v & Hv & Hd').
      assert (Hveq : v = torch.vector_norm (cell s_a (data p)) ^ 2)
        by congruence.
      subst v. rewrite Hd', HkB. do 2 f_equal.
      unfold reduced_value, collectives.
      now destruct (1 <? get_world_size)%Z. }
    rewrite <- HCkeys in Hpkey.
    destruct (HDin _ Hpkey) as (p_0 & p_t & Hp0 & Hpt & Hnz & Hwd).
    assert (Hpteq : p_t = sqrt (reduced_value
                                  (torch.vector_norm (cell s_a (data p)) ^ 2)
                                  (calls s_n
                                   + length
                                       (keys
                                          (FullyAdaptiveLion.tmp_param_init_norm
                                             loc_n))
                                   + length before))) by congruence.
    subst p_t. clear Hpt.
    exists loc1, s1, loc_b, s_b, loc_a, s_a, loc_n, s_n, p_0.
    eexists _, before, after.
    split; [reflexivity |]. split; [exact Hps1 |]. split; [exact Hbody |].
    split; [reflexivity |].
    split; [intros r _; now rewrite HcC, HcB |].
    split.
    { (* the tensor of [p] is not written after its body *)
      intros Hexists Hfree. rewrite HcC, HcB.
      destruct (outer_loop_frame fully_tensors
                  (fun x => (FullyAdaptiveLion.states (fst x), snd x))
                  FullyAdaptiveLion.params
                  (FullyAdaptiveLion.step_param self)
                  (fully_pair_frame self) gs1 start (loc1, s1) Hgs1)
        as [Hn1 Hf1].
      unfold start in Hn1, Hf1. cbn [fst snd] in Hn1, Hf1.
      destruct (Hf1 (data p) Hexists Hfree) as [Hfree1 _].
      destruct (inner_loop_frame fully_tensors
                  (fun x => (FullyAdaptiveLion.states (fst x), snd x))
                  (FullyAdaptiveLion.step_param self)
                  (fully_pair_frame self) group ps1 (loc1, s1) (loc_b, s_b)
                  Hps1) as [Hnb Hfb].
      cbn [fst snd] in Hnb, Hfb.
      destruct (Hfb (data p) ltac:(lia) Hfree1) as [Hfreeb _].
      destruct (fully_pair_frame self group p (loc_b, s_b) (loc_a, s_a) Hbody)
        as [Hna Hfa].
      cbn [fst snd] in Hna, Hfa.
      destruct (Hfa (data p) ltac:(lia) Hfreeb) as [Hfreea _].
      destruct (inner_loop_frame fully_tensors
                  (fun x => (FullyAdaptiveLion.states (fst x), snd x))
                  (FullyAdaptiveLion.step_param self)
                  (fully_pair_frame self) group ps2 (loc_a, s_a) (loc2, s2')
                  Hgroup') as [Hn2 Hf2].
      cbn [fst snd] in Hn2, Hf2.
      destruct (Hf2 (data p) ltac:(lia) Hfreea) as [Hfree2 Hcell2].
      destruct (outer_loop_frame fully_tensors
                  (fun x => (FullyAdaptiveLion.states (fst x), snd x))
                  FullyAdaptiveLion.params
                  (FullyAdaptiveLion.step_param self)
                  (fully_pair_frame self) gs2 (loc2, s2') (loc_n, s_n) Hsplit)
        as [Hnn Hfn].
      cbn [fst snd] in Hnn, Hfn.
      destruct (Hfn (data p) ltac:(lia) Hfree2) as [_ Hcelln].
      rewrite Hcelln.
      - apply Hcell2. intros q Hq Heq. now apply (Hps2 q Hq).
      - intros group' q Hg' Hq Ht Heq.
        apply (Hgs2 group' q Hg'); [| now symmetry].
        apply filter_In. now split. }
    split; [exact Hkeys |]. split; [reflexivity |].
    split; [exact Hp0 |]. split; [exact Hnz |].
    assert (Hsome : forall n0,
               FullyAdaptiveLion.param_init_norm self (data p) = Some n0 ->
               p_0 = n0).
    { intros n0 Hn0.
      assert (Hnin : ~ In (data p)
                       (keys (FullyAdaptiveLion.tmp_param_init_norm loc_n))).
      { intros Hin. apply Hfresh in Hin. congruence. }
      rewrite (HBout _ Hnin), Hn0 in Hp0. now inversion Hp0. }
    assert (Hnone : FullyAdaptiveLion.param_init_norm self (data p) = None ->
               exists before0 after0,
                 keys (FullyAdaptiveLion.tmp_param_init_norm loc_n)
                 = before0 ++ data p :: after0
                 /\ p_0 = sqrt (reduced_value
                                  (torch.vector_norm (cell s_b (data p)) ^ 2)
                                  (calls s_n + length before0))).
    { intros Hn0.
      assert (Hinit : dict_get Nat.eqb (data p)
                        (FullyAdaptiveLion.tmp_param_init_norm loc_n) =
                      Some (torch.vector_norm (cell s_b (data p)) ^ 2)).
      { rewrite Hinitn, Hinit2, Hinit_a, Hn0. apply rget_set_same. }
      assert (Hin : In (data p)
                      (keys (FullyAdaptiveLion.tmp_param_init_norm loc_n))).
      { apply rget_keys. eexists. exact Hinit. }
      destruct (in_split _ _ Hin) as (before0 & after0 & Hkeys0).
      exists before0, after0. split; [exact Hkeys0 |].
      rewrite Hkeys0 in HloopB, Hnd_init.
      destruct (reduce_init_loop_at _ _ _ _ _ _ _ _ HloopB Hnd_init)
        as (v & Hv & Hinit').
      assert (Hveq : v = torch.vector_norm (cell s_b (data p)) ^ 2)
        by congruence.
      subst v. rewrite Hinit' in Hp0. now inversion Hp0. }
    split; [exact Hsome |]. split; [exact Hnone |].
    split; [exact Hwd |].
    split; [unfold FullyAdaptiveLion.wd_scaling_of;
            cbn [FullyAdaptiveLion.param_wd_scaling]; now rewrite Hwd |].
    intros Hw. split.
    + rewrite reduced_value_single by exact Hw.
      apply sqrt_pow2, vector_norm_nonneg.
    + intros Hn0. destruct (Hnone Hn0) as (before0 & after0 & _ & ->).
      rewrite reduced_value_single by exact Hw.
      apply sqrt_pow2, vector_norm_nonneg.
  - intros self closure s loss self' s' r Hstep Hr.
    unfold FullyAdaptiveLion.step in Hstep.
    destruct (call_closure closure s) as [loss0 s_c].
    match type of Hstep with
    | match for_each ?body ?gs ?x0 with _ => _ end = _ =>
        destruct (for_each body gs x0) as [[loc_n s_n] |] eqn:Hmain;
          [| discriminate]
    end.
    destruct (for_each
                (FullyAdaptiveLion.reduce_init_norm
                   (FullyAdaptiveLion.tmp_param_init_norm loc_n))
                (keys (FullyAdaptiveLion.tmp_param_init_norm loc_n))
                (FullyAdaptiveLion.param_init_norm self, s_n))
      as [[init' s2] |] eqn:HloopB; [| discriminate].
    destruct (for_each FullyAdaptiveLion.reduce_current_norm
                (keys (FullyAdaptiveLion.tmp_param_current_norm loc_n))
                (FullyAdaptiveLion.tmp_param_current_norm loc_n, s2))
      as [[cur' s3] |] eqn:HloopC; [| discriminate].
    destruct (for_each (FullyAdaptiveLion.derive_wd_scaling init' cur')
                (keys cur') (FullyAdaptiveLion.param_wd_scaling self))
      as [wd' |] eqn:HloopD; [| discriminate].
    inversion Hstep; subst loss self' s'; clear Hstep.
    cbn [FullyAdaptiveLion.param_init_norm FullyAdaptiveLion.param_wd_scaling].
    destruct (fully_outer_keeps self r _ _ _ _ _ Hmain) as [Hokn Hkeep].
    destruct Hokn as (Hnd_init & Hnd_cur & _).
    { unfold locals_ok. cbn. repeat split; try constructor. intros k []. }
    destruct (Hkeep Hr) as [Hcur Hinit]. cbn [dict_get
      FullyAdaptiveLion.tmp_param_current_norm
      FullyAdaptiveLion.tmp_param_init_norm] in Hcur, Hinit.
    destruct (reduce_init_loop _ _ _ _ _ _ HloopB Hnd_init) as [_ HBout].
    destruct (reduce_current_loop _ _ _ _ _ HloopC Hnd_cur) as (_ & _ & HCkeys).
    destruct (derive_wd_loop _ _ _ _ _ HloopD) as [_ HDout].
    split.
    + apply HDout. rewrite HCkeys. intros Hin. apply rget_keys in Hin.
      destruct Hin as [v Hv]. congruence.
    + apply HBout. intros Hin. apply rget_keys in Hin.
      destruct Hin as [v Hv]. congruence.
  - intros params lr betas outlier_threshold timeout param_adjustment self p.
    unfold FullyAdaptiveLion.__init__, FullyAdaptiveLion.wd_scaling_of.
    destruct (Rlt_dec 0 lr); [| discriminate].
    destruct (_ && _); [| discriminate].
    cbn [instance]. intros Hself. inversion Hself; subst self.
    cbn [FullyAdaptiveLion.param_wd_scaling FullyAdaptiveLion.param_init_norm].
    repeat split; try reflexivity. intros lr'. ring.
Qed.

End Properties.

(** ** Worked inputs *)

(** A one-element parameter 1 with gradient 1/2, met for the first time by
    a SkipLion whose detector flags the observation: parameter and
    (freshly created, zero) momentum stay, the counter reads 1. *)
Lemma skip_step_policy_witness :
  let detector := scripted_detector [true] 1 in
  let p := {| data := 0%nat; grad := Some 1%nat; requires_grad := true |} in
  let group :=
    {| params := [p]; lr := 1 / 10; betas := (9 / 10, 99 / 100);
       weight_decay := 0; initial_lr := 1 / 10 |} in
  let self :=
    {| SkipLion.param_groups := [group]; SkipLion.state := fun _ => None;
       SkipLion.outlier_threshold := 10 |} in
  let s := machine_of [[1]; [1 / 2]] in
  exists st' s',
    @SkipLion.step_param scripted detector single_worker self group p
      (fun _ => None, s) = Some (st', s')
    /\ cell s' 0%nat = [1]
    /\ cell s' 2%nat = [0]
    /\ item (cell s' 3%nat) = 0 + 1.
Proof.
  intros detector p group self s.
  destruct (@skip_step_policy scripted detector single_worker self group p
              1%nat (fun _ => None) s)
    as (obs & s1 & st' & s' & state' & _ & Hstep & _ & _ & _ & _ & _ & Hflag & _).
  - reflexivity.
  - simpl; lia.
  - simpl; lia.
  - simpl; lia.
  - reflexivity.
  - intros state Habs; discriminate Habs.
  - left. simpl. lia.
  - exists st', s'. split; [exact Hstep |].
    destruct (Hflag eq_refl) as (Hp & Hm & Hc). 
    split; [exact Hp |]. split; [exact Hm | exact Hc].
Defined.


(** The claim of the specification asks for the sibling norms to be in the
    map, not for their position.  In this map the cosine key comes first:
    [pre_reduce_metrics] sorts the norms to the front and multiplies the
    cosine 1 by the norms 2 and 3, but [dist_reduce_metrics] walks the map
    in its own order, meets the cosine before the norms are square-rooted
    and divides 6 by the squared norms 4 and 9. *)
Lemma metrics_round_trip_counterexample :
  let m : metric_map :=
    [("cosine/a_b/l"%string, 1); ("l2_norm/a/l"%string, 2);
     ("l2_norm/b/l"%string, 3)] in
  exists m1 m2,
    SkipLion.pre_reduce_metrics m = Some m1
    /\ @SkipLion.dist_reduce_metrics single_worker m1 (machine_of []) =
         Some (m2, machine_of [])
    /\ metric_get "l2_norm/a/l" m = Some 2
    /\ metric_get "l2_norm/b/l" m = Some 3
    /\ metric_get "cosine/a_b/l" m = Some 1
    /\ metric_get "cosine/a_b/l" m2 = Some (1 / 6)
    /\ 1 / 6 <> 1.
Proof.
  intros m.
  exists [("cosine/a_b/l"%string, 1 * (2 * 3)); ("l2_norm/a/l"%string, 2 ^ 2);
          ("l2_norm/b/l"%string, 3 ^ 2)].
  exists [("cosine/a_b/l"%string, 1 * (2 * 3) / (2 ^ 2 * 3 ^ 2));
          ("l2_norm/a/l"%string, 2); ("l2_norm/b/l"%string, 3)].
  split; [| split; [| split; [| split; [| split; [| split]]]]].
  - unfold SkipLion.pre_reduce_metrics.
    set (ks := sorted _ _). vm_compute in ks. subst ks.
    cbn [for_each].
    rewrite (pre_reduce_metric_l2 "l2_norm/a/l" m 2) by reflexivity.
    rewrite (pre_reduce_metric_l2 "l2_norm/b/l" _ 3) by reflexivity.
    rewrite (pre_reduce_metric_cosine "cosine/a_b/l" _ "a" "b" "l" 2 3 1)
      by (reflexivity || lra).
    reflexivity.
  - unfold SkipLion.dist_reduce_metrics. cbn [keys map fst for_each].
    rewrite (@dist_reduce_metric_cosine single_worker "cosine/a_b/l" _
               "a" "b" "l" (2 ^ 2) (3 ^ 2) (1 * (2 * 3)))
      by (reflexivity || (cbn; lia)).
    rewrite (@dist_reduce_metric_l2 single_worker "l2_norm/a/l" _ 2)
      by (reflexivity || lra || (cbn; lia)).
    rewrite (@dist_reduce_metric_l2 single_worker "l2_norm/b/l" _ 3)
      by (reflexivity || lra || (cbn; lia)).
    reflexivity.
  - reflexivity.
  - reflexivity.
  - reflexivity.
  - cbn [metric_get dict_get]. 
    replace (1 * (2 * 3) / (2 ^ 2 * 3 ^ 2)) with (1 / 6) by (simpl; field).
    reflexivity.
  - lra.
Qed.

(** AdaBetaLion built with [increase = True], on the same parameter, with
    a detector that flags the first observation: the window holds step 0,
    so the update runs with the betas moved half-way to 1. *)
Lemma adabeta_adapted_betas_witness :
  let detector := scripted_detector [true] 1 in
  let p := {| data := 0%nat; grad := Some 1%nat; requires_grad := true |} in
  let group :=
    {| params := [p]; lr := 1 / 10; betas := (9 / 10, 99 / 100);
       weight_decay := 0; initial_lr := 1 / 10 |} in
  let self :=
    {| AdaBetaLion.param_groups := [group];
       AdaBetaLion.state := fun _ => None;
       AdaBetaLion.outlier_threshold := 10;
       AdaBetaLion.increase := true;
       AdaBetaLion.timeout := 50 |} in
  let s := machine_of [[1]; [1 / 2]] in
  exists st' s' s1 state',
    @AdaBetaLion.step_param scripted detector single_worker self group p
      (fun _ => None, s) = Some (st', s')
    /\ st' 0%nat = Some state'
    /\ AdaBetaLion.outlier_timestamp state' = [0%Z]
    /\ s' = lionw 0%nat 1%nat 2%nat (1 / 10) (1 / 10) 0
              (1 - (1 - 9 / 10) * (1 / 2) ^ 1)
              (1 - (1 - 99 / 100) * (1 / 2) ^ 1) s1.
Proof.
  intros detector p group self s.
  destruct (@adabeta_adapted_betas scripted detector single_worker self group p
              1%nat (fun _ => None) s)
    as (obs & s1 & st' & s' & state' & _ & Hstep & Hstate & Hwin & Hs' & _).
  - reflexivity.
  - simpl; lia.
  - simpl; lia.
  - simpl; lia.
  - reflexivity.
  - intros state Habs; discriminate Habs.
  - left. simpl. lia.
  - exists st', s', s1, state'.
    split; [exact Hstep |]. split; [exact Hstate |].
    split; [exact Hwin |]. rewrite Hwin in Hs'. exact Hs'.
Defined.

(** FullyAdaptiveLion with [param_adjustment = 1/2] on the same parameter,
    the first observation flagged: [lr] and [beta1] are halved, [beta2]
    is the configured [beta1] quartered, and the weight decay is 0. *)
Lemma fully_adaptive_adjustment_witness :
  let detector := scripted_detector [true] 1 in
  let p := {| data := 0%nat; grad := Some 1%nat; requires_grad := true |} in
  let group :=
    {| FullyAdaptiveLion.params := [p]; FullyAdaptiveLion.lr := 1 / 10;
       FullyAdaptiveLion.betas := (9 / 10, 99 / 100);
       FullyAdaptiveLion.initial_lr := 1 / 10 |} in
  let self :=
    {| FullyAdaptiveLion.param_groups := [group];
       FullyAdaptiveLion.state := fun _ => None;
       FullyAdaptiveLion.outlier_threshold := 15 / 2;
       FullyAdaptiveLion.timeout := 20;
       FullyAdaptiveLion.param_adjustment := 1 / 2;
       FullyAdaptiveLion.param_init_norm := fun _ => None;
       FullyAdaptiveLion.param_wd_scaling := fun _ => None |} in
  let loc :=
    {| FullyAdaptiveLion.tmp_param_init_norm := [];
       FullyAdaptiveLion.tmp_param_current_norm := [];
       FullyAdaptiveLion.states := fun _ => None |} in
  let s := machine_of [[1]; [1 / 2]] in
  exists loc' s' s1 state',
    @FullyAdaptiveLion.step_param scripted detector single_worker self group p
      (loc, s) = Some (loc', s')
    /\ FullyAdaptiveLion.states loc' 0%nat = Some state'
    /\ FullyAdaptiveLion.outlier_timestamp state' = [0%Z]
    /\ s' = lionw 0%nat 1%nat 2%nat (1 / 10 * (1 / 2) ^ 1) (1 / 10)
              (1 / 10 * (1 / 2) ^ 1 * 0)
              (9 / 10 * (1 / 2) ^ 1) (9 / 10 * (1 / 2) ^ (2 * 1)) s1.
Proof.
  intros detector p group self loc s.
  destruct (@fully_adaptive_adjustment scripted detector single_worker self
              group p 1%nat loc s)
    as (obs & s1 & loc' & s' & state' & _ & Hstep & Hstate & Hwin & _ & Hs' & _).
  - reflexivity.
  - simpl; lia.
  - simpl; lia.
  - simpl; lia.
  - reflexivity.
  - intros state Habs; discriminate Habs.
  - left. simpl. lia.
  - exists loc', s', s1, state'.
    split; [exact Hstep |]. split; [exact Hstate |].
    split; [exact Hwin |]. rewrite Hwin in Hs'. exact Hs'.
Defined.

Lemma vector_norm_3_4 : torch.vector_norm [3; 4] = 5.
Proof.
  unfold torch.vector_norm. simpl.
  replace (3 * 3 + (4 * 4 + 0)) with (5 * 5) by lra.
  apply sqrt_square. lra.
Qed.

(** ClipLion with threshold 5 on a parameter with gradient [3; 4], with
    a detector that flags the observation and reports the slow average
    2: the counter reads 1, the gradient tensor is as it was, and the
    gradient handed to the update has norm 2 * 5. *)
Lemma clip_step_flagged_witness :
  let detector := scripted_detector [true] 2 in
  let p := {| data := 0%nat; grad := Some 1%nat; requires_grad := true |} in
  let group :=
    {| params := [p]; lr := 1 / 10; betas := (9 / 10, 99 / 100);
       weight_decay := 0; initial_lr := 1 / 10 |} in
  let self :=
    {| ClipLion.param_groups := [group]; ClipLion.state := fun _ => None;
       ClipLion.outlier_threshold := 5 |} in
  let s := machine_of [[1; 1]; [3; 4]] in
  exists st' s',
    @ClipLion.step_param scripted detector single_worker self group p
      (fun _ => None, s) = Some (st', s')
    /\ item (cell s' 3%nat) = 0 + 1
    /\ cell s' 1%nat = [3; 4]
    /\ torch.vector_norm
         (map (fun x => x / torch.vector_norm [3; 4] * (2 * 5)) [3; 4])
       = 2 * 5.
Proof.
  intros detector p group self s.
  destruct (@clip_step_flagged scripted detector single_worker self group p
              1%nat (fun _ => None) s)
    as (grad_norm & s1 & st' & s' & state' & _ & Hstep & _ & _ & Hflag).
  - reflexivity.
  - simpl; lia.
  - simpl; lia.
  - simpl; lia.
  - reflexivity.
  - intros state Habs; discriminate Habs.
  - left. simpl. lia.
  - destruct (Hflag eq_refl) as (Hcount & _ & _ & _ & Hgrad & Hsingle).
    destruct Hsingle as (Hnorm & _ & Hmag).
    + simpl. lia.
    + change (cell s 1%nat) with [3; 4]. rewrite vector_norm_3_4. lra.
    + destruct Hmag as (Hmag & _).
      * simpl. lra.
      * exists st', s'. split; [exact Hstep |]. split; [exact Hcount |].
        split; [exact Hgrad |]. rewrite Hnorm in Hmag. exact Hmag.
Defined.

(** The map of the counterexample in the order in which
    [report_per_parameter_metrics] fills it, norms first: the round trip
    returns it. *)
Lemma metrics_round_trip_witness :
  let m : metric_map :=
    [("l2_norm/a/l"%string, 2); ("l2_norm/b/l"%string, 3);
     ("cosine/a_b/l"%string, 1)] in
  exists m1,
    SkipLion.pre_reduce_metrics m = Some m1
    /\ @SkipLion.dist_reduce_metrics single_worker m1 (machine_of []) =
         Some (m, machine_of []).
Proof.
  intros m.
  destruct (@metrics_round_trip single_worker m (machine_of []))
    as (m1 & Hpre & _ & Hdist).
  - reflexivity.
  - unfold well_keyed. simpl.
    repeat constructor; simpl; intuition discriminate.
  - intros metric v Hin _. simpl in Hin.
    destruct Hin as [Hin | [Hin | [Hin | []]]]; inversion Hin; lra.
  - intros before metric v after Hm Hl2 Hcos.
    destruct before as [|e1 [|e2 [|e3 [|e4 before]]]];
      inversion Hm; subst; try discriminate Hl2.
    exists "a"%string, "b"%string, "l"%string, 2, 3.
    repeat split; try reflexivity; lra.
  - exists m1. split; [exact Hpre | exact Hdist].
Defined.

(** A window with timeout 2: flagged at step 0, then four quiet steps. *)
Lemma outlier_window_bounded_witness :
  snd (window_run 2 ([true; false] ++ repeat false 3) (0%Z, [])) = [].
Proof.
  apply (proj1 (proj2 (proj2 (proj2 (proj2
           (@outlier_window_bounded scripted (scripted_detector [] 0)
              single_worker)))))).
  - constructor.
  - lia.
  - lia.
Defined.

(** A weight decay of 1/100 is accepted with a warning; a negative
    learning rate is not accepted. *)
Lemma constructor_validation_witness :
  (exists opt,
      instance (@SkipLion.__init__ scripted [] (1 / 10) (9 / 10, 99 / 100)
                  (1 / 100) 10) = Some opt)
  /\ logged (@SkipLion.__init__ scripted [] (1 / 10) (9 / 10, 99 / 100)
               (1 / 100) 10)
     = [high_weight_decay_warning (1 / 100) (1 - 1 / 100)]
  /\ instance (@SkipLion.__init__ scripted [] (-1) (9 / 10, 99 / 100)
                 (1 / 100) 10) = None.
Proof.
  destruct (@constructor_validation scripted [] (1 / 10) (9 / 10, 99 / 100)
              (1 / 100) 10 true 50 (707 / 1000) (1 / 10000) (1 / 2))
    as (_ & Hwarn & _).
  destruct (@constructor_validation scripted [] (-1) (9 / 10, 99 / 100)
              (1 / 100) 10 true 50 (707 / 1000) (1 / 10000) (1 / 2))
    as (Hfail & _).
  destruct Hwarn as (Hs & Hl & _); simpl; try lra.
  destruct Hfail as (Hn & _); [left; lra |].
  split; [exact Hs |]. split; [exact Hl | exact Hn].
Defined.

(** Reporting on a parameter that a SkipLion has stepped once: the call
    returns and the four tensors are as they were. *)
Lemma report_is_read_only_witness :
  let p := {| data := 0%nat; grad := Some 1%nat; requires_grad := true |} in
  let group :=
    {| params := [p]; lr := 1 / 10; betas := (9 / 10, 99 / 100);
       weight_decay := 0; initial_lr := 1 / 10 |} in
  let state :=
    {| SkipLion.exp_avg := 2%nat;
       SkipLion.moment_tracker := {| script := []; slow_mva := 1 |};
       SkipLion.skipped_batches := 3%nat |} in
  let self :=
    {| SkipLion.param_groups := [group];
       SkipLion.state := fun r => if Nat.eqb r 0 then Some state else None;
       SkipLion.outlier_threshold := 10 |} in
  let s := machine_of [[1]; [1 / 2]; [1 / 200]; [0]] in
  exists om' s',
    @SkipLion.report_per_parameter_metrics scripted plain_cosine self p
      "w" [] s = Some (om', s')
    /\ cell s' 0%nat = [1] /\ cell s' 1%nat = [1 / 2]
    /\ cell s' 2%nat = [1 / 200] /\ cell s' 3%nat = [0]
    /\ metric_get "skipped_batches/w" om' = Some 0.
Proof.
  intros p group state self s.
  destruct (@report_is_read_only scripted plain_cosine self p "w" [] s)
    as [Hframe Htotal].
  destruct (Htotal group [] state 1%nat eq_refl eq_refl eq_refl)
    as (om' & s' & Hrun).
  destruct (Hframe om' s' Hrun) as (Hcells & _ & _ & _ & _ & Hstate).
  destruct (Hstate state eq_refl) as [_ Hcount].
  exists om', s'. split; [exact Hrun |].
  rewrite !Hcells by (simpl; lia).
  repeat split; try reflexivity.
  etransitivity; [exact Hcount |].
  now rewrite Hcells by (simpl; lia).
Defined.

(** A FullyAdaptiveLion holding neither scaling nor initial norm steps a
    parameter [3; 4] for the first time: this step uses weight decay
    [lr' * 0], and leaves for the next the scaling [(p_t - p_0) / p_0]
    of the norm [p_0] of [3; 4] and the norm [p_t] of the parameter as
    the step returns it. *)
Lemma fully_adaptive_weight_decay_witness :
  let detector := scripted_detector [false] 1 in
  let p := {| data := 0%nat; grad := Some 1%nat; requires_grad := true |} in
  let group :=
    {| FullyAdaptiveLion.params := [p]; FullyAdaptiveLion.lr := 1 / 10;
       FullyAdaptiveLion.betas := (9 / 10, 99 / 100);
       FullyAdaptiveLion.initial_lr := 1 / 10 |} in
  let self :=
    {| FullyAdaptiveLion.param_groups := [group];
       FullyAdaptiveLion.state := fun _ => None;
       FullyAdaptiveLion.outlier_threshold := 15 / 2;
       FullyAdaptiveLion.timeout := 20;
       FullyAdaptiveLion.param_adjustment := 1 / 2;
       FullyAdaptiveLion.param_init_norm := fun _ => None;
       FullyAdaptiveLion.param_wd_scaling := fun _ => None |} in
  let s := machine_of [[3; 4]; [1; 1]] in
  exists loss self' s' p_0 p_t,
    @FullyAdaptiveLion.step scripted detector single_worker self None s
      = Some (loss, self', s')
    /\ FullyAdaptiveLion.wd_scaling_of self p = 0
    /\ FullyAdaptiveLion.param_init_norm self' 0%nat = Some p_0
    /\ p_0 = torch.vector_norm [3; 4]
    /\ p_t = torch.vector_norm (cell s' 0%nat)
    /\ FullyAdaptiveLion.param_wd_scaling self' 0%nat
         = Some ((p_t - p_0) / p_0)
    /\ FullyAdaptiveLion.wd_scaling_of self' p = (p_t - p_0) / p_0.
Proof.
  intros detector p group self s.
  destruct (@fully_step_single scripted detector single_worker self None s
              group p 1%nat eq_refl eq_refl eq_refl)
    as [[[loss self'] s'] Hstep].
  - simpl. lia.
  - change (torch.vector_norm [3; 4] <> 0). rewrite vector_norm_3_4. lra.
  - destruct (proj1 (proj2 (@fully_adaptive_weight_decay scripted detector
                              single_worker))
                self None s loss self' s' [] group [] [] p [] Hstep
                eq_refl eq_refl)
      as (loc1 & s1 & loc_b & s_b & loc_a & s_a & loc_n & s_n & p_0 & p_t
          & before & after & Hgs1 & Hps1 & _ & _ & _ & Hcell & _ & _
          & Hp0 & _ & _ & _ & Hwd & Hnext & Hsingle).
    + intros q [].
    + intros group' q [].
    + cbn [for_each] in Hgs1, Hps1.
      inversion Hgs1; subst loc1 s1. inversion Hps1; subst loc_b s_b.
      destruct Hsingle as [Hpt Hinit]; [simpl; lia |].
      exists loss, self', s', p_0, p_t.
      split; [exact Hstep |]. split; [reflexivity |].
      split; [exact Hp0 |]. split; [exact (Hinit eq_refl) |].
      split; [| split; [exact Hwd | exact Hnext]].
      rewrite Hpt. f_equal. symmetry. apply Hcell.
      * simpl. lia.
      * intros (q & state & Hstate & _). discriminate Hstate.
Defined.

(** The update of the first worked input again: both elements of the
    parameter [1; -2] keep their distance to the old value within
    [lr = 1/10]. *)
Lemma lionw_moves_by_lr_witness :
  let s := machine_of [[1; -2]; [1 / 2; 0]; [0; 0]] in
  let s' := lionw 0%nat 1%nat 2%nat (1 / 10) (1 / 10) 0 (9 / 10) (99 / 100) s in
  length (cell s' 0%nat) = 2%nat
  /\ Rabs (nth 0 (cell s' 0%nat) 0 - 1) <= Rabs (1 / 10)
  /\ Rabs (nth 1 (cell s' 0%nat) 0 - -2) <= Rabs (1 / 10).
Proof.
  intros s s'.
  destruct (lionw_moves_by_lr 0%nat 1%nat 2%nat (1 / 10) (1 / 10) 0 (9 / 10)
              (99 / 100) s
              ltac:(lia) ltac:(lia) ltac:(simpl; lia) ltac:(simpl; lia)
              ltac:(simpl; lia) ltac:(reflexivity) ltac:(reflexivity))
    as [Hlen Hmove].
  fold s' in Hlen, Hmove.
  split; [exact Hlen |]. split.
  - exact (proj2 (Hmove 0%nat ltac:(simpl; lia)) eq_refl).
  - exact (proj2 (Hmove 1%nat ltac:(simpl; lia)) eq_refl).
Defined.

(** A SkipLion meets a one-element parameter 1 with gradient 1/2 for the
    first time, with a detector that does not flag the observation: the
    parameter moves by [lr] against the sign of the gradient and the
    momentum becomes [(1 - beta2) * 1/2]. *)
Lemma skip_first_step_witness :
  let detector := scripted_detector [false] 1 in
  let p := {| data := 0%nat; grad := Some 1%nat; requires_grad := true |} in
  let group :=
    {| params := [p]; lr := 1 / 10; betas := (9 / 10, 99 / 100);
       weight_decay := 0; initial_lr := 1 / 10 |} in
  let self :=
    {| SkipLion.param_groups := [group]; SkipLion.state := fun _ => None;
       SkipLion.outlier_threshold := 10 |} in
  let s := machine_of [[1]; [1 / 2]] in
  exists st' s' state',
    @SkipLion.step_param scripted detector single_worker self group p
      (fun _ => None, s) = Some (st', s')
    /\ st' 0%nat = Some state'
    /\ cell s' 0%nat = [1 * 1 - 1 / 10 * sign_val (1 / 2)]
    /\ cell s' (SkipLion.exp_avg state') = [(1 - 99 / 100) * (1 / 2)].
Proof.
  intros detector p group self s.
  destruct (@skip_first_step scripted detector single_worker self group p
              1%nat (fun _ => None) s)
    as (st' & s' & state' & Hstep & Hstate & _ & _ & Hquiet).
  - reflexivity.
  - simpl; lia.
  - simpl; lia.
  - simpl; lia.
  - reflexivity.
  - reflexivity.
  - simpl; lia.
  - destruct (Hquiet eq_refl) as (_ & Hp & Hm & _).
    exists st', s', state'. split; [exact Hstep |]. split; [exact Hstate |].
    split; [| exact Hm].
    etransitivity; [exact (Hp ltac:(simpl; lra)) |]. simpl.
    destruct (Req_dec_T 0 0) as [_ | Hne]; [reflexivity | now contradiction Hne].
Defined.

(** ClipLion on a parameter with gradient [3; 4] and a detector that
    does not flag the observation: the counter stays 0, the gradient is
    used as it is, and only the temporary of [lionw] is allocated after
    the two tensors of the new state. *)
Lemma clip_step_unflagged_witness :
  let detector := scripted_detector [false] 2 in
  let p := {| data := 0%nat; grad := Some 1%nat; requires_grad := true |} in
  let group :=
    {| params := [p]; lr := 1 / 10; betas := (9 / 10, 99 / 100);
       weight_decay := 0; initial_lr := 1 / 10 |} in
  let self :=
    {| ClipLion.param_groups := [group]; ClipLion.state := fun _ => None;
       ClipLion.outlier_threshold := 5 |} in
  let s := machine_of [[1; 1]; [3; 4]] in
  exists st' s',
    @ClipLion.step_param scripted detector single_worker self group p
      (fun _ => None, s) = Some (st', s')
    /\ cell s' 3%nat = [0]
    /\ cell s' 1%nat = [3; 4]
    /\ next_ref s' = 5%nat.
Proof.
  intros detector p group self s.
  destruct (@clip_step_unflagged scripted detector single_worker self group p
              1%nat (fun _ => None) s)
    as (grad_norm & s1 & st' & s' & state' & _ & Hstep & _ & _ & Hquiet).
  - reflexivity.
  - simpl; lia.
  - simpl; lia.
  - simpl; lia.
  - reflexivity.
  - intros state Habs; discriminate Habs.
  - left. simpl. lia.
  - destruct (Hquiet eq_refl) as (_ & Hnext & Hcount & Hgrad & _).
    exists st', s'. split; [exact Hstep |].
    split; [exact Hcount |]. split; [exact Hgrad | exact Hnext].
Defined.

(** AdaLRLion with penalty 1/2 and floor 1/10000 on the same parameter,
    the first observation flagged: the window holds step 0 and the
    update runs with the learning rate [1/10 * max (1/10000, (1/2) ^ 1)]. *)
Lemma adalr_adapted_lr_witness :
  let detector := scripted_detector [true] 1 in
  let p := {| data := 0%nat; grad := Some 1%nat; requires_grad := true |} in
  let group :=
    {| params := [p]; lr := 1 / 10; betas := (9 / 10, 99 / 100);
       weight_decay := 0; initial_lr := 1 / 10 |} in
  let self :=
    {| AdaLRLion.param_groups := [group];
       AdaLRLion.state := fun _ => None;
       AdaLRLion.outlier_threshold := 10;
       AdaLRLion.timeout := 100;
       AdaLRLion.lr_penalty := 1 / 2;
       AdaLRLion.min_scale := 1 / 10000 |} in
  let s := machine_of [[1]; [1 / 2]] in
  exists st' s' s1 state',
    @AdaLRLion.step_param scripted detector single_worker self group p
      (fun _ => None, s) = Some (st', s')
    /\ st' 0%nat = Some state'
    /\ AdaLRLion.outlier_timestamp state' = [0%Z]
    /\ AdaLRLion.step_count state' = 1%Z
    /\ s' = lionw 0%nat 1%nat 2%nat
              (1 / 10 * Rmax (1 / 10000) ((1 / 2) ^ 1)) (1 / 10) 0
              (9 / 10) (99 / 100) s1.
Proof.
  intros detector p group self s.
  destruct (@adalr_adapted_lr scripted detector single_worker self group p
              1%nat (fun _ => None) s)
    as (obs & s1 & st' & s' & state' & _ & Hstep & Hstate & Hcount & Hwin
        & Hs' & _).
  - reflexivity.
  - simpl; lia.
  - simpl; lia.
  - simpl; lia.
  - reflexivity.
  - intros state Habs; discriminate Habs.
  - left. simpl. lia.
  - exists st', s', s1, state'.
    split; [exact Hstep |]. split; [exact Hstate |].
    split; [exact Hwin |]. split; [exact Hcount |].
    rewrite Hwin in Hs'. exact Hs'.
Defined.


(** A FullyAdaptiveLion steps a parameter [3; 4] with gradient [1; 1]:
    the step returns and the tensor of the gradient holds what it held. *)
Lemma fully_step_frame_witness :
  let detector := scripted_detector [false] 1 in
  let p := {| data := 0%nat; grad := Some 1%nat; requires_grad := true |} in
  let group :=
    {| FullyAdaptiveLion.params := [p]; FullyAdaptiveLion.lr := 1 / 10;
       FullyAdaptiveLion.betas := (9 / 10, 99 / 100);
       FullyAdaptiveLion.initial_lr := 1 / 10 |} in
  let self :=
    {| FullyAdaptiveLion.param_groups := [group];
       FullyAdaptiveLion.state := fun _ => None;
       FullyAdaptiveLion.outlier_threshold := 15 / 2;
       FullyAdaptiveLion.timeout := 20;
       FullyAdaptiveLion.param_adjustment := 1 / 2;
       FullyAdaptiveLion.param_init_norm := fun _ => None;
       FullyAdaptiveLion.param_wd_scaling := fun _ => None |} in
  let s := machine_of [[3; 4]; [1; 1]] in
  exists loss self' s',
    @FullyAdaptiveLion.step scripted detector single_worker self None s
      = Some (loss, self', s')
    /\ loss = None
    /\ cell s' 1%nat = [1; 1].
Proof.
  intros detector p group self s.
  destruct (@fully_step_single scripted detector single_worker self None s
              group p 1%nat eq_refl eq_refl eq_refl)
    as [[[loss self'] s'] Hstep].
  - simpl. lia.
  - change (torch.vector_norm [3; 4] <> 0). rewrite vector_norm_3_4. lra.
  - destruct (@fully_step_frame scripted detector single_worker self None s
                loss self' s' Hstep) as (Hloss & _ & _ & Hframe & _).
    exists loss, self', s'. split; [exact Hstep |]. split; [exact Hloss |].
    apply (Hframe 1%nat).
    + simpl. lia.
    + intros (q & state & Habs & _). discriminate Habs.
    + intros group' q [<- | []] [<- | []] _. simpl. lia.
Defined.

(** The same step, for a single worker: no collective call is made. *)
Lemma fully_step_collectives_witness :
  let detector := scripted_detector [false] 1 in
  let p := {| data := 0%nat; grad := Some 1%nat; requires_grad := true |} in
  let group :=
    {| FullyAdaptiveLion.params := [p]; FullyAdaptiveLion.lr := 1 / 10;
       FullyAdaptiveLion.betas := (9 / 10, 99 / 100);
       FullyAdaptiveLion.initial_lr := 1 / 10 |} in
  let self :=
    {| FullyAdaptiveLion.param_groups := [group];
       FullyAdaptiveLion.state := fun _ => None;
       FullyAdaptiveLion.outlier_threshold := 15 / 2;
       FullyAdaptiveLion.timeout := 20;
       FullyAdaptiveLion.param_adjustment := 1 / 2;
       FullyAdaptiveLion.param_init_norm := fun _ => None;
       FullyAdaptiveLion.param_wd_scaling := fun _ => None |} in
  let s := machine_of [[3; 4]; [1; 1]] in
  exists loss self' s',
    @FullyAdaptiveLion.step scripted detector single_worker self None s
      = Some (loss, self', s')
    /\ calls s' = 0%nat.
Proof.
  intros detector p group self s.
  destruct (@fully_step_single scripted detector single_worker self None s
              group p 1%nat eq_refl eq_refl eq_refl)
    as [[[loss self'] s'] Hstep].
  - simpl. lia.
  - change (torch.vector_norm [3; 4] <> 0). rewrite vector_norm_3_4. lra.
  - exists loss, self', s'. split; [exact Hstep |].
    rewrite (@fully_step_collectives scripted detector single_worker self
               None s loss self' s'); [reflexivity | | exact Hstep].
    simpl. repeat constructor. simpl. tauto.
Defined.

(** The map of the round trip, through the loops of FullyAdaptiveLion. *)
Lemma variants_round_trip_witness :
  let m : metric_map :=
    [("l2_norm/a/l"%string, 2); ("l2_norm/b/l"%string, 3);
     ("cosine/a_b/l"%string, 1)] in
  exists m1,
    FullyAdaptiveLion.pre_reduce_metrics m = Some m1
    /\ @FullyAdaptiveLion.dist_reduce_metrics single_worker m1 (machine_of [])
       = Some (m, machine_of []).
Proof.
  intros m.
  destruct (@variants_round_trip single_worker m (machine_of []) eq_refl)
    as (_ & _ & Htrip).
  destruct Htrip as (_ & _ & _ & Hfully).
  - unfold well_keyed. simpl.
    repeat constructor; simpl; intuition discriminate.
  - intros metric v Hin _. simpl in Hin.
    destruct Hin as [Hin | [Hin | [Hin | []]]]; inversion Hin; lra.
  - intros before metric v after Hm Hl2 Hcos.
    destruct before as [|e1 [|e2 [|e3 [|e4 before]]]];
      inversion Hm; subst; try discriminate Hl2.
    exists "a"%string, "b"%string, "l"%string, 2, 3.
    repeat split; try reflexivity; lra.
  - exact Hfully.
Defined.

(** A layer name with a slash gives a cosine key of four pieces: the
    reduction raises. *)
Lemma unreadable_cosine_raises_witness :
  let m : metric_map :=
    [("l2_norm/a/x/y"%string, 2); ("l2_norm/b/x/y"%string, 3);
     ("cosine/a_b/x/y"%string, 1)] in
  SkipLion.pre_reduce_metrics m = None
  /\ @SkipLion.dist_reduce_metrics single_worker m (machine_of []) = None.
Proof.
  intros m.
  destruct (@unreadable_cosine_raises single_worker m "cosine/a_b/x/y"
              (machine_of []))
    as (Hpre & Hdist & _).
  - split; [simpl; tauto |]. split; [reflexivity |]. split; [reflexivity |].
    exact I.
  - split; [exact Hpre | exact Hdist].
Defined.


(** The report for one parameter [1; -2] with gradient [1 / 2; 0] and a
    momentum of zeros, no weight decay. *)
Lemma report_contents_witness :
  let p := {| data := 0%nat; grad := Some 1%nat; requires_grad := true |} in
  let group :=
    {| params := [p]; lr := 1 / 10; betas := (9 / 10, 99 / 100);
       weight_decay := 0; initial_lr := 1 / 10 |} in
  let state :=
    {| SkipLion.exp_avg := 2%nat;
       SkipLion.moment_tracker := {| script := []; slow_mva := 1 |};
       SkipLion.skipped_batches := 3%nat |} in
  let self :=
    {| SkipLion.param_groups := [group];
       SkipLion.state := fun r => if Nat.eqb r 0 then Some state else None;
       SkipLion.outlier_threshold := 10 |} in
  let s := machine_of [[1; -2]; [1 / 2; 0]; [0; 0]; [4]] in
  exists om' s',
    @SkipLion.report_per_parameter_metrics scripted plain_cosine self p "w"%string [] s = Some (om', s')
    /\ metric_get "l2_norm/grad/w"%string om' = Some (torch.vector_norm [1 / 2; 0])
    /\ metric_get "skipped_batches/w"%string om' = Some 4.
Proof.
  intros p group state self s.
  destruct (@report_contents scripted plain_cosine
              self p "w"%string [] s group [] state 1%nat)
    as (om' & s' & Hrun & _ & _ & _ & Hgrad & _ & _ & Hcount).
  - reflexivity.
  - reflexivity.
  - reflexivity.
  - simpl; lia.
  - simpl; lia.
  - simpl; lia.
  - simpl; lia.
  - exists om', s'. split; [exact Hrun |]. split; [exact Hgrad | exact Hcount].
Defined.

(** Without weight decay the reported tensor is the step [lionw] takes. *)
Lemma report_update_vs_step_witness :
  let s := machine_of [[1; -2]; [1 / 2; 0]; [0; 0]] in
  let step_tensor := fst (torch.clone 2%nat s) in
  let reported :=
    cell
      (torch.add_ step_tensor 0%nat 0
         (torch.mul_ step_tensor (1 / 10)
            (torch.sign_ step_tensor
               (torch.lerp_ step_tensor 1%nat (1 - 9 / 10)
                  (snd (torch.clone 2%nat s))))))
      step_tensor in
  reported =
  zip_with (fun x x' => x - x') (cell s 0%nat)
    (cell (lionw 0%nat 1%nat 2%nat (1 / 10) (1 / 10) 0 (9 / 10) (99 / 100) s)
       0%nat).
Proof.
  intros s step_tensor reported.
  destruct (report_update_vs_step 0%nat 1%nat 2%nat (1 / 10) (1 / 10) 0
              (9 / 10) (99 / 100) 0 s)
    as (_ & _ & _ & Hsame).
  - discriminate.
  - discriminate.
  - simpl; lia.
  - simpl; lia.
  - simpl; lia.
  - reflexivity.
  - reflexivity.
  - destruct (Req_dec_T (1 / 10) 0); lra.
  - exact (Hsame eq_refl).
Defined.

(** Negative values under the norm keys: the pre-reduction returns and
    the cosine is scaled by the absolute values. *)
Lemma pre_reduce_values_witness :
  let m : metric_map :=
    [("l2_norm/a/l"%string, -2); ("l2_norm/b/l"%string, 3);
     ("cosine/a_b/l"%string, 1)] in
  exists m1,
    ClipLion.pre_reduce_metrics m = Some m1
    /\ metric_get "l2_norm/a/l"%string m1 = Some ((-2) ^ 2)
    /\ metric_get "cosine/a_b/l"%string m1
       = Some (pre_reduced_abs m "cosine/a_b/l"%string 1).
Proof.
  intros m.
  destruct (pre_reduce_values m) as (_ & _ & _ & Hclip & _ & Hget & Hl2 & _).
  - unfold well_keyed. simpl.
    repeat constructor; simpl; intuition discriminate.
  - intros before metric v after Hm Hn Hc.
    destruct before as [|e1 [|e2 [|e3 [|e4 before]]]];
      inversion Hm; subst; try discriminate Hn.
    exists "a"%string, "b"%string, "l"%string.
    split; [reflexivity |]. simpl. tauto.
  - eexists. split; [exact Hclip |]. split.
    + apply Hl2; reflexivity.
    + apply Hget. reflexivity.
Defined.

(** Two workers, the other one contributing 5 to every collective call:
    the loss is averaged, the counter is passed over. *)
Lemma dist_reduce_values_witness :
  let m : metric_map :=
    [("loss/train"%string, 3); ("skipped_batches/w"%string, 1)] in
  exists m' s',
    @SkipLion.dist_reduce_metrics (two_workers (fun _ => 5)) m (machine_of [])
      = Some (m', s')
    /\ metric_get "loss/train"%string m' = Some ((3 + 5) / 2)
    /\ metric_get "skipped_batches/w"%string m' = Some 1.
Proof.
  intros m.
  assert (Hkeys : well_keyed m).
  { unfold well_keyed. simpl.
    repeat constructor; simpl; intuition discriminate. }
  destruct (@dist_reduce_values (two_workers (fun _ => 5)) m (machine_of [])
              Hkeys) as (Hskip & _).
  destruct (@SkipLion.dist_reduce_metrics (two_workers (fun _ => 5)) m
              (machine_of [])) as [[m' s'] |] eqn:Hrun;
    [| discriminate Hrun].
  exists m', s'. split; [reflexivity |]. split.
  - destruct (Hskip m' s' eq_refl [] "loss/train"%string 3
                [("skipped_batches/w"%string, 1)] eq_refl)
      as (_ & _ & Havg & _).
    exact (Havg eq_refl eq_refl eq_refl).
  - destruct (Hskip m' s' eq_refl [("loss/train"%string, 3)]
                "skipped_batches/w"%string 1 [] eq_refl)
      as (_ & _ & _ & Hkeep).
    exact (Hkeep eq_refl).
Defined.

(** A layer name with a slash: the report returns, the reduction of its
    map raises. *)
Lemma report_feeds_reduction_witness :
  let p := {| data := 0%nat; grad := Some 1%nat; requires_grad := true |} in
  let group :=
    {| params := [p]; lr := 1 / 10; betas := (9 / 10, 99 / 100);
       weight_decay := 0; initial_lr := 1 / 10 |} in
  let state :=
    {| SkipLion.exp_avg := 2%nat;
       SkipLion.moment_tracker := {| script := []; slow_mva := 1 |};
       SkipLion.skipped_batches := 3%nat |} in
  let self :=
    {| SkipLion.param_groups := [group];
       SkipLion.state := fun r => if Nat.eqb r 0 then Some state else None;
       SkipLion.outlier_threshold := 10 |} in
  let s := machine_of [[1; -2]; [1 / 2; 0]; [0; 0]; [4]] in
  exists om' s',
    @SkipLion.report_per_parameter_metrics scripted plain_cosine self p
      "block/w"%string [] s = Some (om', s')
    /\ SkipLion.pre_reduce_metrics om' = None
    /\ @SkipLion.dist_reduce_metrics single_worker om' s' = None.
Proof.
  intros p group state self s.
  destruct (@report_feeds_reduction scripted single_worker plain_cosine
              self p "block/w"%string s group [] state 1%nat)
    as (om' & s' & Hrun & _ & _ & Hslash).
  - reflexivity.
  - reflexivity.
  - reflexivity.
  - destruct (Hslash eq_refl) as [Hpre Hdist].
    exists om', s'. split; [exact Hrun |]. split; [exact Hpre | exact Hdist].
Defined.

(** A first AdaLRLion step whose observation is flagged, then the
    report. *)
Lemma adalr_report_after_step_witness :
  let detector := scripted_detector [true] 1 in
  let p := {| data := 0%nat; grad := Some 1%nat; requires_grad := true |} in
  let group :=
    {| params := [p]; lr := 1 / 10; betas := (9 / 10, 99 / 100);
       weight_decay := 0; initial_lr := 1 / 10 |} in
  let self :=
    {| AdaLRLion.param_groups := [group];
       AdaLRLion.state := fun _ => None;
       AdaLRLion.outlier_threshold := 10;
       AdaLRLion.timeout := 100;
       AdaLRLion.lr_penalty := 1 / 2;
       AdaLRLion.min_scale := 1 / 100 |} in
  let s := machine_of [[1]; [1 / 2]] in
  exists st' s' om' s'' v,
    @AdaLRLion.step_param scripted detector single_worker self group p
      (fun _ => None, s) = Some (st', s')
    /\ @AdaLRLion.report_per_parameter_metrics scripted plain_cosine
         {| AdaLRLion.param_groups := [group];
            AdaLRLion.state := st';
            AdaLRLion.outlier_threshold := 10;
            AdaLRLion.timeout := 100;
            AdaLRLion.lr_penalty := 1 / 2;
            AdaLRLion.min_scale := 1 / 100 |} p "w"%string [] s'
       = Some (om', s'')
    /\ metric_get "layerwise_lr/w"%string om' = Some v.
Proof.
  intros detector p group self s.
  destruct (@adalr_report_after_step scripted detector single_worker
              plain_cosine self group [] p 1%nat (fun _ => None) s
              "w"%string [])
    as (obs & s1 & st' & s' & lr' & _ & Hstep & _ & Hreport).
  - reflexivity.
  - reflexivity.
  - left. simpl. lia.
  - destruct (Hreport s') as (om' & s'' & Hrun & Hlr).
    exists st', s', om', s'', lr'.
    split; [exact Hstep |]. split; [exact Hrun | exact Hlr].
Defined.

(** A first AdaBetaLion step whose observation is flagged, then the
    report. *)
Lemma adabeta_report_after_step_witness :
  let detector := scripted_detector [true] 1 in
  let p := {| data := 0%nat; grad := Some 1%nat; requires_grad := true |} in
  let group :=
    {| params := [p]; lr := 1 / 10; betas := (9 / 10, 99 / 100);
       weight_decay := 0; initial_lr := 1 / 10 |} in
  let self :=
    {| AdaBetaLion.param_groups := [group];
       AdaBetaLion.state := fun _ => None;
       AdaBetaLion.outlier_threshold := 10;
       AdaBetaLion.increase := false;
       AdaBetaLion.timeout := 100 |} in
  let s := machine_of [[1]; [1 / 2]] in
  exists st' s' om' s'' b1 b2,
    @AdaBetaLion.step_param scripted detector single_worker self group p
      (fun _ => None, s) = Some (st', s')
    /\ @AdaBetaLion.report_per_parameter_metrics scripted plain_cosine
         {| AdaBetaLion.param_groups := [group];
            AdaBetaLion.state := st';
            AdaBetaLion.outlier_threshold := 10;
            AdaBetaLion.increase := false;
            AdaBetaLion.timeout := 100 |} p "w"%string [] s'
       = Some (om', s'')
    /\ metric_get "betas/beta1/w"%string om' = Some b1
    /\ metric_get "betas/beta2/w"%string om' = Some b2.
Proof.
  intros detector p group self s.
  destruct (@adabeta_report_after_step scripted detector single_worker
              plain_cosine self group [] p 1%nat (fun _ => None) s
              "w"%string [])
    as (obs & s1 & st' & s' & b1 & b2 & _ & Hstep & _ & Hreport).
  - reflexivity.
  - reflexivity.
  - left. simpl. lia.
  - destruct (Hreport s') as (om' & s'' & Hrun & H1 & H2).
    exists st', s', om', s'', b1, b2.
    split; [exact Hstep |]. split; [exact Hrun |]. split; [exact H1 | exact H2].
Defined.

(** A first FullyAdaptiveLion step, then the report with no scaling
    stored yet. *)
Lemma fully_report_after_step_witness :
  let detector := scripted_detector [true] 1 in
  let p := {| data := 0%nat; grad := Some 1%nat; requires_grad := true |} in
  let group :=
    {| FullyAdaptiveLion.params := [p]; FullyAdaptiveLion.lr := 1 / 10;
       FullyAdaptiveLion.betas := (9 / 10, 99 / 100);
       FullyAdaptiveLion.initial_lr := 1 / 10 |} in
  let self :=
    {| FullyAdaptiveLion.param_groups := [group];
       FullyAdaptiveLion.state := fun _ => None;
       FullyAdaptiveLion.outlier_threshold := 10;
       FullyAdaptiveLion.timeout := 100;
       FullyAdaptiveLion.param_adjustment := 1 / 2;
       FullyAdaptiveLion.param_init_norm := fun _ => None;
       FullyAdaptiveLion.param_wd_scaling := fun _ => None |} in
  let loc :=
    {| FullyAdaptiveLion.tmp_param_init_norm := [];
       FullyAdaptiveLion.tmp_param_current_norm := [];
       FullyAdaptiveLion.states := fun _ => None |} in
  let s := machine_of [[1]; [1 / 2]] in
  exists loc' s' om' s'',
    @FullyAdaptiveLion.step_param scripted detector single_worker self group p
      (loc, s) = Some (loc', s')
    /\ @FullyAdaptiveLion.report_per_parameter_metrics scripted plain_cosine
         {| FullyAdaptiveLion.param_groups := [group];
            FullyAdaptiveLion.state := FullyAdaptiveLion.states loc';
            FullyAdaptiveLion.outlier_threshold := 10;
            FullyAdaptiveLion.timeout := 100;
            FullyAdaptiveLion.param_adjustment := 1 / 2;
            FullyAdaptiveLion.param_init_norm := fun _ => None;
            FullyAdaptiveLion.param_wd_scaling := fun _ => None |}
         p "w"%string [] s'
       = Some (om', s'')
    /\ metric_get "wd_scaling/w"%string om' = Some 0.
Proof.
  intros detector p group self loc s.
  destruct (@fully_report_after_step scripted detector single_worker
              plain_cosine self group [] p 1%nat loc s "w"%string [])
    as (obs & s1 & loc' & s' & lr' & b1 & b2 & _ & Hstep & _ & Hreport).
  - reflexivity.
  - reflexivity.
  - left. simpl. lia.
  - destruct (Hreport (fun _ => None) (fun _ => None) s')
      as (om' & s'' & Hrun & _ & _ & _ & Hwd).
    exists loc', s', om', s''.
    split; [exact Hstep |]. split; [exact Hrun | exact Hwd].
Defined.
